(** * Image-Based Relighting Framework: lighting basis, Voronoi partition
      and solid-angle integration

    Shallow embedding of [LightingBasis.cpp] (the basis, the sampling of the
    area lights, the file basis.txt), [voronoi.cpp] (the partition, the pixel
    counts, the integration of the weights), [mathsFunctions.cpp]
    ([reorientateRectangle], [rotateLatLongMap]) and
    [OfficeRoomRelighting::identifyMedianEnergy].

    Conventions.
    - [unsigned int] values live in [Z] within [0, 2^32); unsigned arithmetic
      and the conversion of an [int] operand to [unsigned int] (usual
      arithmetic conversions) are written with their wrap-around modulo 2^32.
    - [int] counters live in [Z]; signed overflow is undefined behaviour in
      C++ and is outside the model.
    - [float] values are elements of an abstract carrier with the operations
      the code applies to them ([FloatOps]); every result about accumulated
      weights holds for any carrier, IEEE single precision included, because
      model and code perform the same operations in the same order. The real
      numbers are one carrier ([idealReal]), used where a sum of sines is
      evaluated.
    - OpenCV ([Subdiv2D], [Point2i * double]) is an external library: its
      operations are fields of the class [OpenCV], and what the code relies
      on is stated as [nearest_contract].
    - an access outside a [std::vector] and an OpenCV exception are outcomes
      of their own ([OutOfBounds], [CvError]); a read outside a [cv::Mat] is
      outside the model, images being total functions of the pixel. *)

From Stdlib Require Import ZArith List Lia Bool Ascii String Reals Lra DecimalPos.
From stdpp Require Import base list.
Import ListNotations.

#[local] Open Scope Z_scope.

(** ** Machine integers *)

Definition UINT_MOD : Z := 2 ^ 32.

(** Conversion of an [int] to [unsigned int]. *)
Definition to_unsigned (x : Z) : Z := x mod UINT_MOD.

(** [x < u] with [x : int] and [u : unsigned int]: [x] is converted first. *)
Definition lt_int_uint (x u : Z) : bool := to_unsigned x <? u.

Definition INT_MAX : Z := 2 ^ 31 - 1.
Definition INT_MIN : Z := - 2 ^ 31.

(** [0 .. n-1], the values taken by a loop counter [for(k = 0 ; k<n ; k++)]. *)
Definition range (n : Z) : list Z := map Z.of_nat (seq 0 (Z.to_nat n)).

(** ** Outcomes of fallible code *)

Inductive outcome (A : Type) : Type :=
| Ok (a : A)
| CvError                 (* OpenCV raised an exception *)
| OutOfBounds (idx : Z).  (* std::vector indexed outside its size *)

Arguments Ok {A} a.
Arguments CvError {A}.
Arguments OutOfBounds {A} idx.

Definition obind {A B} (m : outcome A) (f : A -> outcome B) : outcome B :=
  match m with
  | Ok a => f a
  | CvError => CvError
  | OutOfBounds i => OutOfBounds i
  end.

#[global] Instance outcome_bind : MBind outcome := fun A B f m => obind m f.
#[global] Instance outcome_ret : MRet outcome := fun A a => Ok a.

(** A loop whose body may fail: stops at the first failure. *)
Fixpoint ofold {A St} (f : St -> A -> outcome St) (l : list A) (s : St) : outcome St :=
  match l with
  | [] => Ok s
  | a :: l' => s' ← f s a; ofold f l' s'
  end.

(** ** Points *)

Record Point2i : Type := mkPoint { px : Z; py : Z }.

Definition Point2i_eqb (p q : Point2i) : bool :=
  (px p =? px q) && (py p =? py q).

Definition Point2i_add (p q : Point2i) : Point2i :=
  mkPoint (px p + px q) (py p + py q).

(** ** The floating-point carrier *)

Class FloatOps (F : Type) : Type := {
  fzero : F;
  fadd : F -> F -> F;
  fmul : F -> F -> F;
  fdiv3 : F -> F;              (* x/3.0 *)
  fhalf : F -> F;              (* x/2.0 *)
  fgt : F -> F -> bool;        (* x > y *)
  fisnan : F -> bool;          (* isnan(x) *)
  solidAngle : Z -> Z -> F     (* sin((float) i*M_PI/H) *)
}.

(** A pixel of a [CV_32FC3] matrix, in OpenCV's BGR order:
    [val0] is blue, [val1] green, [val2] red. *)
Record Vec3f (F : Type) : Type := mkVec3f { val0 : F; val1 : F; val2 : F }.
Arguments mkVec3f {F}.
Arguments val0 {F}.
Arguments val1 {F}.
Arguments val2 {F}.

(** [cv::Mat] of type [CV_32FC3]: [mat_at m i j] is [m.at<Vec3f>(i,j)],
    row [i], column [j]. *)
Record Mat (F : Type) : Type := mkMat {
  mat_rows : Z;
  mat_cols : Z;
  mat_at : Z -> Z -> Vec3f F
}.
Arguments mkMat {F}.
Arguments mat_rows {F}.
Arguments mat_cols {F}.
Arguments mat_at {F}.

(** One entry of [m_rgbWeights]: a [vector<float>(3, 0.0)]. *)
Record RGB (F : Type) : Type := mkRGB { red : F; green : F; blue : F }.
Arguments mkRGB {F}.
Arguments red {F}.
Arguments green {F}.
Arguments blue {F}.

(** ** OpenCV *)

(** [cv_half n] is [saturate_cast<int>(n*0.5)], the coordinate of
    [Point2i * 0.5]; [subdiv_findNearest sites q] is the point
    [Subdiv2D::findNearest] writes through its result pointer when the
    subdivision holds the vertices [sites] ([None]: nothing is written). *)
Class OpenCV : Type := {
  cv_half : Z -> Z;
  subdiv_findNearest : list Point2i -> Point2i -> option Point2i
}.

(** What the code relies on: a query on a subdivision with vertices returns
    one of them. Which one, when several are equally near, is left open. *)
Definition nearest_contract (cv : OpenCV) : Prop :=
  forall sites q, sites <> [] ->
    exists p, subdiv_findNearest sites q = Some p /\ In p sites.

Definition Point2i_half {cv : OpenCV} (p : Point2i) : Point2i :=
  mkPoint (cv_half (px p)) (cv_half (py p)).

(** [cv::Subdiv2D] over the rectangle [(0,0,sub_width,sub_height)]: the
    vertices inserted so far, without repetition, in insertion order. *)
Record Subdiv2D : Type := mkSubdiv {
  sub_width : Z;
  sub_height : Z;
  sub_vertices : list Point2i
}.

Definition Subdiv2D_new (w h : Z) : Subdiv2D := mkSubdiv w h [].

(** [Subdiv2D::insert]: a point outside the rectangle raises; a point already
    present is not inserted again. *)
Definition Subdiv2D_insert (s : Subdiv2D) (p : Point2i) : outcome Subdiv2D :=
  if (0 <=? px p) && (px p <? sub_width s) && (0 <=? py p) && (py p <? sub_height s)
  then Ok (if existsb (Point2i_eqb p) (sub_vertices s) then s
           else mkSubdiv (sub_width s) (sub_height s) (sub_vertices s ++ [p]))
  else CvError.

(** ** mathsFunctions.cpp *)

Definition reorientateRectangle (startingPoint endingPoint : Point2i)
  : Point2i * Point2i :=
  if (px startingPoint <? px endingPoint) && (py startingPoint <? py endingPoint)
  then (startingPoint, endingPoint)
  else if (px startingPoint >? px endingPoint) && (py startingPoint <? py endingPoint)
  then (mkPoint (px endingPoint) (py startingPoint),
        mkPoint (px startingPoint) (py endingPoint))
  else if (px startingPoint <? px endingPoint) && (py startingPoint >? py endingPoint)
  then (mkPoint (px startingPoint) (py endingPoint),
        mkPoint (px endingPoint) (py startingPoint))
  else (mkPoint (px endingPoint) (py endingPoint),
        mkPoint (px startingPoint) (py startingPoint)).

(** [rotateLatLongMap], with [jOffset] the value of
    [floor(moduloRealNumber(offset, 2.0*M_PI)/(2.0*M_PI)*width)]; all the
    arithmetic is on [int], [%] is C's remainder. *)
Definition rotateLatLongMap {F} {fo : FloatOps F} (originalMap : Mat F) (jOffset : Z)
  : Mat F :=
  let width := mat_cols originalMap in
  let height := mat_rows originalMap in
  mkMat height width
    (fun i j =>
       if (0 <=? i) && (i <? height) && (0 <=? j) && (j <? width)
       then mat_at originalMap i (Z.rem (j + jOffset) width)
       else mkVec3f fzero fzero fzero).

(** ** LightingBasis.cpp *)

Module LightingBasis.

Record t : Type := mk {
  pointLightSourcePosition : list Point2i;
  rectanglesAreaLights : list (Point2i * Point2i);
  areAreaLightsSampled : bool;
  numberOfPointLights : Z;
  numberOfAreaLights : Z
}.

(** [LightingBasis::LightingBasis()] *)
Definition empty : t := mk [] [] false 0 0.

Definition addPointLight (lightPosition : Point2i) (b : t) : t :=
  mk (pointLightSourcePosition b ++ [lightPosition])
     (rectanglesAreaLights b) (areAreaLightsSampled b)
     (numberOfPointLights b + 1) (numberOfAreaLights b).

Definition addPointLights (lightPosition : list Point2i) (b : t) : t :=
  fold_left (fun b p => addPointLight p b) lightPosition b.

Definition addAreaLight {cv : OpenCV} (startingPoint endingPoint : Point2i) (b : t) : t :=
  let center := Point2i_half (Point2i_add startingPoint endingPoint) in
  mk (pointLightSourcePosition b ++ [center])
     (rectanglesAreaLights b ++ [(startingPoint, endingPoint)])
     (areAreaLightsSampled b)
     (numberOfPointLights b + 1) (numberOfAreaLights b + 1).

Definition addAreaLights {cv : OpenCV} (areaLights : list (Point2i * Point2i)) (b : t) : t :=
  fold_left (fun b r => addAreaLight (fst r) (snd r) b) areaLights b.

Definition clearBasis (b : t) : t := empty.

Definition numberOfPixelsBetweenSamples : Z := 25.

(** The body of the loop on [l]: the state is the basis and [positionX],
    which only advances when the sample was inside the map. *)
Definition sampleColumn (envMapWidth envMapHeight positionY stepWidth : Z)
    (st : t * Z) (l : Z) : t * Z :=
  let '(b, positionX) := st in
  if lt_int_uint positionX envMapWidth && lt_int_uint positionY envMapHeight
  then (addPointLight (mkPoint positionX positionY) b, positionX + stepWidth)
  else (b, positionX).

(** The body of the loop on [k]: the state is the basis and [positionY];
    [positionX] restarts from [startX] on every row. *)
Definition sampleRow (envMapWidth envMapHeight startX stepWidth stepHeight
    numberOfSamplesX : Z) (st : t * Z) (k : Z) : t * Z :=
  let '(b, positionY) := st in
  let '(b', _) :=
    fold_left (sampleColumn envMapWidth envMapHeight positionY stepWidth)
              (range numberOfSamplesX) (b, startX) in
  (b', positionY + stepHeight).

(** The body of the loop on the area lights. *)
Definition sampleRectangle {cv : OpenCV} (envMapWidth envMapHeight : Z) (b : t)
    (r : Point2i * Point2i) : t :=
  let '(startingPoint, endingPoint) := r in
  let width := Z.abs (px startingPoint - px endingPoint) in
  let height := Z.abs (py startingPoint - py endingPoint) in
  let numberOfSamplesX := Z.quot width numberOfPixelsBetweenSamples in
  let numberOfSamplesY := Z.quot height numberOfPixelsBetweenSamples in
  let '(upperLeft, bottomRight) := reorientateRectangle startingPoint endingPoint in
  if (width >? numberOfPixelsBetweenSamples) && (height >? numberOfPixelsBetweenSamples)
  then
    let stepWidth := Z.quot width numberOfSamplesX in
    let stepHeight := Z.quot height numberOfSamplesY in
    let positionX := px upperLeft + Z.quot stepWidth 2 in
    let positionY := py upperLeft + Z.quot stepHeight 2 in
    fst (fold_left
           (sampleRow envMapWidth envMapHeight positionX stepWidth stepHeight
                      numberOfSamplesX)
           (range numberOfSamplesY) (b, positionY))
  else addPointLight (Point2i_half (Point2i_add upperLeft bottomRight)) b.

(** The loop bound [rectanglesAreaLights.size()] is not changed by the body,
    which only adds point lights; the code does not use its third parameter,
    [numberOfSamples]. *)
Definition uniformSamplingAreaLightSources {cv : OpenCV}
    (envMapWidth envMapHeight : Z) (b : t) : t :=
  let b' := fold_left (sampleRectangle envMapWidth envMapHeight)
                      (rectanglesAreaLights b) b in
  mk (pointLightSourcePosition b') (rectanglesAreaLights b') true
     (numberOfPointLights b') (numberOfAreaLights b').

End LightingBasis.

(** ** std::vector access *)

(** [v[i] = f(v[i])] on a vector; indexing outside the vector is reported. *)
Definition vec_update {A} (f : A -> A) (i : Z) (v : list A) : outcome (list A) :=
  if 0 <=? i then
    match v !! Z.to_nat i with
    | Some a => Ok (<[Z.to_nat i := f a]> v)
    | None => OutOfBounds i
    end
  else OutOfBounds i.

Definition vec_get {A} (i : Z) (v : list A) : outcome A :=
  if 0 <=? i then
    match v !! Z.to_nat i with
    | Some a => Ok a
    | None => OutOfBounds i
    end
  else OutOfBounds i.

(** ** voronoi.cpp *)

Module Voronoi.
Section WithCarrier.
Context {F : Type} {fo : FloatOps F} {cv : OpenCV}.

Record t : Type := mk {
  m_basis : LightingBasis.t;
  m_numberOfPixelsInVoronoiCell : list Z;
  m_voronoiSubdivision : Subdiv2D;
  m_cellNumberPerPicture : list (list Z);
  m_rgbWeights : list (RGB F);
  m_envMapWidth : Z;
  m_envMapHeight : Z
}.

(** [Voronoi::Voronoi()] *)
Definition default : t :=
  mk LightingBasis.empty [] (Subdiv2D_new 1024 512) [] [] 1024 512.

Definition set_basis_subdiv (b : LightingBasis.t) (s : Subdiv2D) (v : t) : t :=
  mk b (m_numberOfPixelsInVoronoiCell v) s (m_cellNumberPerPicture v)
     (m_rgbWeights v) (m_envMapWidth v) (m_envMapHeight v).

Definition set_counts (c : list Z) (v : t) : t :=
  mk (m_basis v) c (m_voronoiSubdivision v) (m_cellNumberPerPicture v)
     (m_rgbWeights v) (m_envMapWidth v) (m_envMapHeight v).

Definition set_weights (w : list (RGB F)) (v : t) : t :=
  mk (m_basis v) (m_numberOfPixelsInVoronoiCell v) (m_voronoiSubdivision v)
     (m_cellNumberPerPicture v) w (m_envMapWidth v) (m_envMapHeight v).

Definition setCellNumberPerPicture (cellNumberPerPicture : list (list Z)) (v : t) : t :=
  mk (m_basis v) (m_numberOfPixelsInVoronoiCell v) (m_voronoiSubdivision v)
     cellNumberPerPicture (m_rgbWeights v) (m_envMapWidth v) (m_envMapHeight v).

(** The loop of [findLightSource], entered at index [i]. *)
Fixpoint findLightSource_from (i : Z) (positions : list Point2i) (x y : Z) : Z :=
  match positions with
  | [] => -1
  | currentPoint :: rest =>
      if (px currentPoint =? x) && (py currentPoint =? y) then i
      else findLightSource_from (i + 1) rest x y
  end.

Definition findLightSource (v : t) (x y : Z) : Z :=
  findLightSource_from 0 (LightingBasis.pointLightSourcePosition (m_basis v)) x y.

(** [Point2f result;] is (0,0) until [findNearest] writes it. The vertices
    are pixel positions, integers that [float] holds exactly, so that the
    conversions of the query to [Point2f] and of the result to [int] change
    nothing. *)
Definition findNearestLightSource (v : t) (x y : Z) : Z :=
  let result :=
    match subdiv_findNearest (sub_vertices (m_voronoiSubdivision v)) (mkPoint x y) with
    | Some p => p
    | None => mkPoint 0 0
    end in
  findLightSource v (px result) (py result).

(** The loops of [findImageNumber], entered at picture [k] with the value
    [imageNumber] found so far: the last match wins. *)
Fixpoint findImageNumber_from (k : Z) (groups : list (list Z))
    (cellNumber imageNumber : Z) : Z :=
  match groups with
  | [] => imageNumber
  | g :: rest =>
      findImageNumber_from (k + 1) rest cellNumber
        (fold_left (fun im c => if c =? cellNumber then k else im) g imageNumber)
  end.

Definition findImageNumber (v : t) (cellNumber : Z) : Z :=
  findImageNumber_from 0 (m_cellNumberPerPicture v) cellNumber (-1).

(** One pixel of the scan of [numberOfPixelsPerVoronoiCell]. *)
Definition countPixel (v : t) (j : Z) (counts : list Z) (i : Z) : outcome (list Z) :=
  let cellNumber := findNearestLightSource v j i in
  if cellNumber =? -1 then Ok counts
  else vec_update (fun n => n + 1) cellNumber counts.

(** The scan: columns [j] outside, rows [i] inside. *)
Definition countPixels (v : t) (counts : list Z) : outcome (list Z) :=
  ofold (fun counts j => ofold (countPixel v j) (range (m_envMapHeight v)) counts)
        (range (m_envMapWidth v)) counts.

Definition numberOfPixelsPerVoronoiCell (v : t) : outcome t :=
  let zeros := replicate (Z.to_nat (LightingBasis.numberOfPointLights (m_basis v))) 0 in
  counts ← countPixels v zeros;
  Ok (set_counts counts v).

Definition addPointLight (lightPosition : Point2i) (v : t) : outcome t :=
  v' ← (if lt_int_uint (px lightPosition) (m_envMapWidth v)
           && lt_int_uint (py lightPosition) (m_envMapHeight v)
        then
          s ← Subdiv2D_insert (m_voronoiSubdivision v) lightPosition;
          Ok (set_basis_subdiv
                (LightingBasis.addPointLight lightPosition (m_basis v)) s v)
        else Ok v);
  numberOfPixelsPerVoronoiCell v'.

Definition addAreaLight (startingPoint endingPoint : Point2i) (v : t) : outcome t :=
  let center := Point2i_half (Point2i_add startingPoint endingPoint) in
  s ← Subdiv2D_insert (m_voronoiSubdivision v) center;
  numberOfPixelsPerVoronoiCell
    (set_basis_subdiv
       (LightingBasis.addAreaLight startingPoint endingPoint (m_basis v)) s v).

(** The loop of [setVoronoi]: one vertex and one singleton group per point. *)
Definition setVoronoi_step (st : Subdiv2D * list (list Z)) (ip : Z * Point2i)
  : outcome (Subdiv2D * list (list Z)) :=
  s ← Subdiv2D_insert (fst st) (snd ip);
  Ok (s, snd st ++ [[fst ip]]).

Definition setVoronoi_with (groups : list (list Z))
    (pointLightSourcePosition : list Point2i) (v : t) : outcome t :=
  let numberOfPointLights := Z.of_nat (length pointLightSourcePosition) in
  let b := LightingBasis.addPointLights pointLightSourcePosition (m_basis v) in
  st ← ofold setVoronoi_step
             (combine (range numberOfPointLights) pointLightSourcePosition)
             (m_voronoiSubdivision v, groups);
  let v' := setCellNumberPerPicture (snd st) (set_basis_subdiv b (fst st) v) in
  if numberOfPointLights =? 0 then Ok v' else numberOfPixelsPerVoronoiCell v'.

(** [setVoronoi(pointLightSourcePosition)] *)
Definition setVoronoi (pointLightSourcePosition : list Point2i) (v : t) : outcome t :=
  setVoronoi_with (m_cellNumberPerPicture v) pointLightSourcePosition v.

(** [setVoronoi(pointLightSourcePosition, cellNumberPerPicture)] *)
Definition setVoronoi2 (pointLightSourcePosition : list Point2i)
    (cellNumberPerPicture : list (list Z)) (v : t) : outcome t :=
  setVoronoi_with cellNumberPerPicture pointLightSourcePosition v.

Definition clearVoronoi (v : t) : t :=
  mk (LightingBasis.clearBasis (m_basis v)) []
     (Subdiv2D_new (m_envMapWidth v) (m_envMapHeight v)) [] []
     (m_envMapWidth v) (m_envMapHeight v).

Definition setEnvironmentMapSize (width height : Z) (v : t) : t :=
  mk (m_basis v) (m_numberOfPixelsInVoronoiCell v) (Subdiv2D_new width height)
     (m_cellNumberPerPicture v) (m_rgbWeights v) width height.

Definition clearWeights (v : t) : t := set_weights [] v.

(** [(j+jOffset)%m_envMapWidth]: [j] and the width are [unsigned int], so
    [jOffset] is converted and the sum wraps modulo 2^32 before [%]. *)
Definition jModulus (width j jOffset : Z) : Z :=
  ((j + to_unsigned jOffset) mod UINT_MOD) mod width.

(** [w[0] += R*s; w[1] += G*s; w[2] += B*s] *)
Definition accumulate (R G B s : F) (w : RGB F) : RGB F :=
  mkRGB (fadd (red w) (fmul R s)) (fadd (green w) (fmul G s))
        (fadd (blue w) (fmul B s)).

Definition allNaN (R G B : F) : bool := fisnan R && fisnan G && fisnan B.

(** One pixel of [computeVoronoiWeightsOR]; [jOffset] is the value of
    [floor(offset*m_envMapWidth/(2.0*M_PI))]. *)
Definition weightPixelOR (v : t) (environmentMap : Mat F) (jOffset i : Z)
    (weights : list (RGB F)) (j : Z) : outcome (list (RGB F)) :=
  let cellNumber := findNearestLightSource v j i in
  let jMod := jModulus (m_envMapWidth v) j jOffset in
  if cellNumber =? -1 then Ok weights
  else
    let imageNumber := findImageNumber v cellNumber in
    let R := val2 (mat_at environmentMap i jMod) in
    let G := val1 (mat_at environmentMap i jMod) in
    let B := val0 (mat_at environmentMap i jMod) in
    if negb (allNaN R G B)
    then vec_update (accumulate R G B (solidAngle i (m_envMapHeight v)))
                    imageNumber weights
    else Ok weights.

(** The scan of the integration: rows [i] outside, columns [j] inside. *)
Definition scanRowMajor {St} (v : t) (body : Z -> St -> Z -> outcome St) (s : St)
  : outcome St :=
  ofold (fun s i => ofold (body i) (range (m_envMapWidth v)) s)
        (range (m_envMapHeight v)) s.

Definition zeroWeights (n : nat) : list (RGB F) :=
  replicate n (mkRGB fzero fzero fzero).

Definition computeVoronoiWeightsOR (environmentMap : Mat F) (jOffset : Z) (v : t)
  : outcome t :=
  let weights0 := m_rgbWeights v ++ zeroWeights (length (m_cellNumberPerPicture v)) in
  weights ← scanRowMajor v (weightPixelOR v environmentMap jOffset) weights0;
  Ok (set_weights weights v).

(** One pixel of [computeVoronoiWeightsRGB]; [lightIntensities] is the
    content of light_intensities.txt. Both branches on [j + jOffset] read
    the same column. *)
Definition weightPixelRGB (v : t) (environmentMap : Mat F)
    (lightIntensities : list (RGB F)) (jOffset i : Z)
    (weights : list (RGB F)) (j : Z) : outcome (list (RGB F)) :=
  let cellNumber := findNearestLightSource v j i in
  let jMod := jModulus (m_envMapWidth v) j jOffset in
  if cellNumber =? -1 then Ok weights
  else
    li ← vec_get cellNumber lightIntensities;
    let R := fmul (val2 (mat_at environmentMap i jMod)) (red li) in
    let G := fmul (val1 (mat_at environmentMap i jMod)) (green li) in
    let B := fmul (val0 (mat_at environmentMap i jMod)) (blue li) in
    if negb (allNaN R G B)
    then vec_update (accumulate R G B (solidAngle i (m_envMapHeight v)))
                    cellNumber weights
    else Ok weights.

Definition computeVoronoiWeightsRGB (environmentMap : Mat F)
    (lightIntensities : list (RGB F)) (jOffset : Z) (v : t) : outcome t :=
  let n := Z.to_nat (LightingBasis.numberOfPointLights (m_basis v)) in
  let weights0 := m_rgbWeights v ++ zeroWeights n in
  weights ← scanRowMajor v (weightPixelRGB v environmentMap lightIntensities jOffset)
                         weights0;
  Ok (set_weights weights v).

End WithCarrier.
Arguments t F : clear implicits.
End Voronoi.

(** ** officeRoomRelighting.cpp: identifyMedianEnergy *)

Module OfficeRoomRelighting.
Section WithCarrier.
Context {F : Type} {fo : FloatOps F} {cv : OpenCV}.

(** [(R+G+B)/3.0] of the pixel, [R = val[2]], [G = val[1]], [B = val[0]]. *)
Definition pixelEnergy (p : Vec3f F) : F :=
  fdiv3 (fadd (fadd (val2 p) (val1 p)) (val0 p)).

(** First pair of loops: [totalEnergy], rows outside, columns inside. *)
Definition totalEnergyOf (width height : Z) (lightingCondition : Mat F) : F :=
  fold_left
    (fun total i =>
       fold_left (fun total j => fadd total (pixelEnergy (mat_at lightingCondition i j)))
                 (range width) total)
    (range height) fzero.

(** State of the second pair of loops. *)
Record scan : Type := mkScan {
  sumEnergy : F;
  isAlreadyGreater : bool;
  voronoi : Voronoi.t F
}.

Definition medianPixel (medianEnergy : F) (lightingCondition : Mat F) (i : Z)
    (st : scan) (j : Z) : outcome scan :=
  let sum := fadd (sumEnergy st) (pixelEnergy (mat_at lightingCondition i j)) in
  if fgt sum medianEnergy && negb (isAlreadyGreater st)
  then v ← Voronoi.addPointLight (mkPoint j i) (voronoi st);
       Ok (mkScan sum true v)
  else Ok (mkScan sum (isAlreadyGreater st) (voronoi st)).

(** State of the loop on the lighting conditions. *)
Record conditions : Type := mkConditions {
  cond_voronoi : Voronoi.t F;
  cellNumberPerPicture : list (list Z);
  cellNumber : Z
}.

(** The body of the loop on [k]; [lightingCondition] is directLight0k.pfm.
    The accumulators restart from zero for every condition. *)
Definition identifyCondition (width height : Z) (st : conditions)
    (lightingCondition : Mat F) : outcome conditions :=
  let totalEnergy := totalEnergyOf width height lightingCondition in
  let medianEnergy := fhalf totalEnergy in
  s ← ofold (fun s i => ofold (medianPixel medianEnergy lightingCondition i)
                              (range width) s)
            (range height) (mkScan fzero false (cond_voronoi st));
  Ok (mkConditions (voronoi s)
                   (cellNumberPerPicture st ++ [[cellNumber st]])
                   (cellNumber st + 1)).

(** [width], [height] are [m_environmentMapWidth], [m_environmentMapHeight]
    of the relighting object, [lightingConditions] the images of the
    [m_numberOfLightingConditions] conditions. *)
Definition identifyMedianEnergy (width height : Z)
    (lightingConditions : list (Mat F)) (v : Voronoi.t F) : outcome (Voronoi.t F) :=
  st ← ofold (identifyCondition width height) lightingConditions
             (mkConditions v [] 0);
  Ok (Voronoi.setCellNumberPerPicture (cellNumberPerPicture st) (cond_voronoi st)).

End WithCarrier.
End OfficeRoomRelighting.

(** ** The point-light file basis.txt *)

Module BasisFile.

#[local] Open Scope char_scope.

(** [isspace] in the C locale. *)
Definition isspace (c : ascii) : bool :=
  let n := N_of_ascii c in
  ((n =? 32) || ((9 <=? n) && (n <=? 13)))%N.

Definition digit_val (c : ascii) : option Z :=
  let n := N_of_ascii c in
  if ((48 <=? n) && (n <=? 57))%N then Some (Z.of_N n - 48) else None.

(** The digits of [operator<<] on an integer, most significant first. *)
Fixpoint uint_chars (d : Decimal.uint) : list ascii :=
  match d with
  | Decimal.Nil => []
  | Decimal.D0 d => "0" :: uint_chars d
  | Decimal.D1 d => "1" :: uint_chars d
  | Decimal.D2 d => "2" :: uint_chars d
  | Decimal.D3 d => "3" :: uint_chars d
  | Decimal.D4 d => "4" :: uint_chars d
  | Decimal.D5 d => "5" :: uint_chars d
  | Decimal.D6 d => "6" :: uint_chars d
  | Decimal.D7 d => "7" :: uint_chars d
  | Decimal.D8 d => "8" :: uint_chars d
  | Decimal.D9 d => "9" :: uint_chars d
  end.

(** [file << n] for an [int] or [unsigned int]. *)
Definition show_int (n : Z) : list ascii :=
  match Z.to_int n with
  | Decimal.Pos d => uint_chars d
  | Decimal.Neg d => "-" :: uint_chars d
  end.

(** The loop of [atoi] on the digits. *)
Fixpoint atoi_digits (acc : Z) (s : list ascii) : Z :=
  match s with
  | [] => acc
  | c :: s' =>
      match digit_val c with
      | Some d => atoi_digits (10 * acc + d) s'
      | None => acc
      end
  end.

Fixpoint skip_spaces (s : list ascii) : list ascii :=
  match s with
  | c :: s' => if isspace c then skip_spaces s' else s
  | [] => []
  end.

Definition atoi (s : list ascii) : Z :=
  match skip_spaces s with
  | "-" :: s' => - atoi_digits 0 s'
  | "+" :: s' => atoi_digits 0 s'
  | s' => atoi_digits 0 s'
  end.

Definition emit (cur : list ascii) (l : list (list ascii)) : list (list ascii) :=
  match cur with
  | [] => l
  | _ => cur :: l
  end.

(** A run of characters without white space. *)
Definition noSpace (w : list ascii) : Prop := Forall (fun c => isspace c = false) w.

(** The words successive [file >> word] extractions return: maximal runs of
    characters that are not white space; [cur] is the run being read. *)
Fixpoint words_from (cur : list ascii) (s : list ascii) : list (list ascii) :=
  match s with
  | [] => emit cur []
  | c :: s' =>
      if isspace c then emit cur (words_from [] s')
      else words_from (cur ++ [c]) s'
  end.

Definition words (s : list ascii) : list (list ascii) := words_from [] s.

(** The loop of [loadBasis] on the words left in the file: [lightNumber]
    is read and dropped; an extraction that fails at the end of the file
    leaves [x] or [y] as the previous round set it. *)
Fixpoint readPointLights (x y : list ascii) (ws : list (list ascii)) : list Point2i :=
  match ws with
  | [] => []
  | _lightNumber :: [] => [mkPoint (atoi x) (atoi y)]
  | _lightNumber :: x' :: [] => [mkPoint (atoi x') (atoi y)]
  | _lightNumber :: x' :: y' :: rest =>
      mkPoint (atoi x') (atoi y') :: readPointLights x' y' rest
  end.

Definition parseBasisFile (content : list ascii) : list Point2i :=
  readPointLights [] [] (words content).

Definition endl : ascii := "010".

(** The line [file << i << ": " << x << " " << y << endl]. *)
Definition saveLine (i : Z) (p : Point2i) : list ascii :=
  show_int i ++ [":"; " "] ++ show_int (px p) ++ [" "] ++ show_int (py p) ++ [endl].

Fixpoint saveLines (i : Z) (ps : list Point2i) : list ascii :=
  match ps with
  | [] => []
  | p :: ps' => saveLine i p ++ saveLines (i + 1) ps'
  end.

(** [LightingBasis::saveBasis]: the content written to basis.txt, which is
    truncated first. *)
Definition saveBasis (b : LightingBasis.t) : list ascii :=
  saveLines 0 (LightingBasis.pointLightSourcePosition b).

(** [LightingBasis::loadBasis]; [file] is the content of basis.txt, [None]
    when the file cannot be opened. *)
Definition loadBasis (file : option (list ascii)) (b : LightingBasis.t)
  : LightingBasis.t :=
  match file with
  | Some content => LightingBasis.addPointLights (parseBasisFile content) b
  | None => b
  end.

End BasisFile.

(** ** Reference instances *)

(** Round to nearest, ties to even: [cvRound(n*0.5)]. *)
Definition roundHalfEven (n : Z) : Z :=
  if Z.even n then n / 2
  else if Z.even ((n - 1) / 2) then (n - 1) / 2 else (n + 1) / 2.

Definition dist2 (p q : Point2i) : Z :=
  (px p - px q) * (px p - px q) + (py p - py q) * (py p - py q).

(** Exhaustive nearest-vertex search; the earliest vertex wins a tie. *)
Fixpoint nearestFrom (best : Point2i) (sites : list Point2i) (q : Point2i) : Point2i :=
  match sites with
  | [] => best
  | p :: rest =>
      nearestFrom (if dist2 p q <? dist2 best q then p else best) rest q
  end.

Definition nearestBrute (sites : list Point2i) (q : Point2i) : option Point2i :=
  match sites with
  | [] => None
  | p :: rest => Some (nearestFrom p rest q)
  end.

Definition cvRef : OpenCV :=
  {| cv_half := roundHalfEven; subdiv_findNearest := nearestBrute |}.

(** Exact integers extended with one not-a-number value ([None]); every
    operation on a not-a-number yields a not-a-number and every comparison
    with one is false. The row factor is an integer stand-in for the sine. *)
Definition lift2 (f : Z -> Z -> Z) (x y : option Z) : option Z :=
  match x, y with
  | Some a, Some b => Some (f a b)
  | _, _ => None
  end.

Definition exactNaN : FloatOps (option Z) :=
  {| fzero := Some 0;
     fadd := lift2 Z.add;
     fmul := lift2 Z.mul;
     fdiv3 := fun x => match x with Some a => Some (a / 3) | None => None end;
     fhalf := fun x => match x with Some a => Some (a / 2) | None => None end;
     fgt := fun x y => match x, y with Some a, Some b => b <? a | _, _ => false end;
     fisnan := fun x => match x with Some _ => false | None => true end;
     solidAngle := fun i H => Some (i * (H - i)) |}.

(** Real numbers: the idealisation of [float] without rounding and without
    not-a-number values. *)
Definition idealReal : FloatOps R :=
  {| fzero := 0%R;
     fadd := Rplus;
     fmul := Rmult;
     fdiv3 := fun x => (x / 3)%R;
     fhalf := fun x => (x / 2)%R;
     fgt := fun x y => if Rlt_dec y x then true else false;
     fisnan := fun _ => false;
     solidAngle := fun i H => sin (IZR i * PI / IZR H) |}.

(** ** Invariants and specifications used in the statements *)

Definition sumZ (l : list Z) : Z := foldr Z.add 0 l.

(** The subdivision holds exactly the points of the basis, and the counter
    of the basis is the size of its vector. Every mutator of [Voronoi] but
    [setEnvironmentMapSize] keeps this. *)
Definition consistent {F} (v : Voronoi.t F) : Prop :=
  LightingBasis.numberOfPointLights (Voronoi.m_basis v)
    = Z.of_nat (length (LightingBasis.pointLightSourcePosition (Voronoi.m_basis v)))
  /\ (forall p, In p (sub_vertices (Voronoi.m_voronoiSubdivision v))
                <-> In p (LightingBasis.pointLightSourcePosition (Voronoi.m_basis v)))
  /\ sub_width (Voronoi.m_voronoiSubdivision v) = Voronoi.m_envMapWidth v
  /\ sub_height (Voronoi.m_voronoiSubdivision v) = Voronoi.m_envMapHeight v.

(** Every cell the scan meets is in some picture's group. *)
Definition cellsMapped {F} {cv : OpenCV} (v : Voronoi.t F) : Prop :=
  forall i j, 0 <= i < Voronoi.m_envMapHeight v -> 0 <= j < Voronoi.m_envMapWidth v ->
    Voronoi.findNearestLightSource v j i <> -1 ->
    exists g, In g (Voronoi.m_cellNumberPerPicture v)
              /\ In (Voronoi.findNearestLightSource v j i) g.

(** A position inside the map extent. *)
Definition insideMap (width height : Z) (p : Point2i) : Prop :=
  0 <= px p < width /\ 0 <= py p < height.

(** ** Example data *)

(** A 4x3 map with the point lights (1,1) and (3,2). *)
Definition smallVoronoi : Voronoi.t (option Z) :=
  Voronoi.mk
    (LightingBasis.mk [mkPoint 1 1; mkPoint 3 2] [] false 2 0)
    [] (mkSubdiv 4 3 [mkPoint 1 1; mkPoint 3 2]) [[0]; [1]] [] 4 3.


(** A 3x4 map (rows x columns): the red channel numbers the pixels, and the
    pixel of row 0, column 0 is not-a-number in all three channels, the
    pixel of row 0, column 1 in the blue channel only. *)
Definition rampMap : Mat (option Z) :=
  mkMat 3 4
    (fun i j =>
       if (i =? 0) && (j =? 0) then mkVec3f None None None
       else if (i =? 0) && (j =? 1) then mkVec3f None (Some 5) (Some 2)
       else mkVec3f (Some 1) (Some 2) (Some (4 * i + j + 1))).

(** The same partition with cell 1 in no picture's group. *)
Definition unmappedVoronoi : Voronoi.t (option Z) :=
  Voronoi.setCellNumberPerPicture [[0]] smallVoronoi.

(** A 3x2 map with one point light per column, (0,1), (1,1) and (2,1), one
    condition per light, and a 2x3 image whose red channel tells the columns
    apart. With two rows the row factor of [exactNaN] is the sine itself:
    0 on row 0 and 1 on row 1. *)
Definition columnVoronoi : Voronoi.t (option Z) :=
  Voronoi.mk
    (LightingBasis.mk [mkPoint 0 1; mkPoint 1 1; mkPoint 2 1] [] false 3 0)
    [] (mkSubdiv 3 2 [mkPoint 0 1; mkPoint 1 1; mkPoint 2 1])
    [[0]; [1]; [2]] [] 3 2.

Definition columnMap : Mat (option Z) :=
  mkMat 2 3
    (fun i j => mkVec3f (Some 1) (Some 1)
                        (Some (if j =? 0 then 100 else if j =? 1 then 10 else 1))).

(** The samples of one row and of the rows of a rectangle, in the order the
    loops produce them when every sample is inside the map. *)
Fixpoint rowPoints (n : nat) (positionX positionY stepWidth : Z) : list Point2i :=
  match n with
  | O => []
  | S n' => mkPoint positionX positionY
            :: rowPoints n' (positionX + stepWidth) positionY stepWidth
  end.

Fixpoint gridPoints (rows columns : nat) (startX positionY stepWidth stepHeight : Z)
  : list Point2i :=
  match rows with
  | O => []
  | S rows' => rowPoints columns startX positionY stepWidth
               ++ gridPoints rows' columns startX (positionY + stepHeight)
                             stepWidth stepHeight
  end.

(** A basis holding the rectangle (900,400)-(1100,550), of extent (200,150),
    which crosses the right and bottom borders of a 1024x512 map. *)
Definition borderBasis : LightingBasis.t :=
  LightingBasis.addAreaLight (cv := cvRef) (mkPoint 900 400) (mkPoint 1100 550)
    LightingBasis.empty.

(** A basis holding the rectangle (100,50)-(300,200), of extent (200,150). *)
Definition innerBasis : LightingBasis.t :=
  LightingBasis.addAreaLight (cv := cvRef) (mkPoint 100 50) (mkPoint 300 200)
    LightingBasis.empty.

(** ** Specification of the energy median *)

(** The pixels (row, column) of a width x height image in row-major order. *)
Definition pixelsRowMajor (width height : Z) : list (Z * Z) :=
  flat_map (fun i => map (fun j => (i, j)) (range width)) (range height).

(** The running sum: [sum] plus the energies of [pixels], added one by one in
    the order of the list. *)
Definition runningEnergy {F} {fo : FloatOps F} (image : Mat F) (sum : F)
    (pixels : list (Z * Z)) : F :=
  fold_left
    (fun acc p => fadd acc (OfficeRoomRelighting.pixelEnergy (mat_at image (fst p) (snd p))))
    pixels sum.

(** [p] is the first pixel of [pixels] at which the running sum, started from
    zero, is greater than [threshold]. *)
Definition firstAbove {F} {fo : FloatOps F} (image : Mat F) (threshold : F)
    (pixels : list (Z * Z)) (p : Z * Z) : Prop :=
  exists n : nat,
    pixels !! n = Some p
    /\ fgt (runningEnergy image fzero (take (S n) pixels)) threshold = true
    /\ forall m : nat, (m < n)%nat ->
         fgt (runningEnergy image fzero (take (S m) pixels)) threshold = false.

(** What the median search needs of the carrier: zero is not greater than
    itself, and a number greater than zero is greater than its half. Both
    hold of the finite [float] values. *)
Definition positive_above_half {F} (fo : FloatOps F) : Prop :=
  fgt fzero fzero = false
  /\ forall x : F, fgt x fzero = true -> fgt x (fhalf x) = true.

(** Two 2x3 lighting conditions for the 3x2 map. The first has the energies
    3, 0, 6 on row 0 and 0, 6, 3 on row 1: the total is 18, the running sum
    is exactly 9 at the end of row 0 and first above 9 at row 1, column 1.
    The second is black everywhere. *)
Definition conditionA : Mat (option Z) :=
  mkMat 2 3
    (fun i j =>
       let e := if (i =? 0) && (j =? 0) then 3
                else if (i =? 0) && (j =? 2) then 6
                else if (i =? 1) && (j =? 1) then 6
                else if (i =? 1) && (j =? 2) then 3 else 0 in
       mkVec3f (Some e) (Some e) (Some e)).

Definition conditionBlack : Mat (option Z) :=
  mkMat 2 3 (fun _ _ => mkVec3f (Some 0) (Some 0) (Some 0)).

(** An empty partition of the 3x2 map. *)
Definition emptyVoronoi : Voronoi.t (option Z) :=
  Voronoi.setEnvironmentMapSize 3 2 Voronoi.default.

(** The partition is consistent and has the size of the relighting object. *)
Definition mapReady {F} (width height : Z) (v : Voronoi.t F) : Prop :=
  consistent v
  /\ Voronoi.m_envMapWidth v = width /\ Voronoi.m_envMapHeight v = height.

(** ** Specification of the solid-angle sum *)

Definition sumR (l : list R) : R := foldr Rplus 0%R l.

(** The map whose three channels are 1 at every pixel. *)
Definition unitMap (rows cols : Z) : Mat R :=
  mkMat rows cols (fun _ _ => mkVec3f 1%R 1%R 1%R).

(** The factor of row i, sin(pi*i/H). *)
Definition rowFactor (height i : Z) : R := sin (IZR i * PI / IZR height).

(** The sum over the rows i = 0 .. H-1 of sin(pi*i/H). *)
Definition rowFactorSum (height : Z) : R :=
  sumR (map (rowFactor height) (range height)).


(** The sums of the red, green and blue accumulators. *)
Definition channelSums (w : list (RGB R)) : R * R * R :=
  (sumR (map red w), sumR (map green w), sumR (map blue w)).

Definition shiftSums (x : R) (s : R * R * R) : R * R * R :=
  (fst (fst s) + x, snd (fst s) + x, snd s + x)%R.

(** light_intensities.txt with the intensity 1 for each of [n] lights. *)
Definition unitIntensities (n : nat) : list (RGB R) := replicate n (mkRGB 1 1 1)%R.

(** A 1x2 map (one column, two rows) with the single point light (0,0). *)
Definition unitVoronoi : Voronoi.t R :=
  Voronoi.mk (LightingBasis.mk [mkPoint 0 0] [] false 1 0)
             [] (mkSubdiv 1 2 [mkPoint 0 0]) [[0]] [] 1 2.

(** ** Specification of the weight of one condition *)

Section ConditionWeight.
Context {F : Type} {fo : FloatOps F} {cv : OpenCV}.

(** What the pixel (row, column) contributes: nothing when it has no cell or
    reads three not-a-number channels, and otherwise, to the condition of its
    cell, the three channels read at the shifted column and the row factor. *)
Definition pixelTerm (v : Voronoi.t F) (environmentMap : Mat F) (jOffset : Z)
    (p : Z * Z) : option (Z * (F * F * F * F)) :=
  let cellNumber := Voronoi.findNearestLightSource v (snd p) (fst p) in
  let q := mat_at environmentMap (fst p)
             (Voronoi.jModulus (Voronoi.m_envMapWidth v) (snd p) jOffset) in
  if cellNumber =? -1 then None
  else if Voronoi.allNaN (val2 q) (val1 q) (val0 q) then None
  else Some (Voronoi.findImageNumber v cellNumber,
             (val2 q, val1 q, val0 q, solidAngle (fst p) (Voronoi.m_envMapHeight v))).

(** One contribution applied to the vector of accumulators. *)
Definition applyTerm (w : list (RGB F)) (t : option (Z * (F * F * F * F)))
  : outcome (list (RGB F)) :=
  match t with
  | Some (k, (R, G, B, s)) => vec_update (Voronoi.accumulate R G B s) k w
  | None => Ok w
  end.

(** The accumulator of condition [k] after one contribution. *)
Definition addTermTo (k : Z) (w : RGB F) (t : option (Z * (F * F * F * F))) : RGB F :=
  match t with
  | Some (k', (R, G, B, s)) => if k' =? k then Voronoi.accumulate R G B s w else w
  | None => w
  end.

(** The weight of condition [k]: the contributions of the pixels of its
    cells, added from zero in row-major order. *)
Definition conditionWeight (v : Voronoi.t F) (environmentMap : Mat F) (jOffset k : Z)
  : RGB F :=
  fold_left (addTermTo k)
    (map (pixelTerm v environmentMap jOffset)
         (pixelsRowMajor (Voronoi.m_envMapWidth v) (Voronoi.m_envMapHeight v)))
    (mkRGB fzero fzero fzero).

End ConditionWeight.

(** * Further parts of the code

    The rest of [voronoi.cpp] (the file voronoi.txt, [loadVoronoi], the
    constructor from a basis), [manualSelection.cpp], [loadFiles.cpp]
    ([readFile]), [relighting.cpp] ([computeFinalRelighting]), the masks and
    one rotation of [OfficeRoomRelighting::relighting], and the functions of
    [mathsFunctions.cpp] and [imageProcessing.cpp] on angles, vectors of
    weights and distribution functions.

    Where a function divides, compares with a constant or takes a floor,
    the floats are real numbers, the idealisation without rounding; the
    statements about them say so. Where it only adds and multiplies, the
    carrier of the floats stays abstract as before. *)

(** ** voronoi.cpp: the file voronoi.txt, [saveVoronoi] and [loadVoronoi] *)

Module VoronoiFile.
Import BasisFile.

#[local] Open Scope char_scope.

(** The loop on [j] of [saveVoronoi]: the cell numbers of one picture, a
    space after every number but the last. *)
Fixpoint saveCells (cells : list Z) : list ascii :=
  match cells with
  | [] => []
  | c :: rest =>
      match rest with
      | [] => show_int c
      | _ :: _ => show_int c ++ [" "] ++ saveCells rest
      end
  end.

(** The loop on [i]: the size of the picture's vector, a space, its numbers;
    [endl] after every picture but the last. *)
Fixpoint saveGroups (groups : list (list Z)) : list ascii :=
  match groups with
  | [] => []
  | g :: rest =>
      let line := show_int (Z.of_nat (length g)) ++ [" "] ++ saveCells g in
      match rest with
      | [] => line
      | _ :: _ => line ++ [endl] ++ saveGroups rest
      end
  end.

(** [Voronoi::saveVoronoi]: the contents written to basis.txt and to
    voronoi.txt, both truncated first. *)
Definition saveVoronoi {F} (v : Voronoi.t F) : list ascii * list ascii :=
  (saveBasis (Voronoi.m_basis v), saveGroups (Voronoi.m_cellNumberPerPicture v)).

(** The loop [for(int i = 0 ; i<size ; i++)] of [loadVoronoi]: [file >> value]
    then [push_back(atoi(value))]. An extraction that fails at the end of the
    file leaves [value] as it was. The result is the numbers read, the last
    [value] and the words left. *)
Fixpoint readCells (size : nat) (value : list ascii) (ws : list (list ascii))
  : list Z * list ascii * list (list ascii) :=
  match size with
  | O => ([], value, ws)
  | S size' =>
      let value' := match ws with w :: _ => w | [] => value end in
      let '(cellNumbers, last, rest) := readCells size' value' (tl ws) in
      (atoi value' :: cellNumbers, last, rest)
  end.

(** The loop [while(file >> sizeString)]; every round consumes one word at
    least, so that [fuel] rounds suffice for [fuel] words. *)
Fixpoint readGroups (fuel : nat) (value : list ascii) (ws : list (list ascii))
  : list (list Z) :=
  match fuel, ws with
  | S fuel', sizeString :: ws' =>
      let '(cellNumbers, value', rest) :=
        readCells (Z.to_nat (atoi sizeString)) value ws' in
      cellNumbers :: readGroups fuel' value' rest
  | _, _ => []
  end.

Definition parseVoronoiFile (content : list ascii) : list (list Z) :=
  readGroups (length (words content)) [] (words content).

(** [Voronoi::loadVoronoi]; [basisFile] and [voronoiFile] are the contents of
    basis.txt and voronoi.txt, [None] for a file that cannot be opened. *)
Definition loadVoronoi {F} {cv : OpenCV} (basisFile voronoiFile : option (list ascii))
    (v : Voronoi.t F) : outcome (Voronoi.t F) :=
  let v1 := Voronoi.set_basis_subdiv (loadBasis basisFile (Voronoi.m_basis v))
              (Voronoi.m_voronoiSubdivision v) v in
  let pointLightSources := LightingBasis.pointLightSourcePosition (Voronoi.m_basis v1) in
  v2 ← Voronoi.setVoronoi pointLightSources v1;
  match voronoiFile with
  | Some content => Ok (Voronoi.setCellNumberPerPicture (parseVoronoiFile content) v2)
  | None => Ok v2
  end.

(** [Voronoi::Voronoi(basis, envMapWidth, envMapHeight, cellNumberPerPicture)] *)
Definition fromBasis {F} {cv : OpenCV} (basis : LightingBasis.t)
    (envMapWidth envMapHeight : Z) (cellNumberPerPicture : list (list Z))
  : outcome (Voronoi.t F) :=
  let v := Voronoi.mk basis
             (replicate (Z.to_nat (LightingBasis.numberOfPointLights basis)) 0)
             (Subdiv2D_new envMapWidth envMapHeight) cellNumberPerPicture []
             envMapWidth envMapHeight in
  Voronoi.setVoronoi (LightingBasis.pointLightSourcePosition basis) v.

End VoronoiFile.

(** ** manualSelection.cpp and the manual identification of the lights *)

Module ManualSelection.
Section WithCarrier.
Context {F : Type} {cv : OpenCV}.

(** The events of the mouse that [callBackMouseEvents] tells apart; every
    other event is [EVENT_OTHER]. *)
Inductive MouseEvent : Type :=
| EVENT_LBUTTONDOWN
| EVENT_RBUTTONDOWN
| EVENT_RBUTTONUP
| EVENT_OTHER.

(** [struct MouseParameters], without the names of the window and of the
    image, which only the display uses. *)
Record MouseParameters : Type := mkMouse {
  latLongWidth : Z;
  latLongHeight : Z;
  voronoi : Voronoi.t F;
  numberOfLightSourcesAdded : Z;
  startingPoint : Point2i;
  endingPoint : Point2i;
  isPressed : bool
}.

(** [(x>0) && (y>0) && (x<latLongWidth) && (y<latLongHeight)], the last two
    between an [int] and an [unsigned int]. *)
Definition insideDrawing (p : MouseParameters) (x y : Z) : bool :=
  (x >? 0) && (y >? 0) && lt_int_uint x (latLongWidth p)
  && lt_int_uint y (latLongHeight p).

(** [callBackMouseEvents(event, x, y, flags, userdata)]: what it does to the
    parameters; the drawing on the displayed image is left out. *)
Definition callBackMouseEvents (event : MouseEvent) (x y : Z) (p : MouseParameters)
  : outcome MouseParameters :=
  let p1 :=
    if isPressed p && insideDrawing p x y
    then mkMouse (latLongWidth p) (latLongHeight p) (voronoi p)
                 (numberOfLightSourcesAdded p) (startingPoint p) (mkPoint x y)
                 (isPressed p)
    else p in
  match event with
  | EVENT_LBUTTONDOWN =>
      v ← Voronoi.addPointLight (mkPoint x y) (voronoi p1);
      Ok (mkMouse (latLongWidth p1) (latLongHeight p1) v
                  (numberOfLightSourcesAdded p1 + 1) (mkPoint x y) (endingPoint p1)
                  (isPressed p1))
  | EVENT_RBUTTONDOWN =>
      Ok (mkMouse (latLongWidth p1) (latLongHeight p1) (voronoi p1)
                  (numberOfLightSourcesAdded p1) (mkPoint x y) (mkPoint x y) true)
  | EVENT_RBUTTONUP =>
      let ending := if insideDrawing p1 x y then mkPoint x y else endingPoint p1 in
      v ← Voronoi.addAreaLight (startingPoint p1) ending (voronoi p1);
      Ok (mkMouse (latLongWidth p1) (latLongHeight p1) v
                  (numberOfLightSourcesAdded p1 + 1) (startingPoint p1) ending false)
  | EVENT_OTHER => Ok p1
  end.

(** The events of the mouse while one picture is displayed, until a key is
    pressed ([waitKey(0)]): the callback runs once per event. *)
Definition mouseEvents (events : list (MouseEvent * Z * Z)) (p : MouseParameters)
  : outcome MouseParameters :=
  ofold (fun p e => callBackMouseEvents (fst (fst e)) (snd (fst e)) (snd e) p) events p.

(** The loop [for(int j = 0 ; j<numberOfLightSourcesAdded ; j++)]. *)
Definition cellsForImage (cellNumber numberOfLightSourcesAdded : Z) : list Z :=
  map (fun j => cellNumber + j) (range numberOfLightSourcesAdded).

(** State of the loop of [identifyLightsUser] on the pictures. *)
Record pictures : Type := mkPictures {
  parameters : MouseParameters;
  cellNumberPerPicture : list (list Z);
  cellNumber : Z
}.

(** The body of the loop on the pictures; [events] are the events of the
    mouse while the picture is displayed. *)
Definition identifyPicture (st : pictures) (events : list (MouseEvent * Z * Z))
  : outcome pictures :=
  p ← mouseEvents events (parameters st);
  let n := numberOfLightSourcesAdded p in
  Ok (mkPictures
        (mkMouse (latLongWidth p) (latLongHeight p) (voronoi p) 0
                 (startingPoint p) (endingPoint p) (isPressed p))
        (cellNumberPerPicture st ++ [cellsForImage (cellNumber st) n])
        (cellNumber st + Z.max 0 n)).

(** [OfficeRoomRelighting::identifyLightsUser] and
    [FreeFormLightStage::identifyLightsUser], which differ in the names of
    the files only: one list of events per lighting condition. *)
Definition identifyLightsUser (events : list (list (MouseEvent * Z * Z)))
    (mouseParameters : MouseParameters) : outcome MouseParameters :=
  st ← ofold identifyPicture events (mkPictures mouseParameters [] 0);
  let p := parameters st in
  Ok (mkMouse (latLongWidth p) (latLongHeight p)
              (Voronoi.setCellNumberPerPicture (cellNumberPerPicture st) (voronoi p))
              (numberOfLightSourcesAdded p) (startingPoint p) (endingPoint p)
              (isPressed p)).

(** The parameters that the [relighting] methods hand to
    [identifyLightsUser]; the two points are not initialised there. *)
Definition initialParameters (width height : Z) (v : Voronoi.t F)
    (startingPoint endingPoint : Point2i) : MouseParameters :=
  mkMouse width height v 0 startingPoint endingPoint false.

End WithCarrier.
Arguments MouseParameters F : clear implicits.
Arguments pictures F : clear implicits.
End ManualSelection.

(** ** officeRoomRelighting.cpp: the names of the files directLight*.pfm *)

Module DirectLightFiles.
Import BasisFile.

(** [osstream << "text"] *)
Definition text (s : string) : list ascii := list_ascii_of_string s.

(** The name under which [prepareBasis_bedroom] saves lighting condition
    [k], and [prepareBasis_office] in its first loop; it is also the name
    that [identifyLightsAutomatically] loads:
    [if(k<10) ... "/directLight0" << k << ".pfm"; else ... "/directLight" << k
    << ".pfm"]. *)
Definition savedName (folderPath roomType : list ascii) (k : Z) : list ascii :=
  folderPath
  ++ (if k <? 10
      then text "/lighting_conditions/office_room/" ++ roomType
           ++ text "/directLight0" ++ show_int k ++ text ".pfm"
      else text "/lighting_conditions/office_room/" ++ roomType
           ++ text "/directLight" ++ show_int k ++ text ".pfm").

(** The name that [identifyMedianEnergy] loads for lighting condition [k],
    as do [normalizeEnergyBasis] and the second loop of [prepareBasis_office]:
    [... "/directLight0" << k << ".pfm"] for every [k]. *)
Definition loadedName (folderPath roomType : list ascii) (k : Z) : list ascii :=
  folderPath ++ text "/lighting_conditions/office_room/" ++ roomType
  ++ text "/directLight0" ++ show_int k ++ text ".pfm".

End DirectLightFiles.

(** ** mathsFunctions.cpp on the real numbers: the shift of a rotation *)

(** The functions of this module compute on [float] and convert the result
    of [floor] to [int]. They are written here on the real numbers, the
    idealisation of [float] without rounding ([idealReal]); [floor] is
    [Int_part]. *)
Module RealAngles.

#[local] Open Scope R_scope.

(** [moduloRealNumber(number, modulo)]:
    [quotient = floor(number/modulo); result = number-quotient*modulo]. *)
Definition moduloRealNumber (number modulo : R) : R :=
  number - IZR (Int_part (number / modulo)) * modulo.

(** [jOffset] of [rotateLatLongMap]:
    [floor(moduloRealNumber(offset, 2.0*M_PI)/(2.0*M_PI)*width)]. *)
Definition jOffset_rotateLatLongMap (offset : R) (width : Z) : Z :=
  Int_part (moduloRealNumber offset (2 * PI) / (2 * PI) * IZR width).

(** [jOffset] of [computeVoronoiWeightsOR] and of the other integrations:
    [floor(offset*m_envMapWidth/(2.0*M_PI))]. *)
Definition jOffset_computeVoronoiWeights (offset : R) (width : Z) : Z :=
  Int_part (offset * IZR width / (2 * PI)).

(** [offset = (float) 2.0*l*M_PI/m_numberOfOffsets], the angle of rotation
    number [l] in the [relighting] methods. *)
Definition offsetOfRotation (l numberOfOffsets : Z) : R :=
  2 * IZR l * PI / IZR numberOfOffsets.

End RealAngles.

(** ** OfficeRoomRelighting.cpp: the weights from the masks *)

Module WeightsMasks.
Section WithCarrier.
Context {F : Type} {fo : FloatOps F}.

(** The mask that [computeWeightsMasks] reads for lighting condition [k]:
    residualMask.png for the picture of the dark room, the mask of the
    condition otherwise. The masks are [CV_8UC3] images, a channel is a
    byte; [conditionMask k] is the image of condition_mask0k.png
    (condition_maskk.png from 10 on). *)
Definition maskOf (conditionMask : Z -> Mat Z) (residualMask : Mat Z)
    (indirectLightPicture k : Z) : Mat Z :=
  if negb (k =? indirectLightPicture) then conditionMask k else residualMask.

(** [RMask<127.0 && GMask<127.0 && BMask<127.0] on the bytes converted to
    [float]. *)
Definition isBlack (q : Vec3f Z) : bool :=
  (val2 q <? 127) && (val1 q <? 127) && (val0 q <? 127).

(** One pixel of [computeWeightsMasks] for lighting condition [k]. *)
Definition weightPixelMask (environmentMap : Mat F) (currentMask : Mat Z)
    (environmentMapWidth environmentMapHeight jOffset k i : Z)
    (rgbWeights : list (RGB F)) (j : Z) : outcome (list (RGB F)) :=
  let jMod := Voronoi.jModulus environmentMapWidth j jOffset in
  if isBlack (mat_at currentMask i j) then
    let R := val2 (mat_at environmentMap i jMod) in
    let G := val1 (mat_at environmentMap i jMod) in
    let B := val0 (mat_at environmentMap i jMod) in
    if negb (Voronoi.allNaN R G B)
    then vec_update (Voronoi.accumulate R G B (solidAngle i environmentMapHeight))
                    k rgbWeights
    else Ok rgbWeights
  else Ok rgbWeights.

(** [computeWeightsMasks]; [jOffset] is the value of
    [floor(offset*m_environmentMapWidth/(2.0*M_PI))]. The loop over the
    conditions is outside, the scan of the mask inside. *)
Definition computeWeightsMasks
    (numberOfLightingConditions indirectLightPicture : Z)
    (environmentMapWidth environmentMapHeight : Z)
    (conditionMask : Z -> Mat Z) (residualMask : Mat Z)
    (environmentMap : Mat F) (jOffset : Z) : outcome (list (RGB F)) :=
  ofold
    (fun rgbWeights k =>
       let currentMask := maskOf conditionMask residualMask indirectLightPicture k in
       ofold
         (fun rgbWeights i =>
            ofold (weightPixelMask environmentMap currentMask environmentMapWidth
                     environmentMapHeight jOffset k i)
                  (range environmentMapWidth) rgbWeights)
         (range environmentMapHeight) rgbWeights)
    (range numberOfLightingConditions)
    (Voronoi.zeroWeights (Z.to_nat numberOfLightingConditions)).

(** What the pixel (row, column) contributes to condition [k] under the
    mask: nothing unless the mask is black there. *)
Definition maskTerm (environmentMap : Mat F) (currentMask : Mat Z)
    (environmentMapWidth environmentMapHeight jOffset k : Z) (p : Z * Z)
  : option (Z * (F * F * F * F)) :=
  let q := mat_at environmentMap (fst p)
             (Voronoi.jModulus environmentMapWidth (snd p) jOffset) in
  if isBlack (mat_at currentMask (fst p) (snd p)) then
    if Voronoi.allNaN (val2 q) (val1 q) (val0 q) then None
    else Some (k, (val2 q, val1 q, val0 q, solidAngle (fst p) environmentMapHeight))
  else None.

End WithCarrier.
End WeightsMasks.

(** ** OfficeRoomRelighting.cpp: the residual mask *)

(** [prepareMasks] on [CV_8UC3] images of one size, the size of the map
    (OpenCV's bitwise operations work channel by channel on images of the
    same size; other sizes are outside this model). *)
Module PrepareMasks.

(** [~x] on an [uchar]. *)
Definition not8 (x : Z) : Z := Z.lxor x 255.

Definition map_px (f : Z -> Z) (q : Vec3f Z) : Vec3f Z :=
  mkVec3f (f (val0 q)) (f (val1 q)) (f (val2 q)).

Definition map2_px (f : Z -> Z -> Z) (q r : Vec3f Z) : Vec3f Z :=
  mkVec3f (f (val0 q) (val0 r)) (f (val1 q) (val1 r)) (f (val2 q) (val2 r)).

Definition bitwise_not (src : Mat Z) : Mat Z :=
  mkMat (mat_rows src) (mat_cols src) (fun i j => map_px not8 (mat_at src i j)).

Definition bitwise_and (src1 src2 : Mat Z) : Mat Z :=
  mkMat (mat_rows src1) (mat_cols src1)
        (fun i j => map2_px Z.land (mat_at src1 i j) (mat_at src2 i j)).

Definition bitwise_or (src1 src2 : Mat Z) : Mat Z :=
  mkMat (mat_rows src1) (mat_cols src1)
        (fun i j => map2_px Z.lor (mat_at src1 i j) (mat_at src2 i j)).

(** [allMasks = 255.0*Scalar::all(1.0)] *)
Definition white (width height : Z) : Mat Z :=
  mkMat height width (fun _ _ => mkVec3f 255 255 255).

(** First step: the masks of the conditions other than the dark room's,
    assembled by [bitwise_and]. *)
Definition assembleMasks (numberOfLightingConditions indirectLightPicture : Z)
    (width height : Z) (conditionMask : Z -> Mat Z) : Mat Z :=
  fold_left
    (fun allMasks i =>
       if negb (i =? indirectLightPicture)
       then bitwise_and allMasks (conditionMask i)
       else allMasks)
    (range numberOfLightingConditions) (white width height).

(** Second step, on [residualMask], the mask of the picture of the dark
    room, and [allMasks]: the image written to residualMask.png. *)
Definition combine (residualMask allMasks : Mat Z) : Mat Z :=
  let residualMaskNot := bitwise_not residualMask in
  let allMasksNot := bitwise_not allMasks in
  let resultNotAnotB := bitwise_and residualMaskNot allMasksNot in
  let resultAnotB := bitwise_and residualMask allMasksNot in
  let resultAB := bitwise_and residualMask allMasks in
  let intermediateResult := bitwise_or resultNotAnotB resultAnotB in
  bitwise_or intermediateResult resultAB.

Definition prepareMasks (numberOfLightingConditions indirectLightPicture : Z)
    (width height : Z) (conditionMask : Z -> Mat Z) (residualMask : Mat Z) : Mat Z :=
  combine residualMask
    (assembleMasks numberOfLightingConditions indirectLightPicture width height
       conditionMask).

(** The second step on one channel: [a] of [residualMask], [b] of
    [allMasks]. *)
Definition combinedChannel (a b : Z) : Z :=
  Z.lor (Z.lor (Z.land (not8 a) (not8 b)) (Z.land a (not8 b))) (Z.land a b).

(** The channels of an image are bytes. *)
Definition isByte (x : Z) : Prop := 0 <= x < 256.

(** The channels of a pixel, in OpenCV's order: [val[0]], [val[1]],
    [val[2]]. *)
Inductive channel : Set := Blue | Green | Red.

Definition channelOf (c : channel) (q : Vec3f Z) : Z :=
  match c with Blue => val0 q | Green => val1 q | Red => val2 q end.

Definition bytes (m : Mat Z) : Prop :=
  forall i j c, isByte (channelOf c (mat_at m i j)).

(** The checks on all pairs of bytes. *)
Definition allBytes2 (P : Z -> Z -> bool) : bool :=
  forallb (fun a => forallb (P a) (range 256)) (range 256).

End PrepareMasks.

(** ** mathsFunctions.cpp on the real numbers: vectors of weights *)

Module RealVectors.

#[local] Open Scope R_scope.

(** [normalizeWeightsRGB]: the three sums, their greatest, and the division
    of every weight by it when it is not zero. *)
Definition channelSum (channel : RGB R -> R) (rgbWeights : list (RGB R)) : R :=
  fold_left (fun sum w => sum + channel w) rgbWeights 0.

Definition greatestSum (rgbWeights : list (RGB R)) : R :=
  Rmax (channelSum red rgbWeights)
       (Rmax (channelSum green rgbWeights) (channelSum blue rgbWeights)).

Definition normalizeWeightsRGB (rgbWeights : list (RGB R)) : list (RGB R) :=
  let sum := greatestSum rgbWeights in
  if Req_dec_T sum 0 then rgbWeights
  else map (fun w => mkRGB (red w / sum) (green w / sum) (blue w / sum)) rgbWeights.

(** [maxVector]: [maxValue] and [position] after the loop; [position] is
    the value the caller's variable had before the call. *)
Definition maxVector (vec : list R) (position : Z) : R * Z :=
  fold_left
    (fun (st : R * Z) (ix : Z * R) =>
       if Rgt_dec (snd ix) (fst st) then (snd ix, fst ix) else st)
    (combine (range (Z.of_nat (length vec))) vec) (0, position).

End RealVectors.

(** ** mathsFunctions.cpp on the real numbers: the inverse CDF sampling *)

Module RealSampling.

#[local] Open Scope R_scope.

(** [float epsilon = 0.01f] *)
Definition epsilon : R := 1 / 100.

(** [energy<(value+epsilon) && energy>(value-epsilon)] *)
Definition near (energy value : R) : bool :=
  (if Rlt_dec energy (value + epsilon) then true else false)
  && (if Rgt_dec energy (value - epsilon) then true else false).

(** The index [i*width+j] of an array of floats, computed on
    [unsigned int]. *)
Definition index (width i j : Z) : Z := to_unsigned (i * width + j).

(** [inverse2DFunction]: [result] is ([resultI], [resultJ]), as the caller
    has them before the call and as they are after it. The array [f] is a
    function of the index. *)
Definition inverse2DFunction (value : R) (f : Z -> R) (width height : Z)
    (result : Z * Z) : Z * Z :=
  fold_left
    (fun result i =>
       fold_left
         (fun result j => if near (f (index width i j)) value then (i, j) else result)
         (range width) result)
    (range height) result.

(** [uniformSample = (float) k/(numberOfSamples)] *)
Definition uniformSample (k numberOfSamples : Z) : R := IZR k / IZR numberOfSamples.

(** The loop over the samples of [inverseCDFAlgorithm]: the state is
    ([resultI], [resultJ]), which the loop never resets, and the vectors
    [resultsI], [resultsJ] as one list of pairs. *)
Definition sampleStep (cdf : Z -> R) (width height numberOfSamples : Z)
    (st : (Z * Z) * list (Z * Z)) (k : Z) : (Z * Z) * list (Z * Z) :=
  let result :=
    inverse2DFunction (uniformSample k numberOfSamples) cdf width height (fst st) in
  (result, snd st ++ [result]).

Definition inverseCDFSamples (cdf : Z -> R) (width height numberOfSamples : Z)
  : list (Z * Z) :=
  snd (fold_left (sampleStep cdf width height numberOfSamples)
                 (range numberOfSamples) ((0, 0)%Z, [])).

End RealSampling.

(** ** mathsFunctions.cpp on the real numbers: the distribution functions *)

(** [compute2DDistributionFunction] on real numbers extended with one
    not-a-number value, [None]: an operation on a not-a-number gives a
    not-a-number, and a not-a-number differs from 0.0. The arrays [pdf] and
    [cdf] are functions of the index, updated at one index at a time. *)
Module RealDistribution.

#[local] Open Scope R_scope.

Definition float : Type := option R.

Definition lift2 (f : R -> R -> R) (x y : float) : float :=
  match x, y with
  | Some a, Some b => Some (f a b)
  | _, _ => None
  end.

Definition isnan (x : float) : bool :=
  match x with Some _ => false | None => true end.

(** [x != 0.0] *)
Definition notZero (x : float) : bool :=
  match x with
  | Some a => if Req_dec_T a 0 then false else true
  | None => true
  end.

Definition update (a : Z -> float) (k : Z) (x : float) : Z -> float :=
  fun t => if (t =? k)%Z then x else a t.

(** [(pixelR+pixelG+pixelB)/3.0] *)
Definition intensityOf (q : Vec3f float) : float :=
  lift2 Rdiv (lift2 Rplus (lift2 Rplus (val2 q) (val1 q)) (val0 q)) (Some 3).

(** [sin(i*M_PI/height)] *)
Definition sinRow (i height : Z) : float := Some (sin (IZR i * PI / IZR height)).

(** One pixel of the first pair of loops; the state is [pdf] and
    [normalisedConstant]. *)
Definition densityStep (image : Mat float) (width height i : Z)
    (st : (Z -> float) * float) (j : Z) : (Z -> float) * float :=
  let q := mat_at image i j in
  let k := RealSampling.index width i j in
  if negb (isnan (val2 q) && isnan (val1 q) && isnan (val0 q)) then
    let pdf := update (fst st) k (lift2 Rmult (intensityOf q) (sinRow i height)) in
    (pdf, lift2 Rplus (snd st) (pdf k))
  else (update (fst st) k (Some 0), snd st).

(** One pixel of the second pair of loops; the state is [pdf] and [cdf]. *)
Definition cumulativeStep (normalisedConstant : float) (width i : Z)
    (st : (Z -> float) * (Z -> float)) (j : Z) : (Z -> float) * (Z -> float) :=
  let k := RealSampling.index width i j in
  let pdf := update (fst st) k (lift2 Rdiv (fst st k) normalisedConstant) in
  if (i =? 0)%Z && (j =? 0)%Z
  then (pdf, update (snd st) 0 (pdf 0%Z))
  else (pdf, update (snd st) k (lift2 Rplus (snd st (to_unsigned (k - 1))) (pdf k))).

(** [compute2DDistributionFunction]: [pdf] and [cdf] are the arrays as the
    caller allocated them, the result is the two arrays after the call. *)
Definition compute2DDistributionFunction (image : Mat float) (width height : Z)
    (pdf cdf : Z -> float) : (Z -> float) * (Z -> float) :=
  let st :=
    fold_left
      (fun st i => fold_left (densityStep image width height i) (range width) st)
      (range height) (pdf, Some 0) in
  if notZero (snd st) then
    fold_left
      (fun st' i => fold_left (cumulativeStep (snd st) width i) (range width) st')
      (range height) (fst st, cdf)
  else (fst st, cdf).

(** The density of a pixel whose channels are numbers:
    the intensity times the sine of the row. *)
Definition density (image : Mat float) (height : Z) (p : Z * Z) : R :=
  match lift2 Rmult (intensityOf (mat_at image (fst p) (snd p))) (sinRow (fst p) height) with
  | Some x => x
  | None => 0
  end.

(** A pixel with three numbers as channels. *)
Definition numeric (q : Vec3f float) : Prop :=
  exists r g b, q = mkVec3f (Some b) (Some g) (Some r).

(** The sum of a list of reals, added from the left as the loops do. *)
Definition sumLeft (l : list R) : R := fold_left Rplus l 0.

End RealDistribution.

(** ** mathsFunctions.cpp on the real numbers: directions of the lights *)

(** [atan2] is not among the functions of the real-number library; the
    conversion is written for any function in its place, since only
    [moduloRealNumber] of its value is used. A direction is the triple of
    the three floats of one line of light_directions.txt. *)
Module RealDirections.
Section WithAtan2.
#[local] Open Scope R_scope.
Variable atan2 : R -> R -> R.

(** [cartesianToSpherical]: ([r], [theta], [phi]). *)
Definition cartesianToSpherical (x y z : R) : R * R * R :=
  let r := sqrt (x * x + y * y + z * z) in
  (r, acos (y / r), RealAngles.moduloRealNumber (atan2 x z) (2 * PI)).

(** One point of [cartesianToLatLongVector2i]:
    [Point2i(floor((float) width*phi/(2.0*M_PI)), floor((float) height*theta/M_PI))]. *)
Definition latLongPoint (width height : Z) (direction : R * R * R) : Point2i :=
  let theta := snd (fst (cartesianToSpherical (fst (fst direction)) (snd (fst direction))
                           (snd direction))) in
  let phi := snd (cartesianToSpherical (fst (fst direction)) (snd (fst direction))
                    (snd direction)) in
  mkPoint (Int_part (IZR width * phi / (2 * PI))) (Int_part (IZR height * theta / PI)).

Definition cartesianToLatLongVector2i (cartesianVector : list (R * R * R))
    (width height : Z) : list Point2i :=
  map (latLongPoint width height) cartesianVector.

End WithAtan2.
End RealDirections.

(** ** relighting.cpp: the linear combination *)

(** [computeFinalRelighting] on a reflectance field whose images have one
    size. [m_reflectanceField] and [m_weightsRGB] are indexed without a
    check. *)
Module Relighting.
Section WithCarrier.
Context {F : Type} {fo : FloatOps F}.

(** [channel[0] *= w[2]; channel[1] *= w[1]; channel[2] *= w[0]] on one
    pixel: [val0] is blue. *)
Definition weighted (w : RGB F) (q : Vec3f F) : Vec3f F :=
  mkVec3f (fmul (val0 q) (blue w)) (fmul (val1 q) (green w)) (fmul (val2 q) (red w)).

Definition addPixel (q r : Vec3f F) : Vec3f F :=
  mkVec3f (fadd (val0 q) (val0 r)) (fadd (val1 q) (val1 r)) (fadd (val2 q) (val2 r)).

(** [Mat::zeros(rows, cols, CV_32FC3)] *)
Definition zeros (rows cols : Z) : Mat F :=
  mkMat rows cols (fun _ _ => mkVec3f fzero fzero fzero).

(** [m_relitResult += currentImage] with [currentImage] the image scaled by
    the weights. *)
Definition addWeighted (relitResult : Mat F) (w : RGB F) (image : Mat F) : Mat F :=
  mkMat (mat_rows relitResult) (mat_cols relitResult)
        (fun i j => addPixel (mat_at relitResult i j) (weighted w (mat_at image i j))).

Definition computeFinalRelighting (reflectanceField : list (Mat F))
    (weightsRGB : list (RGB F)) (numberOfLightingConditions : Z) : outcome (Mat F) :=
  first ← vec_get 0 reflectanceField;
  ofold
    (fun relitResult i =>
       image ← vec_get i reflectanceField;
       w ← vec_get i weightsRGB;
       Ok (addWeighted relitResult w image))
    (range numberOfLightingConditions)
    (zeros (mat_rows first) (mat_cols first)).

(** The sum of the first [n] weighted images at one pixel, added from zero
    in the order of the lighting conditions. *)
Definition pixelSum (reflectanceField : list (Mat F)) (weightsRGB : list (RGB F))
    (n : nat) (i j : Z) : Vec3f F :=
  fold_left
    (fun q k =>
       match reflectanceField !! k, weightsRGB !! k with
       | Some image, Some w => addPixel q (weighted w (mat_at image i j))
       | _, _ => q
       end)
    (seq 0 n) (mkVec3f fzero fzero fzero).

End WithCarrier.
End Relighting.

(** ** OfficeRoomRelighting.cpp: one rotation of [relighting] *)

(** The body of the loop over the offsets in [OfficeRoomRelighting::relighting]
    when no optimisation is selected, up to [computeFinalRelighting], on
    the real numbers: the weights, their normalisation and the linear
    combination. The strings [m_lightType] and [m_identificationMethod] are
    the cases that the code compares them with. *)
Module OfficeRoomIteration.

Inductive LightType : Set := Gaussian | Point | OtherLightType.
Inductive IdentificationMethod : Set := Masks | OtherMethod.

Section WithOpenCV.
Context {cv : OpenCV}.

(** [m_voronoi] and [m_weightsRGB]. *)
Record t : Type := mk {
  voronoi : Voronoi.t R;
  weightsRGB : list (RGB R)
}.

Definition computeWeights (lightType : LightType)
    (identificationMethod : IdentificationMethod)
    (numberOfLightingConditions indirectLightPicture : Z)
    (environmentMapWidth environmentMapHeight : Z)
    (conditionMask : Z -> Mat Z) (residualMask : Mat Z)
    (environmentMap : Mat R) (offset : R) (st : t) : outcome t :=
  match lightType with
  | Gaussian =>
      let v := Voronoi.clearWeights (voronoi st) in
      Ok (mk v (Voronoi.m_rgbWeights v))
  | Point =>
      match identificationMethod with
      | Masks =>
          w ← WeightsMasks.computeWeightsMasks (fo := idealReal)
                numberOfLightingConditions indirectLightPicture
                environmentMapWidth environmentMapHeight conditionMask residualMask
                environmentMap
                (RealAngles.jOffset_computeVoronoiWeights offset environmentMapWidth);
          Ok (mk (voronoi st) w)
      | OtherMethod =>
          v ← Voronoi.computeVoronoiWeightsOR (fo := idealReal) environmentMap
                (RealAngles.jOffset_computeVoronoiWeights offset
                   (Voronoi.m_envMapWidth (voronoi st)))
                (Voronoi.clearWeights (voronoi st));
          Ok (mk v (Voronoi.m_rgbWeights v))
      end
  | OtherLightType => Ok st
  end.

Definition relightingIteration (lightType : LightType)
    (identificationMethod : IdentificationMethod)
    (numberOfLightingConditions indirectLightPicture : Z)
    (environmentMapWidth environmentMapHeight : Z)
    (conditionMask : Z -> Mat Z) (residualMask : Mat Z)
    (environmentMap : Mat R) (reflectanceField : list (Mat R))
    (offset : R) (st : t) : outcome (t * Mat R) :=
  st1 ← computeWeights lightType identificationMethod numberOfLightingConditions
          indirectLightPicture environmentMapWidth environmentMapHeight
          conditionMask residualMask environmentMap offset st;
  let w := RealVectors.normalizeWeightsRGB (weightsRGB st1) in
  relitResult ← Relighting.computeFinalRelighting (fo := idealReal) reflectanceField w
                  numberOfLightingConditions;
  Ok (mk (voronoi st1) w, relitResult).

End WithOpenCV.
End OfficeRoomIteration.

(** ** loadFiles.cpp: [readFile] *)

(** [readFile] on the words of the file; [atof] is the conversion of a word
    to a float, the same for every carrier of the floats. *)
Module ReadFile.
Section WithAtof.
Context {F : Type}.
Variable atof : list ascii -> F.

(** [components[i].push_back(x)] *)
Definition pushValue (x : F) (i : Z) (components : list (list F))
  : outcome (list (list F)) :=
  vec_update (fun values => values ++ [x]) i components.

(** One round of the loop once [lightNumber] is read: an empty vector is
    pushed at the end of [components], and the three values go to
    [components[i]]. *)
Definition round (value1 value2 value3 : list ascii) (i : Z)
    (components : list (list F)) : outcome (list (list F)) :=
  c1 ← pushValue (atof value1) i (components ++ [[]]);
  c2 ← pushValue (atof value2) i c1;
  pushValue (atof value3) i c2.

(** The loop [while(file >> lightNumber)] on the words left in the file; an
    extraction that fails at the end of the file leaves [value1], [value2]
    or [value3] as the previous round set it. *)
Fixpoint readLines (value1 value2 value3 : list ascii) (i : Z)
    (ws : list (list ascii)) (components : list (list F))
  : outcome (list (list F)) :=
  match ws with
  | [] => Ok components
  | _lightNumber :: [] => round value1 value2 value3 i components
  | _lightNumber :: v1 :: [] => round v1 value2 value3 i components
  | _lightNumber :: v1 :: v2 :: [] => round v1 v2 value3 i components
  | _lightNumber :: v1 :: v2 :: v3 :: rest =>
      c ← round v1 v2 v3 i components;
      readLines v1 v2 v3 (i + 1) rest c
  end.

(** [readFile]; [file] is the content of the file, [None] when it cannot be
    opened. *)
Definition readFile (file : option (list ascii)) (components : list (list F))
  : outcome (list (list F)) :=
  match file with
  | Some content => readLines [] [] [] 0 (BasisFile.words content) components
  | None => Ok components
  end.

(** The words of a complete line and the vector read from it. *)
Definition lineWords (l : list ascii * (list ascii * list ascii * list ascii))
  : list (list ascii) :=
  [fst l; fst (fst (snd l)); snd (fst (snd l)); snd (snd l)].

Definition lineValues (l : list ascii * (list ascii * list ascii * list ascii))
  : list F :=
  [atof (fst (fst (snd l))); atof (snd (fst (snd l))); atof (snd (snd l))].

End WithAtof.
End ReadFile.

(** ** Specification of the manual identification *)

(** Left clicks at the given positions. *)
Definition leftClicks (positions : list Point2i)
  : list (ManualSelection.MouseEvent * Z * Z) :=
  map (fun q => (ManualSelection.EVENT_LBUTTONDOWN, px q, py q)) positions.

(** The number of lights clicked on the pictures before picture [i]. *)
Definition clickedBefore (clicks : list (list Point2i)) (i : nat) : nat :=
  length (concat (take i clicks)).

(** The groups that the loop on the pictures opens from the cell number
    [start], one per picture, for the numbers of lights clicked. *)
Fixpoint groupsOf (start : Z) (clicks : list (list Point2i)) : list (list Z) :=
  match clicks with
  | [] => []
  | l :: rest =>
      ManualSelection.cellsForImage start (Z.of_nat (length l))
      :: groupsOf (start + Z.of_nat (length l)) rest
  end.

(** ** Example data *)

(** The 4x3 map of [smallVoronoi] with the position (1,1) held twice. *)
Definition twiceVoronoi : Voronoi.t (option Z) :=
  Voronoi.mk
    (LightingBasis.mk [mkPoint 1 1; mkPoint 3 2; mkPoint 1 1] [] false 3 0)
    [] (mkSubdiv 4 3 [mkPoint 1 1; mkPoint 3 2]) [[0]; [1]; [2]] [] 4 3.

(** Clicks on three pictures of the 4x3 map: one light, none, two. *)
Definition threePictures : list (list Point2i) :=
  [[mkPoint 1 1]; []; [mkPoint 3 2; mkPoint 0 0]].

(** An image of one column and two rows whose channels are all [x]. *)
Definition greyColumn (x : R) : Mat RealDistribution.float :=
  mkMat 2 1 (fun _ _ => mkVec3f (Some x) (Some x) (Some x)).

(** A 2x3 image whose red channel is not a number on column 0, the other
    channels being 1. *)
Definition nanRedMap : Mat (option Z) :=
  mkMat 2 3 (fun i j => mkVec3f (Some 1) (Some 1) (if j =? 0 then None else Some 1)).

(** The masks that are black on one column each, for the 3x2 example. *)
Definition columnMask (k : Z) : Mat Z :=
  mkMat 2 3 (fun i j => if j =? k then mkVec3f 0 0 0 else mkVec3f 255 255 255).
(** * Theorems *)

(** ** Loops *)

Lemma range_length n : length (range n) = Z.to_nat n.
Proof. unfold range. now rewrite length_map, length_seq. Qed.

Lemma range_In n k : In k (range n) <-> 0 <= k < n.
Proof.
  unfold range. rewrite in_map_iff. split.
  - intros (m & <- & Hm). apply in_seq in Hm. lia.
  - intros Hk. exists (Z.to_nat k). split; [lia|]. apply in_seq. lia.
Qed.

Lemma ofold_app {A St} (f : St -> A -> outcome St) l1 l2 s :
  ofold f (l1 ++ l2) s = (s' ← ofold f l1 s; ofold f l2 s').
Proof.
  revert s. induction l1 as [|a l1 IH]; intros s; simpl; [reflexivity|].
  destruct (f s a); simpl; auto.
Qed.

(** A loop whose body keeps an invariant indexed by the number of rounds
    never fails and ends in the invariant; the body is told which element of
    the list it is given. *)
Lemma ofold_invariant_nth {A St} (f : St -> A -> outcome St) (I : nat -> St -> Prop) l :
  forall s,
    I 0%nat s ->
    (forall n s a, l !! n = Some a -> I n s -> exists s', f s a = Ok s' /\ I (S n) s') ->
    exists s', ofold f l s = Ok s' /\ I (length l) s'.
Proof.
  revert I. induction l as [|a l IH]; intros I s H0 Hstep.
  - exists s. split; [reflexivity|exact H0].
  - destruct (Hstep 0%nat s a eq_refl H0) as (s1 & Hs1 & HI1).
    destruct (IH (fun n => I (S n)) s1 HI1) as (s2 & Hs2 & HI2).
    + intros n s' b Hb Hn. apply (Hstep (S n)); [exact Hb|exact Hn].
    + exists s2. split; [|exact HI2]. simpl. rewrite Hs1. exact Hs2.
Qed.

Lemma ofold_invariant {A St} (f : St -> A -> outcome St) (I : nat -> St -> Prop) l :
  forall s,
    I 0%nat s ->
    (forall n s a, In a l -> I n s -> exists s', f s a = Ok s' /\ I (S n) s') ->
    exists s', ofold f l s = Ok s' /\ I (length l) s'.
Proof.
  intros s H0 Hstep. apply ofold_invariant_nth; [exact H0|].
  intros n s' a Ha. apply Hstep, list_elem_of_In.
  eapply list_elem_of_lookup_2. exact Ha.
Qed.

Lemma ofold_ext_In {A St} (f g : St -> A -> outcome St) l s :
  (forall s a, In a l -> f s a = g s a) -> ofold f l s = ofold g l s.
Proof.
  revert s. induction l as [|a l IH]; intros s Hfg; simpl; [reflexivity|].
  rewrite (Hfg s a (or_introl eq_refl)).
  destruct (g s a); simpl; auto.
  apply IH. intros s' b Hb. apply Hfg. now right.
Qed.

Lemma ofold_map {A B St} (f : St -> B -> outcome St) (g : A -> B) l s :
  ofold f (map g l) s = ofold (fun s a => f s (g a)) l s.
Proof.
  revert s. induction l as [|a l IH]; intros s; simpl; [reflexivity|].
  destruct (f s (g a)); simpl; auto.
Qed.

(** Two nested loops are one loop on the pairs of indices. *)
Lemma ofold_nested {St} (body : Z -> St -> Z -> outcome St) rows cols s :
  ofold (fun s i => ofold (body i) cols s) rows s
  = ofold (fun s p => body (fst p) s (snd p))
          (flat_map (fun i => map (fun j => (i, j)) cols) rows) s.
Proof.
  revert s. induction rows as [|i rows IH]; intros s; simpl; [reflexivity|].
  rewrite ofold_app, ofold_map. simpl.
  destruct (ofold (body i) cols s); simpl; auto.
Qed.

Lemma fold_left_nested {St} (body : Z -> St -> Z -> St) rows cols s :
  fold_left (fun s i => fold_left (body i) cols s) rows s
  = fold_left (fun s p => body (fst p) s (snd p))
              (flat_map (fun i => map (fun j => (i, j)) cols) rows) s.
Proof.
  revert s. induction rows as [|i rows IH]; intros s; simpl; [reflexivity|].
  rewrite fold_left_app, IH. f_equal.
  clear IH. revert s. induction cols as [|j cols IHc]; intros s; simpl; auto.
Qed.

(** ** Vectors *)

Lemma sumZ_insert (l : list Z) (i : nat) (a b : Z) :
  l !! i = Some a -> sumZ (<[i := b]> l) = sumZ l - a + b.
Proof.
  revert i. induction l as [|x l IH]; intros [|i] Hi; simpl in *; try discriminate.
  - injection Hi as ->. lia.
  - rewrite (IH i Hi). lia.
Qed.

Lemma sumZ_replicate n : sumZ (replicate n 0) = 0.
Proof. induction n; simpl; auto. Qed.

Lemma vec_update_Ok {A} (f : A -> A) (i : Z) (v : list A) :
  0 <= i < Z.of_nat (length v) ->
  exists a, v !! Z.to_nat i = Some a /\ vec_update f i v = Ok (<[Z.to_nat i := f a]> v).
Proof.
  intros Hi. unfold vec_update.
  destruct (Z.leb_spec 0 i); [|lia].
  destruct (lookup_lt_is_Some_2 v (Z.to_nat i)) as [a Ha]; [lia|].
  exists a. now rewrite Ha.
Qed.

Lemma vec_update_fault {A} (f : A -> A) (i : Z) (v : list A) :
  i < 0 \/ Z.of_nat (length v) <= i -> vec_update f i v = OutOfBounds i.
Proof.
  intros Hi. unfold vec_update.
  destruct (Z.leb_spec 0 i); [|reflexivity].
  rewrite (lookup_ge_None_2 v (Z.to_nat i)); [reflexivity|lia].
Qed.

(** ** The nearest light source *)

Section Nearest.
Context {F : Type} {fo : FloatOps F} {cv : OpenCV}.

Lemma findLightSource_from_In i positions x y :
  In (mkPoint x y) positions ->
  i <= Voronoi.findLightSource_from i positions x y < i + Z.of_nat (length positions).
Proof.
  revert i. induction positions as [|p rest IH]; intros i Hin; [destruct Hin|].
  simpl. destruct ((px p =? x) && (py p =? y)) eqn:E; [lia|].
  destruct Hin as [->|Hin]; [simpl in E; rewrite !Z.eqb_refl in E; discriminate|].
  specialize (IH (i + 1) Hin). lia.
Qed.

Lemma findLightSource_from_cases i positions x y :
  Voronoi.findLightSource_from i positions x y = -1
  \/ i <= Voronoi.findLightSource_from i positions x y < i + Z.of_nat (length positions).
Proof.
  revert i. induction positions as [|p rest IH]; intros i; simpl; [now left|].
  destruct ((px p =? x) && (py p =? y)); [right; lia|].
  destruct (IH (i + 1)) as [->|]; [now left|right; lia].
Qed.

Lemma findLightSource_from_nth i positions x y :
  0 <= i ->
  Voronoi.findLightSource_from i positions x y <> -1 ->
  positions !! Z.to_nat (Voronoi.findLightSource_from i positions x y - i)
    = Some (mkPoint x y).
Proof.
  revert i. induction positions as [|p rest IH]; intros i Hi; simpl; [congruence|].
  destruct ((px p =? x) && (py p =? y)) eqn:E.
  - intros _. replace (i - i) with 0 by lia. simpl.
    apply andb_true_iff in E as [Ex Ey]. apply Z.eqb_eq in Ex, Ey.
    destruct p; simpl in *; now subst.
  - intros Hne. specialize (IH (i + 1) ltac:(lia) Hne).
    pose proof (findLightSource_from_cases (i + 1) rest x y) as [Hc|Hc]; [contradiction|].
    replace (Z.to_nat (Voronoi.findLightSource_from (i + 1) rest x y - i))
      with (S (Z.to_nat (Voronoi.findLightSource_from (i + 1) rest x y - (i + 1))))
      by lia.
    exact IH.
Qed.

(** With a subdivision that holds the points of a non-empty basis, every
    pixel has a cell, and the cell is an index of the basis. *)
Lemma findNearestLightSource_cell (v : Voronoi.t F) x y :
  nearest_contract cv -> consistent v ->
  1 <= LightingBasis.numberOfPointLights (Voronoi.m_basis v) ->
  0 <= Voronoi.findNearestLightSource v x y
    < LightingBasis.numberOfPointLights (Voronoi.m_basis v).
Proof.
  intros Hcv (Hn & Hsites & _) Hone.
  unfold Voronoi.findNearestLightSource, Voronoi.findLightSource.
  destruct (Hcv (sub_vertices (Voronoi.m_voronoiSubdivision v)) (mkPoint x y))
    as (p & -> & Hp).
  - intros Hnil.
    destruct (LightingBasis.pointLightSourcePosition (Voronoi.m_basis v)) as [|q l] eqn:E.
    + simpl in Hn. lia.
    + assert (Hq : In q (sub_vertices (Voronoi.m_voronoiSubdivision v)))
        by (apply Hsites; now left).
      rewrite Hnil in Hq. destruct Hq.
  - apply Hsites in Hp. rewrite Hn.
    destruct p as [a b]; simpl.
    pose proof (findLightSource_from_In 0 _ a b Hp). lia.
Qed.

End Nearest.

(** ** The pixel counts of a consistent partition *)

Section Coverage.
Context {F : Type} {fo : FloatOps F} {cv : OpenCV}.
Variable v : Voronoi.t F.
Hypothesis Hcv : nearest_contract cv.
Hypothesis Hcons : consistent v.
Hypothesis Hone : 1 <= LightingBasis.numberOfPointLights (Voronoi.m_basis v).

Let N := Z.to_nat (LightingBasis.numberOfPointLights (Voronoi.m_basis v)).

Lemma countPixel_counts j i counts :
  length counts = N ->
  exists counts', Voronoi.countPixel v j counts i = Ok counts'
                  /\ length counts' = N /\ sumZ counts' = sumZ counts + 1.
Proof.
  intros Hlen. unfold Voronoi.countPixel.
  pose proof (findNearestLightSource_cell v j i Hcv Hcons Hone) as Hc.
  destruct (Z.eqb_spec (Voronoi.findNearestLightSource v j i) (-1)); [lia|].
  destruct (vec_update_Ok (fun n => n + 1) (Voronoi.findNearestLightSource v j i) counts)
    as (a & Ha & ->); [unfold N in Hlen; lia|].
  eexists. split; [reflexivity|]. split.
  - now rewrite length_insert.
  - rewrite (sumZ_insert _ _ a _ Ha). lia.
Qed.

Lemma countColumn_counts j counts :
  length counts = N ->
  exists counts',
    ofold (Voronoi.countPixel v j) (range (Voronoi.m_envMapHeight v)) counts = Ok counts'
    /\ length counts' = N
    /\ sumZ counts' = sumZ counts + Z.of_nat (Z.to_nat (Voronoi.m_envMapHeight v)).
Proof.
  intros Hlen.
  destruct (ofold_invariant (Voronoi.countPixel v j)
              (fun n c => length c = N /\ sumZ c = sumZ counts + Z.of_nat n)
              (range (Voronoi.m_envMapHeight v)) counts) as (c' & Hc' & Hl & Hs).
  - split; [exact Hlen|simpl; lia].
  - intros n c i _ (Hl & Hs).
    destruct (countPixel_counts j i c Hl) as (c' & -> & Hl' & Hs').
    exists c'. repeat split; auto. lia.
  - exists c'. rewrite range_length in Hs. auto.
Qed.

Lemma countPixels_counts :
  exists counts',
    Voronoi.countPixels v (replicate N 0) = Ok counts'
    /\ length counts' = N
    /\ sumZ counts' = Z.of_nat (Z.to_nat (Voronoi.m_envMapWidth v))
                      * Z.of_nat (Z.to_nat (Voronoi.m_envMapHeight v)).
Proof.
  unfold Voronoi.countPixels.
  destruct (ofold_invariant
              (fun counts j => ofold (Voronoi.countPixel v j)
                                     (range (Voronoi.m_envMapHeight v)) counts)
              (fun n c => length c = N
                          /\ sumZ c = Z.of_nat n
                                      * Z.of_nat (Z.to_nat (Voronoi.m_envMapHeight v)))
              (range (Voronoi.m_envMapWidth v)) (replicate N 0)) as (c' & Hc' & Hl & Hs).
  - split; [apply length_replicate|rewrite sumZ_replicate; lia].
  - intros n c j _ (Hl & Hs).
    destruct (countColumn_counts j c Hl) as (c' & -> & Hl' & Hs').
    exists c'. repeat split; auto. lia.
  - exists c'. rewrite range_length in Hs. auto.
Qed.

End Coverage.

(** ** The rebuild never indexes outside the counts *)

Section Rebuild.
Context {F : Type} {fo : FloatOps F} {cv : OpenCV}.

Lemma findNearestLightSource_cases (v : Voronoi.t F) x y :
  Voronoi.findNearestLightSource v x y = -1
  \/ 0 <= Voronoi.findNearestLightSource v x y
     < Z.of_nat (length (LightingBasis.pointLightSourcePosition (Voronoi.m_basis v))).
Proof.
  unfold Voronoi.findNearestLightSource, Voronoi.findLightSource.
  match goal with |- context [Voronoi.findLightSource_from 0 ?l ?a ?b] =>
    destruct (findLightSource_from_cases 0 l a b) as [Hc|Hc] end; [now left|right; lia].
Qed.

Lemma numberOfPixelsPerVoronoiCell_total (v : Voronoi.t F) :
  LightingBasis.numberOfPointLights (Voronoi.m_basis v)
    = Z.of_nat (length (LightingBasis.pointLightSourcePosition (Voronoi.m_basis v))) ->
  exists counts,
    Voronoi.numberOfPixelsPerVoronoiCell v = Ok (Voronoi.set_counts counts v).
Proof.
  intros Hn. unfold Voronoi.numberOfPixelsPerVoronoiCell, Voronoi.countPixels.
  set (N := Z.to_nat (LightingBasis.numberOfPointLights (Voronoi.m_basis v))).
  assert (Hpix : forall j i c, length c = N ->
             exists c', Voronoi.countPixel v j c i = Ok c' /\ length c' = N).
  { intros j i c Hl. unfold Voronoi.countPixel.
    destruct (Z.eqb_spec (Voronoi.findNearestLightSource v j i) (-1)); [eauto|].
    destruct (findNearestLightSource_cases v j i) as [|Hc]; [contradiction|].
    destruct (vec_update_Ok (fun k => k + 1) (Voronoi.findNearestLightSource v j i) c)
      as (a & _ & ->); [unfold N in Hl; lia|].
    eexists; split; [reflexivity|]. now rewrite length_insert. }
  destruct (ofold_invariant
              (fun counts j => ofold (Voronoi.countPixel v j)
                                     (range (Voronoi.m_envMapHeight v)) counts)
              (fun _ c => length c = N)
              (range (Voronoi.m_envMapWidth v)) (replicate N 0)) as (c' & -> & _).
  - apply length_replicate.
  - intros _ c j _ Hl.
    destruct (ofold_invariant (Voronoi.countPixel v j) (fun _ c => length c = N)
                (range (Voronoi.m_envMapHeight v)) c Hl) as (c' & Hc' & Hl'); [|eauto].
    intros _ c0 i _ Hl0. apply Hpix, Hl0.
  - exists c'. reflexivity.
Qed.

End Rebuild.

(** ** C4: the bounds check of addPointLight *)

(** For an [int] coordinate and an extent that fits an [int], the comparison
    after conversion to [unsigned int] is the test of the extent. *)
Lemma lt_int_uint_spec x u :
  INT_MIN <= x <= INT_MAX -> 0 <= u <= INT_MAX ->
  lt_int_uint x u = true <-> 0 <= x < u.
Proof.
  unfold lt_int_uint, to_unsigned, UINT_MOD, INT_MIN, INT_MAX. intros Hx Hu.
  rewrite Z.ltb_lt. destruct (Z_lt_le_dec x 0) as [Hneg|Hpos].
  - replace x with ((x + 2 ^ 32) + (-1) * 2 ^ 32) by lia.
    rewrite Z.mod_add by lia. rewrite Z.mod_small by lia. lia.
  - rewrite Z.mod_small by lia. lia.
Qed.

Lemma Point2i_eqb_eq p q : Point2i_eqb p q = true <-> p = q.
Proof.
  unfold Point2i_eqb. rewrite andb_true_iff, !Z.eqb_eq.
  destruct p, q; simpl. split; [intros [-> ->]; reflexivity|intros [= -> ->]; auto].
Qed.

Lemma Subdiv2D_insert_inside (s : Subdiv2D) p :
  insideMap (sub_width s) (sub_height s) p ->
  exists s', Subdiv2D_insert s p = Ok s'
             /\ sub_width s' = sub_width s /\ sub_height s' = sub_height s
             /\ (forall q, In q (sub_vertices s') <-> In q (sub_vertices s) \/ q = p).
Proof.
  intros [[Hx0 Hx1] [Hy0 Hy1]]. unfold Subdiv2D_insert.
  destruct (Z.leb_spec 0 (px p)); [|lia]. destruct (Z.ltb_spec (px p) (sub_width s)); [|lia].
  destruct (Z.leb_spec 0 (py p)); [|lia]. destruct (Z.ltb_spec (py p) (sub_height s)); [|lia].
  simpl. eexists. split; [reflexivity|].
  destruct (existsb (Point2i_eqb p) (sub_vertices s)) eqn:E; simpl.
  - split; [reflexivity|]. split; [reflexivity|]. intros q. split; [tauto|].
    intros [Hq| ->]; [exact Hq|].
    apply existsb_exists in E as (r & Hr & Heq). apply Point2i_eqb_eq in Heq. now subst.
  - split; [reflexivity|]. split; [reflexivity|]. intros q.
    rewrite in_app_iff. simpl. split; [intros [Hq|[<-|[]]]; auto|].
    intros [Hq| ->]; [now left|right; now left].
Qed.

Section AddPointLight.
Context {F : Type} {cv : OpenCV}.
Variable v : Voronoi.t F.
Variable p : Point2i.
Hypothesis Hcons : consistent v.
Hypothesis HW : 0 <= Voronoi.m_envMapWidth v <= INT_MAX.
Hypothesis HH : 0 <= Voronoi.m_envMapHeight v <= INT_MAX.
Hypothesis Hx : INT_MIN <= px p <= INT_MAX.
Hypothesis Hy : INT_MIN <= py p <= INT_MAX.

Lemma addPointLight_outside :
  ~ insideMap (Voronoi.m_envMapWidth v) (Voronoi.m_envMapHeight v) p ->
  exists v', Voronoi.addPointLight p v = Ok v'
             /\ Voronoi.m_basis v' = Voronoi.m_basis v
             /\ Voronoi.m_voronoiSubdivision v' = Voronoi.m_voronoiSubdivision v.
Proof.
  pose proof (lt_int_uint_spec (px p) _ Hx HW) as Gx.
  pose proof (lt_int_uint_spec (py p) _ Hy HH) as Gy.
  destruct Hcons as (Hn & Hsites & Hsw & Hsh).
  intros Hin. unfold Voronoi.addPointLight.
  assert (E : lt_int_uint (px p) (Voronoi.m_envMapWidth v)
              && lt_int_uint (py p) (Voronoi.m_envMapHeight v) = false).
  { apply andb_false_iff. unfold insideMap in Hin.
    destruct (lt_int_uint (px p) (Voronoi.m_envMapWidth v)) eqn:Ex; [|now left].
    destruct (lt_int_uint (py p) (Voronoi.m_envMapHeight v)) eqn:Ey; [|now right].
    exfalso. apply Hin. tauto. }
  rewrite E. simpl.
  destruct (numberOfPixelsPerVoronoiCell_total v Hn) as (c & Hc).
  unfold mbind, outcome_bind. simpl. rewrite Hc. eexists. split; [reflexivity|]. simpl. auto.
Qed.

Lemma addPointLight_inside :
  insideMap (Voronoi.m_envMapWidth v) (Voronoi.m_envMapHeight v) p ->
  exists v', Voronoi.addPointLight p v = Ok v'
             /\ LightingBasis.pointLightSourcePosition (Voronoi.m_basis v')
                = LightingBasis.pointLightSourcePosition (Voronoi.m_basis v) ++ [p]
             /\ LightingBasis.numberOfPointLights (Voronoi.m_basis v')
                = LightingBasis.numberOfPointLights (Voronoi.m_basis v) + 1
             /\ In p (sub_vertices (Voronoi.m_voronoiSubdivision v'))
             /\ consistent v'
             /\ Voronoi.m_envMapWidth v' = Voronoi.m_envMapWidth v
             /\ Voronoi.m_envMapHeight v' = Voronoi.m_envMapHeight v.
Proof.
  pose proof (lt_int_uint_spec (px p) _ Hx HW) as Gx.
  pose proof (lt_int_uint_spec (py p) _ Hy HH) as Gy.
  destruct Hcons as (Hn & Hsites & Hsw & Hsh).
  intros Hin. unfold Voronoi.addPointLight.
  assert (E : lt_int_uint (px p) (Voronoi.m_envMapWidth v)
              && lt_int_uint (py p) (Voronoi.m_envMapHeight v) = true).
  { apply andb_true_iff. unfold insideMap in Hin. tauto. }
  rewrite E.
  destruct (Subdiv2D_insert_inside (Voronoi.m_voronoiSubdivision v) p)
    as (s' & Hs' & Hw' & Hh' & Hv'); [now rewrite Hsw, Hsh|].
  rewrite Hs'. unfold mbind, outcome_bind. simpl.
  set (v1 := Voronoi.set_basis_subdiv _ s' v).
  assert (Hn1 : LightingBasis.numberOfPointLights (Voronoi.m_basis v1)
                = Z.of_nat (length (LightingBasis.pointLightSourcePosition
                                      (Voronoi.m_basis v1)))).
  { simpl. rewrite length_app. simpl. lia. }
  destruct (numberOfPixelsPerVoronoiCell_total v1 Hn1) as (c & Hc).
  rewrite Hc. eexists. split; [reflexivity|]. simpl.
  split; [reflexivity|]. split; [reflexivity|]. split; [apply Hv'; now right|].
  split; [|split; reflexivity].
  unfold consistent. simpl.
  split; [rewrite length_app; simpl; lia|]. split; [|split; congruence].
  intros q. rewrite in_app_iff, Hv', Hsites. simpl.
  split; [intros [Hq| ->]; auto|intros [Hq|[<-|[]]]; auto].
Qed.

End AddPointLight.

(** C4. [Voronoi::addPointLight] on a position outside the map extent returns
    normally with the basis (positions and count) and the subdivision as they
    were; on a position inside the extent it returns normally with the
    position appended to the basis, the count one higher and the position a
    vertex of the subdivision. *)
Theorem C4_addPointLight_bounds_checked :
  forall (F : Type) (cv : OpenCV) (v : Voronoi.t F) (p : Point2i),
    consistent v ->
    0 <= Voronoi.m_envMapWidth v <= INT_MAX ->
    0 <= Voronoi.m_envMapHeight v <= INT_MAX ->
    INT_MIN <= px p <= INT_MAX -> INT_MIN <= py p <= INT_MAX ->
    (~ insideMap (Voronoi.m_envMapWidth v) (Voronoi.m_envMapHeight v) p ->
       exists v', Voronoi.addPointLight p v = Ok v'
                  /\ Voronoi.m_basis v' = Voronoi.m_basis v
                  /\ Voronoi.m_voronoiSubdivision v' = Voronoi.m_voronoiSubdivision v)
    /\ (insideMap (Voronoi.m_envMapWidth v) (Voronoi.m_envMapHeight v) p ->
       exists v', Voronoi.addPointLight p v = Ok v'
                  /\ LightingBasis.pointLightSourcePosition (Voronoi.m_basis v')
                     = LightingBasis.pointLightSourcePosition (Voronoi.m_basis v) ++ [p]
                  /\ LightingBasis.numberOfPointLights (Voronoi.m_basis v')
                     = LightingBasis.numberOfPointLights (Voronoi.m_basis v) + 1
                  /\ In p (sub_vertices (Voronoi.m_voronoiSubdivision v'))
                  /\ consistent v').
Proof.
  intros F cv v p Hcons HW HH Hx Hy. split.
  - now apply addPointLight_outside.
  - intros Hin.
    destruct (addPointLight_inside v p Hcons HW HH Hx Hy Hin)
      as (v' & H1 & H2 & H3 & H4 & H5 & _).
    exists v'. auto.
Qed.

Lemma addPointLights_positions ps b :
  LightingBasis.pointLightSourcePosition (LightingBasis.addPointLights ps b)
    = LightingBasis.pointLightSourcePosition b ++ ps
  /\ LightingBasis.numberOfPointLights (LightingBasis.addPointLights ps b)
     = LightingBasis.numberOfPointLights b + Z.of_nat (length ps)
  /\ LightingBasis.rectanglesAreaLights (LightingBasis.addPointLights ps b)
     = LightingBasis.rectanglesAreaLights b
  /\ LightingBasis.numberOfAreaLights (LightingBasis.addPointLights ps b)
     = LightingBasis.numberOfAreaLights b.
Proof.
  unfold LightingBasis.addPointLights. revert b.
  induction ps as [|p ps IH]; intros b; simpl.
  - rewrite app_nil_r. repeat split; lia.
  - destruct (IH (LightingBasis.addPointLight p b)) as (-> & -> & -> & ->). simpl.
    rewrite <- app_assoc. simpl. repeat split; lia.
Qed.

Lemma addPointLights_app ps qs b :
  LightingBasis.addPointLights (ps ++ qs) b
  = LightingBasis.addPointLights qs (LightingBasis.addPointLights ps b).
Proof. unfold LightingBasis.addPointLights. apply fold_left_app. Qed.

(** ** A partition built from a basis is consistent *)

Lemma default_consistent {F} : consistent (@Voronoi.default F).
Proof. unfold consistent. simpl. repeat split; auto. Qed.

Lemma clearVoronoi_consistent {F} (v : Voronoi.t F) : consistent (Voronoi.clearVoronoi v).
Proof. unfold consistent. simpl. repeat split; auto. Qed.

(** The points numbered by the loop counter are the points. *)
Lemma numbered_points {A B} (numbers : list A) (points : list B) :
  length numbers = length points -> map snd (combine numbers points) = points.
Proof.
  revert points. induction numbers as [|k numbers IH]; intros [|p points] Hl;
    simpl in *; try discriminate; [reflexivity|].
  f_equal. apply IH. lia.
Qed.

Lemma setVoronoi_steps (l : list (Z * Point2i)) : forall s groups,
  Forall (fun ip => insideMap (sub_width s) (sub_height s) (snd ip)) l ->
  exists s' groups',
    ofold Voronoi.setVoronoi_step l (s, groups) = Ok (s', groups')
    /\ sub_width s' = sub_width s /\ sub_height s' = sub_height s
    /\ (forall q, In q (sub_vertices s') <-> In q (sub_vertices s) \/ In q (map snd l)).
Proof.
  induction l as [|ip l IH]; intros s groups Hin.
  - exists s, groups. simpl. repeat split; auto; tauto.
  - inversion Hin as [|? ? Hip Hl]; subst.
    destruct (Subdiv2D_insert_inside s (snd ip) Hip) as (s1 & Hs1 & Hw1 & Hh1 & Hv1).
    destruct (IH s1 (groups ++ [[fst ip]])) as (s' & groups' & Hrun & Hw & Hh & Hv).
    { rewrite Hw1, Hh1. exact Hl. }
    exists s', groups'. cbn [ofold].
    replace (Voronoi.setVoronoi_step (s, groups) ip)
      with (Ok (A := Subdiv2D * list (list Z)) (s1, groups ++ [[fst ip]]))
      by (unfold Voronoi.setVoronoi_step; cbn [fst snd]; now rewrite Hs1).
    split; [exact Hrun|]. split; [congruence|]. split; [congruence|].
    intros q. rewrite Hv, Hv1. simpl. intuition.
Qed.

(** For every map and every basis of at least one position inside it,
    [setVoronoi] on a cleared partition builds the cells and counts every
    pixel of the map once. *)
Lemma setVoronoi_counts_cover_map {F} {cv : OpenCV} (v0 : Voronoi.t F)
    (positions : list Point2i) :
  nearest_contract cv ->
  positions <> [] ->
  Forall (insideMap (Voronoi.m_envMapWidth v0) (Voronoi.m_envMapHeight v0)) positions ->
  0 <= Voronoi.m_envMapWidth v0 -> 0 <= Voronoi.m_envMapHeight v0 ->
  exists v',
    Voronoi.setVoronoi positions (Voronoi.clearVoronoi v0) = Ok v'
    /\ consistent v'
    /\ LightingBasis.pointLightSourcePosition (Voronoi.m_basis v') = positions
    /\ sumZ (Voronoi.m_numberOfPixelsInVoronoiCell v')
       = Voronoi.m_envMapWidth v0 * Voronoi.m_envMapHeight v0.
Proof.
  intros Hcv Hne Hin HW HH.
  unfold Voronoi.setVoronoi, Voronoi.setVoronoi_with.
  set (l := combine (range (Z.of_nat (length positions))) positions).
  assert (Hl : map snd l = positions).
  { apply numbered_points. rewrite range_length. lia. }
  destruct (setVoronoi_steps l (Voronoi.m_voronoiSubdivision (Voronoi.clearVoronoi v0))
              (Voronoi.m_cellNumberPerPicture (Voronoi.clearVoronoi v0)))
    as (s' & groups' & Hrun & Hw & Hh & Hv).
  { apply List.Forall_forall. intros ip Hip. cbn [Voronoi.clearVoronoi
      Voronoi.m_voronoiSubdivision Subdiv2D_new sub_width sub_height].
    rewrite List.Forall_forall in Hin. apply Hin. rewrite <- Hl. now apply in_map. }
  rewrite Hrun. unfold mbind, outcome_bind, obind. cbn [fst snd].
  destruct (Z.eqb_spec (Z.of_nat (length positions)) 0) as [E|_];
    [destruct positions; [congruence|discriminate]|].
  set (v1 := Voronoi.setCellNumberPerPicture groups' _).
  destruct (addPointLights_positions positions
              (Voronoi.m_basis (Voronoi.clearVoronoi v0))) as (Hp & Hn & _).
  cbn [Voronoi.clearVoronoi Voronoi.m_basis LightingBasis.clearBasis LightingBasis.empty
       LightingBasis.pointLightSourcePosition LightingBasis.numberOfPointLights app] in Hp, Hn.
  assert (Hcons : consistent v1).
  { unfold consistent, v1. cbn [Voronoi.setCellNumberPerPicture Voronoi.set_basis_subdiv
      Voronoi.m_basis Voronoi.m_voronoiSubdivision Voronoi.m_envMapWidth
      Voronoi.m_envMapHeight Voronoi.clearVoronoi].
    rewrite Hp, Hn.
    split; [lia|]. split; [|split; [exact Hw|exact Hh]].
    intros q. rewrite Hv, Hl. simpl. tauto. }
  assert (Hone : 1 <= LightingBasis.numberOfPointLights (Voronoi.m_basis v1)).
  { unfold v1. cbn [Voronoi.setCellNumberPerPicture Voronoi.set_basis_subdiv Voronoi.m_basis].
    cbn [Voronoi.clearVoronoi Voronoi.m_basis]. rewrite Hn.
    destruct positions; [congruence|simpl; lia]. }
  destruct (countPixels_counts v1 Hcv Hcons Hone) as (c & Hc & _ & Hs).
  unfold Voronoi.numberOfPixelsPerVoronoiCell. rewrite Hc.
  unfold mbind, outcome_bind, obind. eexists. split; [reflexivity|].
  split; [exact Hcons|]. split; [exact Hp|].
  cbn [Voronoi.set_counts Voronoi.m_numberOfPixelsInVoronoiCell]. rewrite Hs.
  unfold v1. cbn [Voronoi.setCellNumberPerPicture Voronoi.set_basis_subdiv
    Voronoi.m_envMapWidth Voronoi.m_envMapHeight Voronoi.clearVoronoi]. lia.
Qed.

(** ** C1: the cells cover the map *)


(** ** The reference instances meet the contract *)

Lemma nearestFrom_In best sites q :
  nearestFrom best sites q = best \/ In (nearestFrom best sites q) sites.
Proof.
  revert best. induction sites as [|p rest IH]; intros best; simpl; [now left|].
  destruct (IH (if dist2 p q <? dist2 best q then p else best)) as [E|Hin].
  - rewrite E. destruct (dist2 p q <? dist2 best q); auto.
  - auto.
Qed.

Lemma cvRef_contract : nearest_contract cvRef.
Proof.
  intros [|p rest] q Hne; [congruence|]. simpl.
  exists (nearestFrom p rest q). split; [reflexivity|].
  destruct (nearestFrom_In p rest q) as [->|Hin]; auto.
Qed.

Lemma smallVoronoi_consistent : consistent smallVoronoi.
Proof. unfold consistent. simpl. repeat split; auto. Qed.


(** The counts of the example, cell by cell. *)
Example smallVoronoi_counts :
  (v ← Voronoi.numberOfPixelsPerVoronoiCell (cv := cvRef) smallVoronoi;
   Ok (Voronoi.m_numberOfPixelsInVoronoiCell v)) = Ok [8; 4].
Proof. vm_compute. reflexivity. Qed.

Lemma C4_addPointLight_bounds_checked_witness :
  (~ insideMap 4 3 (mkPoint 7 1) ->
     exists v', Voronoi.addPointLight (cv := cvRef) (mkPoint 7 1) smallVoronoi = Ok v'
                /\ Voronoi.m_basis v' = Voronoi.m_basis smallVoronoi
                /\ Voronoi.m_voronoiSubdivision v'
                   = Voronoi.m_voronoiSubdivision smallVoronoi)
  /\ (insideMap 4 3 (mkPoint 7 1) ->
     exists v', Voronoi.addPointLight (cv := cvRef) (mkPoint 7 1) smallVoronoi = Ok v'
                /\ LightingBasis.pointLightSourcePosition (Voronoi.m_basis v')
                   = [mkPoint 1 1; mkPoint 3 2] ++ [mkPoint 7 1]
                /\ LightingBasis.numberOfPointLights (Voronoi.m_basis v') = 2 + 1
                /\ In (mkPoint 7 1) (sub_vertices (Voronoi.m_voronoiSubdivision v'))
                /\ consistent v').
Proof.
  apply (C4_addPointLight_bounds_checked (option Z) cvRef smallVoronoi (mkPoint 7 1)).
  - exact smallVoronoi_consistent.
  - unfold INT_MAX. simpl. lia.
  - unfold INT_MAX. simpl. lia.
  - unfold INT_MIN, INT_MAX. simpl. lia.
  - unfold INT_MIN, INT_MAX. simpl. lia.
Defined.

(** The two cases of C4 on the example: (7,1) and (-1,2) are refused,
    (2,0) is appended. *)
Example addPointLight_examples :
  (v ← Voronoi.addPointLight (cv := cvRef) (mkPoint 7 1) smallVoronoi;
   Ok (Voronoi.m_basis v)) = Ok (Voronoi.m_basis smallVoronoi)
  /\ (v ← Voronoi.addPointLight (cv := cvRef) (mkPoint (-1) 2) smallVoronoi;
      Ok (Voronoi.m_basis v)) = Ok (Voronoi.m_basis smallVoronoi)
  /\ (v ← Voronoi.addPointLight (cv := cvRef) (mkPoint 2 0) smallVoronoi;
      Ok (LightingBasis.pointLightSourcePosition (Voronoi.m_basis v),
          Voronoi.m_numberOfPixelsInVoronoiCell v))
     = Ok ([mkPoint 1 1; mkPoint 3 2; mkPoint 2 0], [7; 3; 2]).
Proof. vm_compute. repeat split. Qed.

(** [LightingBasis::addPointLight] itself has no check: the guard lives in
    [Voronoi::addPointLight]. *)
Lemma LightingBasis_addPointLight_unchecked p b :
  LightingBasis.pointLightSourcePosition (LightingBasis.addPointLight p b)
    = LightingBasis.pointLightSourcePosition b ++ [p]
  /\ LightingBasis.numberOfPointLights (LightingBasis.addPointLight p b)
     = LightingBasis.numberOfPointLights b + 1.
Proof. split; reflexivity. Qed.

(** ** The condition of a cell *)

Section ImageNumber.
Context {F : Type}.

Lemma findImage_inner (k cellNumber : Z) (g : list Z) (im : Z) :
  fold_left (fun im c => if c =? cellNumber then k else im) g im
  = if existsb (Z.eqb cellNumber) g then k else im.
Proof.
  revert im. induction g as [|c g IH]; intros im; simpl; [reflexivity|].
  rewrite IH. rewrite (Z.eqb_sym cellNumber c).
  destruct (c =? cellNumber); simpl; [|reflexivity].
  now destruct (existsb (Z.eqb cellNumber) g).
Qed.

Lemma existsb_eqb_In (cellNumber : Z) (g : list Z) :
  existsb (Z.eqb cellNumber) g = true <-> In cellNumber g.
Proof.
  rewrite existsb_exists. split.
  - intros (c & Hc & E). apply Z.eqb_eq in E. now subst.
  - intros Hc. exists cellNumber. split; [exact Hc|apply Z.eqb_refl].
Qed.

(** No group holds the cell: the value found so far is returned. *)
Lemma findImageNumber_from_absent k groups cellNumber im :
  (forall g, In g groups -> ~ In cellNumber g) ->
  Voronoi.findImageNumber_from k groups cellNumber im = im.
Proof.
  revert k im. induction groups as [|g rest IH]; intros k im Habs; simpl; [reflexivity|].
  rewrite findImage_inner.
  destruct (existsb (Z.eqb cellNumber) g) eqn:E.
  - apply existsb_eqb_In in E. exfalso. apply (Habs g); [now left|exact E].
  - apply IH. intros g' Hg'. apply Habs. now right.
Qed.

(** The result is the value found so far or the index of a group that
    holds the cell. *)
Lemma findImageNumber_from_cases k groups cellNumber im :
  Voronoi.findImageNumber_from k groups cellNumber im = im
  \/ (k <= Voronoi.findImageNumber_from k groups cellNumber im
        < k + Z.of_nat (length groups)
      /\ exists g,
           groups !! Z.to_nat (Voronoi.findImageNumber_from k groups cellNumber im - k)
             = Some g
           /\ In cellNumber g).
Proof.
  revert k im. induction groups as [|g rest IH]; intros k im; simpl; [now left|].
  rewrite findImage_inner.
  destruct (existsb (Z.eqb cellNumber) g) eqn:E.
  - right. destruct (IH (k + 1) k) as [->|(Hr & g' & Hg' & Hin)].
    + split; [lia|]. exists g. replace (k - k) with 0 by lia. simpl.
      split; [reflexivity|now apply existsb_eqb_In].
    + split; [lia|]. exists g'. split; [|exact Hin].
      replace (Z.to_nat (Voronoi.findImageNumber_from (k + 1) rest cellNumber k - k))
        with (S (Z.to_nat (Voronoi.findImageNumber_from (k + 1) rest cellNumber k
                           - (k + 1)))) by lia.
      exact Hg'.
  - destruct (IH (k + 1) im) as [->|(Hr & g' & Hg' & Hin)]; [now left|].
    right. split; [lia|]. exists g'. split; [|exact Hin].
    replace (Z.to_nat (Voronoi.findImageNumber_from (k + 1) rest cellNumber im - k))
      with (S (Z.to_nat (Voronoi.findImageNumber_from (k + 1) rest cellNumber im
                         - (k + 1)))) by lia.
    exact Hg'.
Qed.

(** Some group holds the cell: the result is the index of a group. *)
Lemma findImageNumber_from_present k groups cellNumber im :
  (exists g, In g groups /\ In cellNumber g) ->
  k <= Voronoi.findImageNumber_from k groups cellNumber im < k + Z.of_nat (length groups).
Proof.
  revert k im. induction groups as [|g rest IH]; intros k im (g0 & Hg0 & Hc);
    [destruct Hg0|].
  simpl. rewrite findImage_inner.
  destruct (existsb (Z.eqb cellNumber) g) eqn:E.
  - destruct (findImageNumber_from_cases (k + 1) rest cellNumber k) as [->|[Hr _]]; lia.
  - destruct Hg0 as [->|Hg0].
    + apply existsb_eqb_In in Hc. congruence.
    + specialize (IH (k + 1) im (ex_intro _ g0 (conj Hg0 Hc))). lia.
Qed.

Lemma findImageNumber_mapped (v : Voronoi.t F) cellNumber :
  (exists g, In g (Voronoi.m_cellNumberPerPicture v) /\ In cellNumber g) ->
  0 <= Voronoi.findImageNumber v cellNumber
    < Z.of_nat (length (Voronoi.m_cellNumberPerPicture v)).
Proof.
  intros Hg. unfold Voronoi.findImageNumber.
  pose proof (findImageNumber_from_present 0 _ cellNumber (-1) Hg). lia.
Qed.

Lemma findImageNumber_unmapped (v : Voronoi.t F) cellNumber :
  (forall g, In g (Voronoi.m_cellNumberPerPicture v) -> ~ In cellNumber g) ->
  Voronoi.findImageNumber v cellNumber = -1.
Proof. apply findImageNumber_from_absent. Qed.

End ImageNumber.

(** ** C2: one pixel of the per-condition integration *)

Lemma jModulus_nonneg width j jOffset :
  0 <= jOffset -> 0 <= j -> j + jOffset < UINT_MOD ->
  Voronoi.jModulus width j jOffset = (j + jOffset) mod width.
Proof.
  intros H0 Hj Hlt. unfold Voronoi.jModulus, to_unsigned.
  assert (0 < UINT_MOD) by (unfold UINT_MOD; lia).
  rewrite (Z.mod_small jOffset) by lia.
  now rewrite (Z.mod_small (j + jOffset)) by lia.
Qed.

(** For a negative shift the sum wraps: the column is that of
    j + jOffset + 2^32, which is the column of j + jOffset exactly when the
    width divides 2^32, as the default width 1024 does. *)
Lemma jModulus_negative width j jOffset :
  - UINT_MOD < jOffset < 0 -> 0 <= j -> j + jOffset < 0 ->
  Voronoi.jModulus width j jOffset = (j + jOffset + UINT_MOD) mod width.
Proof.
  intros Hoff Hj Hneg. unfold Voronoi.jModulus, to_unsigned.
  assert (0 < UINT_MOD) by (unfold UINT_MOD; lia).
  replace jOffset with ((jOffset + UINT_MOD) + (-1) * UINT_MOD) at 1 by lia.
  rewrite Z.mod_add by lia. rewrite (Z.mod_small (jOffset + UINT_MOD)) by lia.
  rewrite (Z.mod_small (j + (jOffset + UINT_MOD))) by lia.
  f_equal. lia.
Qed.

Lemma jModulus_negative_dividing width j jOffset :
  - UINT_MOD < jOffset < 0 -> 0 <= j -> j + jOffset < 0 ->
  0 < width -> UINT_MOD mod width = 0 ->
  Voronoi.jModulus width j jOffset = (j + jOffset) mod width.
Proof.
  intros Hoff Hj Hneg Hw Hdiv. rewrite jModulus_negative by assumption.
  apply Z.mod_divide in Hdiv; [|lia]. destruct Hdiv as [q Hq].
  rewrite Hq. apply Z.mod_add. lia.
Qed.

(** ** The weight of a condition after the whole integration *)

Section WholeIntegration.
Context {F : Type} {fo : FloatOps F} {cv : OpenCV}.
Variable v : Voronoi.t F.
Variable environmentMap : Mat F.
Variable jOffset : Z.

Lemma weightPixelOR_term i j w :
  Voronoi.weightPixelOR v environmentMap jOffset i w j
  = applyTerm w (pixelTerm v environmentMap jOffset (i, j)).
Proof.
  unfold Voronoi.weightPixelOR, pixelTerm, applyTerm. cbn [fst snd].
  destruct (Voronoi.findNearestLightSource v j i =? -1); [reflexivity|].
  destruct (Voronoi.allNaN _ _ _); reflexivity.
Qed.

Lemma vec_update_lookup {A} (f : A -> A) (k : Z) (w w' : list A) (n : nat) :
  vec_update f k w = Ok w' ->
  w' !! n = (if k =? Z.of_nat n then f <$> (w !! n) else w !! n).
Proof.
  unfold vec_update. destruct (Z.leb_spec 0 k); [|discriminate].
  destruct (w !! Z.to_nat k) as [a|] eqn:Ha; [|discriminate].
  intros [= <-]. destruct (Z.eqb_spec k (Z.of_nat n)) as [->|Hne].
  - rewrite Nat2Z.id in *. rewrite Ha. simpl.
    apply list_lookup_insert_eq. now apply lookup_lt_Some in Ha.
  - apply list_lookup_insert_ne. lia.
Qed.

Lemma applyTerms_lookup (ts : list (option (Z * (F * F * F * F)))) :
  forall w w' (n : nat),
    ofold applyTerm ts w = Ok w' ->
    w' !! n = (fun a => fold_left (addTermTo (Z.of_nat n)) ts a) <$> (w !! n).
Proof.
  induction ts as [|t ts IH]; intros w w' n Hrun.
  - simpl in *. injection Hrun as <-. now destruct (w !! n).
  - cbn [ofold] in Hrun.
    destruct (applyTerm w t) as [w1| |] eqn:Ht; try discriminate.
    unfold mbind, outcome_bind, obind in Hrun.
    rewrite (IH w1 w' n Hrun). cbn [fold_left].
    destruct t as [[k [[[R G] B] s]]|]; cbn [applyTerm addTermTo] in *.
    + rewrite (vec_update_lookup _ _ _ _ n Ht).
      destruct (k =? Z.of_nat n); [|reflexivity].
      now destruct (w !! n).
    + injection Ht as <-. reflexivity.
Qed.

(** After [clearWeights], an integration that returns leaves in the
    accumulator of every condition the contributions of the pixels of its
    cells, added from zero in row-major order. *)
Lemma computeVoronoiWeightsOR_conditionWeight v' (k : nat) :
  Voronoi.m_rgbWeights v = [] ->
  Voronoi.computeVoronoiWeightsOR environmentMap jOffset v = Ok v' ->
  (k < length (Voronoi.m_cellNumberPerPicture v))%nat ->
  Voronoi.m_rgbWeights v' !! k
  = Some (conditionWeight v environmentMap jOffset (Z.of_nat k)).
Proof.
  intros Hclear Hrun Hk. unfold Voronoi.computeVoronoiWeightsOR in Hrun.
  rewrite Hclear in Hrun. cbn [app] in Hrun.
  unfold Voronoi.scanRowMajor in Hrun. rewrite ofold_nested in Hrun.
  rewrite (ofold_ext_In _ (fun w p => applyTerm w (pixelTerm v environmentMap jOffset p)))
    in Hrun by (intros w [i j] _; apply weightPixelOR_term).
  rewrite <- (ofold_map applyTerm (pixelTerm v environmentMap jOffset)) in Hrun.
  fold (pixelsRowMajor (Voronoi.m_envMapWidth v) (Voronoi.m_envMapHeight v)) in Hrun.
  destruct (ofold applyTerm _ _) as [w'| |] eqn:Hw; try discriminate.
  unfold mbind, outcome_bind, obind in Hrun. injection Hrun as <-.
  cbn [Voronoi.m_rgbWeights Voronoi.set_weights].
  rewrite (applyTerms_lookup _ _ _ k Hw).
  unfold Voronoi.zeroWeights. rewrite lookup_replicate_2 by exact Hk. reflexivity.
Qed.

End WholeIntegration.



(** The weight of condition 1 of the example, with the shift 3: the pixels of
    cell 1 are, in row-major order, (0,3), (1,3), (2,2), (2,3), which read
    the columns 2, 2, 1, 2 of their rows. *)
Example conditionWeight_example :
  conditionWeight (fo := exactNaN) (cv := cvRef) smallVoronoi rampMap 3 1
  = mkRGB (Some (0 * 3 + 2 * 7 + 2 * 10 + 2 * 11)) (Some (3 * 2 * 2)) (Some (3 * 2 * 1)).
Proof. vm_compute. reflexivity. Qed.

(** ** C10: the index of the accumulator is not checked *)

Section Unchecked.
Context {F : Type} {fo : FloatOps F} {cv : OpenCV}.
Variable v : Voronoi.t F.
Variable environmentMap : Mat F.
Variable jOffset : Z.

Lemma weightPixelOR_mapped i j weights :
  cellsMapped v ->
  0 <= i < Voronoi.m_envMapHeight v -> 0 <= j < Voronoi.m_envMapWidth v ->
  Z.of_nat (length (Voronoi.m_cellNumberPerPicture v)) <= Z.of_nat (length weights) ->
  exists weights',
    Voronoi.weightPixelOR v environmentMap jOffset i weights j = Ok weights'
    /\ length weights' = length weights.
Proof.
  intros Hmap Hi Hj Hlen. unfold Voronoi.weightPixelOR.
  destruct (Z.eqb_spec (Voronoi.findNearestLightSource v j i) (-1)) as [|Hc]; [eauto|].
  destruct (negb _); [|eauto].
  pose proof (findImageNumber_mapped v _ (Hmap i j Hi Hj Hc)) as Hk.
  match goal with |- context [vec_update ?f ?k weights] =>
    destruct (vec_update_Ok f k weights) as (w & _ & ->) end; [lia|].
  eexists. split; [reflexivity|apply length_insert].
Qed.

Lemma computeVoronoiWeightsOR_mapped :
  cellsMapped v -> exists v', Voronoi.computeVoronoiWeightsOR environmentMap jOffset v = Ok v'.
Proof.
  intros Hmap. unfold Voronoi.computeVoronoiWeightsOR, Voronoi.scanRowMajor.
  set (w0 := Voronoi.m_rgbWeights v ++ _).
  assert (Hw0 : Z.of_nat (length (Voronoi.m_cellNumberPerPicture v))
                <= Z.of_nat (length w0)).
  { unfold w0, Voronoi.zeroWeights. rewrite length_app, length_replicate. lia. }
  destruct (ofold_invariant
              (fun s i => ofold (Voronoi.weightPixelOR v environmentMap jOffset i)
                                (range (Voronoi.m_envMapWidth v)) s)
              (fun _ w => length w = length w0)
              (range (Voronoi.m_envMapHeight v)) w0 eq_refl) as (w' & -> & _);
    [|eexists; reflexivity].
  intros _ w i Hi Hl. apply range_In in Hi.
  destruct (ofold_invariant (Voronoi.weightPixelOR v environmentMap jOffset i)
              (fun _ w => length w = length w0)
              (range (Voronoi.m_envMapWidth v)) w Hl) as (w' & Hw' & Hl'); [|eauto].
  intros _ w1 j Hj Hl1. apply range_In in Hj.
  destruct (weightPixelOR_mapped i j w1 Hmap Hi Hj) as (w2 & -> & Hl2); [lia|].
  exists w2. split; [reflexivity|congruence].
Qed.

End Unchecked.

(** C10. [computeVoronoiWeightsOR] indexes [m_rgbWeights] with the value of
    [findImageNumber] as it is. When every cell met by the scan is in some
    picture's group, that value is in [0, number of conditions) at every
    pixel that has a cell and the whole integration runs without an access
    outside the vector; at a pixel whose cell is in no group, and whose value
    is to be accumulated, the value is -1 and the vector is indexed at -1. *)
Theorem C10_accumulator_index_unchecked :
  forall (F : Type) (fo : FloatOps F) (cv : OpenCV) (v : Voronoi.t F)
         (environmentMap : Mat F) (jOffset : Z),
    (cellsMapped v ->
       (forall i j,
           0 <= i < Voronoi.m_envMapHeight v -> 0 <= j < Voronoi.m_envMapWidth v ->
           Voronoi.findNearestLightSource v j i <> -1 ->
           0 <= Voronoi.findImageNumber v (Voronoi.findNearestLightSource v j i)
             < Z.of_nat (length (Voronoi.m_cellNumberPerPicture v)))
       /\ exists v', Voronoi.computeVoronoiWeightsOR environmentMap jOffset v = Ok v')
    /\ (forall i j weights,
           Voronoi.findNearestLightSource v j i <> -1 ->
           (forall g, In g (Voronoi.m_cellNumberPerPicture v) ->
                      ~ In (Voronoi.findNearestLightSource v j i) g) ->
           (let p := mat_at environmentMap i
                       (Voronoi.jModulus (Voronoi.m_envMapWidth v) j jOffset) in
            Voronoi.allNaN (val2 p) (val1 p) (val0 p) = false) ->
           Voronoi.findImageNumber v (Voronoi.findNearestLightSource v j i) = -1
           /\ Voronoi.weightPixelOR v environmentMap jOffset i weights j = OutOfBounds (-1)).
Proof.
  intros F fo cv v M jOffset. split.
  - intros Hmap. split.
    + intros i j Hi Hj Hc. apply findImageNumber_mapped. now apply Hmap.
    + now apply computeVoronoiWeightsOR_mapped.
  - intros i j weights Hc Habs Hnan.
    pose proof (findImageNumber_unmapped v _ Habs) as Hk. split; [exact Hk|].
    unfold Voronoi.weightPixelOR.
    destruct (Z.eqb_spec (Voronoi.findNearestLightSource v j i) (-1)); [contradiction|].
    simpl in Hnan. rewrite Hnan, Hk. simpl. apply vec_update_fault. lia.
Qed.

Lemma smallVoronoi_cellsMapped : cellsMapped (cv := cvRef) smallVoronoi.
Proof.
  intros i j Hi Hj _. simpl in Hi, Hj.
  assert (Ei : i = 0 \/ i = 1 \/ i = 2) by lia.
  assert (Ej : j = 0 \/ j = 1 \/ j = 2 \/ j = 3) by lia.
  destruct Ei as [-> | [-> | ->]]; destruct Ej as [-> | [-> | [-> | ->]]];
    solve [ exists [0]; vm_compute; auto | exists [1]; vm_compute; auto ].
Qed.

Lemma C10_accumulator_index_unchecked_witness :
  (exists v', Voronoi.computeVoronoiWeightsOR (fo := exactNaN) (cv := cvRef)
                rampMap 1 smallVoronoi = Ok v')
  /\ Voronoi.weightPixelOR (fo := exactNaN) (cv := cvRef) unmappedVoronoi rampMap 1 2
        (Voronoi.zeroWeights (fo := exactNaN) 1) 3 = OutOfBounds (-1).
Proof.
  split.
  - apply (C10_accumulator_index_unchecked (option Z) exactNaN cvRef smallVoronoi rampMap 1).
    exact smallVoronoi_cellsMapped.
  - apply (C10_accumulator_index_unchecked (option Z) exactNaN cvRef unmappedVoronoi
             rampMap 1).
    + vm_compute. discriminate.
    + intros g Hg. vm_compute in Hg. destruct Hg as [<- | []].
      vm_compute. intros [E | []]. discriminate.
    + vm_compute. reflexivity.
Defined.

(** The whole integration on the two examples: with every cell mapped it
    returns the two accumulators; with cell 1 in no group it stops at the
    first pixel of that cell. *)
Example computeVoronoiWeightsOR_examples :
  (v ← Voronoi.computeVoronoiWeightsOR (fo := exactNaN) (cv := cvRef) rampMap 0 smallVoronoi;
   Ok (Voronoi.m_rgbWeights v))
  = Ok [mkRGB (Some 74) (Some 20) None; mkRGB (Some 62) (Some 12) (Some 6)]
  /\ Voronoi.computeVoronoiWeightsOR (fo := exactNaN) (cv := cvRef) rampMap 0 unmappedVoronoi
     = OutOfBounds (-1).
Proof. vm_compute. split; reflexivity. Qed.

(** ** C5: offset in the lookup against rotation of the map *)

Section OffsetEquivalence.
Context {F : Type} {fo : FloatOps F} {cv : OpenCV}.
Variable v : Voronoi.t F.
Variable environmentMap : Mat F.
Variable jOffset : Z.
Hypothesis Hrows : mat_rows environmentMap = Voronoi.m_envMapHeight v.
Hypothesis Hcols : mat_cols environmentMap = Voronoi.m_envMapWidth v.
Hypothesis Hshift : 0 <= jOffset.
Hypothesis Hwrap : Voronoi.m_envMapWidth v + jOffset <= UINT_MOD.

Lemma weightPixelOR_rotated i j weights :
  0 <= i < Voronoi.m_envMapHeight v -> 0 <= j < Voronoi.m_envMapWidth v ->
  Voronoi.weightPixelOR v environmentMap jOffset i weights j
  = Voronoi.weightPixelOR v
      (rotateLatLongMap environmentMap (jOffset mod Voronoi.m_envMapWidth v))
      0 i weights j.
Proof.
  intros Hi Hj. unfold Voronoi.weightPixelOR.
  assert (E : mat_at (rotateLatLongMap environmentMap (jOffset mod Voronoi.m_envMapWidth v))
                i (Voronoi.jModulus (Voronoi.m_envMapWidth v) j 0)
              = mat_at environmentMap i
                  (Voronoi.jModulus (Voronoi.m_envMapWidth v) j jOffset)).
  { rewrite !jModulus_nonneg by lia.
    rewrite Z.add_0_r, (Z.mod_small j) by lia.
    unfold rotateLatLongMap. simpl. rewrite Hrows, Hcols.
    destruct (Z.leb_spec 0 i); [|lia].
    destruct (Z.ltb_spec i (Voronoi.m_envMapHeight v)); [|lia].
    destruct (Z.leb_spec 0 j); [|lia].
    destruct (Z.ltb_spec j (Voronoi.m_envMapWidth v)); [|lia].
    simpl. f_equal.
    pose proof (Z.mod_pos_bound jOffset (Voronoi.m_envMapWidth v) ltac:(lia)).
    rewrite Z.rem_mod_nonneg by lia.
    apply Z.add_mod_idemp_r. lia. }
  rewrite E. reflexivity.
Qed.

(** For a shift that is not negative, the integration with the shift in
    the lookup is the integration, without shift, of the rotated map. *)
Lemma computeVoronoiWeightsOR_rotated :
  Voronoi.computeVoronoiWeightsOR environmentMap jOffset v
  = Voronoi.computeVoronoiWeightsOR
      (rotateLatLongMap environmentMap (jOffset mod Voronoi.m_envMapWidth v)) 0 v.
Proof.
  unfold Voronoi.computeVoronoiWeightsOR, Voronoi.scanRowMajor.
  f_equal. apply ofold_ext_In. intros w i Hi. apply range_In in Hi.
  apply ofold_ext_In. intros w' j Hj. apply range_In in Hj.
  now apply weightPixelOR_rotated.
Qed.

End OffsetEquivalence.


(** With the shift 2 in the lookup the two integrations of the same example
    agree, as they do for every shift that is not negative. *)
Example nonnegative_offset_agrees :
  Voronoi.computeVoronoiWeightsOR (fo := exactNaN) (cv := cvRef) columnMap 2 columnVoronoi
  = Voronoi.computeVoronoiWeightsOR (fo := exactNaN) (cv := cvRef)
      (rotateLatLongMap (fo := exactNaN) columnMap (2 mod 3)) 0 columnVoronoi.
Proof.
  apply computeVoronoiWeightsOR_rotated; vm_compute; try reflexivity; discriminate.
Qed.

(** ** C6: sampling of the area lights *)

Lemma lt_int_uint_inside x u : 0 <= x < u -> lt_int_uint x u = true.
Proof.
  intros Hx. unfold lt_int_uint, to_unsigned. apply Z.ltb_lt.
  pose proof (Z.mod_le x UINT_MOD ltac:(lia) ltac:(unfold UINT_MOD; lia)). lia.
Qed.

Lemma reorientateRectangle_sum s e :
  Point2i_add (fst (reorientateRectangle s e)) (snd (reorientateRectangle s e))
  = Point2i_add s e.
Proof.
  unfold reorientateRectangle, Point2i_add.
  repeat match goal with |- context [if ?c then _ else _] => destruct c end;
    simpl; f_equal; lia.
Qed.

Lemma reorientateRectangle_corners s e :
  px s <> px e -> py s <> py e ->
  px (fst (reorientateRectangle s e)) = Z.min (px s) (px e)
  /\ py (fst (reorientateRectangle s e)) = Z.min (py s) (py e)
  /\ px (snd (reorientateRectangle s e)) = Z.max (px s) (px e)
  /\ py (snd (reorientateRectangle s e)) = Z.max (py s) (py e).
Proof.
  intros Hx Hy. unfold reorientateRectangle.
  destruct (Z.ltb_spec (px s) (px e)); destruct (Z.ltb_spec (py s) (py e));
    destruct (Z.gtb_spec (px s) (px e)); destruct (Z.gtb_spec (py s) (py e));
    simpl; lia.
Qed.

Section Sampling.
Variables envMapWidth envMapHeight stepWidth stepHeight : Z.
Hypothesis HstepW : 0 <= stepWidth.
Hypothesis HstepH : 0 <= stepHeight.

(** A row all of whose samples are inside the map. *)
Lemma sampleColumn_run positionY (ls : list Z) :
  0 <= positionY < envMapHeight ->
  forall b positionX,
    0 <= positionX ->
    positionX + stepWidth * (Z.of_nat (length ls) - 1) < envMapWidth ->
    fold_left (LightingBasis.sampleColumn envMapWidth envMapHeight positionY stepWidth)
              ls (b, positionX)
    = (LightingBasis.addPointLights
         (rowPoints (length ls) positionX positionY stepWidth) b,
       positionX + stepWidth * Z.of_nat (length ls)).
Proof.
  intros HY. induction ls as [|l ls IH]; intros b X HX Hlast.
  - simpl. f_equal. lia.
  - cbn [fold_left length rowPoints]. unfold LightingBasis.sampleColumn at 2.
    rewrite (lt_int_uint_inside X envMapWidth) by (cbn [length] in Hlast; nia).
    rewrite (lt_int_uint_inside positionY envMapHeight) by lia.
    cbn [andb]. rewrite IH by (cbn [length] in Hlast; nia).
    f_equal. cbn [length]. lia.
Qed.

(** Rows all of whose samples are inside the map. *)
Lemma sampleRow_run startX columns (ks : list Z) :
  0 <= startX ->
  startX + stepWidth * (Z.of_nat (Z.to_nat columns) - 1) < envMapWidth ->
  forall b positionY,
    0 <= positionY ->
    positionY + stepHeight * (Z.of_nat (length ks) - 1) < envMapHeight ->
    fold_left (LightingBasis.sampleRow envMapWidth envMapHeight startX stepWidth
                                       stepHeight columns)
              ks (b, positionY)
    = (LightingBasis.addPointLights
         (gridPoints (length ks) (Z.to_nat columns) startX positionY
                     stepWidth stepHeight) b,
       positionY + stepHeight * Z.of_nat (length ks)).
Proof.
  intros HX HlastX. induction ks as [|k ks IH]; intros b Y HY HlastY.
  - simpl. f_equal. lia.
  - cbn [fold_left length gridPoints]. unfold LightingBasis.sampleRow at 2.
    rewrite sampleColumn_run; rewrite ?range_length; try lia;
      [|cbn [length] in HlastY; nia].
    rewrite IH by (cbn [length] in HlastY; nia).
    rewrite addPointLights_app. f_equal. cbn [length]. lia.
Qed.

End Sampling.

(** C6 (amended). [uniformSamplingAreaLightSources] turns a rectangle of
    extent (200,150) whose corners are inside the map into exactly 8x6 = 48
    new point lights, row by row on the grid of spacing 25 that starts 12
    pixels inside the upper left corner; it turns a rectangle whose extent is
    smaller than 25 on either axis into exactly one new point light, the
    centre [(startingPoint+endingPoint)*0.5]. *)
Theorem C6_sampling_of_one_rectangle :
  forall (cv : OpenCV) (envMapWidth envMapHeight : Z) (b : LightingBasis.t)
         (startingPoint endingPoint : Point2i),
    let upperLeft := fst (reorientateRectangle startingPoint endingPoint) in
    let bottomRight := snd (reorientateRectangle startingPoint endingPoint) in
    let b' := LightingBasis.sampleRectangle envMapWidth envMapHeight b
                (startingPoint, endingPoint) in
    (Z.abs (px startingPoint - px endingPoint) = 200 ->
     Z.abs (py startingPoint - py endingPoint) = 150 ->
     insideMap envMapWidth envMapHeight upperLeft ->
     insideMap envMapWidth envMapHeight bottomRight ->
       LightingBasis.pointLightSourcePosition b'
       = LightingBasis.pointLightSourcePosition b
         ++ flat_map (fun k => map (fun l => mkPoint (px upperLeft + 12 + 25 * l)
                                                      (py upperLeft + 12 + 25 * k))
                                   (range 8))
                     (range 6)
       /\ LightingBasis.numberOfPointLights b'
          = LightingBasis.numberOfPointLights b + 48)
    /\ (Z.abs (px startingPoint - px endingPoint) < 25
        \/ Z.abs (py startingPoint - py endingPoint) < 25 ->
       LightingBasis.pointLightSourcePosition b'
       = LightingBasis.pointLightSourcePosition b
         ++ [Point2i_half (Point2i_add startingPoint endingPoint)]
       /\ LightingBasis.numberOfPointLights b'
          = LightingBasis.numberOfPointLights b + 1).
Proof.
  intros cv W H b s e upperLeft bottomRight b'.
  pose proof (reorientateRectangle_sum s e) as Hsum.
  fold upperLeft bottomRight in Hsum.
  unfold b', LightingBasis.sampleRectangle.
  rewrite (surjective_pairing (reorientateRectangle s e)).
  fold upperLeft bottomRight.
  unfold LightingBasis.numberOfPixelsBetweenSamples.
  split.
  - intros Hw Hh [HulX HulY] [HbrX HbrY]. rewrite Hw, Hh.
    assert (px s <> px e) by lia. assert (py s <> py e) by lia.
    destruct (reorientateRectangle_corners s e) as (E1 & E2 & E3 & E4); auto.
    fold upperLeft bottomRight in E1, E2, E3, E4.
    change (Z.quot 200 25) with 8. change (Z.quot 150 25) with 6.
    change (Z.quot 200 8) with 25. change (Z.quot 150 6) with 25.
    change (Z.quot 25 2) with 12.
    change ((200 >? 25) && (150 >? 25)) with true. cbv iota.
    pose proof (sampleRow_run W H 25 25 ltac:(lia) ltac:(lia)
                  (px upperLeft + 12) 8 (range 6)) as Hrun.
    rewrite Hrun; rewrite ?range_length; try (cbn; lia).
    cbn [fst].
    destruct (addPointLights_positions
                (gridPoints (Z.to_nat 6) (Z.to_nat 8) (px upperLeft + 12)
                            (py upperLeft + 12) 25 25) b) as (-> & -> & _).
    split.
    + f_equal. generalize (px upperLeft) (py upperLeft). intros x y.
      change (Z.to_nat 6) with 6%nat. change (Z.to_nat 8) with 8%nat.
      change (range 8) with [0; 1; 2; 3; 4; 5; 6; 7].
      change (range 6) with [0; 1; 2; 3; 4; 5].
      cbn [gridPoints rowPoints flat_map map app].
      repeat (f_equal; try lia).
    + change (Z.to_nat 6) with 6%nat. change (Z.to_nat 8) with 8%nat. reflexivity.
  - intros Hsmall.
    assert (E : (Z.abs (px s - px e) >? 25) && (Z.abs (py s - py e) >? 25) = false).
    { apply andb_false_iff.
      destruct Hsmall; [left|right]; rewrite Z.gtb_ltb; apply Z.ltb_ge; lia. }
    rewrite E, Hsum. split; reflexivity.
Qed.

Lemma C6_sampling_of_one_rectangle_witness :
  (LightingBasis.pointLightSourcePosition
     (LightingBasis.sampleRectangle (cv := cvRef) 1024 512 innerBasis
        (mkPoint 100 50, mkPoint 300 200))
   = LightingBasis.pointLightSourcePosition innerBasis
     ++ flat_map (fun k => map (fun l => mkPoint (100 + 12 + 25 * l) (50 + 12 + 25 * k))
                               (range 8))
                 (range 6)
   /\ LightingBasis.numberOfPointLights
        (LightingBasis.sampleRectangle (cv := cvRef) 1024 512 innerBasis
           (mkPoint 100 50, mkPoint 300 200))
      = LightingBasis.numberOfPointLights innerBasis + 48)
  /\ (LightingBasis.pointLightSourcePosition
        (LightingBasis.sampleRectangle (cv := cvRef) 1024 512 innerBasis
           (mkPoint 20 10, mkPoint 10 40))
      = LightingBasis.pointLightSourcePosition innerBasis ++ [mkPoint 15 25]
      /\ LightingBasis.numberOfPointLights
           (LightingBasis.sampleRectangle (cv := cvRef) 1024 512 innerBasis
              (mkPoint 20 10, mkPoint 10 40))
         = LightingBasis.numberOfPointLights innerBasis + 1).
Proof.
  split.
  - apply (C6_sampling_of_one_rectangle cvRef 1024 512 innerBasis
             (mkPoint 100 50) (mkPoint 300 200)).
    + reflexivity.
    + reflexivity.
    + vm_compute. repeat split; discriminate.
    + vm_compute. repeat split; discriminate.
  - apply (C6_sampling_of_one_rectangle cvRef 1024 512 innerBasis
             (mkPoint 20 10) (mkPoint 10 40)).
    left. vm_compute. reflexivity.
Defined.

(** C6, as stated, fails: the rectangle (900,400)-(1100,550) has extent
    (200,150), and on a 1024x512 map its expansion adds 20 point lights,
    5 per row on 4 rows, not 48. *)
Lemma C6_rectangle_across_border_counterexample :
  LightingBasis.rectanglesAreaLights borderBasis = [(mkPoint 900 400, mkPoint 1100 550)]
  /\ Z.abs (900 - 1100) = 200 /\ Z.abs (400 - 550) = 150
  /\ LightingBasis.numberOfPointLights
       (LightingBasis.uniformSamplingAreaLightSources (cv := cvRef) 1024 512 borderBasis)
     = LightingBasis.numberOfPointLights borderBasis + 20
  /\ LightingBasis.numberOfPointLights
       (LightingBasis.uniformSamplingAreaLightSources (cv := cvRef) 1024 512 borderBasis)
     <> LightingBasis.numberOfPointLights borderBasis + 48
  /\ skipn 1 (LightingBasis.pointLightSourcePosition
                (LightingBasis.uniformSamplingAreaLightSources (cv := cvRef) 1024 512
                   borderBasis))
     = flat_map (fun k => map (fun l => mkPoint (912 + 25 * l) (412 + 25 * k)) (range 5))
                (range 4).
Proof. vm_compute. repeat split. discriminate. Qed.

(** The whole expansion on a basis with the single rectangle
    (100,50)-(300,200): the centre registered by [addAreaLight], then the 48
    samples. *)
Example uniformSampling_inner :
  LightingBasis.pointLightSourcePosition
    (LightingBasis.uniformSamplingAreaLightSources (cv := cvRef) 1024 512 innerBasis)
  = mkPoint 200 125
    :: flat_map (fun k => map (fun l => mkPoint (112 + 25 * l) (62 + 25 * k)) (range 8))
                (range 6)
  /\ LightingBasis.numberOfPointLights
       (LightingBasis.uniformSamplingAreaLightSources (cv := cvRef) 1024 512 innerBasis)
     = 49
  /\ LightingBasis.areAreaLightsSampled
       (LightingBasis.uniformSamplingAreaLightSources (cv := cvRef) 1024 512 innerBasis)
     = true.
Proof. vm_compute. repeat split. Qed.

(** An extent equal to the spacing on one axis collapses as well: the test is
    [width > 25 && height > 25]. *)
Example sampling_at_the_spacing :
  LightingBasis.pointLightSourcePosition
    (LightingBasis.sampleRectangle (cv := cvRef) 1024 512 LightingBasis.empty
       (mkPoint 0 0, mkPoint 25 200))
  = [mkPoint 12 100].
Proof. vm_compute. reflexivity. Qed.

(** ** C7: the energy median *)

Lemma pixelsRowMajor_In width height i j :
  In (i, j) (pixelsRowMajor width height) <-> 0 <= i < height /\ 0 <= j < width.
Proof.
  unfold pixelsRowMajor. rewrite in_flat_map. split.
  - intros (i' & Hi' & Hin). apply in_map_iff in Hin as (j' & [= <- <-] & Hj').
    apply range_In in Hi', Hj'. auto.
  - intros [Hi Hj]. exists i. split; [now apply range_In|].
    apply in_map_iff. exists j. split; [reflexivity|now apply range_In].
Qed.

Section MedianEnergy.
Context {F : Type} {fo : FloatOps F} {cv : OpenCV}.
Variable lightingCondition : Mat F.
Variable medianEnergy : F.

Lemma totalEnergyOf_running width height :
  OfficeRoomRelighting.totalEnergyOf width height lightingCondition
  = runningEnergy lightingCondition fzero (pixelsRowMajor width height).
Proof.
  unfold OfficeRoomRelighting.totalEnergyOf, runningEnergy, pixelsRowMajor.
  apply (fold_left_nested
           (fun i total j =>
              fadd total (OfficeRoomRelighting.pixelEnergy (mat_at lightingCondition i j)))).
Qed.

Let step (s : OfficeRoomRelighting.scan) (p : Z * Z) :=
  OfficeRoomRelighting.medianPixel medianEnergy lightingCondition (fst p) s (snd p).

Lemma step_placed sum v p :
  step (OfficeRoomRelighting.mkScan sum true v) p
  = Ok (OfficeRoomRelighting.mkScan
          (fadd sum (OfficeRoomRelighting.pixelEnergy
                       (mat_at lightingCondition (fst p) (snd p)))) true v).
Proof.
  unfold step, OfficeRoomRelighting.medianPixel.
  cbn [OfficeRoomRelighting.sumEnergy OfficeRoomRelighting.isAlreadyGreater
       OfficeRoomRelighting.voronoi negb].
  now rewrite andb_false_r.
Qed.

Lemma step_searching sum v p :
  step (OfficeRoomRelighting.mkScan sum false v) p
  = let sum' := fadd sum (OfficeRoomRelighting.pixelEnergy
                            (mat_at lightingCondition (fst p) (snd p))) in
    if fgt sum' medianEnergy
    then v' ← Voronoi.addPointLight (mkPoint (snd p) (fst p)) v;
         Ok (OfficeRoomRelighting.mkScan sum' true v')
    else Ok (OfficeRoomRelighting.mkScan sum' false v).
Proof.
  unfold step, OfficeRoomRelighting.medianPixel.
  cbn [OfficeRoomRelighting.sumEnergy OfficeRoomRelighting.isAlreadyGreater
       OfficeRoomRelighting.voronoi negb].
  now rewrite andb_true_r.
Qed.

(** Once the point is placed the scan only keeps adding. *)
Lemma scan_after pixels : forall sum v,
  ofold step pixels (OfficeRoomRelighting.mkScan sum true v)
  = Ok (OfficeRoomRelighting.mkScan (runningEnergy lightingCondition sum pixels) true v).
Proof.
  induction pixels as [|p pixels IH]; intros sum v; cbn [ofold]; [reflexivity|].
  rewrite step_placed. apply IH.
Qed.

(** The scan before the point is placed: it runs to the first pixel at
    which the sum exceeds the threshold, if there is one, and hands that
    pixel, as (column, row), to [addPointLight]. *)
Lemma scan_before pixels : forall (pre : list (Z * Z)) v,
  (forall m : nat, (m < length pre)%nat ->
     fgt (runningEnergy lightingCondition fzero (take (S m) (pre ++ pixels)))
         medianEnergy = false) ->
  (exists p, firstAbove lightingCondition medianEnergy (pre ++ pixels) p
             /\ In p pixels
             /\ ofold step pixels
                  (OfficeRoomRelighting.mkScan
                     (runningEnergy lightingCondition fzero pre) false v)
                = (v' ← Voronoi.addPointLight (mkPoint (snd p) (fst p)) v;
                   Ok (OfficeRoomRelighting.mkScan
                         (runningEnergy lightingCondition fzero (pre ++ pixels))
                         true v')))
  \/ ((forall m : nat, (m < length (pre ++ pixels))%nat ->
         fgt (runningEnergy lightingCondition fzero (take (S m) (pre ++ pixels)))
             medianEnergy = false)
      /\ ofold step pixels
           (OfficeRoomRelighting.mkScan
              (runningEnergy lightingCondition fzero pre) false v)
         = Ok (OfficeRoomRelighting.mkScan
                 (runningEnergy lightingCondition fzero (pre ++ pixels)) false v)).
Proof.
  induction pixels as [|p pixels IH]; intros pre v Hpre.
  - right. rewrite app_nil_r in *. split; [exact Hpre|reflexivity].
  - assert (Hsum : runningEnergy lightingCondition fzero (take (S (length pre))
                                                             (pre ++ p :: pixels))
                   = fadd (runningEnergy lightingCondition fzero pre)
                          (OfficeRoomRelighting.pixelEnergy
                             (mat_at lightingCondition (fst p) (snd p)))).
    { replace (S (length pre)) with (length (pre ++ [p]))
        by (rewrite length_app; simpl; lia).
      replace (pre ++ p :: pixels) with ((pre ++ [p]) ++ pixels)
        by (rewrite <- app_assoc; reflexivity).
      rewrite take_app_length. unfold runningEnergy. now rewrite fold_left_app. }
    cbn [ofold]. rewrite step_searching. cbv zeta.
    destruct (fgt (fadd (runningEnergy lightingCondition fzero pre)
                        (OfficeRoomRelighting.pixelEnergy
                           (mat_at lightingCondition (fst p) (snd p))))
                  medianEnergy) eqn:E.
    + left. exists p. split; [|split; [now left|]].
      * exists (length pre). split; [|split].
        -- rewrite lookup_app_r by lia. now rewrite Nat.sub_diag.
        -- now rewrite Hsum.
        -- exact Hpre.
      * destruct (Voronoi.addPointLight (mkPoint (snd p) (fst p)) v) as [v'| |k];
          try reflexivity.
        unfold mbind, outcome_bind, obind. rewrite scan_after.
        do 2 f_equal. unfold runningEnergy. rewrite fold_left_app. reflexivity.
    + unfold mbind, outcome_bind, obind.
      replace (fadd (runningEnergy lightingCondition fzero pre)
                    (OfficeRoomRelighting.pixelEnergy
                       (mat_at lightingCondition (fst p) (snd p))))
        with (runningEnergy lightingCondition fzero (pre ++ [p]))
        by (unfold runningEnergy; now rewrite fold_left_app).
      replace (pre ++ p :: pixels) with ((pre ++ [p]) ++ pixels) in *
        by (rewrite <- app_assoc; reflexivity).
      destruct (IH (pre ++ [p]) v) as [(q & Hq & Hin & Hrun)|[Hnone Hrun]].
      * intros m Hm. rewrite length_app in Hm. simpl in Hm.
        destruct (Nat.eq_dec m (length pre)) as [->|Hne].
        -- rewrite Hsum. exact E.
        -- apply Hpre. lia.
      * left. exists q. split; [exact Hq|]. split; [now right|exact Hrun].
      * right. split; [exact Hnone|exact Hrun].
Qed.

End MedianEnergy.

Section IdentifyMedianEnergy.
Context {F : Type} {fo : FloatOps F} {cv : OpenCV}.
Variables width height : Z.
Hypothesis Hwidth : 0 <= width <= INT_MAX.
Hypothesis Hheight : 0 <= height <= INT_MAX.

(** One lighting condition, whatever its image: the step returns normally,
    keeps the invariant, opens one group, and either places one point at
    the first pixel above the threshold or, when no running sum is above
    it, leaves the partition as it was. *)
Lemma identifyCondition_step (st : OfficeRoomRelighting.conditions)
    (lightingCondition : Mat F) :
  mapReady width height (OfficeRoomRelighting.cond_voronoi st) ->
  let threshold :=
    fhalf (OfficeRoomRelighting.totalEnergyOf width height lightingCondition) in
  exists st',
    OfficeRoomRelighting.identifyCondition width height st lightingCondition = Ok st'
    /\ mapReady width height (OfficeRoomRelighting.cond_voronoi st')
    /\ OfficeRoomRelighting.cellNumber st' = OfficeRoomRelighting.cellNumber st + 1
    /\ OfficeRoomRelighting.cellNumberPerPicture st'
       = OfficeRoomRelighting.cellNumberPerPicture st
         ++ [[OfficeRoomRelighting.cellNumber st]]
    /\ ((exists p,
            firstAbove lightingCondition threshold (pixelsRowMajor width height) p
            /\ LightingBasis.pointLightSourcePosition
                 (Voronoi.m_basis (OfficeRoomRelighting.cond_voronoi st'))
               = LightingBasis.pointLightSourcePosition
                   (Voronoi.m_basis (OfficeRoomRelighting.cond_voronoi st))
                 ++ [mkPoint (snd p) (fst p)]
            /\ LightingBasis.numberOfPointLights
                 (Voronoi.m_basis (OfficeRoomRelighting.cond_voronoi st'))
               = LightingBasis.numberOfPointLights
                   (Voronoi.m_basis (OfficeRoomRelighting.cond_voronoi st)) + 1)
        \/ ((forall m : nat, (m < length (pixelsRowMajor width height))%nat ->
               fgt (runningEnergy lightingCondition fzero
                      (take (S m) (pixelsRowMajor width height))) threshold = false)
            /\ OfficeRoomRelighting.cond_voronoi st'
               = OfficeRoomRelighting.cond_voronoi st)).
Proof.
  intros (Hcons & HW & HH) threshold.
  unfold OfficeRoomRelighting.identifyCondition. fold threshold.
  rewrite (ofold_nested
             (fun i s j => OfficeRoomRelighting.medianPixel threshold lightingCondition i s j)).
  fold (pixelsRowMajor width height).
  destruct (scan_before lightingCondition threshold (pixelsRowMajor width height) []
              (OfficeRoomRelighting.cond_voronoi st))
    as [(p & Hfirst & Hin & Hrun)|[Hnone Hrun]].
  - intros m Hm. simpl in Hm. lia.
  - cbn [app] in Hfirst, Hrun. unfold runningEnergy at 1 in Hrun. cbn [fold_left] in Hrun.
    destruct p as [i j]. apply pixelsRowMajor_In in Hin as [Hi Hj].
    destruct (addPointLight_inside (OfficeRoomRelighting.cond_voronoi st) (mkPoint j i))
      as (v' & Hadd & Hpos & Hnum & _ & Hcons' & HW' & HH');
      unfold INT_MIN, INT_MAX in *; cbn [px py]; try lia; auto.
    { unfold insideMap. cbn [px py]. lia. }
    cbn [fst snd] in Hrun. rewrite Hadd in Hrun.
    rewrite Hrun. unfold mbind, outcome_bind, obind.
    eexists. split; [reflexivity|].
    cbn [OfficeRoomRelighting.cond_voronoi OfficeRoomRelighting.voronoi
         OfficeRoomRelighting.cellNumber OfficeRoomRelighting.cellNumberPerPicture].
    split; [split; [exact Hcons'|split; congruence]|].
    split; [reflexivity|]. split; [reflexivity|].
    left. exists (i, j). auto.
  - cbn [app] in Hnone, Hrun. unfold runningEnergy at 1 in Hrun. cbn [fold_left] in Hrun.
    rewrite Hrun. unfold mbind, outcome_bind, obind.
    eexists. split; [reflexivity|].
    cbn [OfficeRoomRelighting.cond_voronoi OfficeRoomRelighting.voronoi
         OfficeRoomRelighting.cellNumber OfficeRoomRelighting.cellNumberPerPicture].
    split; [split; [exact Hcons|split; assumption]|].
    split; [reflexivity|]. split; [reflexivity|].
    right. split; [exact Hnone|reflexivity].
Qed.

(** The loop on the conditions returns normally and opens one group per
    condition. *)
Lemma identifyConditions_run (lightingConditions : list (Mat F)) :
  forall st,
    mapReady width height (OfficeRoomRelighting.cond_voronoi st) ->
    exists st',
      ofold (OfficeRoomRelighting.identifyCondition width height)
            lightingConditions st = Ok st'
      /\ mapReady width height (OfficeRoomRelighting.cond_voronoi st')
      /\ OfficeRoomRelighting.cellNumber st'
         = OfficeRoomRelighting.cellNumber st + Z.of_nat (length lightingConditions).
Proof.
  intros st Hst.
  destruct (ofold_invariant (OfficeRoomRelighting.identifyCondition width height)
              (fun n s => mapReady width height (OfficeRoomRelighting.cond_voronoi s)
                          /\ OfficeRoomRelighting.cellNumber s
                             = OfficeRoomRelighting.cellNumber st + Z.of_nat n)
              lightingConditions st) as (st' & Hrun & Hinv & Hnum).
  - split; [exact Hst|simpl; lia].
  - intros n s img _ [Hs Hn].
    destruct (identifyCondition_step s img Hs) as (s' & -> & Hs' & Hc & _).
    exists s'. split; [reflexivity|]. split; [exact Hs'|lia].
  - exists st'. auto.
Qed.

End IdentifyMedianEnergy.


Lemma exactNaN_positive_above_half : positive_above_half exactNaN.
Proof.
  split; [reflexivity|].
  intros [a|]; simpl; [|discriminate].
  intros Ha. apply Z.ltb_lt in Ha. apply Z.ltb_lt.
  apply Z.div_lt; lia.
Qed.

Lemma emptyVoronoi_mapReady : mapReady 3 2 emptyVoronoi.
Proof. unfold mapReady, consistent. simpl. repeat split; auto. Qed.


(** The identification on the two example conditions: the black image adds
    no point light, the other one adds (1,1), that is row 1, column 1; each
    condition opens a group. *)
Example identifyMedianEnergy_example :
  (v ← OfficeRoomRelighting.identifyMedianEnergy (fo := exactNaN) (cv := cvRef) 3 2
         [conditionBlack; conditionA] emptyVoronoi;
   Ok (LightingBasis.pointLightSourcePosition (Voronoi.m_basis v),
       Voronoi.m_cellNumberPerPicture v))
  = Ok ([mkPoint 1 1], [[0]; [1]]).
Proof. vm_compute. reflexivity. Qed.

(** ** C8: the sum of all the weights on a constant map *)

Lemma sumR_app l1 l2 : sumR (l1 ++ l2) = (sumR l1 + sumR l2)%R.
Proof. induction l1 as [|x l1 IH]; simpl; [lra|rewrite IH; lra]. Qed.

Lemma sumR_map_insert {A} (g : A -> R) (l : list A) (k : nat) (a b : A) :
  l !! k = Some a ->
  sumR (map g (<[k := b]> l)) = (sumR (map g l) - g a + g b)%R.
Proof.
  revert k. induction l as [|x l IH]; intros [|k] Hk; simpl in *; try discriminate.
  - injection Hk as ->. lra.
  - rewrite (IH k Hk). lra.
Qed.

Lemma sumR_map_zeroWeights (g : RGB R -> R) n :
  g (mkRGB 0 0 0)%R = 0%R -> sumR (map g (Voronoi.zeroWeights (fo := idealReal) n)) = 0%R.
Proof.
  intros Hg. unfold Voronoi.zeroWeights. induction n as [|n IH]; simpl; [reflexivity|].
  change (@fzero R idealReal) with 0%R. rewrite Hg.
  unfold Voronoi.zeroWeights in IH. simpl in IH. rewrite IH. lra.
Qed.

(** A scan whose body adds the row factor to the three sums at every pixel
    ends with W times the sum of the row factors in each of them. *)
Section ScanSums.
Context {cv : OpenCV}.
Variable v : Voronoi.t R.
Variable body : Z -> list (RGB R) -> Z -> outcome (list (RGB R)).
Variable L : nat.
Hypothesis Hbody : forall i j weights,
  0 <= i < Voronoi.m_envMapHeight v -> 0 <= j < Voronoi.m_envMapWidth v ->
  length weights = L ->
  exists weights',
    body i weights j = Ok weights'
    /\ length weights' = L
    /\ channelSums weights'
       = shiftSums (rowFactor (Voronoi.m_envMapHeight v) i) (channelSums weights).

Lemma scanRow_sums i weights :
  0 <= i < Voronoi.m_envMapHeight v ->
  length weights = L ->
  exists weights',
    ofold (body i) (range (Voronoi.m_envMapWidth v)) weights = Ok weights'
    /\ length weights' = L
    /\ channelSums weights'
       = shiftSums (IZR (Z.of_nat (Z.to_nat (Voronoi.m_envMapWidth v)))
                    * rowFactor (Voronoi.m_envMapHeight v) i)
                   (channelSums weights).
Proof.
  intros Hi Hlen.
  destruct (ofold_invariant (body i)
              (fun n w => length w = L
                          /\ channelSums w
                             = shiftSums (IZR (Z.of_nat n)
                                          * rowFactor (Voronoi.m_envMapHeight v) i)
                                         (channelSums weights))
              (range (Voronoi.m_envMapWidth v)) weights) as (w' & Hw' & Hl & Hs).
  - split; [exact Hlen|]. unfold shiftSums. change (Z.of_nat 0) with 0.
    destruct (channelSums weights) as [[a b] c]. cbn [fst snd]. f_equal; [f_equal|]; lra.
  - intros n w j Hj [Hl Hs]. apply range_In in Hj.
    destruct (Hbody i j w Hi Hj Hl) as (w' & -> & Hl' & Hs').
    exists w'. split; [reflexivity|]. split; [exact Hl'|].
    rewrite Hs', Hs. unfold shiftSums. cbn [fst snd].
    rewrite Nat2Z.inj_succ, succ_IZR. f_equal; [f_equal|]; lra.
  - exists w'. rewrite range_length in Hs. auto.
Qed.

Lemma scanRowMajor_sums weights :
  0 <= Voronoi.m_envMapWidth v ->
  length weights = L ->
  channelSums weights = (0, 0, 0)%R ->
  exists weights',
    Voronoi.scanRowMajor v body weights = Ok weights'
    /\ channelSums weights'
       = (let total := (IZR (Voronoi.m_envMapWidth v)
                        * rowFactorSum (Voronoi.m_envMapHeight v))%R in
          (total, total, total)).
Proof.
  intros HW Hlen Hzero. unfold Voronoi.scanRowMajor.
  set (total n := (IZR (Voronoi.m_envMapWidth v)
                   * sumR (map (rowFactor (Voronoi.m_envMapHeight v))
                               (take n (range (Voronoi.m_envMapHeight v)))))%R).
  destruct (ofold_invariant_nth
              (fun s i => ofold (body i) (range (Voronoi.m_envMapWidth v)) s)
              (fun n w => length w = L /\ channelSums w = (total n, total n, total n))
              (range (Voronoi.m_envMapHeight v)) weights) as (w' & Hw' & _ & Hs).
  - split; [exact Hlen|]. rewrite Hzero. unfold total. simpl. repeat f_equal; lra.
  - intros n w i Hn [Hl Hs].
    assert (Hi : 0 <= i < Voronoi.m_envMapHeight v)
      by (apply range_In, list_elem_of_In; eapply list_elem_of_lookup_2; exact Hn).
    destruct (scanRow_sums i w Hi Hl) as (w' & -> & Hl' & Hs').
    exists w'. split; [reflexivity|]. split; [exact Hl'|].
    rewrite Hs', Hs. unfold shiftSums, total. cbn [fst snd].
    rewrite (take_S_r _ _ _ Hn), map_app, sumR_app. simpl.
    rewrite Z2Nat.id by lia.
    f_equal; [f_equal|]; lra.
  - exists w'. split; [exact Hw'|].
    unfold total in Hs. rewrite firstn_all in Hs. exact Hs.
Qed.

End ScanSums.

Section UnitMap.
Context {cv : OpenCV}.
Variable v : Voronoi.t R.
Variable jOffset : Z.
Hypothesis Hcv : nearest_contract cv.
Hypothesis Hcons : consistent v.
Hypothesis Hone : 1 <= LightingBasis.numberOfPointLights (Voronoi.m_basis v).
Hypothesis Hclear : Voronoi.m_rgbWeights v = [].
Hypothesis HW : 0 <= Voronoi.m_envMapWidth v.

Let environmentMap := unitMap (Voronoi.m_envMapHeight v) (Voronoi.m_envMapWidth v).

Lemma channelSums_accumulate (weights : list (RGB R)) (k : nat) (w : RGB R) (x : R) :
  weights !! k = Some w ->
  channelSums (<[k := Voronoi.accumulate (fo := idealReal) 1%R 1%R 1%R x w]> weights)
  = shiftSums x (channelSums weights).
Proof.
  intros Hw. unfold channelSums, shiftSums. cbn [fst snd].
  rewrite !(sumR_map_insert _ _ _ w _ Hw).
  unfold Voronoi.accumulate. cbn [red green blue fadd fmul idealReal].
  f_equal; [f_equal|]; lra.
Qed.

Lemma weightPixelOR_unit i j weights :
  cellsMapped v ->
  0 <= i < Voronoi.m_envMapHeight v -> 0 <= j < Voronoi.m_envMapWidth v ->
  length weights = length (Voronoi.m_cellNumberPerPicture v) ->
  exists weights',
    Voronoi.weightPixelOR (fo := idealReal) v environmentMap jOffset i weights j
      = Ok weights'
    /\ length weights' = length (Voronoi.m_cellNumberPerPicture v)
    /\ channelSums weights'
       = shiftSums (rowFactor (Voronoi.m_envMapHeight v) i) (channelSums weights).
Proof.
  intros Hmap Hi Hj Hlen. unfold Voronoi.weightPixelOR.
  pose proof (findNearestLightSource_cell v j i Hcv Hcons Hone) as Hc.
  destruct (Z.eqb_spec (Voronoi.findNearestLightSource v j i) (-1)) as [|Hne]; [lia|].
  pose proof (findImageNumber_mapped v _ (Hmap i j Hi Hj Hne)) as Hk.
  cbn [environmentMap unitMap mat_at val0 val1 val2 Voronoi.allNaN fisnan
       idealReal andb negb].
  match goal with |- context [vec_update ?f ?k weights] =>
    destruct (vec_update_Ok f k weights) as (w & Hw & ->) end; [lia|].
  eexists. split; [reflexivity|]. split; [now rewrite length_insert|].
  apply (channelSums_accumulate _ _ _ _ Hw).
Qed.

Lemma weightPixelRGB_unit i j weights :
  0 <= i < Voronoi.m_envMapHeight v -> 0 <= j < Voronoi.m_envMapWidth v ->
  length weights = Z.to_nat (LightingBasis.numberOfPointLights (Voronoi.m_basis v)) ->
  exists weights',
    Voronoi.weightPixelRGB (fo := idealReal) v environmentMap
      (unitIntensities (length weights)) jOffset i weights j = Ok weights'
    /\ length weights'
       = Z.to_nat (LightingBasis.numberOfPointLights (Voronoi.m_basis v))
    /\ channelSums weights'
       = shiftSums (rowFactor (Voronoi.m_envMapHeight v) i) (channelSums weights).
Proof.
  intros Hi Hj Hlen. unfold Voronoi.weightPixelRGB.
  pose proof (findNearestLightSource_cell v j i Hcv Hcons Hone) as Hc.
  destruct (Z.eqb_spec (Voronoi.findNearestLightSource v j i) (-1)) as [|Hne]; [lia|].
  assert (Hli : vec_get (Voronoi.findNearestLightSource v j i)
                        (unitIntensities (length weights)) = Ok (mkRGB 1 1 1)%R).
  { unfold vec_get, unitIntensities. destruct (Z.leb_spec 0 (Voronoi.findNearestLightSource v j i)); [|lia].
    rewrite lookup_replicate_2 by lia. reflexivity. }
  rewrite Hli. unfold mbind, outcome_bind, obind.
  cbn [environmentMap unitMap mat_at val0 val1 val2 red green blue fmul idealReal].
  replace (1 * 1)%R with 1%R by lra.
  cbn [Voronoi.allNaN fisnan idealReal andb negb].
  match goal with |- context [vec_update ?f ?k weights] =>
    destruct (vec_update_Ok f k weights) as (w & Hw & ->) end; [lia|].
  eexists. split; [reflexivity|]. split; [rewrite length_insert; lia|].
  apply (channelSums_accumulate _ _ _ _ Hw).
Qed.

Lemma channelSums_zeroWeights n :
  channelSums (Voronoi.zeroWeights (fo := idealReal) n) = (0, 0, 0)%R.
Proof.
  unfold channelSums. now rewrite !sumR_map_zeroWeights by reflexivity.
Qed.

Lemma computeVoronoiWeightsOR_unit :
  cellsMapped v ->
  exists v',
    Voronoi.computeVoronoiWeightsOR (fo := idealReal) environmentMap jOffset v = Ok v'
    /\ channelSums (Voronoi.m_rgbWeights v')
       = (let total := (IZR (Voronoi.m_envMapWidth v)
                        * rowFactorSum (Voronoi.m_envMapHeight v))%R in
          (total, total, total)).
Proof.
  intros Hmap. unfold Voronoi.computeVoronoiWeightsOR. rewrite Hclear. cbn [app].
  destruct (scanRowMajor_sums v
              (Voronoi.weightPixelOR (fo := idealReal) v environmentMap jOffset)
              (length (Voronoi.m_cellNumberPerPicture v))
              (fun i j w => weightPixelOR_unit i j w Hmap)
              (Voronoi.zeroWeights (fo := idealReal)
                 (length (Voronoi.m_cellNumberPerPicture v))) HW)
    as (w' & -> & Hs).
  - apply length_replicate.
  - apply channelSums_zeroWeights.
  - eexists. split; [reflexivity|exact Hs].
Qed.

Lemma computeVoronoiWeightsRGB_unit :
  exists v',
    Voronoi.computeVoronoiWeightsRGB (fo := idealReal) environmentMap
      (unitIntensities
         (Z.to_nat (LightingBasis.numberOfPointLights (Voronoi.m_basis v))))
      jOffset v = Ok v'
    /\ channelSums (Voronoi.m_rgbWeights v')
       = (let total := (IZR (Voronoi.m_envMapWidth v)
                        * rowFactorSum (Voronoi.m_envMapHeight v))%R in
          (total, total, total)).
Proof.
  unfold Voronoi.computeVoronoiWeightsRGB. rewrite Hclear. cbn [app].
  set (n := Z.to_nat (LightingBasis.numberOfPointLights (Voronoi.m_basis v))).
  destruct (scanRowMajor_sums v
              (Voronoi.weightPixelRGB (fo := idealReal) v environmentMap
                 (unitIntensities n) jOffset) n) with
      (weights := Voronoi.zeroWeights (fo := idealReal) n) as (w' & -> & Hs).
  - intros i j w Hi Hj Hl.
    destruct (weightPixelRGB_unit i j w Hi Hj Hl) as (w' & Hw' & Hl' & Hs').
    rewrite Hl in Hw'. eauto.
  - exact HW.
  - apply length_replicate.
  - apply channelSums_zeroWeights.
  - eexists. split; [reflexivity|exact Hs].
Qed.

End UnitMap.


Lemma unitVoronoi_consistent : consistent unitVoronoi.
Proof. unfold consistent. simpl. repeat split; auto. Qed.

Lemma unitVoronoi_cellsMapped : cellsMapped (cv := cvRef) unitVoronoi.
Proof.
  intros i j Hi Hj _. simpl in Hi, Hj.
  assert (Ei : i = 0 \/ i = 1) by lia. assert (Ej : j = 0) by lia. subst j.
  destruct Ei as [-> | ->]; exists [0]; vm_compute; auto.
Qed.

Lemma rowFactorSum_2 : rowFactorSum 2 = 1%R.
Proof.
  unfold rowFactorSum, rowFactor. change (range 2) with [0; 1]. simpl.
  replace (0 * PI / 2)%R with 0%R by lra.
  replace (1 * PI / 2)%R with (PI / 2)%R by lra.
  rewrite sin_0, sin_PI2. lra.
Qed.



(** ** C9: the point-light file *)

Section BasisFileFacts.
Import BasisFile.
#[local] Open Scope char_scope.

Ltac eval_digit :=
  unfold atoi_digits; fold atoi_digits;
  match goal with
  | |- context [digit_val ?c] =>
      let r := eval vm_compute in (digit_val c) in change (digit_val c) with r
  end;
  cbv iota.

Lemma atoi_digits_acc (d : Decimal.uint) : forall acc : positive,
  atoi_digits (Zpos acc) (uint_chars d) = Zpos (Pos.of_uint_acc d acc).
Proof.
  induction d; intros acc; cbn [uint_chars Pos.of_uint_acc]; [reflexivity|..];
    eval_digit; rewrite <- IHd; f_equal; lia.
Qed.

Lemma atoi_digits_uint (d : Decimal.uint) :
  atoi_digits 0 (uint_chars d) = Z.of_N (Pos.of_uint d).
Proof.
  induction d; cbn [uint_chars Pos.of_uint]; [reflexivity|..];
    eval_digit; [exact IHd|..];
    cbn [Z.of_N]; rewrite <- atoi_digits_acc; reflexivity.
Qed.

Lemma atoi_digits_to_uint (p : positive) :
  atoi_digits 0 (uint_chars (Pos.to_uint p)) = Zpos p.
Proof. now rewrite atoi_digits_uint, Unsigned.of_to. Qed.

Lemma atoi_uint_chars (d : Decimal.uint) :
  atoi (uint_chars d) = atoi_digits 0 (uint_chars d)
  /\ atoi ("-" :: uint_chars d) = - atoi_digits 0 (uint_chars d).
Proof. split; [destruct d; reflexivity|reflexivity]. Qed.

(** [atoi] reads back what [operator<<] prints. *)
Lemma atoi_show_int (n : Z) : atoi (show_int n) = n.
Proof.
  unfold show_int. destruct n as [|p|p]; cbn [Z.to_int].
  - reflexivity.
  - rewrite (proj1 (atoi_uint_chars _)). apply atoi_digits_to_uint.
  - rewrite (proj2 (atoi_uint_chars _)). now rewrite atoi_digits_to_uint.
Qed.

Lemma uint_chars_noSpace d : noSpace (uint_chars d).
Proof. induction d; cbn [uint_chars]; constructor; auto. Qed.

Lemma show_int_noSpace n : noSpace (show_int n).
Proof.
  unfold show_int. destruct (Z.to_int n); [|constructor; [reflexivity|]];
    apply uint_chars_noSpace.
Qed.

Lemma show_int_nonempty n : show_int n <> [].
Proof.
  unfold show_int. destruct n as [|p|p]; cbn [Z.to_int]; try discriminate.
  intros E. pose proof (atoi_digits_to_uint p) as H. rewrite E in H. discriminate.
Qed.

Lemma words_from_word (w : list ascii) : forall cur c rest,
  noSpace w -> isspace c = true ->
  words_from cur (w ++ c :: rest) = emit (cur ++ w) (words_from [] rest).
Proof.
  induction w as [|a w IH]; intros cur c rest Hw Hc.
  - cbn [app words_from]. rewrite Hc. now rewrite app_nil_r.
  - inversion Hw as [|? ? Ha Hw']; subst.
    cbn [app words_from]. rewrite Ha. rewrite IH by assumption.
    now rewrite <- app_assoc.
Qed.

Lemma emit_nonempty (w : list ascii) l : w <> [] -> emit w l = w :: l.
Proof. destruct w; [congruence|reflexivity]. Qed.

(** The words of one saved line, followed by the words of what follows. *)
Lemma words_saveLine i p rest :
  words (saveLine i p ++ rest)
  = (show_int i ++ [":"]) :: show_int (px p) :: show_int (py p) :: words rest.
Proof.
  unfold words, saveLine.
  replace ((show_int i ++ [":"; " "] ++ show_int (px p) ++ [" "] ++ show_int (py p)
            ++ [endl]) ++ rest)
    with ((show_int i ++ [":"]) ++ " " :: (show_int (px p)
            ++ " " :: (show_int (py p) ++ endl :: rest)))
    by (rewrite <- !app_assoc; reflexivity).
  rewrite words_from_word; [|apply Forall_app; split;
                              [apply show_int_noSpace|repeat constructor]|reflexivity].
  rewrite emit_nonempty by (destruct (show_int i); discriminate).
  rewrite words_from_word; [|apply show_int_noSpace|reflexivity].
  rewrite emit_nonempty by apply show_int_nonempty.
  rewrite words_from_word; [|apply show_int_noSpace|reflexivity].
  rewrite emit_nonempty by apply show_int_nonempty.
  reflexivity.
Qed.

(** Reading what [saveBasis] wrote gives back the positions, in order. *)
Lemma parse_saveLines (ps : list Point2i) : forall i x y,
  readPointLights x y (words (saveLines i ps)) = ps.
Proof.
  induction ps as [|p ps IH]; intros i x y; [reflexivity|].
  cbn [saveLines]. rewrite words_saveLine. cbn [readPointLights].
  rewrite !atoi_show_int, IH. now destruct p.
Qed.

End BasisFileFacts.

(** C9. [loadBasis] appends the positions read from the file, in the order of
    the file, to the point lights of the basis, which stay as they were, and
    raises the counter by their number; the positions read from a file
    written by [saveBasis] are the saved ones, in their order, so that
    [clearBasis] followed by [loadBasis] gives exactly the saved positions. *)
Theorem C9_load_appends_saved_positions :
  forall (b saved : LightingBasis.t) (content : list ascii),
    (LightingBasis.pointLightSourcePosition (BasisFile.loadBasis (Some content) b)
     = LightingBasis.pointLightSourcePosition b ++ BasisFile.parseBasisFile content
     /\ LightingBasis.numberOfPointLights (BasisFile.loadBasis (Some content) b)
        = LightingBasis.numberOfPointLights b
          + Z.of_nat (length (BasisFile.parseBasisFile content)))
    /\ LightingBasis.pointLightSourcePosition
         (BasisFile.loadBasis (Some (BasisFile.saveBasis saved)) b)
       = LightingBasis.pointLightSourcePosition b
         ++ LightingBasis.pointLightSourcePosition saved
    /\ LightingBasis.pointLightSourcePosition
         (BasisFile.loadBasis (Some (BasisFile.saveBasis saved))
            (LightingBasis.clearBasis b))
       = LightingBasis.pointLightSourcePosition saved
    /\ LightingBasis.numberOfPointLights
         (BasisFile.loadBasis (Some (BasisFile.saveBasis saved))
            (LightingBasis.clearBasis b))
       = Z.of_nat (length (LightingBasis.pointLightSourcePosition saved)).
Proof.
  intros b saved content.
  assert (Hparse : BasisFile.parseBasisFile (BasisFile.saveBasis saved)
                   = LightingBasis.pointLightSourcePosition saved)
    by apply parse_saveLines.
  unfold BasisFile.loadBasis.
  split; [|split; [|split]].
  - destruct (addPointLights_positions (BasisFile.parseBasisFile content) b)
      as (-> & -> & _). split; reflexivity.
  - destruct (addPointLights_positions
                (BasisFile.parseBasisFile (BasisFile.saveBasis saved)) b) as (-> & _).
    now rewrite Hparse.
  - destruct (addPointLights_positions
                (BasisFile.parseBasisFile (BasisFile.saveBasis saved))
                (LightingBasis.clearBasis b)) as (-> & _).
    now rewrite Hparse.
  - destruct (addPointLights_positions
                (BasisFile.parseBasisFile (BasisFile.saveBasis saved))
                (LightingBasis.clearBasis b)) as (_ & -> & _).
    rewrite Hparse. reflexivity.
Qed.

(** The file of a basis with the point lights (12,7) and (-3,1050), and the
    reading of a file whose last line lacks its second coordinate: the
    second coordinate of the line before is taken again. *)
Example saveBasis_example :
  BasisFile.saveBasis (LightingBasis.addPointLights [mkPoint 12 7; mkPoint (-3) 1050]
                         LightingBasis.empty)
  = list_ascii_of_string "0: 12 7" ++ [BasisFile.endl]
    ++ list_ascii_of_string "1: -3 1050" ++ [BasisFile.endl]
  /\ BasisFile.parseBasisFile
       (list_ascii_of_string "0: 12 7" ++ [BasisFile.endl] ++ list_ascii_of_string "1: 40")
     = [mkPoint 12 7; mkPoint 40 7].
Proof. vm_compute. split; reflexivity. Qed.

(** * Further properties of the code *)

(** ** voronoi.txt: what [saveVoronoi] writes, [loadVoronoi] reads back *)

Section VoronoiFileFacts.
Import BasisFile VoronoiFile.
#[local] Open Scope char_scope.

Lemma words_space c rest : isspace c = true -> words (c :: rest) = words rest.
Proof. intros Hc. unfold words. cbn [words_from]. now rewrite Hc. Qed.

Lemma words_from_end (w : list ascii) : forall cur,
  noSpace w -> words_from cur w = emit (cur ++ w) [].
Proof.
  induction w as [|c w IH]; intros cur Hw.
  - now rewrite app_nil_r.
  - inversion Hw as [|? ? Hc Hw']; subst. cbn [words_from]. rewrite Hc.
    rewrite IH by assumption. now rewrite <- app_assoc.
Qed.

Lemma words_word_sep w c rest :
  noSpace w -> w <> [] -> isspace c = true ->
  words (w ++ c :: rest) = w :: words rest.
Proof.
  intros Hw Hne Hc. unfold words. rewrite words_from_word by assumption.
  now apply emit_nonempty.
Qed.

Lemma words_word_end w : noSpace w -> w <> [] -> words w = [w].
Proof.
  intros Hw Hne. unfold words. rewrite words_from_end by assumption.
  now apply emit_nonempty.
Qed.

Lemma words_saveCells_sep (g : list Z) c rest :
  isspace c = true ->
  words (saveCells g ++ c :: rest) = map show_int g ++ words rest.
Proof.
  intros Hc. induction g as [|x g IH]; [now apply words_space|].
  cbn [saveCells map]. destruct g as [|y g].
  - apply words_word_sep; auto using show_int_noSpace, show_int_nonempty.
  - rewrite <- !app_assoc. cbn [app].
    rewrite words_word_sep by (auto using show_int_noSpace, show_int_nonempty).
    cbn [app]. f_equal. exact IH.
Qed.

Lemma words_saveCells_end (g : list Z) : words (saveCells g) = map show_int g.
Proof.
  induction g as [|x g IH]; [reflexivity|].
  cbn [saveCells map]. destruct g as [|y g].
  - apply words_word_end; auto using show_int_noSpace, show_int_nonempty.
  - cbn [app].
    rewrite words_word_sep by (auto using show_int_noSpace, show_int_nonempty).
    f_equal. exact IH.
Qed.

(** The words of voronoi.txt: for every picture its size, then its numbers. *)
Lemma words_saveGroups (groups : list (list Z)) :
  words (saveGroups groups)
  = flat_map (fun g => show_int (Z.of_nat (length g)) :: map show_int g) groups.
Proof.
  induction groups as [|g groups IH]; [reflexivity|].
  cbn [saveGroups flat_map]. destruct groups as [|g' groups].
  - cbn [app flat_map]. rewrite app_nil_r.
    rewrite words_word_sep by (auto using show_int_noSpace, show_int_nonempty).
    f_equal. apply words_saveCells_end.
  - rewrite <- !app_assoc. cbn [app].
    rewrite words_word_sep by (auto using show_int_noSpace, show_int_nonempty).
    cbn [app]. f_equal. rewrite words_saveCells_sep by reflexivity.
    f_equal. exact IH.
Qed.

Lemma readCells_saved (g : list Z) : forall value rest,
  exists last, readCells (length g) value (map show_int g ++ rest) = (g, last, rest).
Proof.
  induction g as [|x g IH]; intros value rest.
  - exists value. reflexivity.
  - cbn [length map app readCells tl].
    destruct (IH (show_int x) rest) as (last & ->).
    exists last. now rewrite atoi_show_int.
Qed.

Lemma readGroups_saved (groups : list (list Z)) : forall fuel value,
  (length groups <= fuel)%nat ->
  readGroups fuel value
    (flat_map (fun g => show_int (Z.of_nat (length g)) :: map show_int g) groups)
  = groups.
Proof.
  induction groups as [|g groups IH]; intros fuel value Hfuel.
  - destruct fuel; reflexivity.
  - destruct fuel as [|fuel]; [simpl in Hfuel; lia|].
    cbn [flat_map app readGroups]. rewrite atoi_show_int, Nat2Z.id.
    destruct (readCells_saved g value
                (flat_map (fun g => show_int (Z.of_nat (length g)) :: map show_int g)
                          groups)) as (last & ->).
    f_equal. apply IH. simpl in Hfuel. lia.
Qed.

Lemma readCells_rest (size : nat) : forall value ws,
  (length (snd (readCells size value ws)) <= length ws)%nat.
Proof.
  induction size as [|size IH]; intros value ws; [simpl; lia|].
  cbn [readCells].
  specialize (IH (match ws with w :: _ => w | [] => value end) (tl ws)).
  destruct (readCells size _ (tl ws)) as [[cells last] rest]. cbn [snd] in *.
  destruct ws; simpl in *; lia.
Qed.

(** More rounds than words change nothing. *)
Lemma readGroups_fuel (fuel : nat) : forall extra value ws,
  (length ws <= fuel)%nat ->
  readGroups (fuel + extra) value ws = readGroups fuel value ws.
Proof.
  induction fuel as [|fuel IH]; intros extra value ws Hfuel.
  - destruct ws; [|simpl in Hfuel; lia]. destruct extra; reflexivity.
  - destruct ws as [|sizeString ws]; [reflexivity|].
    cbn [Nat.add readGroups].
    pose proof (readCells_rest (Z.to_nat (atoi sizeString)) value ws) as Hrest.
    destruct (readCells _ value ws) as [[cells last] rest]. cbn [snd] in Hrest.
    f_equal. apply IH. simpl in Hfuel. lia.
Qed.

(** Reading what [saveVoronoi] wrote gives back the vectors. *)
Lemma parse_saveGroups (groups : list (list Z)) :
  parseVoronoiFile (saveGroups groups) = groups.
Proof.
  unfold parseVoronoiFile. rewrite words_saveGroups.
  apply readGroups_saved.
  induction groups as [|g groups IH]; simpl; [lia|].
  rewrite length_app. lia.
Qed.

End VoronoiFileFacts.

(** X1. The cell numbers of the pictures survive [saveVoronoi] followed by the
    parser of [loadVoronoi]: reading the text written for any vector of
    vectors of integers, empty vectors included, gives the same vector back.
    The rounds allowed to the reading loop are no restriction: any larger
    number of rounds reads the same. *)
Theorem X1_voronoi_file_round_trip :
  forall groups : list (list Z),
    VoronoiFile.parseVoronoiFile (VoronoiFile.saveGroups groups) = groups
    /\ forall (content : list ascii) (extra : nat),
         VoronoiFile.readGroups (length (BasisFile.words content) + extra) []
           (BasisFile.words content)
         = VoronoiFile.parseVoronoiFile content.
Proof.
  intros groups. split.
  - apply parse_saveGroups.
  - intros content extra. unfold VoronoiFile.parseVoronoiFile.
    now apply readGroups_fuel.
Qed.

Example saveGroups_example :
  VoronoiFile.saveGroups [[0]; [1; 2]; []]
  = list_ascii_of_string "1 0" ++ [BasisFile.endl]
    ++ list_ascii_of_string "2 1 2" ++ [BasisFile.endl] ++ list_ascii_of_string "0 "
  /\ VoronoiFile.parseVoronoiFile (list_ascii_of_string "2 5") = [[5; 5]]
  /\ VoronoiFile.parseVoronoiFile (list_ascii_of_string "1 4 -1 2") = [[4]; []; [4; 4]].
Proof. vm_compute. repeat split. Qed.

(** ** [setVoronoi] on a partition that already holds lights *)

Lemma setVoronoi_steps_groups (l : list (Z * Point2i)) : forall s groups,
  Forall (fun ip => insideMap (sub_width s) (sub_height s) (snd ip)) l ->
  exists s',
    ofold Voronoi.setVoronoi_step l (s, groups)
      = Ok (s', groups ++ map (fun ip => [fst ip]) l)
    /\ sub_width s' = sub_width s /\ sub_height s' = sub_height s
    /\ (forall q, In q (sub_vertices s') <-> In q (sub_vertices s) \/ In q (map snd l)).
Proof.
  induction l as [|ip l IH]; intros s groups Hin.
  - exists s. simpl. rewrite app_nil_r. repeat split; auto; tauto.
  - inversion Hin as [|? ? Hip Hl]; subst.
    destruct (Subdiv2D_insert_inside s (snd ip) Hip) as (s1 & Hs1 & Hw1 & Hh1 & Hv1).
    destruct (IH s1 (groups ++ [[fst ip]])) as (s' & Hrun & Hw & Hh & Hv).
    { rewrite Hw1, Hh1. exact Hl. }
    exists s'. cbn [ofold].
    replace (Voronoi.setVoronoi_step (s, groups) ip)
      with (Ok (A := Subdiv2D * list (list Z)) (s1, groups ++ [[fst ip]]))
      by (unfold Voronoi.setVoronoi_step; cbn [fst snd]; now rewrite Hs1).
    split.
    { unfold mbind, outcome_bind, obind. rewrite Hrun. cbn [map].
      now rewrite <- app_assoc. }
    split; [congruence|]. split; [congruence|].
    intros q. rewrite Hv, Hv1. simpl. intuition.
Qed.

Lemma numbered_groups {B} (numbers : list Z) (points : list B) :
  length numbers = length points ->
  map (fun ip : Z * B => [fst ip]) (combine numbers points)
  = map (fun i => [i]) numbers.
Proof.
  revert points. induction numbers as [|k numbers IH]; intros [|p points] Hl;
    simpl in *; try discriminate; [reflexivity|].
  f_equal. apply IH. lia.
Qed.

(** [setVoronoi] appends the positions to the basis, whatever it holds, and
    numbers the groups it appends from zero. *)
Lemma setVoronoi_with_result {F} {cv : OpenCV} (groups : list (list Z))
    (positions : list Point2i) (v : Voronoi.t F) :
  nearest_contract cv ->
  sub_width (Voronoi.m_voronoiSubdivision v) = Voronoi.m_envMapWidth v ->
  sub_height (Voronoi.m_voronoiSubdivision v) = Voronoi.m_envMapHeight v ->
  LightingBasis.numberOfPointLights (Voronoi.m_basis v)
    = Z.of_nat (length (LightingBasis.pointLightSourcePosition (Voronoi.m_basis v))) ->
  (forall q, In q (sub_vertices (Voronoi.m_voronoiSubdivision v)) \/ In q positions
             <-> In q (LightingBasis.pointLightSourcePosition (Voronoi.m_basis v))
                 \/ In q positions) ->
  positions <> [] ->
  Forall (insideMap (Voronoi.m_envMapWidth v) (Voronoi.m_envMapHeight v)) positions ->
  0 <= Voronoi.m_envMapWidth v -> 0 <= Voronoi.m_envMapHeight v ->
  exists v',
    Voronoi.setVoronoi_with groups positions v = Ok v'
    /\ consistent v'
    /\ LightingBasis.pointLightSourcePosition (Voronoi.m_basis v')
       = LightingBasis.pointLightSourcePosition (Voronoi.m_basis v) ++ positions
    /\ LightingBasis.numberOfPointLights (Voronoi.m_basis v')
       = LightingBasis.numberOfPointLights (Voronoi.m_basis v)
         + Z.of_nat (length positions)
    /\ Voronoi.m_cellNumberPerPicture v'
       = groups ++ map (fun i => [i]) (range (Z.of_nat (length positions)))
    /\ Z.of_nat (length (Voronoi.m_numberOfPixelsInVoronoiCell v'))
       = LightingBasis.numberOfPointLights (Voronoi.m_basis v')
    /\ sumZ (Voronoi.m_numberOfPixelsInVoronoiCell v')
       = Voronoi.m_envMapWidth v * Voronoi.m_envMapHeight v
    /\ Voronoi.m_envMapWidth v' = Voronoi.m_envMapWidth v
    /\ Voronoi.m_envMapHeight v' = Voronoi.m_envMapHeight v
    /\ Voronoi.m_rgbWeights v' = Voronoi.m_rgbWeights v.
Proof.
  intros Hcv Hsw Hsh Hcount Hsites Hne Hin HW HH.
  unfold Voronoi.setVoronoi_with.
  set (l := combine (range (Z.of_nat (length positions))) positions).
  assert (Hlen : length (range (Z.of_nat (length positions))) = length positions)
    by (rewrite range_length; lia).
  assert (Hl : map snd l = positions) by now apply numbered_points.
  destruct (setVoronoi_steps_groups l (Voronoi.m_voronoiSubdivision v) groups)
    as (s' & Hrun & Hw & Hh & Hv).
  { apply List.Forall_forall. intros ip Hip. rewrite Hsw, Hsh.
    rewrite List.Forall_forall in Hin. apply Hin. rewrite <- Hl. now apply in_map. }
  rewrite (numbered_groups _ _ Hlen : map (fun ip => [fst ip]) l = _) in Hrun.
  rewrite Hrun. unfold mbind, outcome_bind, obind. cbn [fst snd].
  destruct (Z.eqb_spec (Z.of_nat (length positions)) 0) as [E|_];
    [destruct positions; [congruence|discriminate]|].
  set (v1 := Voronoi.setCellNumberPerPicture _ _).
  destruct (addPointLights_positions positions (Voronoi.m_basis v)) as (Hp & Hn & _).
  assert (Hcons : consistent v1).
  { unfold consistent, v1. cbn [Voronoi.setCellNumberPerPicture Voronoi.set_basis_subdiv
      Voronoi.m_basis Voronoi.m_voronoiSubdivision Voronoi.m_envMapWidth
      Voronoi.m_envMapHeight].
    rewrite Hp, Hn, length_app.
    split; [lia|]. split; [|split; congruence].
    intros q. rewrite Hv, Hl, in_app_iff. apply Hsites. }
  assert (Hone : 1 <= LightingBasis.numberOfPointLights (Voronoi.m_basis v1)).
  { unfold v1. cbn [Voronoi.setCellNumberPerPicture Voronoi.set_basis_subdiv Voronoi.m_basis].
    rewrite Hn. destruct positions; [congruence|simpl length; lia]. }
  destruct (countPixels_counts v1 Hcv Hcons Hone) as (c & Hc & Hcl & Hs).
  unfold Voronoi.numberOfPixelsPerVoronoiCell. rewrite Hc.
  unfold mbind, outcome_bind, obind. eexists. split; [reflexivity|].
  cbn [Voronoi.set_counts Voronoi.m_numberOfPixelsInVoronoiCell Voronoi.m_basis
       Voronoi.m_cellNumberPerPicture Voronoi.m_envMapWidth Voronoi.m_envMapHeight
       Voronoi.m_rgbWeights].
  split; [exact Hcons|].
  unfold v1 in *. cbn [Voronoi.setCellNumberPerPicture Voronoi.set_basis_subdiv
    Voronoi.m_basis Voronoi.m_cellNumberPerPicture Voronoi.m_envMapWidth
    Voronoi.m_envMapHeight Voronoi.m_rgbWeights] in *.
  split; [exact Hp|]. split; [exact Hn|]. split; [reflexivity|].
  split; [rewrite Hcl; lia|]. split; [rewrite Hs; lia|]. auto.
Qed.

(** ** A position held twice by the basis *)

Section DuplicateLights.
Context {F : Type} {cv : OpenCV}.

(** [findLightSource] returns the first index that holds the position. *)
Lemma findLightSource_from_first positions : forall i x y (m : nat),
  positions !! m = Some (mkPoint x y) ->
  i <= Voronoi.findLightSource_from i positions x y <= i + Z.of_nat m.
Proof.
  induction positions as [|p rest IH]; intros i x y m Hm; [discriminate|].
  cbn [Voronoi.findLightSource_from].
  destruct ((px p =? x) && (py p =? y)) eqn:E; [lia|].
  destruct m as [|m].
  - injection Hm as ->. cbn [px py] in E. now rewrite !Z.eqb_refl in E.
  - specialize (IH (i + 1) x y m Hm). lia.
Qed.

Lemma findLightSource_never_second (v : Voronoi.t F) (k' k : nat) p x y :
  (k' < k)%nat ->
  LightingBasis.pointLightSourcePosition (Voronoi.m_basis v) !! k' = Some p ->
  LightingBasis.pointLightSourcePosition (Voronoi.m_basis v) !! k = Some p ->
  Voronoi.findLightSource v x y <> Z.of_nat k.
Proof.
  intros Hlt Hk' Hk Hfound. unfold Voronoi.findLightSource in Hfound.
  pose proof (findLightSource_from_nth 0
                (LightingBasis.pointLightSourcePosition (Voronoi.m_basis v)) x y
                ltac:(lia) ltac:(lia)) as Hnth.
  rewrite Hfound, Z.sub_0_r, Nat2Z.id, Hk in Hnth. injection Hnth as ->.
  pose proof (findLightSource_from_first _ 0 x y k' Hk'). lia.
Qed.

Lemma countPixels_second_zero (v : Voronoi.t F) (k' k : nat) p :
  (k' < k)%nat ->
  LightingBasis.pointLightSourcePosition (Voronoi.m_basis v) !! k' = Some p ->
  LightingBasis.pointLightSourcePosition (Voronoi.m_basis v) !! k = Some p ->
  forall counts counts',
    counts !! k = Some 0 ->
    Voronoi.countPixels v counts = Ok counts' ->
    counts' !! k = Some 0.
Proof.
  intros Hlt Hk' Hk counts counts' H0. unfold Voronoi.countPixels.
  rewrite ofold_nested.
  generalize (flat_map (fun i => map (fun j => (i, j)) (range (Voronoi.m_envMapHeight v)))
                       (range (Voronoi.m_envMapWidth v))).
  intros pixels. revert counts H0.
  induction pixels as [|[j i] pixels IH]; intros counts H0; cbn [ofold fst snd].
  - now intros [= <-].
  - unfold mbind, outcome_bind, obind.
    destruct (Voronoi.countPixel v j counts i) as [c| |] eqn:Hc; try discriminate.
    apply IH. unfold Voronoi.countPixel in Hc.
    destruct (Voronoi.findNearestLightSource v j i =? -1); [now injection Hc as <-|].
    rewrite (vec_update_lookup _ _ _ _ k Hc).
    destruct (Z.eqb_spec (Voronoi.findNearestLightSource v j i) (Z.of_nat k)) as [E|_];
      [|exact H0].
    exfalso. unfold Voronoi.findNearestLightSource in E.
    exact (findLightSource_never_second v k' k p _ _ Hlt Hk' Hk E).
Qed.

End DuplicateLights.

(** X2. A position that the basis holds twice owns no pixel through its
    second entry: [findNearestLightSource] never returns the later index, and
    after [numberOfPixelsPerVoronoiCell] the count of the later index is 0. *)
Theorem X2_second_entry_owns_no_pixel :
  forall (F : Type) (cv : OpenCV) (v : Voronoi.t F) (k' k : nat) (p : Point2i),
    (k' < k)%nat ->
    LightingBasis.pointLightSourcePosition (Voronoi.m_basis v) !! k' = Some p ->
    LightingBasis.pointLightSourcePosition (Voronoi.m_basis v) !! k = Some p ->
    LightingBasis.numberOfPointLights (Voronoi.m_basis v)
      = Z.of_nat (length (LightingBasis.pointLightSourcePosition (Voronoi.m_basis v))) ->
    (forall x y, Voronoi.findNearestLightSource v x y <> Z.of_nat k)
    /\ exists v', Voronoi.numberOfPixelsPerVoronoiCell v = Ok v'
                  /\ Voronoi.m_numberOfPixelsInVoronoiCell v' !! k = Some 0.
Proof.
  intros F cv v k' k p Hlt Hk' Hk Hn. split.
  - intros x y. unfold Voronoi.findNearestLightSource.
    now apply (findLightSource_never_second v k' k p).
  - destruct (numberOfPixelsPerVoronoiCell_total v Hn) as (counts & Hrun).
    rewrite Hrun. eexists. split; [reflexivity|].
    cbn [Voronoi.set_counts Voronoi.m_numberOfPixelsInVoronoiCell].
    unfold Voronoi.numberOfPixelsPerVoronoiCell in Hrun.
    destruct (Voronoi.countPixels v _) as [c| |] eqn:Hc; try discriminate.
    injection Hrun as <-.
    apply (countPixels_second_zero v k' k p Hlt Hk' Hk _ _) in Hc; [exact Hc|].
    apply lookup_replicate_2. apply lookup_lt_Some in Hk. lia.
Qed.

Lemma X2_second_entry_owns_no_pixel_witness :
  (forall x y, Voronoi.findNearestLightSource (cv := cvRef) twiceVoronoi x y
               <> Z.of_nat 2)
  /\ exists v', Voronoi.numberOfPixelsPerVoronoiCell (cv := cvRef) twiceVoronoi = Ok v'
                /\ Voronoi.m_numberOfPixelsInVoronoiCell v' !! 2%nat = Some 0.
Proof.
  apply (X2_second_entry_owns_no_pixel (option Z) cvRef twiceVoronoi 0 2 (mkPoint 1 1)).
  - lia.
  - reflexivity.
  - reflexivity.
  - reflexivity.
Defined.

(** The counts depend on the basis, the subdivision and the size of the map
    only: counting again changes nothing. *)
Lemma numberOfPixelsPerVoronoiCell_again {F} {cv : OpenCV} (v v' : Voronoi.t F) :
  Voronoi.numberOfPixelsPerVoronoiCell v = Ok v' ->
  Voronoi.numberOfPixelsPerVoronoiCell v' = Ok v'.
Proof.
  unfold Voronoi.numberOfPixelsPerVoronoiCell.
  destruct (Voronoi.countPixels v _) as [c| |] eqn:Hc; try discriminate.
  intros [= <-]. cbn [Voronoi.set_counts Voronoi.m_basis].
  change (Voronoi.countPixels (Voronoi.set_counts c v)) with (Voronoi.countPixels v).
  rewrite Hc. reflexivity.
Qed.

Lemma setVoronoi_with_counted {F} {cv : OpenCV} groups positions (v v' : Voronoi.t F) :
  positions <> [] ->
  Voronoi.setVoronoi_with groups positions v = Ok v' ->
  Voronoi.numberOfPixelsPerVoronoiCell v' = Ok v'.
Proof.
  intros Hne. unfold Voronoi.setVoronoi_with.
  destruct (ofold _ _ _) as [st| |]; try discriminate.
  unfold mbind, outcome_bind, obind.
  destruct (Z.eqb_spec (Z.of_nat (length positions)) 0) as [E|_];
    [destruct positions; [congruence|discriminate]|].
  apply numberOfPixelsPerVoronoiCell_again.
Qed.

(** ** [loadVoronoi] *)

(** What [loadVoronoi] builds on a cleared partition from a basis.txt that
    holds the positions [parseBasisFile content]. *)
Lemma loadVoronoi_result {F} {cv : OpenCV} (content : list ascii)
    (voronoiFile : option (list ascii)) (v0 : Voronoi.t F) :
  nearest_contract cv ->
  let positions := BasisFile.parseBasisFile content in
  positions <> [] ->
  Forall (insideMap (Voronoi.m_envMapWidth v0) (Voronoi.m_envMapHeight v0)) positions ->
  0 <= Voronoi.m_envMapWidth v0 -> 0 <= Voronoi.m_envMapHeight v0 ->
  exists v',
    VoronoiFile.loadVoronoi (Some content) voronoiFile (Voronoi.clearVoronoi v0) = Ok v'
    /\ LightingBasis.pointLightSourcePosition (Voronoi.m_basis v') = positions ++ positions
    /\ LightingBasis.numberOfPointLights (Voronoi.m_basis v')
       = 2 * Z.of_nat (length positions)
    /\ Voronoi.m_cellNumberPerPicture v'
       = match voronoiFile with
         | Some groups => VoronoiFile.parseVoronoiFile groups
         | None => map (fun i => [i]) (range (Z.of_nat (length positions)))
         end
    /\ Z.of_nat (length (Voronoi.m_numberOfPixelsInVoronoiCell v'))
       = 2 * Z.of_nat (length positions)
    /\ sumZ (Voronoi.m_numberOfPixelsInVoronoiCell v')
       = Voronoi.m_envMapWidth v0 * Voronoi.m_envMapHeight v0
    /\ forall m : nat, (length positions <= m < 2 * length positions)%nat ->
         Voronoi.m_numberOfPixelsInVoronoiCell v' !! m = Some 0.
Proof.
  intros Hcv positions Hne Hin HW HH. unfold VoronoiFile.loadVoronoi.
  set (v1 := Voronoi.set_basis_subdiv _ _ _).
  assert (Hb : LightingBasis.pointLightSourcePosition (Voronoi.m_basis v1) = positions
               /\ LightingBasis.numberOfPointLights (Voronoi.m_basis v1)
                  = Z.of_nat (length positions)).
  { destruct (addPointLights_positions (BasisFile.parseBasisFile content)
                LightingBasis.empty) as (H1 & H2 & _).
    split; [exact H1|exact H2]. }
  destruct Hb as (Hp & Hn). rewrite Hp.
  destruct (setVoronoi_with_result (Voronoi.m_cellNumberPerPicture v1) positions v1)
    as (v2 & Hrun & _ & Hp2 & Hn2 & Hg2 & Hl2 & Hs2 & _); auto.
  { rewrite Hp, Hn. reflexivity. }
  { intros q. rewrite Hp. unfold v1. simpl. tauto. }
  unfold Voronoi.setVoronoi. rewrite Hrun. unfold mbind, outcome_bind, obind.
  assert (Hzero : forall m : nat, (length positions <= m < 2 * length positions)%nat ->
            Voronoi.m_numberOfPixelsInVoronoiCell v2 !! m = Some 0).
  { intros m Hm.
    pose proof (setVoronoi_with_counted _ _ _ _ Hne Hrun) as Hagain.
    destruct (lookup_lt_is_Some_2 positions (m - length positions)) as (p & Hpm); [lia|].
    unfold Voronoi.numberOfPixelsPerVoronoiCell in Hagain.
    destruct (Voronoi.countPixels v2 _) as [c| |] eqn:Hc; try discriminate.
    unfold mbind, outcome_bind, obind in Hagain.
    assert (Hcc : c = Voronoi.m_numberOfPixelsInVoronoiCell v2).
    { injection Hagain as Hagain.
      apply (f_equal Voronoi.m_numberOfPixelsInVoronoiCell) in Hagain. exact Hagain. }
    rewrite <- Hcc.
    assert (Hk' : LightingBasis.pointLightSourcePosition (Voronoi.m_basis v2)
                  !! (m - length positions)%nat = Some p).
    { rewrite Hp2, Hp. rewrite lookup_app_l by lia. exact Hpm. }
    assert (Hk : LightingBasis.pointLightSourcePosition (Voronoi.m_basis v2) !! m
                 = Some p).
    { rewrite Hp2, Hp. rewrite lookup_app_r by lia. exact Hpm. }
    refine (countPixels_second_zero v2 _ _ p _ Hk' Hk _ _ _ Hc); [lia|].
    apply lookup_replicate_2. rewrite Hn2, Hn. lia. }
  destruct voronoiFile as [groups|]; eexists; (split; [reflexivity|]);
    cbn [Voronoi.setCellNumberPerPicture Voronoi.m_basis Voronoi.m_cellNumberPerPicture
         Voronoi.m_numberOfPixelsInVoronoiCell];
    (split; [rewrite Hp2, Hp; reflexivity|]);
    (split; [rewrite Hn2, Hn; lia|]);
    (split; [first [reflexivity|exact Hg2]|]);
    (split; [rewrite Hl2, Hn2, Hn; lia|]);
    (split; [exact Hs2|exact Hzero]).
Qed.



Example loadVoronoi_example :
  (v ← VoronoiFile.loadVoronoi (cv := cvRef)
         (Some (list_ascii_of_string "0: 1 1 1: 3 2")) None
         (Voronoi.clearVoronoi smallVoronoi);
   Ok (LightingBasis.pointLightSourcePosition (Voronoi.m_basis v),
       Voronoi.m_cellNumberPerPicture v, Voronoi.m_numberOfPixelsInVoronoiCell v))
  = Ok ([mkPoint 1 1; mkPoint 3 2; mkPoint 1 1; mkPoint 3 2], [[0]; [1]], [8; 4; 0; 0]).
Proof. vm_compute. reflexivity. Qed.



(** ** [findImageNumber]: the last picture that holds the cell *)

Lemma findImageNumber_from_last groups : forall k cellNumber im (k' : nat) g',
  groups !! k' = Some g' -> In cellNumber g' ->
  k + Z.of_nat k' <= Voronoi.findImageNumber_from k groups cellNumber im.
Proof.
  induction groups as [|g groups IH]; intros k cellNumber im k' g' Hk' Hin;
    [discriminate|].
  cbn [Voronoi.findImageNumber_from]. rewrite findImage_inner.
  destruct k' as [|k'].
  - injection Hk' as ->.
    apply existsb_eqb_In in Hin. rewrite Hin.
    destruct (findImageNumber_from_cases (k + 1) groups cellNumber k) as [->|[Hc _]]; lia.
  - specialize (IH (k + 1) cellNumber
                  (if existsb (Z.eqb cellNumber) g then k else im) k' g' Hk' Hin).
    lia.
Qed.

(** X5. [findImageNumber] returns -1 exactly when no picture holds the cell
    number; otherwise it returns the index of a picture that holds it, and
    when several pictures hold it, the greatest such index. *)
Theorem X5_findImageNumber_last_match :
  forall (F : Type) (v : Voronoi.t F) (cellNumber : Z),
    (Voronoi.findImageNumber v cellNumber = -1
       <-> forall g, In g (Voronoi.m_cellNumberPerPicture v) -> ~ In cellNumber g)
    /\ (Voronoi.findImageNumber v cellNumber <> -1 ->
          exists g, Voronoi.m_cellNumberPerPicture v
                      !! Z.to_nat (Voronoi.findImageNumber v cellNumber) = Some g
                    /\ In cellNumber g)
    /\ (forall (k : nat) g, Voronoi.m_cellNumberPerPicture v !! k = Some g ->
          In cellNumber g -> Z.of_nat k <= Voronoi.findImageNumber v cellNumber).
Proof.
  intros F v cellNumber. unfold Voronoi.findImageNumber. split; [split|split].
  - intros Hnone g Hg Hin.
    apply list_elem_of_In, list_elem_of_lookup in Hg as (k & Hk).
    pose proof (findImageNumber_from_last _ 0 cellNumber (-1) k g Hk Hin). lia.
  - intros Hnone. now apply findImageNumber_from_absent.
  - intros Hfound.
    destruct (findImageNumber_from_cases 0 (Voronoi.m_cellNumberPerPicture v)
                cellNumber (-1)) as [E|(_ & g & Hg & Hin)]; [contradiction|].
    exists g. split; [|exact Hin]. now rewrite Z.sub_0_r in Hg.
  - intros k g Hk Hin.
    pose proof (findImageNumber_from_last _ 0 cellNumber (-1) k g Hk Hin). lia.
Qed.

(** ** [identifyMedianEnergy]: the groups, the lights and the integration *)

Lemma range_S (n : nat) :
  range (Z.of_nat (S n)) = 0 :: map (fun k => k + 1) (range (Z.of_nat n)).
Proof.
  unfold range. rewrite !Nat2Z.id. cbn [seq map]. f_equal.
  rewrite <- seq_shift, !map_map. apply map_ext. intros k. lia.
Qed.

Section IdentifyTrace.
Context {F : Type} {fo : FloatOps F} {cv : OpenCV}.
Variables width height : Z.
Hypothesis Hwidth : 0 <= width <= INT_MAX.
Hypothesis Hheight : 0 <= height <= INT_MAX.

(** The loop on the conditions opens the groups [[c]], [[c+1]], ... from the
    cell number [c] it starts with, and appends at most one position per
    condition to the basis. *)
Lemma identifyConditions_trace (lightingConditions : list (Mat F)) :
  forall st,
    mapReady width height (OfficeRoomRelighting.cond_voronoi st) ->
    exists st' added,
      ofold (OfficeRoomRelighting.identifyCondition width height)
            lightingConditions st = Ok st'
      /\ mapReady width height (OfficeRoomRelighting.cond_voronoi st')
      /\ OfficeRoomRelighting.cellNumber st'
         = OfficeRoomRelighting.cellNumber st + Z.of_nat (length lightingConditions)
      /\ OfficeRoomRelighting.cellNumberPerPicture st'
         = OfficeRoomRelighting.cellNumberPerPicture st
           ++ map (fun k => [OfficeRoomRelighting.cellNumber st + k])
                  (range (Z.of_nat (length lightingConditions)))
      /\ LightingBasis.pointLightSourcePosition
           (Voronoi.m_basis (OfficeRoomRelighting.cond_voronoi st'))
         = LightingBasis.pointLightSourcePosition
             (Voronoi.m_basis (OfficeRoomRelighting.cond_voronoi st)) ++ added
      /\ (length added <= length lightingConditions)%nat.
Proof.
  induction lightingConditions as [|img rest IH]; intros st Hst.
  - exists st, []. cbn [ofold length]. change (range (Z.of_nat 0)) with (@nil Z).
    cbn [map]. rewrite !app_nil_r, Z.add_0_r. auto 10.
  - destruct (identifyCondition_step width height Hwidth Hheight st img Hst)
      as (st1 & Hstep & Hst1 & Hc1 & Hg1 & Hplaced).
    destruct (IH st1 Hst1) as (st' & added & Hrun & Hst' & Hc' & Hg' & Hp' & Hl').
    assert (Hgroups : OfficeRoomRelighting.cellNumberPerPicture st'
              = OfficeRoomRelighting.cellNumberPerPicture st
                ++ map (fun k => [OfficeRoomRelighting.cellNumber st + k])
                       (range (Z.of_nat (length (img :: rest))))).
    { rewrite Hg', Hg1, Hc1, <- app_assoc. f_equal. cbn [length]. rewrite range_S.
      cbn [map app]. rewrite Z.add_0_r. f_equal. rewrite map_map.
      apply map_ext. intros k. f_equal. lia. }
    assert (Hnumber : OfficeRoomRelighting.cellNumber st'
              = OfficeRoomRelighting.cellNumber st + Z.of_nat (length (img :: rest)))
      by (rewrite Hc', Hc1; cbn [length]; lia).
    assert (Hloop : ofold (OfficeRoomRelighting.identifyCondition width height)
                      (img :: rest) st = Ok st').
    { cbn [ofold]. rewrite Hstep. exact Hrun. }
    destruct Hplaced as [(p & _ & Hp1 & _)|(_ & Hsame)].
    + exists st', (mkPoint (snd p) (fst p) :: added).
      rewrite Hp', Hp1, <- app_assoc. cbn [length app].
      repeat (split; [assumption || reflexivity|]). lia.
    + exists st', added. rewrite Hp', Hsame. cbn [length].
      repeat (split; [assumption || reflexivity|]). lia.
Qed.

End IdentifyTrace.

Lemma cleared_mapReady {F} (width height : Z) (v0 : Voronoi.t F) :
  mapReady width height (Voronoi.setEnvironmentMapSize width height (Voronoi.clearVoronoi v0)).
Proof. unfold mapReady, consistent. simpl. repeat split; auto. Qed.

(** With one group [[k]] per picture and no more lights than pictures, every
    cell that the scan meets is in a group. *)
Lemma singleton_groups_cellsMapped {F} {cv : OpenCV} (v : Voronoi.t F) (n : nat) :
  Voronoi.m_cellNumberPerPicture v = map (fun k => [k]) (range (Z.of_nat n)) ->
  (length (LightingBasis.pointLightSourcePosition (Voronoi.m_basis v)) <= n)%nat ->
  cellsMapped v.
Proof.
  intros Hg Hl i j _ _ Hcell.
  destruct (findNearestLightSource_cases v j i) as [|Hc]; [contradiction|].
  exists [Voronoi.findNearestLightSource v j i]. split; [|now left].
  rewrite Hg. apply in_map_iff. eexists. split; [reflexivity|].
  apply range_In. lia.
Qed.

(** X6. The path of [OfficeRoomRelighting::relighting] with the median-energy
    identification: on a cleared partition of the size of the map,
    [identifyMedianEnergy] returns normally for any images, with the groups
    [[0], ..., [n-1]] for its n conditions and at most n lights; and the
    integration [computeVoronoiWeightsOR] that follows [clearWeights] then
    never indexes outside the accumulators: it returns normally, with the
    weight of every condition as C2 gives it. *)
Theorem X6_identified_partition_integrates :
  forall (F : Type) (fo : FloatOps F) (cv : OpenCV) (width height : Z)
         (lightingConditions : list (Mat F)) (v0 : Voronoi.t F)
         (environmentMap : Mat F) (jOffset : Z),
    0 <= width <= INT_MAX -> 0 <= height <= INT_MAX ->
    exists v1 v2,
      OfficeRoomRelighting.identifyMedianEnergy width height lightingConditions
        (Voronoi.setEnvironmentMapSize width height (Voronoi.clearVoronoi v0)) = Ok v1
      /\ Voronoi.m_cellNumberPerPicture v1
         = map (fun k => [k]) (range (Z.of_nat (length lightingConditions)))
      /\ (length (LightingBasis.pointLightSourcePosition (Voronoi.m_basis v1))
          <= length lightingConditions)%nat
      /\ Voronoi.computeVoronoiWeightsOR environmentMap jOffset (Voronoi.clearWeights v1)
         = Ok v2
      /\ forall k : nat, (k < length lightingConditions)%nat ->
           Voronoi.m_rgbWeights v2 !! k
           = Some (conditionWeight (Voronoi.clearWeights v1) environmentMap jOffset
                     (Z.of_nat k)).
Proof.
  intros F fo cv width height conditions v0 environmentMap jOffset HW HH.
  destruct (identifyConditions_trace width height HW HH conditions
              (OfficeRoomRelighting.mkConditions
                 (Voronoi.setEnvironmentMapSize width height (Voronoi.clearVoronoi v0))
                 [] 0) (cleared_mapReady width height v0))
    as (st & added & Hrun & _ & _ & Hg & Hp & Hl).
  cbn [OfficeRoomRelighting.cellNumberPerPicture OfficeRoomRelighting.cellNumber
       OfficeRoomRelighting.cond_voronoi app] in Hg, Hp.
  change (LightingBasis.pointLightSourcePosition
            (Voronoi.m_basis (Voronoi.setEnvironmentMapSize width height
                                (Voronoi.clearVoronoi v0)))) with (@nil Point2i) in Hp.
  cbn [app] in Hp.
  set (v1 := Voronoi.setCellNumberPerPicture (OfficeRoomRelighting.cellNumberPerPicture st)
               (OfficeRoomRelighting.cond_voronoi st)).
  assert (Hg1 : Voronoi.m_cellNumberPerPicture (Voronoi.clearWeights v1)
                = map (fun k => [k]) (range (Z.of_nat (length conditions)))).
  { cbn. rewrite Hg. apply map_ext. intros k. reflexivity. }
  assert (Hl1 : (length (LightingBasis.pointLightSourcePosition
                           (Voronoi.m_basis (Voronoi.clearWeights v1)))
                 <= length conditions)%nat).
  { cbn. rewrite Hp. exact Hl. }
  destruct (computeVoronoiWeightsOR_mapped (Voronoi.clearWeights v1) environmentMap jOffset
              (singleton_groups_cellsMapped _ _ Hg1 Hl1)) as (v2 & Hv2).
  exists v1, v2.
  split; [unfold OfficeRoomRelighting.identifyMedianEnergy; rewrite Hrun; reflexivity|].
  split; [exact Hg1|]. split; [exact Hl1|]. split; [exact Hv2|].
  intros k Hk.
  apply (computeVoronoiWeightsOR_conditionWeight (Voronoi.clearWeights v1) environmentMap
           jOffset v2 k eq_refl Hv2).
  rewrite Hg1, length_map, range_length. lia.
Qed.

Lemma X6_identified_partition_integrates_witness :
  exists v1 v2,
    OfficeRoomRelighting.identifyMedianEnergy (fo := exactNaN) (cv := cvRef) 3 2
      [conditionBlack; conditionA]
      (Voronoi.setEnvironmentMapSize 3 2 (Voronoi.clearVoronoi smallVoronoi)) = Ok v1
    /\ Voronoi.m_cellNumberPerPicture v1
       = map (fun k => [k]) (range (Z.of_nat (length [conditionBlack; conditionA])))
    /\ (length (LightingBasis.pointLightSourcePosition (Voronoi.m_basis v1))
        <= length [conditionBlack; conditionA])%nat
    /\ Voronoi.computeVoronoiWeightsOR (fo := exactNaN) (cv := cvRef) columnMap 0
         (Voronoi.clearWeights v1) = Ok v2
    /\ forall k : nat, (k < length [conditionBlack; conditionA])%nat ->
         Voronoi.m_rgbWeights v2 !! k
         = Some (conditionWeight (fo := exactNaN) (cv := cvRef) (Voronoi.clearWeights v1)
                   columnMap 0 (Z.of_nat k)).
Proof.
  apply (X6_identified_partition_integrates (option Z) exactNaN cvRef 3 2
           [conditionBlack; conditionA] smallVoronoi columnMap 0);
    unfold INT_MAX; lia.
Defined.

(** ** [identifyMedianEnergy]: a condition that places no light *)

Lemma firstAbove_unique {F} {fo : FloatOps F} (image : Mat F) threshold pixels p q :
  firstAbove image threshold pixels p -> firstAbove image threshold pixels q -> p = q.
Proof.
  intros (n & Hn & Hgt & Hlt) (m & Hm & Hgt' & Hlt').
  destruct (Nat.lt_trichotomy n m) as [Hc|[->|Hc]].
  - specialize (Hlt' n Hc). congruence.
  - congruence.
  - specialize (Hlt m Hc). congruence.
Qed.

Lemma findImageNumber_singletons {F} (v : Voronoi.t F) (n c : nat) :
  Voronoi.m_cellNumberPerPicture v = map (fun k => [k]) (range (Z.of_nat n)) ->
  (c < n)%nat ->
  Voronoi.findImageNumber v (Z.of_nat c) = Z.of_nat c.
Proof.
  intros Hg Hc. unfold Voronoi.findImageNumber. rewrite Hg.
  set (groups := map (fun k => [k]) (range (Z.of_nat n))).
  assert (Hlookup : forall k : nat, (k < n)%nat -> groups !! k = Some [Z.of_nat k]).
  { intros k Hk. unfold groups, range. rewrite !list_lookup_fmap, Nat2Z.id.
    rewrite lookup_seq_lt by lia. reflexivity. }
  pose proof (findImageNumber_from_last groups 0 (Z.of_nat c) (-1) c _ (Hlookup c Hc)
                ltac:(now left)) as Hlast.
  destruct (findImageNumber_from_cases 0 groups (Z.of_nat c) (-1))
    as [E|(Hr & g & Hg' & Hin)]; [lia|].
  rewrite Z.sub_0_r in Hg'.
  rewrite Hlookup in Hg'.
  - injection Hg' as <-. destruct Hin as [Hin|[]]. lia.
  - assert (Hlen : length groups = n)
      by (unfold groups; rewrite length_map, range_length; lia).
    rewrite Hlen in Hr. lia.
Qed.

(** X7. In [identifyMedianEnergy] the cell number advances with every
    condition, the basis only with the conditions that place a light. So
    after a condition that places none (no running sum above half its total:
    a black image, or one with a not-a-number pixel), the light placed for a
    later picture is stored in the basis at an index smaller than the number
    of its picture, and [findImageNumber] attributes that index to the
    earlier picture of the same number. *)
Theorem X7_condition_without_light_shifts_the_cells :
  forall (F : Type) (fo : FloatOps F) (cv : OpenCV) (width height : Z)
         (before : list (Mat F)) (dark : Mat F) (between : list (Mat F))
         (lit : Mat F) (after : list (Mat F)) (v0 : Voronoi.t F) (i j : Z),
    0 <= width <= INT_MAX -> 0 <= height <= INT_MAX ->
    (forall m : nat, (m < length (pixelsRowMajor width height))%nat ->
       fgt (runningEnergy dark fzero (take (S m) (pixelsRowMajor width height)))
           (fhalf (OfficeRoomRelighting.totalEnergyOf width height dark)) = false) ->
    firstAbove lit (fhalf (OfficeRoomRelighting.totalEnergyOf width height lit))
      (pixelsRowMajor width height) (i, j) ->
    let start := OfficeRoomRelighting.mkConditions
                   (Voronoi.setEnvironmentMapSize width height (Voronoi.clearVoronoi v0))
                   [] 0 in
    let picture := (length before + 1 + length between)%nat in
    exists st st' v1,
      ofold (OfficeRoomRelighting.identifyCondition width height)
            (before ++ dark :: between) start = Ok st
      /\ OfficeRoomRelighting.cellNumber st = Z.of_nat picture
      /\ OfficeRoomRelighting.identifyCondition width height st lit = Ok st'
      /\ LightingBasis.pointLightSourcePosition
           (Voronoi.m_basis (OfficeRoomRelighting.cond_voronoi st'))
         = LightingBasis.pointLightSourcePosition
             (Voronoi.m_basis (OfficeRoomRelighting.cond_voronoi st))
           ++ [mkPoint j i]
      /\ let cell := length (LightingBasis.pointLightSourcePosition
                               (Voronoi.m_basis (OfficeRoomRelighting.cond_voronoi st))) in
         (cell < picture)%nat
         /\ OfficeRoomRelighting.identifyMedianEnergy width height
              (before ++ dark :: between ++ lit :: after)
              (Voronoi.setEnvironmentMapSize width height (Voronoi.clearVoronoi v0))
            = Ok v1
         /\ LightingBasis.pointLightSourcePosition (Voronoi.m_basis v1) !! cell
            = Some (mkPoint j i)
         /\ Voronoi.findImageNumber v1 (Z.of_nat cell) = Z.of_nat cell.
Proof.
  intros F fo cv width height before dark between lit after v0 i j HW HH Hdark Hlit
         start picture.
  pose proof (cleared_mapReady width height v0) as Hstart.
  destruct (identifyConditions_trace width height HW HH before start Hstart)
    as (sb & addedb & Hrunb & Hsb & Hcb & _ & Hpb & Hlb).
  destruct (identifyCondition_step width height HW HH sb dark Hsb)
    as (sd & Hstepd & Hsd & Hcd & _ & [(p & (n & Hn & Hgt & _) & _)|(_ & Hsame)]).
  { apply lookup_lt_Some in Hn. specialize (Hdark n Hn). congruence. }
  destruct (identifyConditions_trace width height HW HH between sd Hsd)
    as (st & addedm & Hrunm & Hst & Hcm & _ & Hpm & Hlm).
  destruct (identifyCondition_step width height HW HH st lit Hst)
    as (st' & Hstep & Hst' & Hc' & _ & [(p & Hfirst & Hp' & _)|(Hnone & _)]).
  2:{ destruct Hlit as (n & Hn & Hgt & _). apply lookup_lt_Some in Hn.
      specialize (Hnone n Hn). congruence. }
  rewrite (firstAbove_unique _ _ _ _ _ Hfirst Hlit) in Hp'. cbn [fst snd] in Hp'.
  destruct (identifyConditions_trace width height HW HH after st' Hst')
    as (sf & addeda & Hruna & _ & _ & _ & Hpa & _).
  assert (Hprefix : ofold (OfficeRoomRelighting.identifyCondition width height)
                      (before ++ dark :: between) start = Ok st).
  { rewrite ofold_app, Hrunb. cbn [ofold]. unfold mbind, outcome_bind, obind.
    rewrite Hstepd. exact Hrunm. }
  assert (Hwhole : ofold (OfficeRoomRelighting.identifyCondition width height)
                     (before ++ dark :: between ++ lit :: after) start = Ok sf).
  { replace (before ++ dark :: between ++ lit :: after)
      with ((before ++ dark :: between) ++ lit :: after)
      by (rewrite <- app_assoc; reflexivity).
    rewrite ofold_app, Hprefix. cbn [ofold]. unfold mbind, outcome_bind, obind.
    rewrite Hstep. exact Hruna. }
  destruct (identifyConditions_trace width height HW HH
              (before ++ dark :: between ++ lit :: after) start Hstart)
    as (sf' & _ & Hrunf & _ & _ & Hgf & _ & _).
  rewrite Hwhole in Hrunf. injection Hrunf as <-.
  cbn [start OfficeRoomRelighting.cellNumberPerPicture OfficeRoomRelighting.cellNumber
       OfficeRoomRelighting.cond_voronoi app] in Hgf, Hcb, Hpb.
  change (LightingBasis.pointLightSourcePosition
            (Voronoi.m_basis (Voronoi.setEnvironmentMapSize width height
                                (Voronoi.clearVoronoi v0)))) with (@nil Point2i) in Hpb.
  cbn [app] in Hpb.
  assert (Hcell : (length (LightingBasis.pointLightSourcePosition
                             (Voronoi.m_basis (OfficeRoomRelighting.cond_voronoi st)))
                   < picture)%nat).
  { rewrite Hpm, Hsame, Hpb, length_app. unfold picture. lia. }
  exists st, st', (Voronoi.setCellNumberPerPicture
                     (OfficeRoomRelighting.cellNumberPerPicture sf)
                     (OfficeRoomRelighting.cond_voronoi sf)).
  split; [exact Hprefix|]. split; [rewrite Hcm, Hcd, Hcb; unfold picture; lia|].
  split; [exact Hstep|]. split; [exact Hp'|]. cbv zeta.
  split; [exact Hcell|].
  split; [unfold OfficeRoomRelighting.identifyMedianEnergy; fold start;
          rewrite Hwhole; reflexivity|].
  split.
  - cbn [Voronoi.setCellNumberPerPicture Voronoi.m_basis]. rewrite Hpa, Hp'.
    rewrite <- app_assoc. rewrite lookup_app_r by lia.
    rewrite Nat.sub_diag. reflexivity.
  - apply (findImageNumber_singletons _
             (length (before ++ dark :: between ++ lit :: after))).
    + cbn [Voronoi.setCellNumberPerPicture Voronoi.m_cellNumberPerPicture].
      rewrite Hgf. apply map_ext. intros k. reflexivity.
    + rewrite length_app. cbn [length]. rewrite length_app. cbn [length].
      unfold picture in Hcell. lia.
Qed.

Lemma X7_condition_without_light_shifts_the_cells_witness :
  let start := OfficeRoomRelighting.mkConditions
                 (Voronoi.setEnvironmentMapSize 3 2 (Voronoi.clearVoronoi smallVoronoi))
                 [] 0 in
  let picture := (length (@nil (Mat (option Z))) + 1
                  + length (@nil (Mat (option Z))))%nat in
  exists st st' v1,
    ofold (OfficeRoomRelighting.identifyCondition (fo := exactNaN) (cv := cvRef) 3 2)
          ([] ++ conditionBlack :: []) start = Ok st
    /\ OfficeRoomRelighting.cellNumber st = Z.of_nat picture
    /\ OfficeRoomRelighting.identifyCondition (fo := exactNaN) (cv := cvRef) 3 2 st
         conditionA = Ok st'
    /\ LightingBasis.pointLightSourcePosition
         (Voronoi.m_basis (OfficeRoomRelighting.cond_voronoi st'))
       = LightingBasis.pointLightSourcePosition
           (Voronoi.m_basis (OfficeRoomRelighting.cond_voronoi st))
         ++ [mkPoint 1 1]
    /\ let cell := length (LightingBasis.pointLightSourcePosition
                             (Voronoi.m_basis (OfficeRoomRelighting.cond_voronoi st))) in
       (cell < picture)%nat
       /\ OfficeRoomRelighting.identifyMedianEnergy (fo := exactNaN) (cv := cvRef) 3 2
            ([] ++ conditionBlack :: [] ++ conditionA :: [])
            (Voronoi.setEnvironmentMapSize 3 2 (Voronoi.clearVoronoi smallVoronoi))
          = Ok v1
       /\ LightingBasis.pointLightSourcePosition (Voronoi.m_basis v1) !! cell
          = Some (mkPoint 1 1)
       /\ Voronoi.findImageNumber v1 (Z.of_nat cell) = Z.of_nat cell.
Proof.
  apply (X7_condition_without_light_shifts_the_cells (option Z) exactNaN cvRef 3 2
           [] conditionBlack [] conditionA [] smallVoronoi 1 1).
  - unfold INT_MAX; lia.
  - unfold INT_MAX; lia.
  - intros m Hm. change (length (pixelsRowMajor 3 2)) with 6%nat in Hm.
    do 6 (destruct m as [|m]; [vm_compute; reflexivity|]). lia.
  - exists 4%nat. split; [reflexivity|]. split; [vm_compute; reflexivity|].
    intros m Hm. do 4 (destruct m as [|m]; [vm_compute; reflexivity|]). lia.
Defined.

(** ** The manual identification of the lights *)

Section ManualSelectionFacts.
Context {F : Type} {cv : OpenCV}.
Import ManualSelection.

(** A left click reaches [addPointLight] with the partition as it is: the
    update of the ending point leaves the partition alone. *)
Lemma leftClick_run (p : MouseParameters F) (x y : Z) :
  callBackMouseEvents EVENT_LBUTTONDOWN x y p
  = (v ← Voronoi.addPointLight (mkPoint x y) (voronoi p);
     Ok (mkMouse (latLongWidth p) (latLongHeight p) v
           (numberOfLightSourcesAdded p + 1) (mkPoint x y)
           (if isPressed p && insideDrawing p x y then mkPoint x y else endingPoint p)
           (isPressed p))).
Proof.
  unfold callBackMouseEvents.
  destruct (isPressed p && insideDrawing p x y); reflexivity.
Qed.

Lemma leftClick_outside (p : MouseParameters F) (x y : Z) :
  consistent (voronoi p) ->
  0 <= Voronoi.m_envMapWidth (voronoi p) <= INT_MAX ->
  0 <= Voronoi.m_envMapHeight (voronoi p) <= INT_MAX ->
  INT_MIN <= x <= INT_MAX -> INT_MIN <= y <= INT_MAX ->
  ~ insideMap (Voronoi.m_envMapWidth (voronoi p)) (Voronoi.m_envMapHeight (voronoi p))
      (mkPoint x y) ->
  exists p', callBackMouseEvents EVENT_LBUTTONDOWN x y p = Ok p'
             /\ Voronoi.m_basis (voronoi p') = Voronoi.m_basis (voronoi p)
             /\ numberOfLightSourcesAdded p' = numberOfLightSourcesAdded p + 1.
Proof.
  intros Hcons HW HH Hx Hy Hout. rewrite leftClick_run.
  destruct (addPointLight_outside (voronoi p) (mkPoint x y) Hcons HW HH Hx Hy Hout)
    as (v' & -> & Hb & _).
  eexists. split; [reflexivity|]. split; [exact Hb|reflexivity].
Qed.

Lemma leftClick_inside (p : MouseParameters F) (x y : Z) :
  consistent (voronoi p) ->
  0 <= Voronoi.m_envMapWidth (voronoi p) <= INT_MAX ->
  0 <= Voronoi.m_envMapHeight (voronoi p) <= INT_MAX ->
  insideMap (Voronoi.m_envMapWidth (voronoi p)) (Voronoi.m_envMapHeight (voronoi p))
    (mkPoint x y) ->
  exists p', callBackMouseEvents EVENT_LBUTTONDOWN x y p = Ok p'
             /\ LightingBasis.pointLightSourcePosition (Voronoi.m_basis (voronoi p'))
                = LightingBasis.pointLightSourcePosition (Voronoi.m_basis (voronoi p))
                  ++ [mkPoint x y]
             /\ numberOfLightSourcesAdded p' = numberOfLightSourcesAdded p + 1
             /\ consistent (voronoi p')
             /\ Voronoi.m_envMapWidth (voronoi p') = Voronoi.m_envMapWidth (voronoi p)
             /\ Voronoi.m_envMapHeight (voronoi p') = Voronoi.m_envMapHeight (voronoi p)
             /\ isPressed p' = isPressed p.
Proof.
  intros Hcons HW HH Hin. rewrite leftClick_run.
  destruct (addPointLight_inside (voronoi p) (mkPoint x y) Hcons HW HH)
    as (v' & -> & Hp & _ & _ & Hc & Hw & Hh); auto.
  { destruct Hin as [Hin _]. cbn [px] in *. unfold INT_MIN, INT_MAX in *. lia. }
  { destruct Hin as [_ Hin]. cbn [py] in *. unfold INT_MIN, INT_MAX in *. lia. }
  eexists. split; [reflexivity|]. cbn [voronoi numberOfLightSourcesAdded isPressed].
  auto 10.
Qed.

End ManualSelectionFacts.

(** X8. A left click of the mouse counts a light whether or not one is added:
    for a click outside the map, [callBackMouseEvents] returns normally with
    the basis as it was and [numberOfLightSourcesAdded] one higher; for a
    click inside, the position is appended to the basis and the counter is
    one higher. *)
Theorem X8_left_click_counts_a_light_it_may_not_add :
  forall (F : Type) (cv : OpenCV) (p : ManualSelection.MouseParameters F) (x y : Z),
    let v := ManualSelection.voronoi p in
    consistent v ->
    0 <= Voronoi.m_envMapWidth v <= INT_MAX ->
    0 <= Voronoi.m_envMapHeight v <= INT_MAX ->
    INT_MIN <= x <= INT_MAX -> INT_MIN <= y <= INT_MAX ->
    (~ insideMap (Voronoi.m_envMapWidth v) (Voronoi.m_envMapHeight v) (mkPoint x y) ->
       exists p',
         ManualSelection.callBackMouseEvents ManualSelection.EVENT_LBUTTONDOWN x y p = Ok p'
         /\ Voronoi.m_basis (ManualSelection.voronoi p') = Voronoi.m_basis v
         /\ ManualSelection.numberOfLightSourcesAdded p'
            = ManualSelection.numberOfLightSourcesAdded p + 1)
    /\ (insideMap (Voronoi.m_envMapWidth v) (Voronoi.m_envMapHeight v) (mkPoint x y) ->
       exists p',
         ManualSelection.callBackMouseEvents ManualSelection.EVENT_LBUTTONDOWN x y p = Ok p'
         /\ LightingBasis.pointLightSourcePosition
              (Voronoi.m_basis (ManualSelection.voronoi p'))
            = LightingBasis.pointLightSourcePosition (Voronoi.m_basis v) ++ [mkPoint x y]
         /\ ManualSelection.numberOfLightSourcesAdded p'
            = ManualSelection.numberOfLightSourcesAdded p + 1).
Proof.
  intros F cv p x y v Hcons HW HH Hx Hy. split.
  - intros Hout. now apply leftClick_outside.
  - intros Hin.
    destruct (leftClick_inside p x y Hcons HW HH Hin) as (p' & Hrun & Hp & Hn & _).
    exists p'. auto.
Qed.

Lemma X8_left_click_counts_a_light_it_may_not_add_witness :
  exists p',
    ManualSelection.callBackMouseEvents (cv := cvRef) ManualSelection.EVENT_LBUTTONDOWN
      (-5) 1 (ManualSelection.initialParameters 4 3 smallVoronoi (mkPoint 0 0) (mkPoint 0 0))
    = Ok p'
    /\ Voronoi.m_basis (ManualSelection.voronoi p') = Voronoi.m_basis smallVoronoi
    /\ ManualSelection.numberOfLightSourcesAdded p' = 0 + 1.
Proof.
  apply (X8_left_click_counts_a_light_it_may_not_add (option Z) cvRef
           (ManualSelection.initialParameters 4 3 smallVoronoi (mkPoint 0 0) (mkPoint 0 0))
           (-5) 1 smallVoronoi_consistent).
  - simpl; unfold INT_MAX; lia.
  - simpl; unfold INT_MAX; lia.
  - unfold INT_MIN, INT_MAX; lia.
  - unfold INT_MIN, INT_MAX; lia.
  - unfold insideMap. simpl. lia.
Defined.

Section ManualIdentification.
Context {F : Type} {cv : OpenCV}.
Import ManualSelection.
Variables width height : Z.
Hypothesis Hwidth : 0 <= width <= INT_MAX.
Hypothesis Hheight : 0 <= height <= INT_MAX.

(** What the loops keep: a consistent partition of the size of the map. *)
Let ready (p : MouseParameters F) : Prop := mapReady width height (voronoi p).

Lemma mouseEvents_leftClicks (l : list Point2i) : forall p,
  ready p -> Forall (insideMap width height) l ->
  exists p',
    mouseEvents (leftClicks l) p = Ok p'
    /\ ready p'
    /\ LightingBasis.pointLightSourcePosition (Voronoi.m_basis (voronoi p'))
       = LightingBasis.pointLightSourcePosition (Voronoi.m_basis (voronoi p)) ++ l
    /\ numberOfLightSourcesAdded p' = numberOfLightSourcesAdded p + Z.of_nat (length l).
Proof.
  induction l as [|q l IH]; intros p Hp Hin.
  - exists p. cbn [leftClicks map mouseEvents ofold length].
    rewrite app_nil_r, Z.add_0_r. auto.
  - inversion Hin as [|? ? Hq Hl]; subst. destruct Hp as (Hcons & HW & HH).
    destruct (leftClick_inside p (px q) (py q) Hcons)
      as (p1 & Hrun & Hp1 & Hn1 & Hc1 & Hw1 & Hh1 & _).
    { rewrite HW. exact Hwidth. }
    { rewrite HH. exact Hheight. }
    { rewrite HW, HH. destruct q. exact Hq. }
    destruct (IH p1) as (p' & Hrun' & Hp' & Hpos' & Hn'); auto.
    { split; [exact Hc1|]. split; congruence. }
    exists p'. unfold mouseEvents, leftClicks in *. cbn [map ofold fst snd].
    rewrite Hrun. unfold mbind, outcome_bind, obind. rewrite Hrun'.
    split; [reflexivity|]. split; [exact Hp'|].
    rewrite Hpos', Hp1, Hn', Hn1, <- app_assoc. cbn [length app]. destruct q.
    split; [reflexivity|lia].
Qed.

Lemma identifyPicture_leftClicks (l : list Point2i) st :
  ready (parameters st) ->
  numberOfLightSourcesAdded (parameters st) = 0 ->
  Forall (insideMap width height) l ->
  exists st1,
    identifyPicture st (leftClicks l) = Ok st1
    /\ ready (parameters st1)
    /\ numberOfLightSourcesAdded (parameters st1) = 0
    /\ LightingBasis.pointLightSourcePosition (Voronoi.m_basis (voronoi (parameters st1)))
       = LightingBasis.pointLightSourcePosition (Voronoi.m_basis (voronoi (parameters st)))
         ++ l
    /\ cellNumberPerPicture st1
       = cellNumberPerPicture st ++ [cellsForImage (cellNumber st) (Z.of_nat (length l))]
    /\ cellNumber st1 = cellNumber st + Z.of_nat (length l).
Proof.
  intros Hst Hzero Hl.
  destruct (mouseEvents_leftClicks l (parameters st) Hst Hl)
    as (p1 & Hrun & Hp1 & Hpos1 & Hn1).
  rewrite Hzero, Z.add_0_l in Hn1.
  unfold identifyPicture. rewrite Hrun. unfold mbind, outcome_bind, obind.
  eexists. split; [reflexivity|].
  cbn [parameters voronoi numberOfLightSourcesAdded cellNumberPerPicture cellNumber].
  rewrite Hn1. split; [exact Hp1|]. split; [reflexivity|]. split; [exact Hpos1|].
  split; [reflexivity|lia].
Qed.

Lemma identifyPictures_leftClicks (clicks : list (list Point2i)) : forall st,
  ready (parameters st) ->
  numberOfLightSourcesAdded (parameters st) = 0 ->
  Forall (Forall (insideMap width height)) clicks ->
  exists st',
    ofold identifyPicture (map leftClicks clicks) st = Ok st'
    /\ ready (parameters st')
    /\ LightingBasis.pointLightSourcePosition (Voronoi.m_basis (voronoi (parameters st')))
       = LightingBasis.pointLightSourcePosition (Voronoi.m_basis (voronoi (parameters st)))
         ++ concat clicks
    /\ cellNumberPerPicture st'
       = cellNumberPerPicture st ++ groupsOf (cellNumber st) clicks.
Proof.
  induction clicks as [|l clicks IH]; intros st Hst Hzero Hin.
  - exists st. cbn [map ofold concat groupsOf]. rewrite !app_nil_r. auto.
  - inversion Hin as [|? ? Hl Hrest]; subst.
    destruct (identifyPicture_leftClicks l st Hst Hzero Hl)
      as (st1 & Hrun & Hst1 & Hzero1 & Hpos1 & Hg1 & Hc1).
    destruct (IH st1 Hst1 Hzero1 Hrest) as (st' & Hrun' & Hst' & Hpos' & Hg').
    exists st'. cbn [map ofold]. rewrite Hrun. unfold mbind, outcome_bind, obind.
    split; [exact Hrun'|]. split; [exact Hst'|].
    rewrite Hpos', Hg', Hpos1, Hg1, Hc1, <- !app_assoc. cbn [concat groupsOf app].
    split; reflexivity.
Qed.

End ManualIdentification.

Lemma cellsForImage_In start n x :
  In x (ManualSelection.cellsForImage start n) <-> start <= x < start + n.
Proof.
  unfold ManualSelection.cellsForImage. rewrite in_map_iff. split.
  - intros (j & <- & Hj). apply range_In in Hj. lia.
  - intros Hx. exists (x - start). split; [lia|]. apply range_In. lia.
Qed.

Lemma clickedBefore_S clicks (i : nat) l :
  clicks !! i = Some l ->
  clickedBefore clicks (S i) = (clickedBefore clicks i + length l)%nat.
Proof.
  intros Hi. unfold clickedBefore. rewrite (take_S_r _ _ _ Hi).
  rewrite concat_app, length_app. simpl. rewrite app_nil_r. reflexivity.
Qed.

Lemma clickedBefore_mono clicks : forall i k : nat,
  (i <= k)%nat -> (clickedBefore clicks i <= clickedBefore clicks k)%nat.
Proof.
  unfold clickedBefore. induction clicks as [|l clicks IH]; intros i k Hik.
  - now rewrite !take_nil.
  - destruct i as [|i]; [simpl; lia|]. destruct k as [|k]; [lia|].
    cbn [take concat]. rewrite !length_app. specialize (IH i k). lia.
Qed.

Lemma groupsOf_lookup clicks : forall start (i : nat) l,
  clicks !! i = Some l ->
  groupsOf start clicks !! i
  = Some (ManualSelection.cellsForImage (start + Z.of_nat (clickedBefore clicks i))
            (Z.of_nat (length l))).
Proof.
  induction clicks as [|l0 clicks IH]; intros start i l Hi; [discriminate|].
  destruct i as [|i].
  - injection Hi as ->. cbn [groupsOf]. unfold clickedBefore. simpl.
    now rewrite Z.add_0_r.
  - cbn [groupsOf]. change ((l0 :: clicks) !! S i) with (clicks !! i) in Hi.
    change ((?a :: ?b) !! S i) with (b !! i). rewrite (IH _ _ _ Hi).
    unfold clickedBefore. cbn [take concat]. rewrite length_app.
    do 2 f_equal. lia.
Qed.

Lemma groupsOf_length clicks : forall start,
  length (groupsOf start clicks) = length clicks.
Proof. induction clicks as [|l clicks IH]; intros start; simpl; auto. Qed.

Lemma concat_lookup_click clicks : forall (i c : nat) l (q : Point2i),
  clicks !! i = Some l -> l !! c = Some q ->
  concat clicks !! (clickedBefore clicks i + c)%nat = Some q.
Proof.
  unfold clickedBefore. induction clicks as [|l0 clicks IH]; intros i c l q Hi Hc;
    [discriminate|].
  destruct i as [|i].
  - injection Hi as ->. cbn [take concat length Nat.add].
    rewrite lookup_app_l by (now apply lookup_lt_Some in Hc). exact Hc.
  - cbn [take concat]. rewrite length_app.
    rewrite lookup_app_r by lia.
    replace (length l0 + length (concat (take i clicks)) + c - length l0)%nat
      with (length (concat (take i clicks)) + c)%nat by lia.
    exact (IH i c l q Hi Hc).
Qed.

Lemma concat_index clicks : forall m : nat,
  (m < length (concat clicks))%nat ->
  exists (i c : nat) (l : list Point2i),
    clicks !! i = Some l /\ (c < length l)%nat /\ m = (clickedBefore clicks i + c)%nat.
Proof.
  unfold clickedBefore. induction clicks as [|l0 clicks IH]; intros m Hm;
    [simpl in Hm; lia|].
  cbn [concat] in Hm. rewrite length_app in Hm.
  destruct (Nat.lt_ge_cases m (length l0)) as [Hlt|Hge].
  - exists 0%nat, m, l0. simpl. auto.
  - destruct (IH (m - length l0)%nat ltac:(lia)) as (i & c & l & Hi & Hc & Hmc).
    exists (S i), c, l. split; [exact Hi|]. split; [exact Hc|].
    cbn [take concat]. rewrite length_app. lia.
Qed.

(** X9. The manual identification with left clicks inside the map attributes
    every light to the picture on which it was clicked. On a cleared partition
    of the size of the map, [identifyLightsUser] returns normally; the basis
    holds the clicked positions in the order of the clicks; the light clicked
    as number c on picture i is the cell [clickedBefore i + c], and
    [findImageNumber] maps that cell to i; and the integration
    [computeVoronoiWeightsOR] that follows [clearWeights] returns normally. *)
Theorem X9_manual_identification_attributes_clicks :
  forall (F : Type) (fo : FloatOps F) (cv : OpenCV) (width height : Z)
         (v0 : Voronoi.t F) (startingPoint endingPoint : Point2i)
         (clicks : list (list Point2i)),
    0 <= width <= INT_MAX -> 0 <= height <= INT_MAX ->
    Forall (Forall (insideMap width height)) clicks ->
    exists p',
      ManualSelection.identifyLightsUser (map leftClicks clicks)
        (ManualSelection.initialParameters width height
           (Voronoi.setEnvironmentMapSize width height (Voronoi.clearVoronoi v0))
           startingPoint endingPoint) = Ok p'
      /\ LightingBasis.pointLightSourcePosition
           (Voronoi.m_basis (ManualSelection.voronoi p')) = concat clicks
      /\ (forall (i c : nat) l q,
            clicks !! i = Some l -> l !! c = Some q ->
            LightingBasis.pointLightSourcePosition
              (Voronoi.m_basis (ManualSelection.voronoi p'))
              !! (clickedBefore clicks i + c)%nat = Some q
            /\ Voronoi.findImageNumber (ManualSelection.voronoi p')
                 (Z.of_nat (clickedBefore clicks i + c)) = Z.of_nat i)
      /\ forall (environmentMap : Mat F) (jOffset : Z),
           exists v2,
             Voronoi.computeVoronoiWeightsOR environmentMap jOffset
               (Voronoi.clearWeights (ManualSelection.voronoi p')) = Ok v2.
Proof.
  intros F fo cv width height v0 sp ep clicks HW HH Hin.
  destruct (identifyPictures_leftClicks width height HW HH clicks
              (ManualSelection.mkPictures
                 (ManualSelection.initialParameters width height
                    (Voronoi.setEnvironmentMapSize width height (Voronoi.clearVoronoi v0))
                    sp ep) [] 0))
    as (st & Hrun & _ & Hpos & Hg).
  { apply cleared_mapReady. }
  { reflexivity. }
  { exact Hin. }
  cbn [ManualSelection.parameters ManualSelection.voronoi ManualSelection.initialParameters
       ManualSelection.cellNumberPerPicture ManualSelection.cellNumber app] in Hpos, Hg.
  change (LightingBasis.pointLightSourcePosition
            (Voronoi.m_basis (Voronoi.setEnvironmentMapSize width height
                                (Voronoi.clearVoronoi v0)))) with (@nil Point2i) in Hpos.
  cbn [app] in Hpos.
  unfold ManualSelection.identifyLightsUser. rewrite Hrun.
  unfold mbind, outcome_bind, obind. eexists. split; [reflexivity|].
  cbn [ManualSelection.voronoi].
  set (v1 := Voronoi.setCellNumberPerPicture _ _).
  assert (Hpos1 : LightingBasis.pointLightSourcePosition (Voronoi.m_basis v1)
                  = concat clicks) by exact Hpos.
  assert (Hg1 : Voronoi.m_cellNumberPerPicture v1 = groupsOf 0 clicks) by exact Hg.
  clearbody v1.
  split; [exact Hpos1|].
  assert (Hgroup : forall (i c : nat) l, clicks !! i = Some l -> (c < length l)%nat ->
            exists g, Voronoi.m_cellNumberPerPicture v1 !! i = Some g
                      /\ (forall x, In x g <-> Z.of_nat (clickedBefore clicks i) <= x
                                               < Z.of_nat (clickedBefore clicks (S i)))
                      /\ In (Z.of_nat (clickedBefore clicks i + c)) g).
  { intros i c l Hi Hc. rewrite Hg1.
    rewrite (groupsOf_lookup clicks 0 i l Hi). eexists. split; [reflexivity|].
    assert (Hx : forall x, In x (ManualSelection.cellsForImage
                                   (0 + Z.of_nat (clickedBefore clicks i))
                                   (Z.of_nat (length l)))
                           <-> Z.of_nat (clickedBefore clicks i) <= x
                               < Z.of_nat (clickedBefore clicks (S i))).
    { intros x. rewrite cellsForImage_In, (clickedBefore_S clicks i l Hi). lia. }
    split; [exact Hx|]. apply Hx. rewrite (clickedBefore_S clicks i l Hi). lia. }
  split.
  - intros i c l q Hi Hc. rewrite Hpos1.
    split; [exact (concat_lookup_click clicks i c l q Hi Hc)|].
    destruct (Hgroup i c l Hi ltac:(now apply lookup_lt_Some in Hc)) as (g & Hgi & _ & Hcg).
    unfold Voronoi.findImageNumber.
    pose proof (findImageNumber_from_last _ 0 _ (-1) i g Hgi Hcg) as Hlast.
    destruct (findImageNumber_from_cases 0 (Voronoi.m_cellNumberPerPicture v1)
                (Z.of_nat (clickedBefore clicks i + c)) (-1))
      as [E|(Hr & g' & Hg' & Hin')]; [lia|].
    rewrite Z.sub_0_r in Hg'.
    set (r := Voronoi.findImageNumber_from 0 _ _ _) in *.
    destruct (Z.eq_dec r (Z.of_nat i)) as [E|Hne]; [exact E|exfalso].
    assert (Hri : (S i <= Z.to_nat r)%nat) by lia.
    destruct (lookup_lt_is_Some_2 clicks (Z.to_nat r)) as (lr & Hlr).
    { apply lookup_lt_Some in Hg'. rewrite Hg1, groupsOf_length in Hg'. exact Hg'. }
    destruct (lookup_lt_is_Some_2 l c) as (q' & _); [now apply lookup_lt_Some in Hc|].
    rewrite Hg1 in Hg'.
    rewrite (groupsOf_lookup clicks 0 _ lr Hlr) in Hg'. injection Hg' as <-.
    apply cellsForImage_In in Hin'.
    pose proof (clickedBefore_mono clicks (S i) (Z.to_nat r) Hri) as Hmono.
    rewrite (clickedBefore_S clicks i l Hi) in Hmono.
    apply lookup_lt_Some in Hc. lia.
  - intros environmentMap jOffset.
    apply computeVoronoiWeightsOR_mapped.
    intros i j _ _ Hcell.
    change (Voronoi.findNearestLightSource (Voronoi.clearWeights v1) j i)
      with (Voronoi.findNearestLightSource v1 j i) in *.
    destruct (findNearestLightSource_cases v1 j i) as [|Hc]; [contradiction|].
    rewrite Hpos1 in Hc.
    destruct (concat_index clicks (Z.to_nat (Voronoi.findNearestLightSource v1 j i))
                ltac:(lia)) as (k & c & l & Hk & Hcl & Hm).
    destruct (Hgroup k c l Hk Hcl) as (g & Hgk & _ & Hcg).
    exists g. split.
    + apply list_elem_of_In. apply (list_elem_of_lookup_2 _ k). exact Hgk.
    + replace (Voronoi.findNearestLightSource v1 j i)
        with (Z.of_nat (clickedBefore clicks k + c)) by lia. exact Hcg.
Qed.

Lemma X9_manual_identification_attributes_clicks_witness :
  exists p',
    ManualSelection.identifyLightsUser (cv := cvRef) (map leftClicks threePictures)
      (ManualSelection.initialParameters 4 3
         (Voronoi.setEnvironmentMapSize 4 3 (Voronoi.clearVoronoi smallVoronoi))
         (mkPoint 0 0) (mkPoint 0 0)) = Ok p'
    /\ LightingBasis.pointLightSourcePosition
         (Voronoi.m_basis (ManualSelection.voronoi p')) = concat threePictures
    /\ (forall (i c : nat) l q,
          threePictures !! i = Some l -> l !! c = Some q ->
          LightingBasis.pointLightSourcePosition
            (Voronoi.m_basis (ManualSelection.voronoi p'))
            !! (clickedBefore threePictures i + c)%nat = Some q
          /\ Voronoi.findImageNumber (ManualSelection.voronoi p')
               (Z.of_nat (clickedBefore threePictures i + c)) = Z.of_nat i)
    /\ forall (environmentMap : Mat (option Z)) (jOffset : Z),
         exists v2,
           Voronoi.computeVoronoiWeightsOR (fo := exactNaN) (cv := cvRef)
             environmentMap jOffset
             (Voronoi.clearWeights (ManualSelection.voronoi p')) = Ok v2.
Proof.
  apply (X9_manual_identification_attributes_clicks (option Z) exactNaN cvRef 4 3
           smallVoronoi (mkPoint 0 0) (mkPoint 0 0) threePictures).
  - unfold INT_MAX; lia.
  - unfold INT_MAX; lia.
  - repeat constructor; simpl; lia.
Defined.

Example identifyLightsUser_example :
  (p ← ManualSelection.identifyLightsUser (cv := cvRef)
         [[(ManualSelection.EVENT_LBUTTONDOWN, 1, 1)];
          [(ManualSelection.EVENT_LBUTTONDOWN, 9, 1)];
          [(ManualSelection.EVENT_LBUTTONDOWN, 3, 2)]]
         (ManualSelection.initialParameters 4 3
            (Voronoi.setEnvironmentMapSize 4 3 (Voronoi.clearVoronoi smallVoronoi))
            (mkPoint 0 0) (mkPoint 0 0));
   Ok (LightingBasis.pointLightSourcePosition
         (Voronoi.m_basis (ManualSelection.voronoi p)),
       Voronoi.m_cellNumberPerPicture (ManualSelection.voronoi p),
       Voronoi.findImageNumber (ManualSelection.voronoi p) 1))
  = Ok ([mkPoint 1 1; mkPoint 3 2], [[0]; [1]; [2]], 1).
Proof. vm_compute. reflexivity. Qed.

(** ** [Voronoi::addAreaLight] *)

Lemma roundHalfEven_bounds n m : 0 <= n <= 2 * m -> 0 <= roundHalfEven n <= m.
Proof.
  intros Hn. unfold roundHalfEven.
  destruct (Z.even n) eqn:En.
  - apply Z.even_spec in En as (k & ->). replace (2 * k / 2) with k; [lia|].
    symmetry. rewrite Z.mul_comm. apply Z.div_mul. lia.
  - assert (Ho : Z.odd n = true) by (rewrite <- Z.negb_even, En; reflexivity).
    apply Z.odd_spec in Ho as (k & ->).
    replace ((2 * k + 1 - 1) / 2) with k
      by (replace (2 * k + 1 - 1) with (k * 2) by lia; symmetry; apply Z.div_mul; lia).
    replace ((2 * k + 1 + 1) / 2) with (k + 1)
      by (replace (2 * k + 1 + 1) with ((k + 1) * 2) by lia; symmetry;
          apply Z.div_mul; lia).
    destruct (Z.even k); lia.
Qed.

Section AddAreaLight.
Context {F : Type} {cv : OpenCV}.
Variable v : Voronoi.t F.
Variables startingPoint endingPoint : Point2i.
Hypothesis Hcons : consistent v.

Let center := Point2i_half (Point2i_add startingPoint endingPoint).

Lemma addAreaLight_inside :
  insideMap (Voronoi.m_envMapWidth v) (Voronoi.m_envMapHeight v) center ->
  exists v', Voronoi.addAreaLight startingPoint endingPoint v = Ok v'
             /\ LightingBasis.pointLightSourcePosition (Voronoi.m_basis v')
                = LightingBasis.pointLightSourcePosition (Voronoi.m_basis v) ++ [center]
             /\ LightingBasis.rectanglesAreaLights (Voronoi.m_basis v')
                = LightingBasis.rectanglesAreaLights (Voronoi.m_basis v)
                  ++ [(startingPoint, endingPoint)]
             /\ LightingBasis.numberOfPointLights (Voronoi.m_basis v')
                = LightingBasis.numberOfPointLights (Voronoi.m_basis v) + 1
             /\ LightingBasis.numberOfAreaLights (Voronoi.m_basis v')
                = LightingBasis.numberOfAreaLights (Voronoi.m_basis v) + 1
             /\ consistent v'.
Proof.
  destruct Hcons as (Hn & Hsites & Hsw & Hsh).
  intros Hin. unfold Voronoi.addAreaLight. fold center.
  destruct (Subdiv2D_insert_inside (Voronoi.m_voronoiSubdivision v) center)
    as (s' & Hs' & Hw' & Hh' & Hv'); [now rewrite Hsw, Hsh|].
  rewrite Hs'. unfold mbind, outcome_bind. simpl.
  set (v1 := Voronoi.set_basis_subdiv _ s' v).
  assert (Hn1 : LightingBasis.numberOfPointLights (Voronoi.m_basis v1)
                = Z.of_nat (length (LightingBasis.pointLightSourcePosition
                                      (Voronoi.m_basis v1)))).
  { simpl. rewrite length_app. simpl. lia. }
  destruct (numberOfPixelsPerVoronoiCell_total v1 Hn1) as (c & Hc).
  rewrite Hc. eexists. split; [reflexivity|]. simpl.
  do 4 (split; [reflexivity|]).
  unfold consistent. simpl.
  split; [rewrite length_app; simpl; lia|]. split; [|split; congruence].
  intros q. fold center. rewrite in_app_iff, Hv', Hsites. simpl.
  split; [intros [Hq| ->]; auto|intros [Hq|[<-|[]]]; auto].
Qed.

Lemma addAreaLight_outside :
  ~ insideMap (Voronoi.m_envMapWidth v) (Voronoi.m_envMapHeight v) center ->
  Voronoi.addAreaLight startingPoint endingPoint v = CvError.
Proof.
  destruct Hcons as (_ & _ & Hsw & Hsh).
  intros Hout. unfold Voronoi.addAreaLight, Subdiv2D_insert. fold center.
  rewrite Hsw, Hsh.
  destruct ((0 <=? px center) && (px center <? Voronoi.m_envMapWidth v)
            && (0 <=? py center) && (py center <? Voronoi.m_envMapHeight v)) eqn:E;
    [|reflexivity].
  exfalso. apply Hout. apply andb_true_iff in E as [E Hy2].
  apply andb_true_iff in E as [E Hy1]. apply andb_true_iff in E as [Hx1 Hx2].
  unfold insideMap. lia.
Qed.

Lemma center_inside :
  (forall n m, 0 <= n <= 2 * m -> 0 <= cv_half n <= m) ->
  insideMap (Voronoi.m_envMapWidth v) (Voronoi.m_envMapHeight v) startingPoint ->
  insideMap (Voronoi.m_envMapWidth v) (Voronoi.m_envMapHeight v) endingPoint ->
  insideMap (Voronoi.m_envMapWidth v) (Voronoi.m_envMapHeight v) center.
Proof.
  intros Hhalf [Hsx Hsy] [Hex Hey]. unfold insideMap, center, Point2i_half, Point2i_add.
  cbn [px py].
  pose proof (Hhalf (px startingPoint + px endingPoint) (Voronoi.m_envMapWidth v - 1)
                ltac:(lia)).
  pose proof (Hhalf (py startingPoint + py endingPoint) (Voronoi.m_envMapHeight v - 1)
                ltac:(lia)).
  lia.
Qed.

End AddAreaLight.

(** X10. [Voronoi::addAreaLight] has no bounds check, unlike [addPointLight]:
    when the centre of the rectangle is inside the map it is appended to the
    basis as a point light, the rectangle is recorded and both counters are
    one higher; when the centre is outside, [Subdiv2D::insert] raises and the
    call does not return normally. With a rounding of the halves that stays
    between the corners, a rectangle whose two corners are inside the map has
    its centre inside. *)
Theorem X10_addAreaLight_unchecked :
  forall (F : Type) (cv : OpenCV) (v : Voronoi.t F) (startingPoint endingPoint : Point2i),
    consistent v ->
    let center := Point2i_half (Point2i_add startingPoint endingPoint) in
    let inside := insideMap (Voronoi.m_envMapWidth v) (Voronoi.m_envMapHeight v) in
    (inside center ->
       exists v', Voronoi.addAreaLight startingPoint endingPoint v = Ok v'
                  /\ LightingBasis.pointLightSourcePosition (Voronoi.m_basis v')
                     = LightingBasis.pointLightSourcePosition (Voronoi.m_basis v)
                       ++ [center]
                  /\ LightingBasis.rectanglesAreaLights (Voronoi.m_basis v')
                     = LightingBasis.rectanglesAreaLights (Voronoi.m_basis v)
                       ++ [(startingPoint, endingPoint)]
                  /\ LightingBasis.numberOfPointLights (Voronoi.m_basis v')
                     = LightingBasis.numberOfPointLights (Voronoi.m_basis v) + 1
                  /\ LightingBasis.numberOfAreaLights (Voronoi.m_basis v')
                     = LightingBasis.numberOfAreaLights (Voronoi.m_basis v) + 1
                  /\ consistent v')
    /\ (~ inside center ->
          Voronoi.addAreaLight startingPoint endingPoint v = CvError)
    /\ ((forall n m, 0 <= n <= 2 * m -> 0 <= cv_half n <= m) ->
        inside startingPoint -> inside endingPoint -> inside center).
Proof.
  intros F cv v s e Hcons center inside. split; [|split].
  - now apply addAreaLight_inside.
  - now apply addAreaLight_outside.
  - now apply center_inside.
Qed.

Lemma X10_addAreaLight_unchecked_witness :
  (exists v', Voronoi.addAreaLight (cv := cvRef) (mkPoint 0 0) (mkPoint 3 1) smallVoronoi
              = Ok v'
              /\ LightingBasis.pointLightSourcePosition (Voronoi.m_basis v')
                 = [mkPoint 1 1; mkPoint 3 2] ++ [mkPoint 2 0])
  /\ Voronoi.addAreaLight (cv := cvRef) (mkPoint 3 2) (mkPoint 7 4) smallVoronoi = CvError
  /\ insideMap 4 3 (Point2i_half (cv := cvRef) (Point2i_add (mkPoint 0 0) (mkPoint 3 1))).
Proof.
  split; [|split].
  - destruct (X10_addAreaLight_unchecked (option Z) cvRef smallVoronoi
                (mkPoint 0 0) (mkPoint 3 1) smallVoronoi_consistent) as (Hin & _ & _).
    destruct Hin as (v' & Hrun & Hp & _).
    + change (insideMap 4 3 (mkPoint 2 0)). unfold insideMap. simpl. lia.
    + exists v'. split; [exact Hrun|exact Hp].
  - apply (X10_addAreaLight_unchecked (option Z) cvRef smallVoronoi
             (mkPoint 3 2) (mkPoint 7 4) smallVoronoi_consistent).
    change (~ insideMap 4 3 (mkPoint 5 3)). unfold insideMap. simpl. lia.
  - apply (X10_addAreaLight_unchecked (option Z) cvRef smallVoronoi
             (mkPoint 0 0) (mkPoint 3 1) smallVoronoi_consistent).
    + exact roundHalfEven_bounds.
    + unfold insideMap. simpl. lia.
    + unfold insideMap. simpl. lia.
Defined.

(** ** The sampling of an area light never leaves the map or the rectangle *)

Section SamplingInside.
Variables envMapWidth envMapHeight : Z.
Hypothesis HW : 0 <= envMapWidth <= INT_MAX.
Hypothesis HH : 0 <= envMapHeight <= INT_MAX.
Variables startX startY stepWidth stepHeight : Z.
Variables columns rows : nat.
Hypothesis HstepW : 0 <= stepWidth.
Hypothesis HstepH : 0 <= stepHeight.
Hypothesis HrangeX :
  INT_MIN <= startX /\ startX + (Z.of_nat columns - 1) * stepWidth <= INT_MAX.
Hypothesis HrangeY :
  INT_MIN <= startY /\ startY + (Z.of_nat rows - 1) * stepHeight <= INT_MAX.

(** A sample: inside the map, and on the grid of the rectangle. *)
Let sample (q : Point2i) : Prop :=
  insideMap envMapWidth envMapHeight q
  /\ startX <= px q <= startX + (Z.of_nat columns - 1) * stepWidth
  /\ startY <= py q <= startY + (Z.of_nat rows - 1) * stepHeight.

Lemma sampleColumn_inside (r : nat) (ls : list Z) :
  (r < rows)%nat ->
  forall b (c : nat),
    (c + length ls <= columns)%nat ->
    exists b' (c' : nat) added,
      fold_left (LightingBasis.sampleColumn envMapWidth envMapHeight
                   (startY + Z.of_nat r * stepHeight) stepWidth)
                ls (b, startX + Z.of_nat c * stepWidth)
      = (b', startX + Z.of_nat c' * stepWidth)
      /\ LightingBasis.pointLightSourcePosition b'
         = LightingBasis.pointLightSourcePosition b ++ added
      /\ LightingBasis.numberOfPointLights b'
         = LightingBasis.numberOfPointLights b + Z.of_nat (length added)
      /\ LightingBasis.rectanglesAreaLights b' = LightingBasis.rectanglesAreaLights b
      /\ LightingBasis.numberOfAreaLights b' = LightingBasis.numberOfAreaLights b
      /\ LightingBasis.areAreaLightsSampled b' = LightingBasis.areAreaLightsSampled b
      /\ Forall sample added
      /\ (length added <= length ls)%nat.
Proof.
  intros Hr. induction ls as [|l ls IH]; intros b c Hc.
  - exists b, c, []. cbn [fold_left length]. rewrite app_nil_r, Z.add_0_r. auto 10.
  - cbn [fold_left length] in *. unfold LightingBasis.sampleColumn at 2.
    set (X := startX + Z.of_nat c * stepWidth).
    set (Y := startY + Z.of_nat r * stepHeight).
    assert (HX : startX <= X <= startX + (Z.of_nat columns - 1) * stepWidth)
      by (unfold X; nia).
    assert (HY : startY <= Y <= startY + (Z.of_nat rows - 1) * stepHeight)
      by (unfold Y; nia).
    destruct (lt_int_uint X envMapWidth && lt_int_uint Y envMapHeight) eqn:E.
    + apply andb_true_iff in E as [Ex Ey].
      apply lt_int_uint_spec in Ex; [|lia|lia].
      apply lt_int_uint_spec in Ey; [|lia|lia].
      replace (X + stepWidth) with (startX + Z.of_nat (S c) * stepWidth)
        by (unfold X; lia).
      destruct (IH (LightingBasis.addPointLight (mkPoint X Y) b) (S c) ltac:(lia))
        as (b' & c' & added & Hrun & Hp & Hn & Hra & Hna & Hsa & Hall & Hlen).
      exists b', c', (mkPoint X Y :: added). split; [exact Hrun|].
      rewrite Hp, Hn, Hra, Hna, Hsa.
      cbn [LightingBasis.addPointLight LightingBasis.pointLightSourcePosition
           LightingBasis.numberOfPointLights LightingBasis.rectanglesAreaLights
           LightingBasis.numberOfAreaLights LightingBasis.areAreaLightsSampled length].
      rewrite <- app_assoc. cbn [app].
      split; [reflexivity|]. split; [lia|]. do 3 (split; [reflexivity|]).
      split; [|lia]. constructor; [|exact Hall].
      unfold sample, insideMap. cbn [px py]. lia.
    + destruct (IH b c ltac:(lia))
        as (b' & c' & added & Hrun & Hp & Hn & Hra & Hna & Hsa & Hall & Hlen).
      exists b', c', added. fold X. auto 10.
Qed.

Lemma sampleRow_inside (ks : list Z) :
  forall b (r : nat),
    (r + length ks <= rows)%nat ->
    exists b' added,
      fst (fold_left (LightingBasis.sampleRow envMapWidth envMapHeight startX stepWidth
                        stepHeight (Z.of_nat columns))
                     ks (b, startY + Z.of_nat r * stepHeight)) = b'
      /\ LightingBasis.pointLightSourcePosition b'
         = LightingBasis.pointLightSourcePosition b ++ added
      /\ LightingBasis.numberOfPointLights b'
         = LightingBasis.numberOfPointLights b + Z.of_nat (length added)
      /\ LightingBasis.rectanglesAreaLights b' = LightingBasis.rectanglesAreaLights b
      /\ LightingBasis.numberOfAreaLights b' = LightingBasis.numberOfAreaLights b
      /\ LightingBasis.areAreaLightsSampled b' = LightingBasis.areAreaLightsSampled b
      /\ Forall sample added
      /\ (length added <= length ks * columns)%nat.
Proof.
  induction ks as [|k ks IH]; intros b r Hr.
  - exists b, []. cbn [fold_left fst length]. rewrite app_nil_r, Z.add_0_r. auto 10.
  - cbn [fold_left length] in *. unfold LightingBasis.sampleRow at 2.
    destruct (sampleColumn_inside r (range (Z.of_nat columns)) ltac:(lia) b 0%nat)
      as (b1 & c1 & added1 & Hrun1 & Hp1 & Hn1 & Hra1 & Hna1 & Hsa1 & Hall1 & Hlen1).
    { rewrite range_length. lia. }
    cbn [Z.of_nat] in Hrun1. rewrite Z.mul_0_l, Z.add_0_r in Hrun1. rewrite Hrun1.
    replace (startY + Z.of_nat r * stepHeight + stepHeight)
      with (startY + Z.of_nat (S r) * stepHeight) by lia.
    destruct (IH b1 (S r) ltac:(lia))
      as (b' & added & Hrun & Hp & Hn & Hra & Hna & Hsa & Hall & Hlen).
    exists b', (added1 ++ added). split; [exact Hrun|].
    rewrite Hp, Hn, Hra, Hna, Hsa, Hp1, Hn1, Hra1, Hna1, Hsa1, length_app, <- app_assoc.
    split; [reflexivity|]. split; [lia|]. do 3 (split; [reflexivity|]).
    split; [now apply Forall_app|].
    rewrite range_length in Hlen1. cbn [length]. lia.
Qed.

End SamplingInside.

(** X11. The sampling of an area light on a grid never leaves the map nor
    the rectangle: for a rectangle more than 25 pixels wide and high,
    [uniformSamplingAreaLightSources] appends to the basis only positions
    that are inside the map and between the corners of the rectangle, at most
    (width/25) x (height/25) of them, and the counter follows. *)
Theorem X11_samples_inside_map_and_rectangle :
  forall (cv : OpenCV) (envMapWidth envMapHeight : Z) (b : LightingBasis.t)
         (startingPoint endingPoint : Point2i),
    0 <= envMapWidth <= INT_MAX -> 0 <= envMapHeight <= INT_MAX ->
    INT_MIN <= px startingPoint <= INT_MAX -> INT_MIN <= py startingPoint <= INT_MAX ->
    INT_MIN <= px endingPoint <= INT_MAX -> INT_MIN <= py endingPoint <= INT_MAX ->
    let width := Z.abs (px startingPoint - px endingPoint) in
    let height := Z.abs (py startingPoint - py endingPoint) in
    25 < width -> 25 < height ->
    exists added,
      LightingBasis.pointLightSourcePosition
        (LightingBasis.sampleRectangle envMapWidth envMapHeight b
           (startingPoint, endingPoint))
      = LightingBasis.pointLightSourcePosition b ++ added
      /\ LightingBasis.numberOfPointLights
           (LightingBasis.sampleRectangle envMapWidth envMapHeight b
              (startingPoint, endingPoint))
         = LightingBasis.numberOfPointLights b + Z.of_nat (length added)
      /\ Forall (fun q =>
                   insideMap envMapWidth envMapHeight q
                   /\ Z.min (px startingPoint) (px endingPoint) <= px q
                      <= Z.max (px startingPoint) (px endingPoint)
                   /\ Z.min (py startingPoint) (py endingPoint) <= py q
                      <= Z.max (py startingPoint) (py endingPoint)) added
      /\ Z.of_nat (length added) <= (width / 25) * (height / 25).
Proof.
  intros cv W H b s e HW HH Hsx Hsy Hex Hey width height Hwidth Hheight.
  unfold LightingBasis.sampleRectangle, LightingBasis.numberOfPixelsBetweenSamples.
  fold width height.
  destruct (reorientateRectangle_corners s e) as (Hulx & Huly & Hbrx & Hbry);
    [unfold width in Hwidth; lia|unfold height in Hheight; lia|].
  destruct (reorientateRectangle s e) as [upperLeft bottomRight]. cbn [fst snd] in *.
  replace ((width >? 25) && (height >? 25)) with true
    by (symmetry; apply andb_true_iff; split; apply Z.gtb_lt; lia).
  rewrite (Z.quot_div_nonneg width 25), (Z.quot_div_nonneg height 25) by lia.
  set (nX := width / 25). set (nY := height / 25).
  assert (HnX : 1 <= nX) by (unfold nX; apply Z.div_le_lower_bound; lia).
  assert (HnY : 1 <= nY) by (unfold nY; apply Z.div_le_lower_bound; lia).
  rewrite (Z.quot_div_nonneg width nX), (Z.quot_div_nonneg height nY) by lia.
  set (stepWidth := width / nX). set (stepHeight := height / nY).
  assert (HsW : 0 <= stepWidth) by (unfold stepWidth; apply Z.div_pos; lia).
  assert (HsH : 0 <= stepHeight) by (unfold stepHeight; apply Z.div_pos; lia).
  rewrite (Z.quot_div_nonneg stepWidth 2), (Z.quot_div_nonneg stepHeight 2) by lia.
  assert (HmW : nX * stepWidth <= width) by (unfold stepWidth; apply Z.mul_div_le; lia).
  assert (HmH : nY * stepHeight <= height) by (unfold stepHeight; apply Z.mul_div_le; lia).
  assert (HhW : 0 <= stepWidth / 2 <= stepWidth)
    by (split; [apply Z.div_pos; lia|apply Z.div_le_upper_bound; lia]).
  assert (HhH : 0 <= stepHeight / 2 <= stepHeight)
    by (split; [apply Z.div_pos; lia|apply Z.div_le_upper_bound; lia]).
  assert (HdW : width = Z.max (px s) (px e) - Z.min (px s) (px e))
    by (unfold width; lia).
  assert (HdH : height = Z.max (py s) (py e) - Z.min (py s) (py e))
    by (unfold height; lia).
  destruct (sampleRow_inside W H HW HH (px upperLeft + stepWidth / 2)
              (py upperLeft + stepHeight / 2) stepWidth stepHeight
              (Z.to_nat nX) (Z.to_nat nY) HsW HsH
              ltac:(rewrite Z2Nat.id by lia; unfold INT_MIN, INT_MAX in *; nia)
              ltac:(rewrite Z2Nat.id by lia; unfold INT_MIN, INT_MAX in *; nia)
              (range nY) b 0%nat ltac:(rewrite range_length; lia))
    as (b' & added & Hrun & Hp & Hn & _ & _ & _ & Hall & Hlen).
  rewrite Z2Nat.id in Hrun by lia. cbn [Z.of_nat] in Hrun.
  rewrite Z.mul_0_l, Z.add_0_r in Hrun. rewrite Hrun.
  exists added. split; [exact Hp|]. split; [exact Hn|]. split.
  - eapply Forall_impl; [exact Hall|]. cbv beta. intros q (Hin & Hx & Hy).
    rewrite !Z2Nat.id in * by lia. split; [exact Hin|]. nia.
  - rewrite range_length in Hlen. nia.
Qed.

Lemma X11_samples_inside_map_and_rectangle_witness :
  exists added,
    LightingBasis.pointLightSourcePosition
      (LightingBasis.sampleRectangle (cv := cvRef) 1024 512 borderBasis
         (mkPoint 900 400, mkPoint 1100 550))
    = LightingBasis.pointLightSourcePosition borderBasis ++ added
    /\ LightingBasis.numberOfPointLights
         (LightingBasis.sampleRectangle (cv := cvRef) 1024 512 borderBasis
            (mkPoint 900 400, mkPoint 1100 550))
       = LightingBasis.numberOfPointLights borderBasis + Z.of_nat (length added)
    /\ Forall (fun q =>
                 insideMap 1024 512 q
                 /\ Z.min (px (mkPoint 900 400)) (px (mkPoint 1100 550)) <= px q
                    <= Z.max (px (mkPoint 900 400)) (px (mkPoint 1100 550))
                 /\ Z.min (py (mkPoint 900 400)) (py (mkPoint 1100 550)) <= py q
                    <= Z.max (py (mkPoint 900 400)) (py (mkPoint 1100 550))) added
    /\ Z.of_nat (length added)
       <= (Z.abs (px (mkPoint 900 400) - px (mkPoint 1100 550)) / 25)
          * (Z.abs (py (mkPoint 900 400) - py (mkPoint 1100 550)) / 25).
Proof.
  apply (X11_samples_inside_map_and_rectangle cvRef 1024 512 borderBasis
           (mkPoint 900 400) (mkPoint 1100 550));
    unfold INT_MIN, INT_MAX; simpl; lia.
Defined.

(** ** The files directLight*.pfm: written under one name, read under another *)

Section DirectLightNames.
Import BasisFile DirectLightFiles.
#[local] Open Scope char_scope.

Lemma atoi_leading_zero (n : Z) : 0 <= n -> atoi ("0" :: show_int n) = n.
Proof.
  intros Hn. rewrite <- (atoi_show_int n) at 2.
  unfold show_int. destruct (Z.to_int n) as [d|d] eqn:E.
  - destruct (atoi_uint_chars d) as [-> _]. reflexivity.
  - exfalso. destruct n; simpl in E; try discriminate. lia.
Qed.

Lemma show_int_no_leading_zero (n m : Z) :
  0 <= n -> show_int m = "0" :: show_int n -> False.
Proof.
  intros Hn E. pose proof (f_equal atoi E) as Ea.
  rewrite atoi_show_int, atoi_leading_zero in Ea by assumption. subst m.
  apply (f_equal (@length ascii)) in E. simpl in E. lia.
Qed.

Lemma show_int_inj (n m : Z) : show_int n = show_int m -> n = m.
Proof. intros E. apply (f_equal atoi) in E. now rewrite !atoi_show_int in E. Qed.

End DirectLightNames.

(** X12. The lighting conditions are saved as directLight0k.pfm for k < 10
    and directLightk.pfm from 10 on, but [identifyMedianEnergy] loads
    directLight0k.pfm for every k: the name it loads for condition k is the
    name of a saved condition k' exactly when k' = k and k < 10, so that from
    the tenth condition on it asks for a file that was never written
    (directLight010.pfm for directLight10.pfm). *)
Theorem X12_directLight_names_agree_below_ten :
  forall (folderPath roomType : list ascii) (k k' : Z),
    0 <= k -> 0 <= k' ->
    (DirectLightFiles.loadedName folderPath roomType k
     = DirectLightFiles.savedName folderPath roomType k'
     <-> k' = k /\ k < 10).
Proof.
  intros folder room k k' Hk Hk'.
  unfold DirectLightFiles.loadedName, DirectLightFiles.savedName.
  change (DirectLightFiles.text "/directLight0")
    with (DirectLightFiles.text "/directLight" ++ ["0"%char]).
  destruct (Z.ltb_spec k' 10) as [Hlt|Hge]; split.
  - intros E. do 3 apply app_inv_head in E. rewrite <- !app_assoc in E.
    apply app_inv_head in E. cbn [app] in E. injection E as E.
    apply app_inv_tail in E. apply show_int_inj in E. lia.
  - intros [-> _]. reflexivity.
  - intros E. do 3 apply app_inv_head in E. rewrite <- !app_assoc in E.
    apply app_inv_head in E. cbn [app] in E.
    exfalso. apply app_inv_tail with (l1 := "0"%char :: BasisFile.show_int k) in E.
    symmetry in E. exact (show_int_no_leading_zero k k' Hk E).
  - intros [-> Hlt]. lia.
Qed.

Lemma X12_directLight_names_agree_below_ten_witness :
  DirectLightFiles.loadedName (DirectLightFiles.text "/app")
    (DirectLightFiles.text "bedroom") 10
  = DirectLightFiles.savedName (DirectLightFiles.text "/app")
      (DirectLightFiles.text "bedroom") 10
  <-> 10 = 10 /\ 10 < 10.
Proof.
  apply (X12_directLight_names_agree_below_ten (DirectLightFiles.text "/app")
           (DirectLightFiles.text "bedroom") 10 10); lia.
Defined.

Example directLight_names_example :
  DirectLightFiles.loadedName (DirectLightFiles.text "/app")
    (DirectLightFiles.text "bedroom") 11
  = DirectLightFiles.text "/app/lighting_conditions/office_room/bedroom/directLight011.pfm"
  /\ DirectLightFiles.savedName (DirectLightFiles.text "/app")
       (DirectLightFiles.text "bedroom") 11
     = DirectLightFiles.text "/app/lighting_conditions/office_room/bedroom/directLight11.pfm"
  /\ DirectLightFiles.savedName (DirectLightFiles.text "/app")
       (DirectLightFiles.text "bedroom") 4
     = DirectLightFiles.loadedName (DirectLightFiles.text "/app")
         (DirectLightFiles.text "bedroom") 4.
Proof. vm_compute. repeat split. Qed.

(** ** The shift of a rotation, on the real numbers *)

Section RealAnglesFacts.
Import RealAngles.
#[local] Open Scope R_scope.

Lemma Int_part_bounds (r : R) : IZR (Int_part r) <= r < IZR (Int_part r) + 1.
Proof. destruct (base_Int_part r). lra. Qed.

Lemma Int_part_plus_IZR (r : R) (k : Z) : Int_part (r + IZR k) = (Int_part r + k)%Z.
Proof.
  symmetry. apply Int_part_spec. rewrite plus_IZR.
  pose proof (Int_part_bounds r). lra.
Qed.

Lemma moduloRealNumber_range (number modulo : R) :
  0 < modulo -> 0 <= moduloRealNumber number modulo < modulo.
Proof.
  intros Hm. unfold moduloRealNumber.
  pose proof (Int_part_bounds (number / modulo)) as [Hlo Hhi].
  assert (E : number = number / modulo * modulo) by (field; lra).
  split.
  - apply (Rmult_le_compat_r modulo) in Hlo; lra.
  - apply (Rmult_lt_compat_r modulo) in Hhi; lra.
Qed.

(** The two shifts differ by a multiple of the width. *)
Lemma jOffsets_differ_by_turns (offset : R) (width : Z) :
  jOffset_rotateLatLongMap offset width
  = (jOffset_computeVoronoiWeights offset width
     - Int_part (offset / (2 * PI)) * width)%Z.
Proof.
  unfold jOffset_rotateLatLongMap, moduloRealNumber.
  pose proof Rgt_2PI_0 as Hpi.
  replace (jOffset_computeVoronoiWeights offset width
           - Int_part (offset / (2 * PI)) * width)%Z
    with (jOffset_computeVoronoiWeights offset width
          + - (Int_part (offset / (2 * PI)) * width))%Z by lia.
  unfold jOffset_computeVoronoiWeights.
  rewrite <- Int_part_plus_IZR.
  f_equal. rewrite opp_IZR, mult_IZR. field. lra.
Qed.

Lemma jOffset_rotateLatLongMap_range (offset : R) (width : Z) :
  (0 < width)%Z -> (0 <= jOffset_rotateLatLongMap offset width < width)%Z.
Proof.
  intros Hw. unfold jOffset_rotateLatLongMap.
  pose proof Rgt_2PI_0 as Hpi.
  pose proof (moduloRealNumber_range offset (2 * PI) Hpi) as [Hlo Hhi].
  set (r := moduloRealNumber offset (2 * PI)) in *.
  assert (HW : 0 < IZR width) by (apply IZR_lt; lia).
  assert (Hfrac : 0 <= r / (2 * PI) < 1).
  { split.
    - apply Rmult_le_pos; [lra|]. left. apply Rinv_0_lt_compat. lra.
    - apply (Rmult_lt_reg_r (2 * PI)); [lra|]. field_simplify; lra. }
  pose proof (Int_part_bounds (r / (2 * PI) * IZR width)) as [Ilo Ihi].
  assert (Hprod : 0 <= r / (2 * PI) * IZR width < IZR width).
  { split; [apply Rmult_le_pos; lra|].
    rewrite <- (Rmult_1_l (IZR width)) at 2. apply Rmult_lt_compat_r; lra. }
  split.
  - apply le_IZR. apply Rnot_lt_le. intros Hneg.
    assert (IZR (Int_part (r / (2 * PI) * IZR width)) <= -1).
    { apply IZR_le. apply lt_IZR in Hneg. lia. }
    lra.
  - apply lt_IZR. lra.
Qed.

Lemma jOffset_rotateLatLongMap_mod (offset : R) (width : Z) :
  (0 < width)%Z ->
  jOffset_rotateLatLongMap offset width
  = (jOffset_computeVoronoiWeights offset width mod width)%Z.
Proof.
  intros Hw. pose proof (jOffset_rotateLatLongMap_range offset width Hw) as Hr.
  pose proof (jOffsets_differ_by_turns offset width) as Hd.
  apply (Z.mod_unique _ _ (Int_part (offset / (2 * PI)))); [lia|lia].
Qed.

Lemma jOffset_computeVoronoiWeights_nonneg (offset : R) (width : Z) :
  0 <= offset -> (0 <= width)%Z ->
  (0 <= jOffset_computeVoronoiWeights offset width)%Z.
Proof.
  intros Ho Hw. unfold jOffset_computeVoronoiWeights.
  pose proof Rgt_2PI_0 as Hpi.
  assert (HW : 0 <= IZR width) by (apply IZR_le; lia).
  assert (Hpos : 0 <= offset * IZR width / (2 * PI)).
  { apply Rmult_le_pos; [apply Rmult_le_pos; lra|].
    left. apply Rinv_0_lt_compat. lra. }
  pose proof (Int_part_bounds (offset * IZR width / (2 * PI))) as [Ilo Ihi].
  apply le_IZR. apply Rnot_lt_le. intros Hneg.
  assert (IZR (Int_part (offset * IZR width / (2 * PI))) <= -1).
  { apply IZR_le. apply lt_IZR in Hneg. lia. }
  lra.
Qed.

End RealAnglesFacts.

Section RotationShifts.
Import RealAngles.
#[local] Open Scope R_scope.

Lemma Int_part_quotient (a n : Z) :
  (0 < n)%Z -> Int_part (IZR a / IZR n) = (a / n)%Z.
Proof.
  intros Hn. symmetry. apply Int_part_spec.
  assert (HN : 0 < IZR n) by (apply IZR_lt; lia).
  pose proof (Z.div_mod a n ltac:(lia)) as Ha.
  pose proof (Z.mod_pos_bound a n Hn) as [Hr0 Hr1].
  assert (E : IZR a / IZR n = IZR (a / n) + IZR (a mod n) / IZR n).
  { rewrite Ha at 1. rewrite plus_IZR, mult_IZR. field. lra. }
  rewrite E.
  assert (0 <= IZR (a mod n) / IZR n < 1).
  { split.
    - apply Rmult_le_pos; [apply IZR_le; lia|]. left. now apply Rinv_0_lt_compat.
    - apply (Rmult_lt_reg_r (IZR n)); [lra|]. unfold Rdiv.
      rewrite Rmult_assoc, Rinv_l, Rmult_1_r, Rmult_1_l by lra.
      apply IZR_lt. lia. }
  lra.
Qed.

(** The shift of rotation number [l] out of [numberOfOffsets]. *)
Lemma jOffset_of_rotation (l numberOfOffsets width : Z) :
  (0 < numberOfOffsets)%Z ->
  jOffset_computeVoronoiWeights (offsetOfRotation l numberOfOffsets) width
  = (l * width / numberOfOffsets)%Z.
Proof.
  intros Hn. unfold jOffset_computeVoronoiWeights, offsetOfRotation.
  pose proof Rgt_2PI_0 as Hpi.
  assert (HN : 0 < IZR numberOfOffsets) by (apply IZR_lt; lia).
  rewrite <- (Int_part_quotient _ _ Hn). f_equal.
  rewrite mult_IZR. field. lra.
Qed.

End RotationShifts.







(** ** The weights from the masks against the weights from the cells *)

Lemma range_lookup (n : Z) (m : nat) (a : Z) :
  range n !! m = Some a -> a = Z.of_nat m /\ (m < Z.to_nat n)%nat.
Proof.
  unfold range. rewrite list_lookup_fmap. intros H.
  destruct (seq 0 (Z.to_nat n) !! m) as [b|] eqn:Hb; [|discriminate].
  apply lookup_seq in Hb as [-> Hm]. injection H as <-. split; [reflexivity|exact Hm].
Qed.

Lemma fold_left_ext_In {A B} (f g : A -> B -> A) (l : list B) (a : A) :
  (forall a b, In b l -> f a b = g a b) -> fold_left f l a = fold_left g l a.
Proof.
  revert a. induction l as [|b l IH]; intros a H; simpl; [reflexivity|].
  rewrite (H a b (or_introl eq_refl)). apply IH. intros a' b' Hb'. apply H. now right.
Qed.

Lemma fold_left_of_map {A B C} (f : A -> C -> A) (g : B -> C) (l : list B) (a : A) :
  fold_left f (map g l) a = fold_left (fun a b => f a (g b)) l a.
Proof. revert a. induction l as [|b l IH]; intros a; simpl; auto. Qed.

Section TermsOfOneCondition.
Context {F : Type} {fo : FloatOps F}.

Lemma applyTerms_length (ts : list (option (Z * (F * F * F * F)))) :
  forall w w', ofold applyTerm ts w = Ok w' -> length w' = length w.
Proof.
  induction ts as [|t ts IH]; intros w w' Hrun; simpl in Hrun.
  - now injection Hrun as <-.
  - destruct (applyTerm w t) as [w1| |] eqn:Ht; try discriminate.
    unfold mbind, outcome_bind, obind in Hrun. rewrite (IH _ _ Hrun).
    destruct t as [[k [[[R G] B] s]]|]; cbn [applyTerm] in Ht.
    + unfold vec_update in Ht. destruct (0 <=? k); [|discriminate].
      destruct (w !! Z.to_nat k); [|discriminate].
      injection Ht as <-. apply length_insert.
    + now injection Ht as <-.
Qed.

Lemma applyTerms_Ok (ts : list (option (Z * (F * F * F * F)))) (w : list (RGB F)) :
  (forall k x, In (Some (k, x)) ts -> 0 <= k < Z.of_nat (length w)) ->
  exists w', ofold applyTerm ts w = Ok w'.
Proof.
  revert w. induction ts as [|t ts IH]; intros w Hk; simpl; [eauto|].
  assert (Hstep : exists w1, applyTerm w t = Ok w1 /\ length w1 = length w).
  { destruct t as [[k [[[R G] B] s]]|]; cbn [applyTerm]; [|eauto].
    destruct (vec_update_Ok (Voronoi.accumulate R G B s) k w) as (a & _ & ->).
    - apply (Hk k (R, G, B, s)). now left.
    - eexists. split; [reflexivity|apply length_insert]. }
  destruct Hstep as (w1 & -> & Hl). unfold mbind, outcome_bind, obind.
  apply IH. intros k x Hin. rewrite Hl. apply (Hk k x). now right.
Qed.

End TermsOfOneCondition.

Section MasksAsCells.
Context {F : Type} {fo : FloatOps F} {cv : OpenCV}.
Variable v : Voronoi.t F.
Variable conditionMask : Z -> Mat Z.
Variable residualMask : Mat Z.
Variable indirectLightPicture : Z.
Variable environmentMap : Mat F.
Variable jOffset : Z.

Let n := length (Voronoi.m_cellNumberPerPicture v).
Let maskOfCondition := WeightsMasks.maskOf conditionMask residualMask indirectLightPicture.
Let pixels := pixelsRowMajor (Voronoi.m_envMapWidth v) (Voronoi.m_envMapHeight v).
Let termOf (k : Z) :=
  WeightsMasks.maskTerm environmentMap (maskOfCondition k)
    (Voronoi.m_envMapWidth v) (Voronoi.m_envMapHeight v) jOffset k.

Hypothesis Hmask :
  forall k i j,
    0 <= k < Z.of_nat n ->
    0 <= i < Voronoi.m_envMapHeight v -> 0 <= j < Voronoi.m_envMapWidth v ->
    (WeightsMasks.isBlack (mat_at (maskOfCondition k) i j) = true
     <-> Voronoi.findNearestLightSource v j i <> -1
         /\ Voronoi.findImageNumber v (Voronoi.findNearestLightSource v j i) = k).

Lemma weightPixelMask_term currentMask k i j w :
  WeightsMasks.weightPixelMask environmentMap currentMask (Voronoi.m_envMapWidth v)
    (Voronoi.m_envMapHeight v) jOffset k i w j
  = applyTerm w (WeightsMasks.maskTerm environmentMap currentMask
                   (Voronoi.m_envMapWidth v) (Voronoi.m_envMapHeight v) jOffset k (i, j)).
Proof.
  unfold WeightsMasks.weightPixelMask, WeightsMasks.maskTerm, applyTerm. cbn [fst snd].
  destruct (WeightsMasks.isBlack _); [|reflexivity].
  destruct (Voronoi.allNaN _ _ _); reflexivity.
Qed.

Lemma maskTerm_other (k k' : Z) (p : Z * Z) (a : RGB F) :
  k' <> k -> addTermTo k' a (termOf k p) = a.
Proof.
  intros Hne. unfold termOf, WeightsMasks.maskTerm, addTermTo.
  destruct (WeightsMasks.isBlack _); [|reflexivity].
  destruct (Voronoi.allNaN _ _ _); [reflexivity|].
  destruct (Z.eqb_spec k k'); [congruence|reflexivity].
Qed.

Lemma maskTerm_same (k : Z) (p : Z * Z) (a : RGB F) :
  0 <= k < Z.of_nat n -> In p pixels ->
  addTermTo k a (termOf k p) = addTermTo k a (pixelTerm v environmentMap jOffset p).
Proof.
  intros Hk Hp. destruct p as [i j]. apply pixelsRowMajor_In in Hp as [Hi Hj].
  specialize (Hmask k i j Hk Hi Hj).
  unfold termOf, WeightsMasks.maskTerm, pixelTerm, addTermTo. cbn [fst snd].
  destruct (WeightsMasks.isBlack _).
  - destruct Hmask as [[Hcell Himg] _]; [reflexivity|].
    destruct (Z.eqb_spec (Voronoi.findNearestLightSource v j i) (-1)); [contradiction|].
    rewrite Himg. reflexivity.
  - destruct (Z.eqb_spec (Voronoi.findNearestLightSource v j i) (-1)); [reflexivity|].
    destruct (Voronoi.allNaN _ _ _); [reflexivity|].
    destruct (Z.eqb_spec (Voronoi.findImageNumber v
                            (Voronoi.findNearestLightSource v j i)) k) as [E|]; [|reflexivity].
    destruct Hmask as [_ H]. discriminate H. split; assumption.
Qed.

(** The scan of one mask changes the accumulator of its condition only, to
    what the cells of that condition contribute. *)
Lemma one_mask (k : nat) (w : list (RGB F)) :
  (k < n)%nat -> length w = n ->
  exists w',
    ofold (fun w i =>
             ofold (WeightsMasks.weightPixelMask environmentMap
                      (maskOfCondition (Z.of_nat k)) (Voronoi.m_envMapWidth v)
                      (Voronoi.m_envMapHeight v) jOffset (Z.of_nat k) i)
                   (range (Voronoi.m_envMapWidth v)) w)
          (range (Voronoi.m_envMapHeight v)) w = Ok w'
    /\ length w' = n
    /\ (forall k', k' <> k -> w' !! k' = w !! k')
    /\ w' !! k
       = (fun a => fold_left (addTermTo (Z.of_nat k))
                     (map (pixelTerm v environmentMap jOffset) pixels) a) <$> (w !! k).
Proof.
  intros Hk Hl. rewrite ofold_nested.
  rewrite (ofold_ext_In _ (fun w p => applyTerm w (termOf (Z.of_nat k) p)))
    by (intros w0 [i j] _; apply weightPixelMask_term).
  rewrite <- (ofold_map applyTerm (termOf (Z.of_nat k))).
  fold pixels.
  destruct (applyTerms_Ok (map (termOf (Z.of_nat k)) pixels) w) as [w' Hrun].
  { intros k0 x Hin. apply in_map_iff in Hin as (p & Hp & _).
    unfold termOf, WeightsMasks.maskTerm in Hp.
    destruct (WeightsMasks.isBlack _); [|discriminate].
    destruct (Voronoi.allNaN _ _ _); [discriminate|].
    injection Hp as <- _. lia. }
  exists w'. split; [exact Hrun|]. split; [|split].
  - rewrite (applyTerms_length _ _ _ Hrun). exact Hl.
  - intros k' Hne. rewrite (applyTerms_lookup _ _ _ k' Hrun).
    destruct (w !! k') as [a|]; [|reflexivity]. cbn [fmap option_fmap option_map]. f_equal.
    clear Hrun. revert a. induction pixels as [|p ps IH]; intros a; [reflexivity|].
    cbn [map fold_left]. rewrite maskTerm_other by lia. apply IH.
  - rewrite (applyTerms_lookup _ _ _ k Hrun).
    destruct (w !! k) as [a|]; [|reflexivity]. cbn [fmap option_fmap option_map]. f_equal.
    rewrite !fold_left_of_map. apply fold_left_ext_In.
    intros a' p Hp. apply maskTerm_same; [lia|exact Hp].
Qed.

Lemma computeWeightsMasks_conditionWeights :
  exists w,
    WeightsMasks.computeWeightsMasks (Z.of_nat n) indirectLightPicture
      (Voronoi.m_envMapWidth v) (Voronoi.m_envMapHeight v)
      conditionMask residualMask environmentMap jOffset = Ok w
    /\ length w = n
    /\ forall k, (k < n)%nat ->
         w !! k = Some (conditionWeight v environmentMap jOffset (Z.of_nat k)).
Proof.
  unfold WeightsMasks.computeWeightsMasks. rewrite Nat2Z.id.
  destruct (ofold_invariant_nth
    (fun rgbWeights k =>
       ofold (fun w i =>
                ofold (WeightsMasks.weightPixelMask environmentMap (maskOfCondition k)
                         (Voronoi.m_envMapWidth v) (Voronoi.m_envMapHeight v) jOffset k i)
                      (range (Voronoi.m_envMapWidth v)) w)
             (range (Voronoi.m_envMapHeight v)) rgbWeights)
    (fun m w => length w = n
                /\ (forall k, (k < m)%nat -> (k < n)%nat ->
                      w !! k = Some (conditionWeight v environmentMap jOffset (Z.of_nat k)))
                /\ (forall k, (m <= k < n)%nat -> w !! k = Some (mkRGB fzero fzero fzero)))
    (range (Z.of_nat n)) (Voronoi.zeroWeights n)) as (w & Hrun & Hl & Hdone & _).
  - split; [apply length_replicate|]. split; [intros; lia|].
    intros k Hk. apply lookup_replicate_2. lia.
  - intros m w a Ha (Hl & Hdone & Hrest).
    apply range_lookup in Ha as [-> Hm]. rewrite Nat2Z.id in Hm.
    destruct (one_mask m w Hm Hl) as (w' & Hrun & Hl' & Hother & Hsame).
    exists w'. split; [exact Hrun|]. split; [exact Hl'|]. split.
    + intros k Hk Hkn. destruct (Nat.eq_dec k m) as [->|Hne].
      * rewrite Hsame, (Hrest m) by lia. reflexivity.
      * rewrite Hother by exact Hne. apply Hdone; lia.
    + intros k Hk. rewrite Hother by lia. apply Hrest. lia.
  - exists w. split; [exact Hrun|]. split; [exact Hl|].
    intros k Hk. apply Hdone; [|exact Hk].
    rewrite range_length, Nat2Z.id. exact Hk.
Qed.

End MasksAsCells.

Lemma computeVoronoiWeightsOR_weights {F} {fo : FloatOps F} {cv : OpenCV}
    (v v' : Voronoi.t F) (environmentMap : Mat F) (jOffset : Z) :
  Voronoi.computeVoronoiWeightsOR environmentMap jOffset v = Ok v' ->
  v' = Voronoi.set_weights (Voronoi.m_rgbWeights v') v
  /\ length (Voronoi.m_rgbWeights v')
     = (length (Voronoi.m_rgbWeights v) + length (Voronoi.m_cellNumberPerPicture v))%nat.
Proof.
  intros Hrun. unfold Voronoi.computeVoronoiWeightsOR in Hrun.
  unfold Voronoi.scanRowMajor in Hrun. rewrite ofold_nested in Hrun.
  rewrite (ofold_ext_In _ (fun w p => applyTerm w (pixelTerm v environmentMap jOffset p)))
    in Hrun by (intros w [i j] _; apply weightPixelOR_term).
  rewrite <- (ofold_map applyTerm (pixelTerm v environmentMap jOffset)) in Hrun.
  destruct (ofold applyTerm _ _) as [w'| |] eqn:Hw; try discriminate.
  unfold mbind, outcome_bind, obind in Hrun. injection Hrun as <-.
  split; [reflexivity|].
  cbn [Voronoi.m_rgbWeights Voronoi.set_weights].
  rewrite (applyTerms_length _ _ _ Hw), length_app.
  unfold Voronoi.zeroWeights. now rewrite length_replicate.
Qed.

(** X16. When the mask of every lighting condition is black exactly on the
    pixels whose cell belongs to that condition, [computeWeightsMasks]
    returns the weights that [computeVoronoiWeightsOR] leaves in the
    partition after [clearWeights]: both return normally, with the same
    vector of weights (the same additions in the same order for every
    condition). *)
Theorem X16_masks_of_the_cells_give_the_weights_of_the_cells
    {F : Type} {fo : FloatOps F} {cv : OpenCV} (v : Voronoi.t F)
    (conditionMask : Z -> Mat Z) (residualMask : Mat Z) (indirectLightPicture : Z)
    (environmentMap : Mat F) (jOffset : Z) :
  Voronoi.m_rgbWeights v = [] ->
  cellsMapped v ->
  (forall k i j,
     0 <= k < Z.of_nat (length (Voronoi.m_cellNumberPerPicture v)) ->
     0 <= i < Voronoi.m_envMapHeight v -> 0 <= j < Voronoi.m_envMapWidth v ->
     (WeightsMasks.isBlack
        (mat_at (WeightsMasks.maskOf conditionMask residualMask indirectLightPicture k) i j)
      = true
      <-> Voronoi.findNearestLightSource v j i <> -1
          /\ Voronoi.findImageNumber v (Voronoi.findNearestLightSource v j i) = k)) ->
  exists w,
    WeightsMasks.computeWeightsMasks
      (Z.of_nat (length (Voronoi.m_cellNumberPerPicture v))) indirectLightPicture
      (Voronoi.m_envMapWidth v) (Voronoi.m_envMapHeight v)
      conditionMask residualMask environmentMap jOffset = Ok w
    /\ Voronoi.computeVoronoiWeightsOR environmentMap jOffset v
       = Ok (Voronoi.set_weights w v).
Proof.
  intros Hclear Hmapped Hmask.
  destruct (computeWeightsMasks_conditionWeights v conditionMask residualMask
              indirectLightPicture environmentMap jOffset Hmask) as (w & Hrun & Hl & Hw).
  exists w. split; [exact Hrun|].
  destruct (computeVoronoiWeightsOR_mapped v environmentMap jOffset Hmapped) as [v' Hv'].
  rewrite Hv'. f_equal.
  destruct (computeVoronoiWeightsOR_weights _ _ _ _ Hv') as [Ev' Hl'].
  rewrite Ev'. f_equal. rewrite Hclear in Hl'. cbn [length Nat.add] in Hl'.
  apply list_eq. intros k.
  destruct (Nat.lt_ge_cases k (length (Voronoi.m_cellNumberPerPicture v))) as [Hk|Hk].
  - rewrite (computeVoronoiWeightsOR_conditionWeight v environmentMap jOffset v' k
               Hclear Hv' Hk).
    symmetry. apply Hw. exact Hk.
  - rewrite !lookup_ge_None_2 by lia. reflexivity.
Qed.

Lemma columnVoronoi_cellsMapped : cellsMapped (cv := cvRef) columnVoronoi.
Proof.
  intros i j Hi Hj _. simpl in Hi, Hj.
  assert (Ei : i = 0 \/ i = 1) by lia.
  assert (Ej : j = 0 \/ j = 1 \/ j = 2) by lia.
  destruct Ei as [-> | ->]; destruct Ej as [-> | [-> | ->]];
    solve [ exists [0]; vm_compute; auto | exists [1]; vm_compute; auto
          | exists [2]; vm_compute; auto ].
Qed.

Lemma X16_masks_of_the_cells_give_the_weights_of_the_cells_witness :
  exists w,
    WeightsMasks.computeWeightsMasks (fo := exactNaN) 3 1 3 2
      columnMask (columnMask 1) columnMap 2 = Ok w
    /\ Voronoi.computeVoronoiWeightsOR (fo := exactNaN) (cv := cvRef) columnMap 2
         columnVoronoi
       = Ok (Voronoi.set_weights w columnVoronoi).
Proof.
  apply (X16_masks_of_the_cells_give_the_weights_of_the_cells
           (fo := exactNaN) (cv := cvRef) columnVoronoi columnMask (columnMask 1) 1
           columnMap 2).
  - reflexivity.
  - exact columnVoronoi_cellsMapped.
  - intros k i j Hk Hi Hj. simpl in Hk, Hi, Hj.
    assert (Ek : k = 0 \/ k = 1 \/ k = 2) by lia.
    assert (Ei : i = 0 \/ i = 1) by lia.
    assert (Ej : j = 0 \/ j = 1 \/ j = 2) by lia.
    destruct Ek as [-> | [-> | ->]]; destruct Ei as [-> | ->];
      destruct Ej as [-> | [-> | ->]]; vm_compute;
      (split; [intros E; first [discriminate E | split; [discriminate|reflexivity]]
              | intros [_ E]; first [discriminate E | reflexivity]]).
Defined.

(** The weights of the example, by either way. *)
Example computeWeightsMasks_example :
  WeightsMasks.computeWeightsMasks (fo := exactNaN) 3 1 3 2
    columnMask (columnMask 1) columnMap 2
  = Ok [mkRGB (Some 1) (Some 1) (Some 1); mkRGB (Some 100) (Some 1) (Some 1);
        mkRGB (Some 10) (Some 1) (Some 1)].
Proof. vm_compute. reflexivity. Qed.

(** ** The residual mask *)

Section ResidualMask.
Import PrepareMasks.

Lemma allBytes2_spec (P : Z -> Z -> bool) :
  allBytes2 P = true -> forall a b, isByte a -> isByte b -> P a b = true.
Proof.
  intros H a b Ha Hb. unfold allBytes2 in H.
  rewrite forallb_forall in H. specialize (H a (proj2 (range_In 256 a) Ha)).
  rewrite forallb_forall in H. exact (H b (proj2 (range_In 256 b) Hb)).
Qed.

Lemma combinedChannel_facts (a b : Z) :
  isByte a -> isByte b ->
  combinedChannel a b = Z.lor a (not8 b)
  /\ isByte (combinedChannel a b)
  /\ (b < 128 -> 128 <= combinedChannel a b)
  /\ (combinedChannel a b < 127 -> a < 127)
  /\ (combinedChannel a b = 0 <-> a = 0 /\ b = 255).
Proof.
  intros Ha Hb.
  assert (H : allBytes2 (fun a b =>
            (combinedChannel a b =? Z.lor a (not8 b))
            && (0 <=? combinedChannel a b) && (combinedChannel a b <? 256)
            && implb (b <? 128) (128 <=? combinedChannel a b)
            && implb (combinedChannel a b <? 127) (a <? 127)
            && Bool.eqb (combinedChannel a b =? 0) ((a =? 0) && (b =? 255))) = true)
    by (vm_compute; reflexivity).
  apply allBytes2_spec with (a := a) (b := b) in H; [|exact Ha|exact Hb].
  repeat (apply andb_prop in H as [H ?]).
  apply Z.eqb_eq in H.
  repeat match goal with
         | E : (_ <=? _) = true |- _ => apply Z.leb_le in E
         | E : (_ <? _) = true |- _ => apply Z.ltb_lt in E
         end.
  split; [exact H|]. split; [split; assumption|]. split; [|split].
  - intros Hlt. destruct (Z.ltb_spec b 128); [|lia].
    cbn [implb] in *. now apply Z.leb_le.
  - intros Hlt. destruct (Z.ltb_spec (combinedChannel a b) 127); [|lia].
    cbn [implb] in *. now apply Z.ltb_lt.
  - destruct (Z.eqb_spec (combinedChannel a b) 0) as [E|E];
      destruct (Z.eqb_spec a 0); destruct (Z.eqb_spec b 255);
      cbn [andb Bool.eqb] in *; try discriminate; try contradiction; intuition lia.
Qed.

Lemma land_byte_facts (x y : Z) :
  isByte x -> isByte y ->
  isByte (Z.land x y)
  /\ (x < 128 \/ y < 128 -> Z.land x y < 128)
  /\ (Z.land x y = 255 <-> x = 255 /\ y = 255).
Proof.
  intros Hx Hy.
  assert (H : allBytes2 (fun x y =>
            (0 <=? Z.land x y) && (Z.land x y <? 256)
            && implb ((x <? 128) || (y <? 128)) (Z.land x y <? 128)
            && Bool.eqb (Z.land x y =? 255) ((x =? 255) && (y =? 255))) = true)
    by (vm_compute; reflexivity).
  apply allBytes2_spec with (a := x) (b := y) in H; [|exact Hx|exact Hy].
  repeat (apply andb_prop in H as [H ?]).
  apply Z.leb_le in H.
  match goal with E : (_ <? 256) = true |- _ => apply Z.ltb_lt in E end.
  split; [split; assumption|]. split.
  - intros Hlt.
    destruct (Z.ltb_spec x 128); destruct (Z.ltb_spec y 128); try lia;
      cbn [orb implb] in *; now apply Z.ltb_lt.
  - destruct (Z.eqb_spec (Z.land x y) 255) as [E|E];
      destruct (Z.eqb_spec x 255); destruct (Z.eqb_spec y 255);
      cbn [andb Bool.eqb] in *; try discriminate; try contradiction; intuition lia.
Qed.

Lemma channelOf_map2 c f q r :
  channelOf c (map2_px f q r) = f (channelOf c q) (channelOf c r).
Proof. destruct c; reflexivity. Qed.

Lemma channelOf_map c f q : channelOf c (map_px f q) = f (channelOf c q).
Proof. destruct c; reflexivity. Qed.

Lemma pixel_ext (q r : Vec3f Z) : (forall c, channelOf c q = channelOf c r) -> q = r.
Proof.
  intros H. destruct q as [q0 q1 q2], r as [r0 r1 r2].
  pose proof (H Blue) as H0. pose proof (H Green) as H1. pose proof (H Red) as H2.
  cbn in H0, H1, H2. congruence.
Qed.

Lemma isBlack_channels (q : Vec3f Z) :
  WeightsMasks.isBlack q = true <-> forall c, channelOf c q < 127.
Proof.
  unfold WeightsMasks.isBlack. rewrite !andb_true_iff, !Z.ltb_lt. split.
  - intros [[H2 H1] H0] c. destruct c; assumption.
  - intros H. repeat split; [apply (H Red)|apply (H Green)|apply (H Blue)].
Qed.

Lemma combine_channel (residualMask allMasks : Mat Z) i j c :
  channelOf c (mat_at (combine residualMask allMasks) i j)
  = combinedChannel (channelOf c (mat_at residualMask i j))
                    (channelOf c (mat_at allMasks i j)).
Proof.
  unfold combine, bitwise_or, bitwise_and, bitwise_not. cbn [mat_at].
  rewrite !channelOf_map2, !channelOf_map. reflexivity.
Qed.

Section Assemble.
Variable indirectLightPicture : Z.
Variable conditionMask : Z -> Mat Z.
Hypothesis Hbytes : forall k, bytes (conditionMask k).

Let step (allMasks : Mat Z) (i : Z) : Mat Z :=
  if negb (i =? indirectLightPicture)
  then bitwise_and allMasks (conditionMask i)
  else allMasks.

Lemma assemble_channel (l : list Z) (i j : Z) (c : channel) :
  forall acc,
    isByte (channelOf c (mat_at acc i j)) ->
    let r := channelOf c (mat_at (fold_left step l acc) i j) in
    isByte r
    /\ (channelOf c (mat_at acc i j) < 128
        \/ (exists k, In k l /\ k <> indirectLightPicture
                      /\ channelOf c (mat_at (conditionMask k) i j) < 128)
        -> r < 128)
    /\ (r = 255
        <-> channelOf c (mat_at acc i j) = 255
            /\ forall k, In k l -> k <> indirectLightPicture ->
                 channelOf c (mat_at (conditionMask k) i j) = 255).
Proof.
  induction l as [|k l IH]; intros acc Hacc; cbn zeta.
  - cbn [fold_left]. split; [exact Hacc|]. split.
    + intros [H | (k & [] & _)]. exact H.
    + split; [intros H; split; [exact H|intros k []]|intros [H _]; exact H].
  - cbn [fold_left].
    assert (Hstep : isByte (channelOf c (mat_at (step acc k) i j))
              /\ (k = indirectLightPicture ->
                  channelOf c (mat_at (step acc k) i j) = channelOf c (mat_at acc i j))
              /\ (k <> indirectLightPicture ->
                  channelOf c (mat_at (step acc k) i j)
                  = Z.land (channelOf c (mat_at acc i j))
                           (channelOf c (mat_at (conditionMask k) i j)))).
    { unfold step. destruct (Z.eqb_spec k indirectLightPicture) as [E|E]; cbn [negb].
      - split; [exact Hacc|]. split; [reflexivity|contradiction].
      - unfold bitwise_and. cbn [mat_at]. rewrite channelOf_map2.
        split; [|split; [contradiction|reflexivity]].
        apply land_byte_facts; [exact Hacc|apply Hbytes]. }
    destruct Hstep as (Hb & Hsame & Hand).
    destruct (IH (step acc k) Hb) as (IHb & IHlow & IHwhite). cbn zeta in *.
    pose proof (Hbytes k i j c) as Hk.
    split; [exact IHb|]. split.
    + intros Hlow. apply IHlow.
      destruct (Z.eq_dec k indirectLightPicture) as [E|E].
      * rewrite (Hsame E).
        destruct Hlow as [H | (k' & [<- | Hin] & Hne & Hlt)]; [now left|contradiction|].
        right. exists k'. auto.
      * rewrite (Hand E).
        destruct Hlow as [H | (k' & [<- | Hin] & Hne & Hlt)].
        -- left. apply land_byte_facts; auto.
        -- left. apply land_byte_facts; auto.
        -- right. exists k'. auto.
    + rewrite IHwhite. destruct (Z.eq_dec k indirectLightPicture) as [E|E].
      * rewrite (Hsame E). split.
        -- intros [H Hall]. split; [exact H|].
           intros k' [<- | Hin] Hne; [contradiction|auto].
        -- intros [H Hall]. split; [exact H|]. intros k' Hin. apply Hall. now right.
      * rewrite (Hand E). split.
        -- intros [H Hall]. apply land_byte_facts in H as [H1 H2]; [|exact Hacc|exact Hk].
           split; [exact H1|]. intros k' [<- | Hin] Hne; auto.
        -- intros [H Hall]. split.
           ++ apply land_byte_facts; [exact Hacc|exact Hk|].
              split; [exact H|]. apply Hall; [now left|exact E].
           ++ intros k' Hin. apply Hall. now right.
Qed.

End Assemble.

End ResidualMask.

(** X17. For mask images of the size of the map, [prepareMasks] writes as
    residual mask, channel by channel, [A | ~B], with [A] the mask of the
    dark room and [B] the conjunction of the masks of the other conditions.
    A pixel of the residual mask is 0 exactly when the dark-room mask is 0
    there and every other mask is 255; a pixel that is black (all channels
    below 127) in the mask of another condition is never black in the
    residual mask, and a black pixel of the residual mask is black in the
    dark-room mask. *)
Theorem X17_residual_mask_avoids_condition_masks
    (numberOfLightingConditions indirectLightPicture width height : Z)
    (conditionMask : Z -> Mat Z) (residualMask : Mat Z) (i j : Z) :
  (forall k, PrepareMasks.bytes (conditionMask k)) ->
  PrepareMasks.bytes residualMask ->
  (forall k, 0 <= k < numberOfLightingConditions ->
     mat_rows (conditionMask k) = height /\ mat_cols (conditionMask k) = width) ->
  mat_rows residualMask = height /\ mat_cols residualMask = width ->
  0 <= i < height -> 0 <= j < width ->
  let allMasks :=
    PrepareMasks.assembleMasks numberOfLightingConditions indirectLightPicture
      width height conditionMask in
  let result :=
    PrepareMasks.prepareMasks numberOfLightingConditions indirectLightPicture
      width height conditionMask residualMask in
  mat_at result i j
  = PrepareMasks.map2_px (fun a b => Z.lor a (PrepareMasks.not8 b))
      (mat_at residualMask i j) (mat_at allMasks i j)
  /\ (mat_at result i j = mkVec3f 0 0 0
      <-> mat_at residualMask i j = mkVec3f 0 0 0
          /\ forall k, 0 <= k < numberOfLightingConditions ->
               k <> indirectLightPicture ->
               mat_at (conditionMask k) i j = mkVec3f 255 255 255)
  /\ (forall k, 0 <= k < numberOfLightingConditions -> k <> indirectLightPicture ->
        WeightsMasks.isBlack (mat_at (conditionMask k) i j) = true ->
        WeightsMasks.isBlack (mat_at result i j) = false)
  /\ (WeightsMasks.isBlack (mat_at result i j) = true ->
      WeightsMasks.isBlack (mat_at residualMask i j) = true).
Proof.
  intros Hmasks Hres _ _ _ _ allMasks result.
  assert (Hall : forall c,
            let b := PrepareMasks.channelOf c (mat_at allMasks i j) in
            PrepareMasks.isByte b
            /\ ((exists k, 0 <= k < numberOfLightingConditions
                           /\ k <> indirectLightPicture
                           /\ PrepareMasks.channelOf c (mat_at (conditionMask k) i j) < 128)
                -> b < 128)
            /\ (b = 255 <-> forall k, 0 <= k < numberOfLightingConditions ->
                              k <> indirectLightPicture ->
                              PrepareMasks.channelOf c (mat_at (conditionMask k) i j) = 255)).
  { intros c.
    destruct (assemble_channel indirectLightPicture conditionMask Hmasks
                (range numberOfLightingConditions) i j c
                (PrepareMasks.white width height)) as (Hb & Hlow & Hwhite).
    { destruct c; cbn; unfold PrepareMasks.isByte; lia. }
    cbn zeta in *. fold (PrepareMasks.assembleMasks numberOfLightingConditions
                           indirectLightPicture width height conditionMask) in Hb, Hlow, Hwhite.
    fold allMasks in Hb, Hlow, Hwhite.
    split; [exact Hb|]. split.
    - intros (k & Hk & Hne & Hlt). apply Hlow. right. exists k.
      split; [now apply range_In|]. auto.
    - rewrite Hwhite. split.
      + intros [_ H] k Hk. apply H. now apply range_In.
      + intros H. split; [destruct c; reflexivity|].
        intros k Hk. apply H. now apply range_In. }
  assert (Hch : forall c,
            PrepareMasks.channelOf c (mat_at result i j)
            = PrepareMasks.combinedChannel
                (PrepareMasks.channelOf c (mat_at residualMask i j))
                (PrepareMasks.channelOf c (mat_at allMasks i j)))
    by (intros c; apply combine_channel).
  split; [|split; [|split]].
  - apply pixel_ext. intros c. rewrite Hch, channelOf_map2.
    apply combinedChannel_facts; [apply Hres|apply Hall].
  - split.
    + intros E.
      assert (Hc : forall c,
                PrepareMasks.channelOf c (mat_at residualMask i j) = 0
                /\ PrepareMasks.channelOf c (mat_at allMasks i j) = 255).
      { intros c.
        destruct (combinedChannel_facts _ _ (Hres i j c) (proj1 (Hall c)))
          as (_ & _ & _ & _ & Hz).
        apply Hz. rewrite <- Hch, E. destruct c; reflexivity. }
      split.
      * apply pixel_ext. intros c. rewrite (proj1 (Hc c)). destruct c; reflexivity.
      * intros k Hk Hne. apply pixel_ext. intros c.
        destruct (Hall c) as (_ & _ & Hw).
        rewrite (proj1 Hw (proj2 (Hc c)) k Hk Hne). destruct c; reflexivity.
    + intros [Ea Hw]. apply pixel_ext. intros c. rewrite Hch.
      destruct (combinedChannel_facts _ _ (Hres i j c) (proj1 (Hall c)))
        as (_ & _ & _ & _ & Hz).
      replace (PrepareMasks.channelOf c (mkVec3f 0 0 0)) with 0 by (destruct c; reflexivity).
      apply Hz. split.
      * rewrite Ea. destruct c; reflexivity.
      * apply (Hall c). intros k Hk Hne. rewrite (Hw k Hk Hne). destruct c; reflexivity.
  - intros k Hk Hne Hblack. apply not_true_is_false. intros Hr.
    rewrite isBlack_channels in Hblack, Hr.
    specialize (Hblack PrepareMasks.Blue). specialize (Hr PrepareMasks.Blue).
    rewrite Hch in Hr.
    destruct (combinedChannel_facts _ _ (Hres i j PrepareMasks.Blue)
                (proj1 (Hall PrepareMasks.Blue))) as (_ & _ & Hlow & _).
    destruct (Hall PrepareMasks.Blue) as (_ & Hb & _).
    assert (PrepareMasks.channelOf PrepareMasks.Blue (mat_at allMasks i j) < 128).
    { apply Hb. exists k. repeat split; try lia; auto. }
    specialize (Hlow H). lia.
  - rewrite !isBlack_channels. intros Hr c. specialize (Hr c). rewrite Hch in Hr.
    destruct (combinedChannel_facts _ _ (Hres i j c) (proj1 (Hall c)))
      as (_ & _ & _ & Ha & _).
    auto.
Qed.

Lemma columnMask_bytes (k : Z) : PrepareMasks.bytes (columnMask k).
Proof.
  intros i j c. unfold columnMask. cbn [mat_at].
  destruct (j =? k); destruct c; cbn; unfold PrepareMasks.isByte; lia.
Qed.

Lemma X17_residual_mask_avoids_condition_masks_witness :
  let allMasks := PrepareMasks.assembleMasks 3 1 3 2 columnMask in
  let result := PrepareMasks.prepareMasks 3 1 3 2 columnMask (columnMask 1) in
  mat_at result 0 1
  = PrepareMasks.map2_px (fun a b => Z.lor a (PrepareMasks.not8 b))
      (mat_at (columnMask 1) 0 1) (mat_at allMasks 0 1)
  /\ (mat_at result 0 1 = mkVec3f 0 0 0
      <-> mat_at (columnMask 1) 0 1 = mkVec3f 0 0 0
          /\ forall k, 0 <= k < 3 -> k <> 1 ->
               mat_at (columnMask k) 0 1 = mkVec3f 255 255 255)
  /\ (forall k, 0 <= k < 3 -> k <> 1 ->
        WeightsMasks.isBlack (mat_at (columnMask k) 0 1) = true ->
        WeightsMasks.isBlack (mat_at result 0 1) = false)
  /\ (WeightsMasks.isBlack (mat_at result 0 1) = true ->
      WeightsMasks.isBlack (mat_at (columnMask 1) 0 1) = true).
Proof.
  apply (X17_residual_mask_avoids_condition_masks 3 1 3 2 columnMask (columnMask 1) 0 1).
  - exact columnMask_bytes.
  - exact (columnMask_bytes 1).
  - intros k _. split; reflexivity.
  - split; reflexivity.
  - lia.
  - lia.
Defined.

(** The residual mask of the example: black on the column of the dark room. *)
Example prepareMasks_example :
  map (fun j => mat_at (PrepareMasks.prepareMasks 3 1 3 2 columnMask (columnMask 1)) 0 j)
      [0; 1; 2]
  = [mkVec3f 255 255 255; mkVec3f 0 0 0; mkVec3f 255 255 255].
Proof. vm_compute. reflexivity. Qed.

(** ** The guard against not-a-number values *)

Section NaNGuard.
Context {F : Type} {fo : FloatOps F} {cv : OpenCV}.
Hypothesis Hmul : forall x s, fisnan x = true -> fisnan (fmul x s) = true.
Hypothesis Hadd_l : forall a b, fisnan a = true -> fisnan (fadd a b) = true.
Hypothesis Hadd_r : forall a b, fisnan b = true -> fisnan (fadd a b) = true.

Lemma addTermTo_keeps_NaN (k : Z) (w : RGB F) (t : option (Z * (F * F * F * F))) :
  (fisnan (red w) = true -> fisnan (red (addTermTo k w t)) = true)
  /\ (fisnan (green w) = true -> fisnan (green (addTermTo k w t)) = true)
  /\ (fisnan (blue w) = true -> fisnan (blue (addTermTo k w t)) = true).
Proof.
  destruct t as [[k' [[[R G] B] s]]|]; cbn [addTermTo]; [|auto].
  destruct (k' =? k); [|auto].
  unfold Voronoi.accumulate. cbn [red green blue]. auto.
Qed.

Lemma addTerms_keep_NaN (k : Z) (ts : list (option (Z * (F * F * F * F)))) :
  forall w,
    (fisnan (red w) = true -> fisnan (red (fold_left (addTermTo k) ts w)) = true)
    /\ (fisnan (green w) = true -> fisnan (green (fold_left (addTermTo k) ts w)) = true)
    /\ (fisnan (blue w) = true -> fisnan (blue (fold_left (addTermTo k) ts w)) = true).
Proof.
  induction ts as [|t ts IH]; intros w; cbn [fold_left]; [auto|].
  destruct (IH (addTermTo k w t)) as (Hr & Hg & Hb).
  destruct (addTermTo_keeps_NaN k w t) as (Hr' & Hg' & Hb'). auto.
Qed.

Lemma accumulate_NaN (R G B s : F) (w : RGB F) :
  (fisnan R = true -> fisnan (red (Voronoi.accumulate R G B s w)) = true)
  /\ (fisnan G = true -> fisnan (green (Voronoi.accumulate R G B s w)) = true)
  /\ (fisnan B = true -> fisnan (blue (Voronoi.accumulate R G B s w)) = true).
Proof. unfold Voronoi.accumulate. cbn [red green blue]. auto. Qed.

End NaNGuard.

(** X18. The guard of [computeVoronoiWeightsOR] skips a pixel only when its
    three channels are not-a-number. A pixel of a cell that carries a
    not-a-number in some channel but not in all three is added, and at the
    end of the integration the weight of its lighting condition is
    not-a-number in that channel (for a float arithmetic in which a sum or
    product with a not-a-number is a not-a-number). *)
Theorem X18_partial_NaN_pixel_poisons_the_weight
    {F : Type} {fo : FloatOps F} {cv : OpenCV}
    (v : Voronoi.t F) (environmentMap : Mat F) (jOffset i j : Z) :
  (forall x s, fisnan x = true -> fisnan (fmul x s) = true) ->
  (forall a b, fisnan a = true -> fisnan (fadd a b) = true) ->
  (forall a b, fisnan b = true -> fisnan (fadd a b) = true) ->
  Voronoi.m_rgbWeights v = [] ->
  cellsMapped v ->
  0 <= i < Voronoi.m_envMapHeight v -> 0 <= j < Voronoi.m_envMapWidth v ->
  Voronoi.findNearestLightSource v j i <> -1 ->
  let q := mat_at environmentMap i (Voronoi.jModulus (Voronoi.m_envMapWidth v) j jOffset) in
  Voronoi.allNaN (val2 q) (val1 q) (val0 q) = false ->
  exists v' w,
    Voronoi.computeVoronoiWeightsOR environmentMap jOffset v = Ok v'
    /\ Voronoi.m_rgbWeights v'
         !! Z.to_nat (Voronoi.findImageNumber v (Voronoi.findNearestLightSource v j i))
       = Some w
    /\ (fisnan (val2 q) = true -> fisnan (red w) = true)
    /\ (fisnan (val1 q) = true -> fisnan (green w) = true)
    /\ (fisnan (val0 q) = true -> fisnan (blue w) = true).
Proof.
  intros Hmul Hadd_l Hadd_r Hclear Hmapped Hi Hj Hcell q Hguard.
  destruct (computeVoronoiWeightsOR_mapped v environmentMap jOffset Hmapped) as [v' Hv'].
  set (cell := Voronoi.findNearestLightSource v j i) in *.
  pose proof (findImageNumber_mapped v cell (Hmapped i j Hi Hj Hcell)) as Himg.
  set (image := Voronoi.findImageNumber v cell) in *.
  exists v', (conditionWeight v environmentMap jOffset image).
  split; [exact Hv'|]. split.
  { rewrite (computeVoronoiWeightsOR_conditionWeight v environmentMap jOffset v'
               (Z.to_nat image) Hclear Hv') by lia.
    now rewrite Z2Nat.id by lia. }
  unfold conditionWeight.
  destruct (in_split (i, j) (pixelsRowMajor (Voronoi.m_envMapWidth v)
                               (Voronoi.m_envMapHeight v)))
    as (l1 & l2 & ->); [now apply pixelsRowMajor_In|].
  rewrite map_app, fold_left_app. cbn [map fold_left].
  set (w1 := fold_left (addTermTo image) (map _ l1) _).
  assert (Eterm : addTermTo image w1 (pixelTerm v environmentMap jOffset (i, j))
                  = Voronoi.accumulate (val2 q) (val1 q) (val0 q)
                      (solidAngle i (Voronoi.m_envMapHeight v)) w1).
  { unfold pixelTerm. cbn [fst snd]. fold cell. fold q.
    destruct (Z.eqb_spec cell (-1)); [contradiction|].
    rewrite Hguard. cbn [addTermTo]. fold image. now rewrite Z.eqb_refl. }
  rewrite Eterm.
  destruct (accumulate_NaN Hmul Hadd_r (val2 q) (val1 q) (val0 q)
              (solidAngle i (Voronoi.m_envMapHeight v)) w1) as (Hr & Hg & Hb).
  destruct (addTerms_keep_NaN Hadd_l image
              (map (pixelTerm v environmentMap jOffset) l2)
              (Voronoi.accumulate (val2 q) (val1 q) (val0 q)
                 (solidAngle i (Voronoi.m_envMapHeight v)) w1)) as (Kr & Kg & Kb).
  auto.
Qed.

Lemma X18_partial_NaN_pixel_poisons_the_weight_witness :
  exists v' w,
    Voronoi.computeVoronoiWeightsOR (fo := exactNaN) (cv := cvRef) nanRedMap 0
      columnVoronoi = Ok v'
    /\ Voronoi.m_rgbWeights v'
         !! Z.to_nat (Voronoi.findImageNumber columnVoronoi
                        (Voronoi.findNearestLightSource (cv := cvRef) columnVoronoi 0 1))
       = Some w
    /\ (fisnan (FloatOps := exactNaN) (val2 (mat_at nanRedMap 1 0)) = true
        -> fisnan (FloatOps := exactNaN) (red w) = true)
    /\ (fisnan (FloatOps := exactNaN) (val1 (mat_at nanRedMap 1 0)) = true
        -> fisnan (FloatOps := exactNaN) (green w) = true)
    /\ (fisnan (FloatOps := exactNaN) (val0 (mat_at nanRedMap 1 0)) = true
        -> fisnan (FloatOps := exactNaN) (blue w) = true).
Proof.
  apply (X18_partial_NaN_pixel_poisons_the_weight (fo := exactNaN) (cv := cvRef)
           columnVoronoi nanRedMap 0 1 0).
  - intros [x|] s; [discriminate|reflexivity].
  - intros [a|] b; [discriminate|reflexivity].
  - intros [a|] [b|]; try discriminate; reflexivity.
  - reflexivity.
  - exact columnVoronoi_cellsMapped.
  - simpl; lia.
  - simpl; lia.
  - vm_compute. discriminate.
  - vm_compute. reflexivity.
Defined.

(** On the example the red weight of condition 0 is not a number. *)
Example partial_NaN_example :
  (v ← Voronoi.computeVoronoiWeightsOR (fo := exactNaN) (cv := cvRef) nanRedMap 0
         columnVoronoi;
   Ok (map red (Voronoi.m_rgbWeights v))) = Ok [None; Some 1; Some 1].
Proof. vm_compute. reflexivity. Qed.

(** ** Normalisation of the weights, on the real numbers *)

Section NormalizeWeights.
Import RealVectors.
#[local] Open Scope R_scope.

Lemma channelSum_from (channel : RGB R -> R) (l : list (RGB R)) (a : R) :
  fold_left (fun sum w => sum + channel w) l a = a + channelSum channel l.
Proof.
  unfold channelSum. revert a. induction l as [|w l IH]; intros a; cbn [fold_left].
  - lra.
  - rewrite (IH (a + channel w)), (IH (0 + channel w)). lra.
Qed.

Lemma channelSum_cons (channel : RGB R -> R) (w : RGB R) (l : list (RGB R)) :
  channelSum channel (w :: l) = channel w + channelSum channel l.
Proof. unfold channelSum at 1. cbn [fold_left]. rewrite channelSum_from. lra. Qed.

Lemma channelSum_scaled (s : R) (l : list (RGB R)) :
  s <> 0 ->
  let scaled := map (fun w => mkRGB (red w / s) (green w / s) (blue w / s)) l in
  channelSum red scaled = channelSum red l / s
  /\ channelSum green scaled = channelSum green l / s
  /\ channelSum blue scaled = channelSum blue l / s.
Proof.
  intros Hs. cbn zeta. induction l as [|w l (IHr & IHg & IHb)].
  - unfold channelSum. cbn. repeat split; field; exact Hs.
  - cbn [map]. rewrite !channelSum_cons, IHr, IHg, IHb. cbn [red green blue].
    repeat split; field; exact Hs.
Qed.

Lemma Rmax_scaled (a b s : R) : 0 < s -> Rmax (a / s) (b / s) = Rmax a b / s.
Proof.
  intros Hs. assert (His : 0 < / s) by now apply Rinv_0_lt_compat.
  unfold Rdiv, Rmax.
  destruct (Rle_dec (a * / s) (b * / s)) as [H|H]; destruct (Rle_dec a b) as [H'|H'];
    try reflexivity; exfalso.
  - apply H'. apply (Rmult_le_reg_r (/ s)); assumption.
  - apply H. apply Rmult_le_compat_r; lra.
Qed.

Lemma greatestSum_scaled (s : R) (l : list (RGB R)) :
  0 < s ->
  greatestSum (map (fun w => mkRGB (red w / s) (green w / s) (blue w / s)) l)
  = greatestSum l / s.
Proof.
  intros Hs. unfold greatestSum.
  destruct (channelSum_scaled s l ltac:(lra)) as (-> & -> & ->).
  now rewrite !Rmax_scaled.
Qed.

Lemma normalizeWeightsRGB_nonzero (l : list (RGB R)) :
  greatestSum l <> 0 ->
  normalizeWeightsRGB l
  = map (fun w => mkRGB (red w / greatestSum l) (green w / greatestSum l)
                        (blue w / greatestSum l)) l.
Proof.
  intros E. unfold normalizeWeightsRGB.
  destruct (Req_dec_T (greatestSum l) 0); [contradiction|reflexivity].
Qed.

End NormalizeWeights.



(** ** [maxVector] *)

Lemma combine_lookup {A B} (a : list A) (b : list B) (n : nat) (x : A) (y : B) :
  combine a b !! n = Some (x, y) <-> a !! n = Some x /\ b !! n = Some y.
Proof.
  revert b n. induction a as [|a0 a IH]; intros [|b0 b] [|n]; cbn; try (split; [discriminate|]);
    try (intros [H1 H2]; discriminate).
  - split; [intros [= -> ->]; auto|intros [[= ->] [= ->]]; reflexivity].
  - apply IH.
Qed.

Lemma In_lookup {A} (x : A) (l : list A) : In x l <-> exists k, l !! k = Some x.
Proof.
  induction l as [|a l IH]; cbn.
  - split; [intros []|intros [k Hk]; discriminate].
  - split.
    + intros [<- | H]; [exists 0%nat; reflexivity|].
      apply IH in H as [k Hk]. exists (S k). exact Hk.
    + intros [[|k] Hk]; cbn in Hk; [left; congruence|right; apply IH; eauto].
Qed.

Section MaxVector.
#[local] Open Scope R_scope.

Let step (st : R * Z) (ix : Z * R) : R * Z :=
  if Rgt_dec (snd ix) (fst st) then (snd ix, fst ix) else st.

Lemma maxVector_loop (l : list (Z * R)) :
  forall m0 p0,
    let r := fold_left step l (m0, p0) in
    m0 <= fst r
    /\ (forall ix, In ix l -> snd ix <= fst r)
    /\ ((r = (m0, p0) /\ forall ix, In ix l -> snd ix <= m0)
        \/ (m0 < fst r
            /\ exists l1 l2, l = l1 ++ (snd r, fst r) :: l2
                             /\ forall ix, In ix l1 -> snd ix < fst r)).
Proof.
  induction l as [|[i x] l IH]; intros m0 p0; cbn zeta; cbn [fold_left].
  - split; [cbn; lra|]. split; [intros ix []|]. left. split; [reflexivity|intros ix []].
  - assert (Est : step (m0, p0) (i, x) = if Rgt_dec x m0 then (x, i) else (m0, p0))
      by reflexivity.
    rewrite Est. clear Est.
    destruct (Rgt_dec x m0) as [Hgt|Hle].
    + destruct (IH x i) as (Hm & Hall & Hcase). cbn zeta in *.
      set (r := fold_left step l (x, i)) in *.
      split; [lra|]. split.
      * intros ix [<- | Hin]; [exact Hm|auto].
      * right. split; [lra|]. destruct Hcase as [[E Hl] | (Hlt & l1 & l2 & E & Hl1)].
        -- exists [], l. rewrite E. cbn. split; [reflexivity|intros ix []].
        -- exists ((i, x) :: l1), l2. split; [now rewrite E at 1|].
           intros ix [<- | Hin]; [exact Hlt|auto].
    + destruct (IH m0 p0) as (Hm & Hall & Hcase). cbn zeta in *.
      set (r := fold_left step l (m0, p0)) in *.
      split; [exact Hm|]. split.
      * intros ix [<- | Hin]; [cbn; lra|auto].
      * destruct Hcase as [[E Hl] | (Hlt & l1 & l2 & E & Hl1)].
        -- left. split; [exact E|]. intros ix [<- | Hin]; [cbn; lra|auto].
        -- right. split; [exact Hlt|]. exists ((i, x) :: l1), l2.
           split; [now rewrite E at 1|].
           intros ix [<- | Hin]; [cbn; lra|auto].
Qed.

End MaxVector.

(** X20. [maxVector] starts its search from 0.0. The value it returns is
    never negative and bounds every element; when no element is positive
    (an empty vector, or one of negative numbers), it returns 0.0 and
    leaves [position] as the caller had it; when some element is positive,
    it returns the greatest element and the first position that holds it. *)
Theorem X20_maxVector_starts_from_zero (vec : list R) (position : Z) :
  let maxValue := fst (RealVectors.maxVector vec position) in
  let position' := snd (RealVectors.maxVector vec position) in
  (0 <= maxValue)%R
  /\ (forall x, In x vec -> (x <= maxValue)%R)
  /\ ((forall x, In x vec -> (x <= 0)%R) -> maxValue = 0%R /\ position' = position)
  /\ ((exists x, In x vec /\ (0 < x)%R) ->
      exists n : nat,
        position' = Z.of_nat n /\ vec !! n = Some maxValue
        /\ forall (m : nat) y, (m < n)%nat -> vec !! m = Some y -> (y < maxValue)%R).
Proof.
  cbn zeta. unfold RealVectors.maxVector.
  set (l := combine (range (Z.of_nat (length vec))) vec).
  destruct (maxVector_loop l 0%R position) as (H0 & Hall & Hcase). cbn zeta in *.
  set (r := fold_left _ l (0%R, position)) in *.
  assert (Hin : forall x, In x vec -> exists i, In (i, x) l).
  { intros x Hx. apply In_lookup in Hx as [k Hk].
    exists (Z.of_nat k). apply In_lookup. exists k.
    apply combine_lookup. split; [|exact Hk].
    unfold range. rewrite Nat2Z.id, list_lookup_fmap, lookup_seq_lt; [reflexivity|].
    now apply lookup_lt_Some in Hk. }
  split; [exact H0|]. split.
  { intros x Hx. destruct (Hin x Hx) as [i Hi]. exact (Hall _ Hi). }
  split.
  - intros Hneg. destruct Hcase as [[E _] | (Hlt & l1 & l2 & E & _)].
    + rewrite E. split; reflexivity.
    + exfalso. assert (Hr : In (snd r, fst r) l) by (rewrite E; apply in_elt).
      apply In_lookup in Hr as [k Hk].
      apply combine_lookup in Hk as [_ Hk].
      assert (Hv : In (fst r) vec) by (apply In_lookup; eauto).
      specialize (Hneg _ Hv). lra.
  - intros (x & Hx & Hpos). destruct Hcase as [[_ Hl] | (Hlt & l1 & l2 & E & Hl1)].
    + exfalso. destruct (Hin x Hx) as [i Hi]. specialize (Hl _ Hi). cbn in Hl. lra.
    + exists (length l1).
      assert (Hk : l !! length l1 = Some (snd r, fst r)).
      { rewrite E. rewrite lookup_app_r by lia. now rewrite Nat.sub_diag. }
      apply combine_lookup in Hk as [Hidx Hv].
      apply range_lookup in Hidx as [Hidx _].
      split; [exact Hidx|]. split; [exact Hv|].
      intros m y Hm Hy.
      assert (Hl : l !! m = Some (Z.of_nat m, y)).
      { apply combine_lookup. split; [|exact Hy].
        unfold range. rewrite Nat2Z.id, list_lookup_fmap, lookup_seq_lt; [reflexivity|].
        now apply lookup_lt_Some in Hy. }
      rewrite E, lookup_app_l in Hl by exact Hm.
      assert (Hl' : In (Z.of_nat m, y) l1) by (apply In_lookup; eauto).
      exact (Hl1 _ Hl').
Qed.

(** ** The inverse CDF sampling *)

Lemma last_match {A} (P : A -> bool) (l : list A) :
  forall r0,
    let r := fold_left (fun r p => if P p then p else r) l r0 in
    (r = r0 /\ forall p, In p l -> P p = false)
    \/ (P r = true
        /\ exists l1 l2, l = l1 ++ r :: l2 /\ forall p, In p l2 -> P p = false).
Proof.
  induction l as [|a l IH]; intros r0; cbn zeta; cbn [fold_left].
  - left. split; [reflexivity|intros p []].
  - destruct (IH (if P a then a else r0)) as [[E Hl] | (HP & l1 & l2 & E & Hl2)];
      cbn zeta in *.
    + destruct (P a) eqn:Ha.
      * right. rewrite E. split; [exact Ha|]. exists [], l. split; [reflexivity|exact Hl].
      * left. split; [exact E|]. intros p [<- | Hp]; auto.
    + right. split; [exact HP|]. exists (a :: l1), l2. split; [|exact Hl2].
      cbn [app]. f_equal. exact E.
Qed.

Section InverseCDF.
Import RealSampling.

Lemma inverse2DFunction_scan (value : R) (f : Z -> R) (width height : Z) (result : Z * Z) :
  inverse2DFunction value f width height result
  = fold_left (fun r p => if near (f (index width (fst p) (snd p))) value then p else r)
              (pixelsRowMajor width height) result.
Proof.
  unfold inverse2DFunction. rewrite fold_left_nested. unfold pixelsRowMajor.
  apply fold_left_ext_In. intros r [i j] _. reflexivity.
Qed.

Lemma inverse2DFunction_last_match (value : R) (f : Z -> R) (width height : Z)
    (result : Z * Z) :
  let r := inverse2DFunction value f width height result in
  (r = result
   /\ forall i j, 0 <= i < height -> 0 <= j < width ->
        near (f (index width i j)) value = false)
  \/ (near (f (index width (fst r) (snd r))) value = true
      /\ (0 <= fst r < height /\ 0 <= snd r < width)
      /\ exists l1 l2, pixelsRowMajor width height = l1 ++ r :: l2
           /\ forall p, In p l2 -> near (f (index width (fst p) (snd p))) value = false).
Proof.
  cbn zeta. rewrite inverse2DFunction_scan.
  destruct (last_match (fun p => near (f (index width (fst p) (snd p))) value)
              (pixelsRowMajor width height) result)
    as [[E Hl] | (HP & l1 & l2 & E & Hl2)]; cbn zeta in *.
  - left. split; [exact E|]. intros i j Hi Hj.
    apply (Hl (i, j)). now apply pixelsRowMajor_In.
  - right. split; [exact HP|]. split; [|exists l1, l2; auto].
    set (r := fold_left _ _ _) in *.
    assert (Hin : In r (pixelsRowMajor width height)) by (rewrite E; apply in_elt).
    destruct r as [i j]. now apply pixelsRowMajor_In in Hin.
Qed.

Lemma inverseCDF_loop (cdf : Z -> R) (width height numberOfSamples : Z) (ks : list Z) :
  forall st,
    let st' := fold_left (sampleStep cdf width height numberOfSamples) ks st in
    exists added,
      snd st' = snd st ++ added
      /\ length added = length ks
      /\ forall (n : nat) k,
           ks !! n = Some k ->
           added !! n
           = Some (inverse2DFunction (uniformSample k numberOfSamples) cdf width height
                     (match n with
                      | O => fst st
                      | S n' => default (0, 0) (added !! n')
                      end)).
Proof.
  induction ks as [|k ks IH]; intros st; cbn zeta; cbn [fold_left].
  - exists []. rewrite app_nil_r. repeat split; auto. intros n k Hn. discriminate.
  - destruct (IH (sampleStep cdf width height numberOfSamples st k))
      as (added & Hs & Hl & Hn). cbn zeta in *.
    set (r := inverse2DFunction (uniformSample k numberOfSamples) cdf width height (fst st)).
    change (sampleStep cdf width height numberOfSamples st k)
      with (r, snd st ++ [r]) in *. cbn [fst snd] in *.
    exists (r :: added). split; [rewrite Hs, <- app_assoc; reflexivity|].
    split; [cbn; now rewrite Hl|].
    intros [|n] k' Hk'; cbn in Hk'.
    + injection Hk' as <-. reflexivity.
    + change ((r :: added) !! S n) with (added !! n).
      rewrite (Hn n k' Hk'). destruct n; reflexivity.
Qed.

End InverseCDF.

(** X21. The samples of [inverseCDFAlgorithm]: there is one per sample
    number; sample k is the last pixel in scan order whose cdf entry lies
    within 0.01 of k/numberOfSamples, and when no entry does, it is the
    location of the previous sample again ((0,0) for the first), since
    [resultI] and [resultJ] are not reset between the samples. For an image
    of positive size every sample is a pixel of the image. *)
Theorem X21_inverse_CDF_samples (cdf : Z -> R) (width height numberOfSamples : Z) :
  0 < width -> 0 < height ->
  let samples := RealSampling.inverseCDFSamples cdf width height numberOfSamples in
  length samples = Z.to_nat numberOfSamples
  /\ forall (k : nat) (r : Z * Z),
       samples !! k = Some r ->
       let previous :=
         match k with O => (0, 0) | S k' => default (0, 0) (samples !! k') end in
       let value := RealSampling.uniformSample (Z.of_nat k) numberOfSamples in
       (0 <= fst r < height /\ 0 <= snd r < width)
       /\ ((r = previous
            /\ forall i j, 0 <= i < height -> 0 <= j < width ->
                 RealSampling.near (cdf (RealSampling.index width i j)) value = false)
           \/ (RealSampling.near (cdf (RealSampling.index width (fst r) (snd r))) value
               = true
               /\ exists l1 l2,
                    pixelsRowMajor width height = l1 ++ r :: l2
                    /\ forall p, In p l2 ->
                         RealSampling.near
                           (cdf (RealSampling.index width (fst p) (snd p))) value
                         = false)).
Proof.
  intros Hw Hh. cbn zeta. unfold RealSampling.inverseCDFSamples.
  destruct (inverseCDF_loop cdf width height numberOfSamples (range numberOfSamples)
              ((0, 0), [])) as (added & Hs & Hl & Hn). cbn zeta in *.
  rewrite Hs. cbn [snd app fst] in *.
  split; [now rewrite Hl, range_length|].
  assert (Hstep : forall (k : nat) r,
            added !! k = Some r ->
            r = RealSampling.inverse2DFunction
                  (RealSampling.uniformSample (Z.of_nat k) numberOfSamples) cdf width height
                  (match k with O => (0, 0) | S k' => default (0, 0) (added !! k') end)).
  { intros k r Hr.
    assert (Hk : (k < length (range numberOfSamples))%nat)
      by (rewrite <- Hl; now apply lookup_lt_Some in Hr).
    destruct (lookup_lt_is_Some_2 _ _ Hk) as [a Ha].
    pose proof (range_lookup _ _ _ Ha) as [-> _].
    rewrite (Hn k _ Ha) in Hr. now injection Hr as <-. }
  assert (Hinside : forall (k : nat) r,
            added !! k = Some r -> 0 <= fst r < height /\ 0 <= snd r < width).
  { induction k as [|k IH]; intros r Hr; pose proof (Hstep _ r Hr) as E;
      match type of E with _ = RealSampling.inverse2DFunction ?v _ _ _ ?p =>
        destruct (inverse2DFunction_last_match v cdf width height p)
          as [[E' _] | (_ & Hin & _)]; cbn zeta in *; rewrite <- E in *
      end; try exact Hin.
    - rewrite E'. cbn. lia.
    - rewrite E'. destruct (added !! k) as [q|] eqn:Hq; cbn [default].
      + apply (IH q eq_refl).
      + cbn. lia. }
  intros k r Hr. split; [exact (Hinside k r Hr)|].
  pose proof (Hstep _ r Hr) as E.
  match type of E with _ = RealSampling.inverse2DFunction ?v _ _ _ ?p =>
    destruct (inverse2DFunction_last_match v cdf width height p)
      as [[E' Hnone] | (Hnear & _ & l1 & l2 & Hsplit & Hl2)]; cbn zeta in *;
      rewrite <- E in *
  end.
  - left. split; [exact E'|exact Hnone].
  - right. split; [exact Hnear|]. exists l1, l2. auto.
Qed.

Lemma X21_inverse_CDF_samples_witness :
  let cdf := fun k : Z => (IZR (k + 1) / 2)%R in
  let samples := RealSampling.inverseCDFSamples cdf 2 1 3 in
  length samples = Z.to_nat 3
  /\ forall (k : nat) (r : Z * Z),
       samples !! k = Some r ->
       let previous :=
         match k with O => (0, 0) | S k' => default (0, 0) (samples !! k') end in
       let value := RealSampling.uniformSample (Z.of_nat k) 3 in
       (0 <= fst r < 1 /\ 0 <= snd r < 2)
       /\ ((r = previous
            /\ forall i j, 0 <= i < 1 -> 0 <= j < 2 ->
                 RealSampling.near (cdf (RealSampling.index 2 i j)) value = false)
           \/ (RealSampling.near (cdf (RealSampling.index 2 (fst r) (snd r))) value = true
               /\ exists l1 l2,
                    pixelsRowMajor 2 1 = l1 ++ r :: l2
                    /\ forall p, In p l2 ->
                         RealSampling.near
                           (cdf (RealSampling.index 2 (fst p) (snd p))) value
                         = false)).
Proof.
  apply (X21_inverse_CDF_samples (fun k : Z => (IZR (k + 1) / 2)%R) 2 1 3); lia.
Defined.

(** ** The distribution functions *)

Lemma fold_left_invariant_nth {A St} (f : St -> A -> St) (I : nat -> St -> Prop)
    (l : list A) :
  forall s,
    I 0%nat s ->
    (forall n s a, l !! n = Some a -> I n s -> I (S n) (f s a)) ->
    I (length l) (fold_left f l s).
Proof.
  revert I. induction l as [|a l IH]; intros I s H0 Hstep; cbn [fold_left length].
  - exact H0.
  - apply (IH (fun n => I (S n))).
    + apply (Hstep 0%nat s a); [reflexivity|exact H0].
    + intros n s' b Hb. apply (Hstep (S n)). exact Hb.
Qed.

Lemma range_snoc (n : nat) : range (Z.of_nat (S n)) = range (Z.of_nat n) ++ [Z.of_nat n].
Proof.
  unfold range. rewrite !Nat2Z.id, seq_S, map_app. reflexivity.
Qed.

Lemma pixelsRowMajor_snoc (width : Z) (h : nat) :
  pixelsRowMajor width (Z.of_nat (S h))
  = pixelsRowMajor width (Z.of_nat h) ++ map (fun j => (Z.of_nat h, j)) (range width).
Proof.
  unfold pixelsRowMajor. rewrite range_snoc, flat_map_app. cbn [flat_map].
  now rewrite app_nil_r.
Qed.

Lemma pixelsRowMajor_length (width : Z) (h : nat) :
  length (pixelsRowMajor width (Z.of_nat h)) = (h * Z.to_nat width)%nat.
Proof.
  induction h as [|h IH]; [reflexivity|].
  rewrite pixelsRowMajor_snoc, length_app, IH, length_map, range_length. lia.
Qed.

Lemma pixelsRowMajor_lookup (width : Z) (h n : nat) (p : Z * Z) :
  0 < width ->
  pixelsRowMajor width (Z.of_nat h) !! n = Some p ->
  fst p * width + snd p = Z.of_nat n.
Proof.
  intros Hw. induction h as [|h IH]; [discriminate|].
  rewrite pixelsRowMajor_snoc. intros Hp.
  destruct (Nat.lt_ge_cases n (length (pixelsRowMajor width (Z.of_nat h)))) as [Hn|Hn].
  - rewrite lookup_app_l in Hp by exact Hn. auto.
  - rewrite lookup_app_r in Hp by exact Hn.
    rewrite list_lookup_fmap in Hp.
    destruct (range width !! _) as [j|] eqn:Hj; [|discriminate].
    injection Hp as <-. cbn [fst snd].
    apply range_lookup in Hj as [-> Hlt].
    rewrite pixelsRowMajor_length in *. nia.
Qed.

Section Distribution.
Import RealDistribution.
#[local] Open Scope R_scope.

Lemma sumLeft_from (l : list R) (a : R) : fold_left Rplus l a = a + sumLeft l.
Proof.
  unfold sumLeft. revert a. induction l as [|x l IH]; intros a; cbn [fold_left].
  - lra.
  - rewrite (IH (a + x)), (IH (0 + x)). lra.
Qed.

Lemma sumLeft_snoc (l : list R) (x : R) : sumLeft (l ++ [x]) = sumLeft l + x.
Proof. unfold sumLeft. rewrite fold_left_app. reflexivity. Qed.

Lemma sumLeft_scaled (c : R) (l : list R) :
  sumLeft (map (fun x => x / c) l) = sumLeft l / c.
Proof.
  induction l as [|x l IH] using rev_ind.
  - unfold sumLeft. cbn. unfold Rdiv. now rewrite Rmult_0_l.
  - rewrite map_app. cbn [map]. rewrite !sumLeft_snoc, IH. unfold Rdiv. lra.
Qed.

End Distribution.

Section DistributionOfAnImage.
Import RealDistribution.
#[local] Open Scope R_scope.
Variable image : Mat float.
Variables width height : Z.
Variables pdf cdf : Z -> float.
Hypothesis Hw : (0 < width)%Z.
Hypothesis Hh : (0 < height)%Z.
Hypothesis Hsize : (width * height <= UINT_MOD)%Z.
Hypothesis Hnum :
  forall i j, (0 <= i < height)%Z -> (0 <= j < width)%Z -> numeric (mat_at image i j).

Let pixels := pixelsRowMajor width height.
Let total := sumLeft (map (density image height) pixels).

Lemma pixels_length : Z.of_nat (length pixels) = (width * height)%Z.
Proof.
  unfold pixels. rewrite <- (Z2Nat.id height) at 1 by lia.
  rewrite pixelsRowMajor_length. nia.
Qed.

Lemma pixels_nth (n : nat) (p : Z * Z) :
  pixels !! n = Some p ->
  (0 <= fst p < height)%Z /\ (0 <= snd p < width)%Z
  /\ RealSampling.index width (fst p) (snd p) = Z.of_nat n
  /\ ((fst p =? 0)%Z && (snd p =? 0)%Z = true <-> n = 0%nat).
Proof.
  intros Hp.
  assert (Hin : In p pixels) by (apply In_lookup; eauto).
  destruct p as [i j]. apply pixelsRowMajor_In in Hin as [Hi Hj]. cbn [fst snd].
  assert (E : (i * width + j)%Z = Z.of_nat n).
  { unfold pixels in Hp. rewrite <- (Z2Nat.id height) in Hp by lia.
    exact (pixelsRowMajor_lookup width _ n (i, j) Hw Hp). }
  split; [exact Hi|]. split; [exact Hj|]. split.
  - unfold RealSampling.index, to_unsigned. rewrite E. apply Z.mod_small.
    split; [lia|]. rewrite <- E. nia.
  - rewrite andb_true_iff, !Z.eqb_eq. split; [intros [-> ->]; lia|].
    intros ->. cbn in E. nia.
Qed.

Lemma pixels_at (k : Z) :
  (0 <= k < width * height)%Z -> exists p, pixels !! Z.to_nat k = Some p.
Proof.
  intros Hk. apply lookup_lt_is_Some_2. pose proof pixels_length. lia.
Qed.

Lemma density_numeric (p : Z * Z) (st : (Z -> float) * float) :
  (0 <= fst p < height)%Z -> (0 <= snd p < width)%Z ->
  densityStep image width height (fst p) st (snd p)
  = (update (fst st) (RealSampling.index width (fst p) (snd p))
       (Some (density image height p)),
     lift2 Rplus (snd st) (Some (density image height p))).
Proof.
  intros Hi Hj. unfold densityStep, density.
  destruct (Hnum (fst p) (snd p) Hi Hj) as (r & g & b & ->).
  cbn [val0 val1 val2 isnan andb negb intensityOf lift2 sinRow].
  unfold update at 2. now rewrite Z.eqb_refl.
Qed.

(** The first pair of loops. *)
Lemma density_loop :
  let st :=
    fold_left
      (fun st i => fold_left (densityStep image width height i) (range width) st)
      (range height) (pdf, Some 0) in
  snd st = Some total
  /\ (forall n p, pixels !! n = Some p ->
        fst st (Z.of_nat n) = Some (density image height p))
  /\ (forall t, (t < 0 \/ width * height <= t)%Z -> fst st t = pdf t).
Proof.
  cbn zeta. rewrite fold_left_nested. fold (pixelsRowMajor width height). fold pixels.
  pose proof (fold_left_invariant_nth
    (fun st p => densityStep image width height (fst p) st (snd p))
    (fun n st =>
       snd st = Some (sumLeft (map (density image height) (take n pixels)))
       /\ (forall m p, (m < n)%nat -> pixels !! m = Some p ->
             fst st (Z.of_nat m) = Some (density image height p))
       /\ (forall t, (t < 0 \/ Z.of_nat n <= t)%Z -> fst st t = pdf t))
    pixels (pdf, Some 0)) as H.
  destruct H as (Hc & Hp & Ht).
  - cbn [snd fst take]. split; [reflexivity|]. split; [intros; lia|reflexivity].
  - intros n st p Hn (Hc & Hp & Ht).
    destruct (pixels_nth n p Hn) as (Hi & Hj & Hk & _).
    rewrite (density_numeric p st Hi Hj), Hk. cbn [fst snd]. split; [|split].
    + rewrite Hc. cbn [lift2]. rewrite (take_S_r _ _ _ Hn), map_app. cbn [map].
      now rewrite sumLeft_snoc.
    + intros m q Hm Hq. unfold update.
      destruct (Z.eqb_spec (Z.of_nat m) (Z.of_nat n)) as [E|E].
      * apply Nat2Z.inj in E. subst m. congruence.
      * apply Hp; [lia|exact Hq].
    + intros t Hout. unfold update.
      destruct (Z.eqb_spec t (Z.of_nat n)); [lia|]. apply Ht. lia.
  - split; [|split].
    + rewrite Hc, take_ge by lia. reflexivity.
    + intros n p Hn. apply (Hp n p); [|exact Hn]. now apply lookup_lt_Some in Hn.
    + intros t Hout. apply Ht. rewrite pixels_length. exact Hout.
Qed.

(** The second pair of loops, on a [pdf] that holds the densities. *)
Lemma cumulative_loop (pdf1 : Z -> float) :
  (forall n p, pixels !! n = Some p -> pdf1 (Z.of_nat n) = Some (density image height p)) ->
  let st :=
    fold_left
      (fun st' i => fold_left (cumulativeStep (Some total) width i) (range width) st')
      (range height) (pdf1, cdf) in
  (forall n p, pixels !! n = Some p ->
     fst st (Z.of_nat n) = Some (density image height p / total)
     /\ snd st (Z.of_nat n)
        = Some (sumLeft (map (fun p => density image height p / total)
                             (take (S n) pixels))))
  /\ (forall t, (t < 0 \/ width * height <= t)%Z ->
        fst st t = pdf1 t /\ snd st t = cdf t).
Proof.
  intros Hpdf1. cbn zeta. rewrite fold_left_nested.
  fold (pixelsRowMajor width height). fold pixels.
  pose proof (fold_left_invariant_nth
    (fun st p => cumulativeStep (Some total) width (fst p) st (snd p))
    (fun n st =>
       (forall m p, (m < n)%nat -> pixels !! m = Some p ->
          fst st (Z.of_nat m) = Some (density image height p / total)
          /\ snd st (Z.of_nat m)
             = Some (sumLeft (map (fun p => density image height p / total)
                                  (take (S m) pixels))))
       /\ (forall m p, (n <= m)%nat -> pixels !! m = Some p ->
             fst st (Z.of_nat m) = Some (density image height p))
       /\ (forall t, (t < 0 \/ width * height <= t)%Z ->
             fst st t = pdf1 t /\ snd st t = cdf t))
    pixels (pdf1, cdf)) as H.
  destruct H as (Hdone & _ & Hout).
  - cbn [fst snd]. split; [intros; lia|]. split; [intros m p _; apply Hpdf1|auto].
  - intros n st p Hn (Hdone & Hrest & Hout).
    destruct (pixels_nth n p Hn) as (Hi & Hj & Hk & Hfirst).
    assert (Hlt : (Z.of_nat n < width * height)%Z).
    { rewrite <- pixels_length. apply lookup_lt_Some in Hn. lia. }
    unfold cumulativeStep. rewrite Hk, (Hrest n p (le_n n) Hn). cbn [lift2].
    assert (Hsum : sumLeft (map (fun p => density image height p / total)
                               (take (S n) pixels))
                   = sumLeft (map (fun p => density image height p / total)
                                  (take n pixels))
                     + density image height p / total).
    { rewrite (take_S_r _ _ _ Hn), map_app. cbn [map]. now rewrite sumLeft_snoc. }
    destruct ((fst p =? 0)%Z && (snd p =? 0)%Z) eqn:Hz; cbn [fst snd].
    + assert (n = 0%nat) by (now apply Hfirst). subst n.
      change (Z.of_nat 0) with 0%Z in *.
      split; [|split].
      * intros m q Hm Hq. assert (m = 0%nat) by lia. subst m.
        assert (q = p) by congruence. subst q.
        unfold update. cbn [Z.eqb]. split; [reflexivity|].
        rewrite Hsum. rewrite take_0. cbn [map]. unfold sumLeft. cbn [fold_left].
        f_equal. lra.
      * intros m q Hm Hq. unfold update.
        destruct (Z.eqb_spec (Z.of_nat m) 0); [lia|]. apply Hrest; [lia|exact Hq].
      * intros t Ht. unfold update. destruct (Z.eqb_spec t 0); [lia|]. now apply Hout.
    + assert (Hn0 : n <> 0%nat).
      { intros E. apply Hfirst in E. discriminate. }
      assert (Eprev : to_unsigned (Z.of_nat n - 1) = Z.of_nat (n - 1)).
      { unfold to_unsigned. rewrite Z.mod_small; lia. }
      destruct (lookup_lt_is_Some_2 pixels (n - 1)) as [q Hq].
      { apply lookup_lt_Some in Hn. lia. }
      assert (Hpred : (n - 1 < n)%nat) by lia.
      destruct (Hdone (n - 1)%nat q Hpred Hq) as [_ Hcdf].
      replace (S (n - 1)) with n in Hcdf by lia.
      rewrite Eprev, Hcdf.
      assert (Eself : forall (a : Z -> float) x,
                update a (Z.of_nat n) x (Z.of_nat n) = x)
        by (intros; unfold update; now rewrite Z.eqb_refl).
      rewrite Eself. cbn [lift2].
      split; [|split].
      * intros m r Hm Hr. unfold update.
        destruct (Z.eqb_spec (Z.of_nat m) (Z.of_nat n)) as [E|E].
        -- apply Nat2Z.inj in E. subst m. assert (r = p) by congruence. subst r.
           split; [reflexivity|]. now rewrite Hsum.
        -- apply Hdone; [lia|exact Hr].
      * intros m r Hm Hr. unfold update.
        destruct (Z.eqb_spec (Z.of_nat m) (Z.of_nat n)); [lia|].
        apply Hrest; [lia|exact Hr].
      * intros t Ht. unfold update.
        destruct (Z.eqb_spec t (Z.of_nat n)); [lia|]. now apply Hout.
  - split; [|exact Hout].
    intros n p Hn. apply (Hdone n p); [|exact Hn]. now apply lookup_lt_Some in Hn.
Qed.

Lemma normalised_total :
  total <> 0 ->
  sumLeft (map (fun p => density image height p / total) pixels) = 1.
Proof.
  intros Hne.
  rewrite <- (map_map (density image height) (fun x => x / total)), sumLeft_scaled.
  fold total. now field.
Qed.

End DistributionOfAnImage.


Lemma greyColumn_total (x : R) :
  RealDistribution.sumLeft
    (map (RealDistribution.density (greyColumn x) 2) (pixelsRowMajor 1 2)) = x.
Proof.
  change (pixelsRowMajor 1 2) with [(0, 0); (1, 0)].
  unfold RealDistribution.sumLeft, RealDistribution.density, greyColumn.
  cbn [map fold_left mat_at fst snd RealDistribution.intensityOf RealDistribution.lift2
       RealDistribution.sinRow val0 val1 val2].
  replace (0 * PI / 2)%R with 0%R by lra.
  replace (1 * PI / 2)%R with (PI / 2)%R by lra.
  rewrite sin_0, sin_PI2. lra.
Qed.

Lemma greyColumn_numeric (x : R) (i j : Z) :
  RealDistribution.numeric (mat_at (greyColumn x) i j).
Proof. exists x, x, x. reflexivity. Qed.


(** X23. When the densities of an image of numbers sum to zero, as they do
    for a black image, [compute2DDistributionFunction] does not write
    [cdf]: the array is returned as the caller allocated it, and [pdf]
    holds the densities without normalisation. *)
Theorem X23_zero_total_leaves_cdf_unwritten
    (image : Mat RealDistribution.float) (width height : Z)
    (pdf cdf : Z -> RealDistribution.float) :
  0 < width -> 0 < height -> width * height <= UINT_MOD ->
  (forall i j, 0 <= i < height -> 0 <= j < width ->
     RealDistribution.numeric (mat_at image i j)) ->
  RealDistribution.sumLeft
    (map (RealDistribution.density image height) (pixelsRowMajor width height)) = 0%R ->
  let result :=
    RealDistribution.compute2DDistributionFunction image width height pdf cdf in
  snd result = cdf
  /\ (forall i j, 0 <= i < height -> 0 <= j < width ->
        fst result (i * width + j) = Some (RealDistribution.density image height (i, j)))
  /\ (forall t, t < 0 \/ width * height <= t -> fst result t = pdf t).
Proof.
  intros Hw Hh Hsize Hnum Hzero result.
  destruct (density_loop image width height pdf Hw Hh Hsize Hnum) as (Hc & Hp & Ht).
  cbn zeta in Hc, Hp, Ht.
  unfold result, RealDistribution.compute2DDistributionFunction.
  set (st := fold_left
               (fun st i =>
                  fold_left (RealDistribution.densityStep image width height i)
                            (range width) st)
               (range height) (pdf, Some 0%R)) in *.
  rewrite Hc, Hzero. unfold RealDistribution.notZero.
  destruct (Req_dec_T 0 0) as [_|E]; [|contradiction].
  cbn [fst snd]. split; [reflexivity|]. split; [|exact Ht].
  intros i j Hi Hj.
  assert (Hin : In (i, j) (pixelsRowMajor width height)) by now apply pixelsRowMajor_In.
  apply In_lookup in Hin as [n Hn].
  destruct (pixels_nth width height Hw Hh Hsize n (i, j) Hn) as (_ & _ & Hk & _).
  cbn [fst snd] in Hk. unfold RealSampling.index, to_unsigned in Hk.
  rewrite Z.mod_small in Hk by nia. rewrite Hk. apply (Hp n (i, j) Hn).
Qed.

Lemma X23_zero_total_leaves_cdf_unwritten_witness :
  let pdf := fun _ : Z => @None R in
  let cdf := fun _ : Z => @None R in
  let result :=
    RealDistribution.compute2DDistributionFunction (greyColumn 0) 1 2 pdf cdf in
  snd result = cdf
  /\ (forall i j, 0 <= i < 2 -> 0 <= j < 1 ->
        fst result (i * 1 + j)
        = Some (RealDistribution.density (greyColumn 0) 2 (i, j)))
  /\ (forall t, t < 0 \/ 1 * 2 <= t -> fst result t = pdf t).
Proof.
  apply (X23_zero_total_leaves_cdf_unwritten (greyColumn 0) 1 2
           (fun _ => None) (fun _ => None)).
  - lia.
  - lia.
  - discriminate.
  - intros i j _ _. apply greyColumn_numeric.
  - apply greyColumn_total.
Defined.

(** ** Directions of the lights on the map *)

Section LatLong.
#[local] Open Scope R_scope.

Lemma Int_part_within (v : R) (n : Z) :
  0 <= v <= IZR n ->
  (0 <= Int_part v <= n)%Z /\ (Int_part v = n <-> v = IZR n).
Proof.
  intros [Hlo Hhi]. pose proof (Int_part_bounds v) as [Ilo Ihi].
  assert (H0 : (0 <= Int_part v)%Z).
  { apply le_IZR. apply Rnot_lt_le. intros Hneg.
    assert (IZR (Int_part v) <= -1) by (apply IZR_le; apply lt_IZR in Hneg; lia). lra. }
  assert (Hn : (Int_part v <= n)%Z) by (apply le_IZR; lra).
  split; [split; assumption|]. split.
  - intros E. rewrite E in Ilo. lra.
  - intros E. symmetry. apply Int_part_spec. lra.
Qed.

Lemma direction_cosine (x y z : R) :
  0 < x * x + y * y + z * z ->
  let r := sqrt (x * x + y * y + z * z) in
  -1 <= y / r <= 1 /\ (y / r = -1 <-> x = 0 /\ z = 0 /\ y < 0).
Proof.
  intros Hs r.
  assert (Hr : 0 < r) by now apply sqrt_lt_R0.
  assert (Hrr : r * r = x * x + y * y + z * z) by (apply sqrt_sqrt; lra).
  assert (Hy : y / r * r = y) by (field; lra).
  set (t := y / r) in *.
  assert (Hsq : y * y <= r * r) by nra.
  assert (Hup : y <= r).
  { destruct (Rle_dec y r) as [H|H]; [exact H|]. exfalso. nra. }
  assert (Hdown : - r <= y).
  { destruct (Rle_dec (- r) y) as [H|H]; [exact H|]. exfalso. nra. }
  assert (Ht : -1 <= t <= 1).
  { split; apply (Rmult_le_reg_r r); lra. }
  split; [exact Ht|]. split.
  - intros E. rewrite E in Hy. assert (Hneg : y < 0) by lra.
    assert (Hxz : x * x + z * z = 0) by nra.
    assert (Hx : x * x = 0) by nra. assert (Hz : z * z = 0) by nra.
    apply Rmult_integral in Hx. apply Rmult_integral in Hz.
    repeat split; [tauto|tauto|exact Hneg].
  - intros (Ex & Ez & Hneg). subst x z.
    assert (Er : r = - y).
    { destruct (Rle_dec r (- y)) as [H|H]; destruct (Rle_dec (- y) r) as [H'|H']; nra. }
    apply (Rmult_eq_reg_r r); lra.
Qed.

End LatLong.

Section LatLongPoint.
#[local] Open Scope R_scope.
Variable atan2 : R -> R -> R.

Lemma latLongPoint_range (width height : Z) (x y z : R) :
  (0 < width)%Z -> (0 < height)%Z ->
  0 < x * x + y * y + z * z ->
  let p := RealDirections.latLongPoint atan2 width height (x, y, z) in
  (0 <= px p < width)%Z /\ (0 <= py p <= height)%Z
  /\ (py p = height <-> x = 0 /\ z = 0 /\ y < 0).
Proof.
  intros Hw Hh Hs. cbn zeta.
  unfold RealDirections.latLongPoint, RealDirections.cartesianToSpherical.
  cbn [fst snd px py].
  destruct (direction_cosine x y z Hs) as [Ht Hdown]. cbn zeta in Ht, Hdown.
  set (t := y / sqrt (x * x + y * y + z * z)) in *.
  pose proof Rgt_2PI_0 as H2pi. pose proof PI_RGT_0 as Hpi.
  pose proof (moduloRealNumber_range (atan2 x z) (2 * PI) H2pi) as [Hp0 Hp1].
  set (phi := RealAngles.moduloRealNumber (atan2 x z) (2 * PI)) in *.
  pose proof (acos_bound t) as [Ha0 Ha1].
  assert (HW : 0 < IZR width) by (apply IZR_lt; lia).
  assert (HH : 0 < IZR height) by (apply IZR_lt; lia).
  assert (Hpx : 0 <= IZR width * phi / (2 * PI) < IZR width).
  { split.
    - apply Rmult_le_pos; [apply Rmult_le_pos; lra|].
      left. apply Rinv_0_lt_compat. lra.
    - apply (Rmult_lt_reg_r (2 * PI)); [lra|].
      replace (IZR width * phi / (2 * PI) * (2 * PI)) with (IZR width * phi) by (field; lra).
      apply Rmult_lt_compat_l; lra. }
  assert (Hpy : 0 <= IZR height * acos t / PI <= IZR height).
  { split.
    - apply Rmult_le_pos; [apply Rmult_le_pos; lra|].
      left. apply Rinv_0_lt_compat. lra.
    - apply (Rmult_le_reg_r PI); [lra|].
      replace (IZR height * acos t / PI * PI) with (IZR height * acos t) by (field; lra).
      apply Rmult_le_compat_l; lra. }
  destruct (Int_part_within _ width (conj (proj1 Hpx) (Rlt_le _ _ (proj2 Hpx))))
    as [[Hx0 Hx1] Hxeq].
  destruct (Int_part_within _ height Hpy) as [Hy Hyeq].
  split; [|split; [exact Hy|]].
  - split; [exact Hx0|].
    destruct (Z.eq_dec (Int_part (IZR width * phi / (2 * PI))) width) as [E|E]; [|lia].
    apply Hxeq in E. lra.
  - rewrite Hyeq, <- Hdown. split.
    + intros E.
      assert (Eacos : acos t = PI).
      { apply (Rmult_eq_reg_l (IZR height)); [|lra].
        replace (IZR height * acos t) with (IZR height * acos t / PI * PI) by (field; lra).
        rewrite E. reflexivity. }
      destruct (Req_dec t (-1)) as [|Hne]; [assumption|exfalso].
      destruct (Req_dec t 1) as [E1|Hne1].
      * rewrite E1, acos_1 in Eacos. lra.
      * assert (Hin : -1 < t < 1) by lra.
        pose proof (acos_bound_lt t Hin). lra.
    + intros E. rewrite E.
      replace (-1) with (- (1)) by lra. rewrite acos_opp, acos_1. field. lra.
Qed.

End LatLongPoint.

Lemma setVoronoi_step_cases (st : Subdiv2D * list (list Z)) (ip : Z * Point2i) :
  (Voronoi.setVoronoi_step st ip = CvError
   /\ ~ insideMap (sub_width (fst st)) (sub_height (fst st)) (snd ip))
  \/ (exists st', Voronoi.setVoronoi_step st ip = Ok st'
                  /\ sub_width (fst st') = sub_width (fst st)
                  /\ sub_height (fst st') = sub_height (fst st)
                  /\ insideMap (sub_width (fst st)) (sub_height (fst st)) (snd ip)).
Proof.
  unfold Voronoi.setVoronoi_step, Subdiv2D_insert, insideMap.
  destruct ((0 <=? px (snd ip)) && (px (snd ip) <? sub_width (fst st))
            && (0 <=? py (snd ip)) && (py (snd ip) <? sub_height (fst st))) eqn:Hin.
  - right. rewrite !andb_true_iff, !Z.leb_le, !Z.ltb_lt in Hin.
    unfold mbind, outcome_bind, obind. eexists. split; [reflexivity|].
    cbn [fst]. destruct (existsb _ _); cbn [sub_width sub_height]; repeat split; lia.
  - left. split; [reflexivity|].
    rewrite !andb_false_iff, !Z.leb_gt, !Z.ltb_ge in Hin. lia.
Qed.

Lemma setVoronoi_steps_outside (l : list (Z * Point2i)) :
  forall st,
    (exists ip, In ip l
                /\ ~ insideMap (sub_width (fst st)) (sub_height (fst st)) (snd ip)) ->
    ofold Voronoi.setVoronoi_step l st = CvError.
Proof.
  induction l as [|ip l IH]; intros st (ip' & Hin & Hout); [destruct Hin|].
  cbn [ofold].
  destruct (setVoronoi_step_cases st ip) as [[-> _] | (st' & -> & Hw & Hh & Hinside)];
    [reflexivity|].
  unfold mbind, outcome_bind, obind. apply IH.
  destruct Hin as [-> | Hin]; [contradiction|].
  exists ip'. split; [exact Hin|]. now rewrite Hw, Hh.
Qed.



(** ** The linear combination of the reflectance field *)

Lemma range_split (n : Z) (m : nat) :
  Z.of_nat m < n ->
  exists rest, range n = range (Z.of_nat m) ++ Z.of_nat m :: rest.
Proof.
  intros Hm. unfold range. rewrite Nat2Z.id.
  replace (Z.to_nat n) with (m + S (Z.to_nat n - m - 1))%nat by lia.
  rewrite seq_app, map_app. cbn [seq map Nat.add]. eexists. reflexivity.
Qed.

Lemma vec_get_Ok {A} (i : nat) (v : list A) (a : A) :
  v !! i = Some a -> vec_get (Z.of_nat i) v = Ok a.
Proof.
  intros H. unfold vec_get. destruct (Z.leb_spec 0 (Z.of_nat i)); [|lia].
  now rewrite Nat2Z.id, H.
Qed.

Lemma vec_get_fault {A} (i : Z) (v : list A) :
  Z.of_nat (length v) <= i -> vec_get i v = OutOfBounds i.
Proof.
  intros H. unfold vec_get. destruct (Z.leb_spec 0 i); [|lia].
  rewrite lookup_ge_None_2; [reflexivity|lia].
Qed.

Section LinearCombination.
Context {F : Type} {fo : FloatOps F}.
Variable reflectanceField : list (Mat F).
Variable weightsRGB : list (RGB F).

Let step (relitResult : Mat F) (i : Z) : outcome (Mat F) :=
  image ← vec_get i reflectanceField;
  w ← vec_get i weightsRGB;
  Ok (Relighting.addWeighted relitResult w image).

Lemma combination_prefix (m : nat) (rows cols : Z) :
  (m <= length reflectanceField)%nat -> (m <= length weightsRGB)%nat ->
  exists result,
    ofold step (range (Z.of_nat m)) (Relighting.zeros rows cols) = Ok result
    /\ mat_rows result = rows /\ mat_cols result = cols
    /\ forall i j,
         mat_at result i j = Relighting.pixelSum reflectanceField weightsRGB m i j.
Proof.
  intros Hf Hw.
  destruct (ofold_invariant_nth step
    (fun k result =>
       mat_rows result = rows /\ mat_cols result = cols
       /\ forall i j,
            mat_at result i j = Relighting.pixelSum reflectanceField weightsRGB k i j)
    (range (Z.of_nat m)) (Relighting.zeros rows cols)) as (result & Hrun & Hres).
  - repeat split; reflexivity.
  - intros k result a Ha (Hr & Hc & Hpx).
    apply range_lookup in Ha as [-> Hk]. rewrite Nat2Z.id in Hk.
    destruct (lookup_lt_is_Some_2 reflectanceField k) as [image Himage]; [lia|].
    destruct (lookup_lt_is_Some_2 weightsRGB k) as [w Hweights]; [lia|].
    unfold step. rewrite (vec_get_Ok _ _ _ Himage), (vec_get_Ok _ _ _ Hweights).
    eexists. split; [reflexivity|].
    cbn [Relighting.addWeighted mat_rows mat_cols mat_at].
    split; [exact Hr|]. split; [exact Hc|].
    intros i j. unfold Relighting.pixelSum. rewrite seq_S, fold_left_app.
    cbn [fold_left Nat.add]. rewrite Himage, Hweights. f_equal. apply Hpx.
  - rewrite range_length, Nat2Z.id in Hres. exists result. tauto.
Qed.

End LinearCombination.

Lemma computeFinalRelighting_enough_weights {F : Type} {fo : FloatOps F}
    (reflectanceField : list (Mat F)) (weightsRGB : list (RGB F))
    (numberOfLightingConditions : Z) :
  0 < numberOfLightingConditions <= Z.of_nat (length reflectanceField) ->
  numberOfLightingConditions <= Z.of_nat (length weightsRGB) ->
  exists relitResult,
    Relighting.computeFinalRelighting reflectanceField weightsRGB
      numberOfLightingConditions = Ok relitResult
    /\ forall i j,
         mat_at relitResult i j
         = Relighting.pixelSum reflectanceField weightsRGB
             (Z.to_nat numberOfLightingConditions) i j.
Proof.
  intros [Hn Hfield] Hweights.
  destruct (lookup_lt_is_Some_2 reflectanceField 0) as [first Hfirst]; [lia|].
  unfold Relighting.computeFinalRelighting.
  change (vec_get 0 reflectanceField) with (vec_get (Z.of_nat 0) reflectanceField).
  rewrite (vec_get_Ok 0 _ _ Hfirst). unfold mbind, outcome_bind, obind.
  destruct (combination_prefix reflectanceField weightsRGB
              (Z.to_nat numberOfLightingConditions) (mat_rows first) (mat_cols first))
    as (result & Hrun & _ & _ & Hpx); [lia|lia|].
  rewrite Z2Nat.id in Hrun by lia.
  exists result. split; [exact Hrun|exact Hpx].
Qed.

Lemma computeFinalRelighting_few_weights {F : Type} {fo : FloatOps F}
    (reflectanceField : list (Mat F)) (weightsRGB : list (RGB F))
    (numberOfLightingConditions : Z) :
  0 < numberOfLightingConditions <= Z.of_nat (length reflectanceField) ->
  Z.of_nat (length weightsRGB) < numberOfLightingConditions ->
  Relighting.computeFinalRelighting reflectanceField weightsRGB
    numberOfLightingConditions
  = OutOfBounds (Z.of_nat (length weightsRGB)).
Proof.
  intros [Hn Hfield] Hfew.
  destruct (lookup_lt_is_Some_2 reflectanceField 0) as [first Hfirst]; [lia|].
  unfold Relighting.computeFinalRelighting.
  change (vec_get 0 reflectanceField) with (vec_get (Z.of_nat 0) reflectanceField).
  rewrite (vec_get_Ok 0 _ _ Hfirst). unfold mbind, outcome_bind, obind.
  destruct (range_split numberOfLightingConditions (length weightsRGB) Hfew)
    as [rest ->].
  rewrite ofold_app.
  destruct (combination_prefix reflectanceField weightsRGB (length weightsRGB)
              (mat_rows first) (mat_cols first)) as (result & Hrun & _);
    [lia|lia|].
  match goal with
  | |- context [ofold ?f (range (Z.of_nat (length weightsRGB))) ?s] =>
      assert (E : ofold f (range (Z.of_nat (length weightsRGB))) s = Ok result)
        by exact Hrun;
      rewrite E
  end.
  cbn [ofold]. unfold mbind, outcome_bind, obind.
  destruct (lookup_lt_is_Some_2 reflectanceField (length weightsRGB))
    as [image Himage]; [lia|].
  rewrite (vec_get_Ok _ _ _ Himage), vec_get_fault by lia. reflexivity.
Qed.

(** X25. [computeFinalRelighting] indexes the weights without a check. With
    at least as many weights as lighting conditions it returns the image
    whose pixels are the sums of the pixels of the reflectance field, the
    blue channel multiplied by the third weight, green by the second, red
    by the first, added from zero in the order of the conditions; with
    fewer weights it indexes [m_weightsRGB] outside its size, at the first
    condition that has no weight. *)
Theorem X25_computeFinalRelighting_needs_all_weights
    {F : Type} {fo : FloatOps F}
    (reflectanceField : list (Mat F)) (weightsRGB : list (RGB F))
    (numberOfLightingConditions : Z) :
  0 < numberOfLightingConditions <= Z.of_nat (length reflectanceField) ->
  (numberOfLightingConditions <= Z.of_nat (length weightsRGB) ->
     exists relitResult,
       Relighting.computeFinalRelighting reflectanceField weightsRGB
         numberOfLightingConditions = Ok relitResult
       /\ forall i j,
            mat_at relitResult i j
            = Relighting.pixelSum reflectanceField weightsRGB
                (Z.to_nat numberOfLightingConditions) i j)
  /\ (Z.of_nat (length weightsRGB) < numberOfLightingConditions ->
      Relighting.computeFinalRelighting reflectanceField weightsRGB
        numberOfLightingConditions
      = OutOfBounds (Z.of_nat (length weightsRGB))).
Proof.
  intros Hn. split.
  - intros Hweights. now apply computeFinalRelighting_enough_weights.
  - intros Hfew. now apply computeFinalRelighting_few_weights.
Qed.

Lemma X25_computeFinalRelighting_needs_all_weights_witness :
  (1 <= Z.of_nat (length (@nil (RGB (option Z)))) ->
     exists relitResult,
       Relighting.computeFinalRelighting (fo := exactNaN) [columnMap] [] 1 = Ok relitResult
       /\ forall i j,
            mat_at relitResult i j
            = Relighting.pixelSum (fo := exactNaN) [columnMap] [] (Z.to_nat 1) i j)
  /\ (Z.of_nat (length (@nil (RGB (option Z)))) < 1 ->
      Relighting.computeFinalRelighting (fo := exactNaN) [columnMap] [] 1
      = OutOfBounds (Z.of_nat (length (@nil (RGB (option Z)))))).
Proof.
  apply (X25_computeFinalRelighting_needs_all_weights (fo := exactNaN) [columnMap] [] 1).
  simpl. lia.
Defined.

(** [computeFinalRelighting] on two images with their weights. *)
Example computeFinalRelighting_example :
  (r ← Relighting.computeFinalRelighting (fo := exactNaN) [columnMap; columnMap]
         [mkRGB (Some 2) (Some 3) (Some 5); mkRGB (Some 1) (Some 1) (Some 1)] 2;
   Ok (mat_at r 0 1))
  = Ok (mkVec3f (Some 6) (Some 4) (Some 30)).
Proof. vm_compute. reflexivity. Qed.

(** ** One rotation of the relighting of the office room *)

Section OneRotation.
Context {cv : OpenCV}.

Lemma normalizeWeightsRGB_length (l : list (RGB R)) :
  length (RealVectors.normalizeWeightsRGB l) = length l.
Proof.
  unfold RealVectors.normalizeWeightsRGB.
  destruct (Req_dec_T _ _); [reflexivity|apply length_map].
Qed.

Lemma normalizeWeightsRGB_nil : RealVectors.normalizeWeightsRGB [] = [].
Proof.
  unfold RealVectors.normalizeWeightsRGB.
  destruct (Req_dec_T _ _); reflexivity.
Qed.

Lemma computeWeightsMasks_returns {F} {fo : FloatOps F}
    (n indirectLightPicture width height : Z) (conditionMask : Z -> Mat Z)
    (residualMask : Mat Z) (environmentMap : Mat F) (jOffset : Z) :
  exists w,
    WeightsMasks.computeWeightsMasks n indirectLightPicture width height
      conditionMask residualMask environmentMap jOffset = Ok w
    /\ length w = Z.to_nat n.
Proof.
  unfold WeightsMasks.computeWeightsMasks.
  match goal with |- context [ofold ?f (range n) ?s] =>
    destruct (ofold_invariant f (fun _ w => length w = Z.to_nat n) (range n) s)
      as (w & Hrun & Hl) end.
  - apply length_replicate.
  - intros m w k Hk Hl. apply range_In in Hk.
    rewrite ofold_nested.
    match goal with |- context [ofold ?g ?l w] =>
      destruct (ofold_invariant g (fun _ w => length w = Z.to_nat n) l w)
        as (w' & Hrun & Hl') end.
    + exact Hl.
    + intros _ w0 [i j] _ Hl0. cbn [fst snd].
      unfold WeightsMasks.weightPixelMask.
      destruct (WeightsMasks.isBlack _); [|eauto].
      destruct (negb _); [|eauto].
      destruct (vec_update_Ok (Voronoi.accumulate
                  (val2 (mat_at environmentMap i (Voronoi.jModulus width j jOffset)))
                  (val1 (mat_at environmentMap i (Voronoi.jModulus width j jOffset)))
                  (val0 (mat_at environmentMap i (Voronoi.jModulus width j jOffset)))
                  (solidAngle i height)) k w0) as (a & _ & ->); [lia|].
      eexists. split; [reflexivity|]. now rewrite length_insert.
    + exists w'. split; [exact Hrun|exact Hl'].
  - exists w. split; [exact Hrun|exact Hl].
Qed.

End OneRotation.

(** X26. One rotation of [OfficeRoomRelighting::relighting] without
    optimisation. With the light type "Gaussian" the weights are cleared
    and not computed again, so [computeFinalRelighting] indexes the empty
    [m_weightsRGB] at the first lighting condition. With the light type
    "Point" the rotation returns normally: with the masks there is one
    weight per lighting condition; with the partition there is one per
    picture, provided every cell belongs to a picture and there are at
    least as many pictures as lighting conditions. *)
Theorem X26_rotation_with_Gaussian_lights_has_no_weights
    {cv : OpenCV} (identificationMethod : OfficeRoomIteration.IdentificationMethod)
    (numberOfLightingConditions indirectLightPicture : Z)
    (environmentMapWidth environmentMapHeight : Z)
    (conditionMask : Z -> Mat Z) (residualMask : Mat Z)
    (environmentMap : Mat R) (reflectanceField : list (Mat R))
    (offset : R) (st : OfficeRoomIteration.t) :
  0 < numberOfLightingConditions <= Z.of_nat (length reflectanceField) ->
  OfficeRoomIteration.relightingIteration OfficeRoomIteration.Gaussian
    identificationMethod numberOfLightingConditions indirectLightPicture
    environmentMapWidth environmentMapHeight conditionMask residualMask
    environmentMap reflectanceField offset st
  = OutOfBounds 0
  /\ (exists st' relitResult,
        OfficeRoomIteration.relightingIteration OfficeRoomIteration.Point
          OfficeRoomIteration.Masks numberOfLightingConditions indirectLightPicture
          environmentMapWidth environmentMapHeight conditionMask residualMask
          environmentMap reflectanceField offset st
        = Ok (st', relitResult)
        /\ length (OfficeRoomIteration.weightsRGB st')
           = Z.to_nat numberOfLightingConditions)
  /\ (cellsMapped (OfficeRoomIteration.voronoi st) ->
      numberOfLightingConditions
      <= Z.of_nat (length (Voronoi.m_cellNumberPerPicture
                             (OfficeRoomIteration.voronoi st))) ->
      exists st' relitResult,
        OfficeRoomIteration.relightingIteration OfficeRoomIteration.Point
          OfficeRoomIteration.OtherMethod numberOfLightingConditions
          indirectLightPicture environmentMapWidth environmentMapHeight
          conditionMask residualMask environmentMap reflectanceField offset st
        = Ok (st', relitResult)
        /\ length (OfficeRoomIteration.weightsRGB st')
           = length (Voronoi.m_cellNumberPerPicture (OfficeRoomIteration.voronoi st))).
Proof.
  intros Hn. unfold OfficeRoomIteration.relightingIteration.
  split; [|split].
  - cbn [OfficeRoomIteration.computeWeights]. unfold mbind at 1, outcome_bind, obind.
    cbn [OfficeRoomIteration.weightsRGB Voronoi.clearWeights Voronoi.set_weights
         Voronoi.m_rgbWeights].
    rewrite normalizeWeightsRGB_nil.
    assert (Hfew : Z.of_nat (length (@nil (RGB R))) < numberOfLightingConditions)
      by (cbn; lia).
    rewrite (computeFinalRelighting_few_weights (fo := idealReal) reflectanceField []
               numberOfLightingConditions Hn Hfew).
    reflexivity.
  - cbn [OfficeRoomIteration.computeWeights].
    destruct (computeWeightsMasks_returns (fo := idealReal) numberOfLightingConditions
                indirectLightPicture environmentMapWidth environmentMapHeight
                conditionMask residualMask environmentMap
                (RealAngles.jOffset_computeVoronoiWeights offset environmentMapWidth))
      as (w & -> & Hl).
    unfold mbind, outcome_bind, obind. cbv zeta.
    cbn [OfficeRoomIteration.weightsRGB OfficeRoomIteration.voronoi].
    destruct (computeFinalRelighting_enough_weights (fo := idealReal) reflectanceField
                (RealVectors.normalizeWeightsRGB w) numberOfLightingConditions)
      as (r & -> & _); [exact Hn|rewrite normalizeWeightsRGB_length; lia|].
    unfold mbind, outcome_bind, obind. eexists _, r. split; [reflexivity|].
    cbn [OfficeRoomIteration.weightsRGB]. now rewrite normalizeWeightsRGB_length.
  - intros Hmapped Hpictures. cbn [OfficeRoomIteration.computeWeights].
    set (v := OfficeRoomIteration.voronoi st) in *.
    destruct (computeVoronoiWeightsOR_mapped (fo := idealReal) (Voronoi.clearWeights v)
                environmentMap
                (RealAngles.jOffset_computeVoronoiWeights offset (Voronoi.m_envMapWidth v))
                Hmapped) as [v' Hv'].
    rewrite Hv'.
    destruct (computeVoronoiWeightsOR_weights (fo := idealReal) _ _ _ _ Hv') as [_ Hl].
    cbn [Voronoi.clearWeights Voronoi.set_weights Voronoi.m_rgbWeights
         Voronoi.m_cellNumberPerPicture length Nat.add] in Hl.
    unfold mbind, outcome_bind, obind. cbv zeta.
    cbn [OfficeRoomIteration.weightsRGB OfficeRoomIteration.voronoi].
    destruct (computeFinalRelighting_enough_weights (fo := idealReal) reflectanceField
                (RealVectors.normalizeWeightsRGB (Voronoi.m_rgbWeights v'))
                numberOfLightingConditions)
      as (r & -> & _); [exact Hn|rewrite normalizeWeightsRGB_length; lia|].
    unfold mbind, outcome_bind, obind. eexists _, r. split; [reflexivity|].
    cbn [OfficeRoomIteration.weightsRGB]. now rewrite normalizeWeightsRGB_length.
Qed.

Lemma X26_rotation_with_Gaussian_lights_has_no_weights_witness :
  let st := OfficeRoomIteration.mk unitVoronoi [] in
  OfficeRoomIteration.relightingIteration (cv := cvRef) OfficeRoomIteration.Gaussian
    OfficeRoomIteration.OtherMethod 1 4 1 2 columnMask (columnMask 0)
    (unitMap 2 1) [unitMap 2 1] 0%R st
  = OutOfBounds 0
  /\ (exists st' relitResult,
        OfficeRoomIteration.relightingIteration (cv := cvRef) OfficeRoomIteration.Point
          OfficeRoomIteration.Masks 1 4 1 2 columnMask (columnMask 0)
          (unitMap 2 1) [unitMap 2 1] 0%R st
        = Ok (st', relitResult)
        /\ length (OfficeRoomIteration.weightsRGB st') = Z.to_nat 1)
  /\ (cellsMapped (cv := cvRef) (OfficeRoomIteration.voronoi st) ->
      1 <= Z.of_nat (length (Voronoi.m_cellNumberPerPicture
                               (OfficeRoomIteration.voronoi st))) ->
      exists st' relitResult,
        OfficeRoomIteration.relightingIteration (cv := cvRef) OfficeRoomIteration.Point
          OfficeRoomIteration.OtherMethod 1 4 1 2 columnMask (columnMask 0)
          (unitMap 2 1) [unitMap 2 1] 0%R st
        = Ok (st', relitResult)
        /\ length (OfficeRoomIteration.weightsRGB st')
           = length (Voronoi.m_cellNumberPerPicture (OfficeRoomIteration.voronoi st))).
Proof.
  apply (X26_rotation_with_Gaussian_lights_has_no_weights (cv := cvRef)
           OfficeRoomIteration.OtherMethod 1 4 1 2 columnMask (columnMask 0)
           (unitMap 2 1) [unitMap 2 1] 0%R (OfficeRoomIteration.mk unitVoronoi [])).
  simpl. lia.
Defined.

(** ** [readFile] *)

Lemma last_cons_default {A} (l : list A) (a d : A) :
  List.last (a :: l) d = List.last l a.
Proof.
  revert a d. induction l as [|b l IH]; intros a d; [reflexivity|].
  change (List.last (a :: b :: l) d) with (List.last (b :: l) d).
  now rewrite !IH.
Qed.

Section ReadFileFacts.
Context {F : Type}.
Variable atof : list ascii -> F.

Lemma round_aligned (value1 value2 value3 : list ascii) (components : list (list F)) :
  ReadFile.round atof value1 value2 value3 (Z.of_nat (length components)) components
  = Ok (components ++ [[atof value1; atof value2; atof value3]]).
Proof.
  unfold ReadFile.round, ReadFile.pushValue, vec_update.
  destruct (Z.leb_spec 0 (Z.of_nat (length components))); [|lia].
  rewrite Nat2Z.id.
  assert (E1 : forall x : list F, (components ++ [x]) !! length components = Some x).
  { intros x. rewrite lookup_app_r by lia. now rewrite Nat.sub_diag. }
  assert (E2 : forall x y : list F,
            <[length components := y]> (components ++ [x]) = components ++ [y]).
  { intros x y. rewrite insert_app_r_alt by lia. now rewrite Nat.sub_diag. }
  rewrite E1. unfold mbind, outcome_bind, obind.
  rewrite E2, E1, E2, E1, E2. reflexivity.
Qed.

Lemma pushValue_first (x : F) (old : list F) (others : list (list F)) :
  ReadFile.pushValue x 0 (old :: others) = Ok ((old ++ [x]) :: others).
Proof. reflexivity. Qed.

Lemma round_first_entry (value1 value2 value3 : list ascii) (old : list F)
    (others : list (list F)) :
  ReadFile.round atof value1 value2 value3 0 (old :: others)
  = Ok ((old ++ [atof value1; atof value2; atof value3]) :: others ++ [[]]).
Proof.
  unfold ReadFile.round.
  change ((old :: others) ++ [[]]) with (old :: (others ++ [[]])).
  rewrite pushValue_first. unfold mbind, outcome_bind, obind.
  rewrite !pushValue_first. now rewrite <- !app_assoc.
Qed.

Lemma readLines_complete (lines : list (list ascii * (list ascii * list ascii * list ascii))) :
  forall (value1 value2 value3 : list ascii) (tail : list (list ascii))
         (components : list (list F)),
    ReadFile.readLines atof value1 value2 value3 (Z.of_nat (length components))
      (concat (map ReadFile.lineWords lines) ++ tail) components
    = ReadFile.readLines atof
        (List.last (map (fun l => fst (fst (snd l))) lines) value1)
        (List.last (map (fun l => snd (fst (snd l))) lines) value2)
        (List.last (map (fun l => snd (snd l)) lines) value3)
        (Z.of_nat (length components + length lines)) tail
        (components ++ map (ReadFile.lineValues atof) lines).
Proof.
  induction lines as [|[label [[v1 v2] v3]] lines IH];
    intros value1 value2 value3 tail components.
  - cbn [map concat app length List.last]. now rewrite Nat.add_0_r, app_nil_r.
  - cbn [map concat ReadFile.lineWords fst snd app].
    cbn [ReadFile.readLines]. rewrite round_aligned.
    unfold mbind, outcome_bind, obind.
    replace (Z.of_nat (length components) + 1)
      with (Z.of_nat (length (components ++ [[atof v1; atof v2; atof v3]])))
      by (rewrite length_app; cbn; lia).
    rewrite IH. rewrite length_app. cbn [length].
    rewrite <- app_assoc. cbn [app ReadFile.lineValues fst snd].
    replace (length components + 1 + length lines)%nat
      with (length components + S (length lines))%nat by lia.
    cbn [map fst snd]. now rewrite !last_cons_default.
Qed.

End ReadFileFacts.

(** X27. [readFile] on the words of a file. A file that cannot be opened
    leaves [components] as it is. Read into an empty vector, a file of
    complete lines (a label and three values) gives one vector of three
    floats per line. When the last line stops after its first value, its
    vector is completed with the second and third values of the line
    before (empty strings for a first line). The values are stored in
    [components[i]] with [i] counted from 0: read into a vector that
    already holds an entry, the first line is appended to that entry and
    the new entry stays empty. *)
Theorem X27_readFile_lines_and_stale_values
    {F : Type} (atof : list ascii -> F)
    (lines : list (list ascii * (list ascii * list ascii * list ascii)))
    (line : list ascii * (list ascii * list ascii * list ascii))
    (content : list ascii) (label value1 : list ascii)
    (old : list F) (others : list (list F)) :
  ReadFile.readFile atof None (old :: others) = Ok (old :: others)
  /\ (BasisFile.words content = concat (map ReadFile.lineWords lines) ->
      ReadFile.readFile atof (Some content) []
      = Ok (map (ReadFile.lineValues atof) lines))
  /\ (BasisFile.words content
      = concat (map ReadFile.lineWords lines) ++ [label; value1] ->
      ReadFile.readFile atof (Some content) []
      = Ok (map (ReadFile.lineValues atof) lines
            ++ [[atof value1;
                 atof (List.last (map (fun l => snd (fst (snd l))) lines) []);
                 atof (List.last (map (fun l => snd (snd l)) lines) [])]]))
  /\ (BasisFile.words content = ReadFile.lineWords line ->
      ReadFile.readFile atof (Some content) (old :: others)
      = Ok ((old ++ ReadFile.lineValues atof line) :: others ++ [[]])).
Proof.
  split; [reflexivity|]. split; [|split].
  - intros Hw. unfold ReadFile.readFile. rewrite Hw.
    rewrite <- (app_nil_r (concat _)).
    pose proof (readLines_complete atof lines [] [] [] [] []) as E.
    cbn [length] in E. change (Z.of_nat 0) with 0 in E. rewrite E. reflexivity.
  - intros Hw. unfold ReadFile.readFile. rewrite Hw.
    pose proof (readLines_complete atof lines [] [] [] [label; value1] []) as E.
    cbn [length] in E. change (Z.of_nat 0) with 0 in E. rewrite E.
    cbn [ReadFile.readLines app length Nat.add].
    replace (Z.of_nat (length lines))
      with (Z.of_nat (length (map (ReadFile.lineValues atof) lines)))
      by now rewrite length_map.
    apply round_aligned.
  - intros Hw. unfold ReadFile.readFile. rewrite Hw.
    destruct line as [l [[v1 v2] v3]].
    cbn [ReadFile.lineWords ReadFile.lineValues fst snd ReadFile.readLines].
    rewrite round_first_entry. reflexivity.
Qed.

(** A file whose second line stops after its first value, read with [atoi]
    in the place of [atof]. *)
Example readFile_example :
  ReadFile.readFile BasisFile.atoi
    (Some (list_ascii_of_string "0: 1 2 3" ++ [BasisFile.endl]
           ++ list_ascii_of_string "1: 4")) []
  = Ok [[1; 2; 3]; [4; 2; 3]].
Proof. vm_compute. reflexivity. Qed.

(** ** [computeVoronoiWeightsRGB] and the light intensities *)

Section LightIntensities.
Context {F : Type} {fo : FloatOps F} {cv : OpenCV}.
Variable v : Voronoi.t F.
Variable environmentMap : Mat F.
Variable lightIntensities : list (RGB F).
Variable jOffset : Z.
Hypothesis Hcons : consistent v.

Lemma weightPixelRGB_returns (i j : Z) (weights : list (RGB F)) :
  LightingBasis.numberOfPointLights (Voronoi.m_basis v)
  <= Z.of_nat (length lightIntensities) ->
  LightingBasis.numberOfPointLights (Voronoi.m_basis v) <= Z.of_nat (length weights) ->
  exists weights',
    Voronoi.weightPixelRGB v environmentMap lightIntensities jOffset i weights j
    = Ok weights'
    /\ length weights' = length weights.
Proof.
  intros Hli Hw. destruct Hcons as (Hn & _). unfold Voronoi.weightPixelRGB.
  destruct (findNearestLightSource_cases v j i) as [-> | Hcell]; [eauto|].
  destruct (Z.eqb_spec (Voronoi.findNearestLightSource v j i) (-1)); [eauto|].
  set (cell := Voronoi.findNearestLightSource v j i) in *.
  destruct (lookup_lt_is_Some_2 lightIntensities (Z.to_nat cell)) as [li Hli']; [lia|].
  unfold vec_get. destruct (Z.leb_spec 0 cell); [|lia]. rewrite Hli'.
  unfold mbind, outcome_bind, obind.
  destruct (negb _); [|eauto].
  match goal with |- context [vec_update ?f cell weights] =>
    destruct (vec_update_Ok f cell weights) as (a & _ & ->); [lia|] end.
  eexists. split; [reflexivity|apply length_insert].
Qed.

Lemma computeVoronoiWeightsRGB_returns :
  0 <= LightingBasis.numberOfPointLights (Voronoi.m_basis v)
    <= Z.of_nat (length lightIntensities) ->
  exists v',
    Voronoi.computeVoronoiWeightsRGB environmentMap lightIntensities jOffset v = Ok v'
    /\ length (Voronoi.m_rgbWeights v')
       = (length (Voronoi.m_rgbWeights v)
          + Z.to_nat (LightingBasis.numberOfPointLights (Voronoi.m_basis v)))%nat.
Proof.
  intros Hli. unfold Voronoi.computeVoronoiWeightsRGB, Voronoi.scanRowMajor.
  set (w0 := Voronoi.m_rgbWeights v ++ _).
  assert (Hw0 : length w0
                = (length (Voronoi.m_rgbWeights v)
                   + Z.to_nat (LightingBasis.numberOfPointLights (Voronoi.m_basis v)))%nat).
  { unfold w0, Voronoi.zeroWeights. now rewrite length_app, length_replicate. }
  rewrite ofold_nested.
  match goal with |- context [ofold ?f ?l w0] =>
    destruct (ofold_invariant f (fun _ w => length w = length w0) l w0 eq_refl)
      as (w & -> & Hl) end.
  - intros _ w [i j] _ Hl. cbn [fst snd].
    destruct (weightPixelRGB_returns i j w) as (w' & -> & Hl'); [lia|lia|].
    exists w'. split; [reflexivity|congruence].
  - unfold mbind, outcome_bind, obind. eexists. split; [reflexivity|].
    cbn [Voronoi.m_rgbWeights Voronoi.set_weights]. congruence.
Qed.

Lemma weightPixelRGB_fault (i j : Z) (weights : list (RGB F)) :
  Voronoi.findNearestLightSource v j i <> -1 ->
  Z.of_nat (length lightIntensities) <= Voronoi.findNearestLightSource v j i ->
  Voronoi.weightPixelRGB v environmentMap lightIntensities jOffset i weights j
  = OutOfBounds (Voronoi.findNearestLightSource v j i).
Proof.
  intros Hcell Hfew. unfold Voronoi.weightPixelRGB.
  destruct (Z.eqb_spec (Voronoi.findNearestLightSource v j i) (-1)); [contradiction|].
  rewrite vec_get_fault by exact Hfew. reflexivity.
Qed.

Lemma computeVoronoiWeightsRGB_first_pixel :
  0 < Voronoi.m_envMapWidth v -> 0 < Voronoi.m_envMapHeight v ->
  Voronoi.findNearestLightSource v 0 0 <> -1 ->
  Z.of_nat (length lightIntensities) <= Voronoi.findNearestLightSource v 0 0 ->
  Voronoi.computeVoronoiWeightsRGB environmentMap lightIntensities jOffset v
  = OutOfBounds (Voronoi.findNearestLightSource v 0 0).
Proof.
  intros HW HH Hcell Hfew.
  unfold Voronoi.computeVoronoiWeightsRGB, Voronoi.scanRowMajor.
  destruct (range_split (Voronoi.m_envMapWidth v) 0 HW) as [cols ->].
  destruct (range_split (Voronoi.m_envMapHeight v) 0 HH) as [rows ->].
  change (range (Z.of_nat 0)) with (@nil Z). cbn [app ofold Z.of_nat].
  rewrite (weightPixelRGB_fault 0 0 _ Hcell Hfew). reflexivity.
Qed.

End LightIntensities.



(** ** Two integrations without [clearWeights] *)

Section IntegrationFrom.
Context {F : Type} {fo : FloatOps F} {cv : OpenCV}.
Variable v : Voronoi.t F.
Variable environmentMap : Mat F.
Variable jOffset : Z.

Let pixels := pixelsRowMajor (Voronoi.m_envMapWidth v) (Voronoi.m_envMapHeight v).
Let n := length (Voronoi.m_cellNumberPerPicture v).

Lemma computeVoronoiWeightsOR_lookup (v' : Voronoi.t F) (k : nat) :
  Voronoi.computeVoronoiWeightsOR environmentMap jOffset v = Ok v' ->
  Voronoi.m_rgbWeights v' !! k
  = (fun a => fold_left (addTermTo (Z.of_nat k))
                (map (pixelTerm v environmentMap jOffset) pixels) a)
    <$> ((Voronoi.m_rgbWeights v ++ Voronoi.zeroWeights n) !! k).
Proof.
  intros Hrun. unfold Voronoi.computeVoronoiWeightsOR in Hrun.
  unfold Voronoi.scanRowMajor in Hrun. rewrite ofold_nested in Hrun.
  rewrite (ofold_ext_In _ (fun w p => applyTerm w (pixelTerm v environmentMap jOffset p)))
    in Hrun by (intros w [i j] _; apply weightPixelOR_term).
  rewrite <- (ofold_map applyTerm (pixelTerm v environmentMap jOffset)) in Hrun.
  fold (pixelsRowMajor (Voronoi.m_envMapWidth v) (Voronoi.m_envMapHeight v)) in Hrun.
  destruct (ofold applyTerm _ _) as [w'| |] eqn:Hw; try discriminate.
  unfold mbind, outcome_bind, obind in Hrun. injection Hrun as <-.
  cbn [Voronoi.m_rgbWeights Voronoi.set_weights].
  exact (applyTerms_lookup _ _ _ k Hw).
Qed.

Lemma terms_leave_other_entries (k : nat) (a : RGB F) :
  cellsMapped v -> (n <= k)%nat ->
  fold_left (addTermTo (Z.of_nat k)) (map (pixelTerm v environmentMap jOffset) pixels) a
  = a.
Proof.
  intros Hmapped Hk. rewrite fold_left_of_map.
  rewrite (fold_left_ext_In _ (fun a _ => a)).
  - clear. induction pixels as [|p ps IH]; [reflexivity|exact IH].
  - intros a' [i j] Hp. apply pixelsRowMajor_In in Hp as [Hi Hj].
    unfold pixelTerm, addTermTo. cbn [fst snd].
    destruct (Z.eqb_spec (Voronoi.findNearestLightSource v j i) (-1)) as [|Hcell];
      [reflexivity|].
    destruct (Voronoi.allNaN _ _ _); [reflexivity|].
    pose proof (findImageNumber_mapped v _ (Hmapped i j Hi Hj Hcell)) as Himg.
    fold n in Himg.
    destruct (Z.eqb_spec (Voronoi.findImageNumber v
                            (Voronoi.findNearestLightSource v j i)) (Z.of_nat k));
      [lia|reflexivity].
Qed.

End IntegrationFrom.

(** X29. [computeVoronoiWeightsOR] appends its accumulators to
    [m_rgbWeights] and adds into the first ones. After [clearWeights] the
    weight of picture k is the sum of the contributions of the pixels of
    its cells. A second integration without [clearWeights] in between
    returns normally with twice as many weights: the first ones are the
    weights of the first integration with the contributions of the second
    added on top, and the appended ones stay zero. *)
Theorem X29_second_integration_adds_to_the_first
    {F : Type} {fo : FloatOps F} {cv : OpenCV} (v : Voronoi.t F)
    (firstMap secondMap : Mat F) (firstOffset secondOffset : Z) :
  Voronoi.m_rgbWeights v = [] ->
  cellsMapped v ->
  let n := length (Voronoi.m_cellNumberPerPicture v) in
  let pixels := pixelsRowMajor (Voronoi.m_envMapWidth v) (Voronoi.m_envMapHeight v) in
  exists v1 v2 v2',
    Voronoi.computeVoronoiWeightsOR firstMap firstOffset v = Ok v1
    /\ Voronoi.computeVoronoiWeightsOR secondMap secondOffset v1 = Ok v2
    /\ Voronoi.computeVoronoiWeightsOR secondMap secondOffset (Voronoi.clearWeights v1)
       = Ok v2'
    /\ length (Voronoi.m_rgbWeights v1) = n
    /\ length (Voronoi.m_rgbWeights v2) = (n + n)%nat
    /\ length (Voronoi.m_rgbWeights v2') = n
    /\ (forall k, (k < n)%nat ->
          Voronoi.m_rgbWeights v1 !! k
          = Some (conditionWeight v firstMap firstOffset (Z.of_nat k))
          /\ Voronoi.m_rgbWeights v2' !! k
             = Some (conditionWeight v secondMap secondOffset (Z.of_nat k))
          /\ Voronoi.m_rgbWeights v2 !! k
             = Some (fold_left (addTermTo (Z.of_nat k))
                       (map (pixelTerm v secondMap secondOffset) pixels)
                       (conditionWeight v firstMap firstOffset (Z.of_nat k)))
          /\ Voronoi.m_rgbWeights v2 !! (n + k)%nat = Some (mkRGB fzero fzero fzero)).
Proof.
  intros Hclear Hmapped n pixels.
  destruct (computeVoronoiWeightsOR_mapped v firstMap firstOffset Hmapped) as [v1 Hv1].
  destruct (computeVoronoiWeightsOR_weights _ _ _ _ Hv1) as [Ev1 Hl1].
  rewrite Hclear in Hl1. cbn [length Nat.add] in Hl1. fold n in Hl1.
  assert (Hmapped1 : cellsMapped v1) by (rewrite Ev1; exact Hmapped).
  assert (Hmapped1' : cellsMapped (Voronoi.clearWeights v1)) by (rewrite Ev1; exact Hmapped).
  destruct (computeVoronoiWeightsOR_mapped v1 secondMap secondOffset Hmapped1) as [v2 Hv2].
  destruct (computeVoronoiWeightsOR_mapped (Voronoi.clearWeights v1) secondMap secondOffset
              Hmapped1') as [v2' Hv2'].
  destruct (computeVoronoiWeightsOR_weights _ _ _ _ Hv2) as [_ Hl2].
  destruct (computeVoronoiWeightsOR_weights _ _ _ _ Hv2') as [_ Hl2'].
  assert (Hgroups1 : Voronoi.m_cellNumberPerPicture v1 = Voronoi.m_cellNumberPerPicture v)
    by (rewrite Ev1; reflexivity).
  rewrite Hgroups1, Hl1 in Hl2. fold n in Hl2.
  cbn [Voronoi.clearWeights Voronoi.set_weights Voronoi.m_rgbWeights
       Voronoi.m_cellNumberPerPicture length Nat.add] in Hl2'.
  rewrite Hgroups1 in Hl2'. fold n in Hl2'.
  exists v1, v2, v2'.
  split; [exact Hv1|]. split; [exact Hv2|]. split; [exact Hv2'|].
  split; [exact Hl1|]. split; [exact Hl2|]. split; [exact Hl2'|].
  intros k Hk.
  assert (H1 : Voronoi.m_rgbWeights v1 !! k
               = Some (conditionWeight v firstMap firstOffset (Z.of_nat k)))
    by exact (computeVoronoiWeightsOR_conditionWeight v firstMap firstOffset v1 k
                Hclear Hv1 Hk).
  split; [exact H1|]. split; [|split].
  - rewrite (computeVoronoiWeightsOR_conditionWeight (Voronoi.clearWeights v1) secondMap
               secondOffset v2' k eq_refl Hv2')
      by (cbn [Voronoi.clearWeights Voronoi.set_weights Voronoi.m_cellNumberPerPicture];
          rewrite Hgroups1; exact Hk).
    rewrite Ev1. reflexivity.
  - rewrite (computeVoronoiWeightsOR_lookup v1 secondMap secondOffset v2 k Hv2).
    rewrite lookup_app_l by (rewrite Hl1; exact Hk). rewrite H1.
    cbn [fmap option_fmap option_map]. rewrite Ev1. reflexivity.
  - rewrite (computeVoronoiWeightsOR_lookup v1 secondMap secondOffset v2 (n + k) Hv2).
    rewrite lookup_app_r by (rewrite Hl1; lia).
    unfold Voronoi.zeroWeights. rewrite lookup_replicate_2 by (rewrite Hgroups1, Hl1; fold n; lia).
    cbn [fmap option_fmap option_map]. f_equal.
    apply terms_leave_other_entries; [exact Hmapped1|rewrite Hgroups1; fold n; lia].
Qed.

Lemma X29_second_integration_adds_to_the_first_witness :
  let v := columnVoronoi in
  let n := length (Voronoi.m_cellNumberPerPicture v) in
  let pixels := pixelsRowMajor (Voronoi.m_envMapWidth v) (Voronoi.m_envMapHeight v) in
  exists v1 v2 v2',
    Voronoi.computeVoronoiWeightsOR (fo := exactNaN) (cv := cvRef) columnMap 0 v = Ok v1
    /\ Voronoi.computeVoronoiWeightsOR (fo := exactNaN) (cv := cvRef) columnMap 2 v1 = Ok v2
    /\ Voronoi.computeVoronoiWeightsOR (fo := exactNaN) (cv := cvRef) columnMap 2
         (Voronoi.clearWeights v1) = Ok v2'
    /\ length (Voronoi.m_rgbWeights v1) = n
    /\ length (Voronoi.m_rgbWeights v2) = (n + n)%nat
    /\ length (Voronoi.m_rgbWeights v2') = n
    /\ (forall k, (k < n)%nat ->
          Voronoi.m_rgbWeights v1 !! k
          = Some (conditionWeight (fo := exactNaN) (cv := cvRef) v columnMap 0 (Z.of_nat k))
          /\ Voronoi.m_rgbWeights v2' !! k
             = Some (conditionWeight (fo := exactNaN) (cv := cvRef) v columnMap 2
                       (Z.of_nat k))
          /\ Voronoi.m_rgbWeights v2 !! k
             = Some (fold_left (addTermTo (fo := exactNaN) (Z.of_nat k))
                       (map (pixelTerm (fo := exactNaN) (cv := cvRef) v columnMap 2) pixels)
                       (conditionWeight (fo := exactNaN) (cv := cvRef) v columnMap 0
                          (Z.of_nat k)))
          /\ Voronoi.m_rgbWeights v2 !! (n + k)%nat
             = Some (mkRGB (fzero (FloatOps := exactNaN)) (fzero (FloatOps := exactNaN))
                           (fzero (FloatOps := exactNaN)))).
Proof.
  apply (X29_second_integration_adds_to_the_first (fo := exactNaN) (cv := cvRef)
           columnVoronoi columnMap columnMap 0 2).
  - reflexivity.
  - exact columnVoronoi_cellsMapped.
Defined.

(** The red weights of the example after one integration, and after a
    second one with and without [clearWeights]. *)
Example second_integration_example :
  (v1 ← Voronoi.computeVoronoiWeightsOR (fo := exactNaN) (cv := cvRef) columnMap 0
          columnVoronoi;
   v2 ← Voronoi.computeVoronoiWeightsOR (fo := exactNaN) (cv := cvRef) columnMap 2 v1;
   v2' ← Voronoi.computeVoronoiWeightsOR (fo := exactNaN) (cv := cvRef) columnMap 2
           (Voronoi.clearWeights v1);
   Ok (map red (Voronoi.m_rgbWeights v1), map red (Voronoi.m_rgbWeights v2),
       map red (Voronoi.m_rgbWeights v2')))
  = Ok ([Some 100; Some 10; Some 1],
        [Some 101; Some 110; Some 11; Some 0; Some 0; Some 0],
        [Some 1; Some 100; Some 10]).
Proof. vm_compute. reflexivity. Qed.

(** ** Two rotations of a map *)

Lemma rotateLatLongMap_twice {F} {fo : FloatOps F} (m : Mat F) (a b i j : Z) :
  0 <= a -> 0 <= b ->
  mat_at (rotateLatLongMap (rotateLatLongMap m a) b) i j
  = mat_at (rotateLatLongMap m ((a + b) mod mat_cols m)) i j.
Proof.
  intros Ha Hb. unfold rotateLatLongMap. cbn [mat_at mat_rows mat_cols].
  destruct ((0 <=? i) && (i <? mat_rows m) && (0 <=? j) && (j <? mat_cols m)) eqn:Hin;
    [|reflexivity].
  rewrite !andb_true_iff, !Z.leb_le, !Z.ltb_lt in Hin.
  destruct Hin as [[[Hi0 Hi1] Hj0] Hj1].
  assert (HW : 0 < mat_cols m) by lia.
  pose proof (Z.mod_pos_bound (j + b) (mat_cols m) HW) as Hjb.
  pose proof (Z.mod_pos_bound (a + b) (mat_cols m) HW) as Hab.
  rewrite (Z.rem_mod_nonneg (j + b)) by lia.
  destruct (Z.leb_spec 0 i); [|lia]. destruct (Z.ltb_spec i (mat_rows m)); [|lia].
  destruct (Z.leb_spec 0 ((j + b) mod mat_cols m)); [|lia].
  destruct (Z.ltb_spec ((j + b) mod mat_cols m) (mat_cols m)); [|lia].
  cbn [andb]. f_equal.
  rewrite !Z.rem_mod_nonneg by lia.
  rewrite Z.add_mod_idemp_l, Z.add_mod_idemp_r by lia. f_equal. lia.
Qed.

Lemma Int_part_sum (x y : R) :
  Int_part (x + y) = Int_part x + Int_part y
  \/ Int_part (x + y) = Int_part x + Int_part y + 1.
Proof.
  pose proof (Int_part_bounds x) as [Hx0 Hx1].
  pose proof (Int_part_bounds y) as [Hy0 Hy1].
  destruct (Rlt_dec (x + y) (IZR (Int_part x + Int_part y) + 1)) as [Hlt|Hge].
  - left. symmetry. apply Int_part_spec. rewrite plus_IZR in *. lra.
  - right. symmetry. apply Int_part_spec. rewrite !plus_IZR in *. lra.
Qed.



(** Two rotations by 3 pi / 4 of a map two columns wide shift by no column
    each, and the rotation by their sum shifts by one. *)
Example rotation_shift_of_sum_example :
  RealAngles.jOffset_rotateLatLongMap (3 * PI / 4) 2 = 0
  /\ RealAngles.jOffset_rotateLatLongMap (3 * PI / 4 + 3 * PI / 4) 2 = 1.
Proof.
  pose proof PI_RGT_0 as Hpi.
  rewrite !jOffset_rotateLatLongMap_mod by lia.
  unfold RealAngles.jOffset_computeVoronoiWeights.
  replace (3 * PI / 4 * 2 / (2 * PI))%R with (3 / 4)%R by (field; lra).
  replace ((3 * PI / 4 + 3 * PI / 4) * 2 / (2 * PI))%R with (3 / 2)%R by (field; lra).
  rewrite <- (Int_part_spec (3 / 4) 0) by lra.
  rewrite <- (Int_part_spec (3 / 2) 1) by lra.
  split; reflexivity.
Qed.
